(* ===== verification/_CoqProject ===== *)
-Q . S2P
Prelude.v
Types.v
Messages.v
World.v
Concrete.v
RouteTable.v
RouteSpec.v
Linkstate.v
Spf.v
SpfProofs.v
LsDb.v
LsDbProofs.v
LsDbTheorems.v
Convergence.v
Advertise.v
Fib.v
FibProofs.v
Handle.v
Receivers.v
Names.v
Services.v
Network.v
Delivery.v
Nearest.v
RoundTrip.v
ReversePath.v
ClientProofs.v
Quiescence.v
Broadcast.v
Router.v
RouterProofs.v
Registration.v
Peer.v
Flooding.v
Reach.v
NewPeer.v
Bridge.v
Join.v
Joining.v
Networks.v
Inside.v
Enter.v
Formed.v
Withdraw.v
Restart.v
Lifespan.v
AnycastReceiver.v
Ipc.v
IpcPeer.v
IpcPeerProofs.v
IpcManager.v
IpcManagerProofs.v
WsPeer.v
WsManager.v
WsManagerProofs.v
DummyPeer.v
Lifecycle.v
Config.v
ConfigProofs.v
Macro.v
MacroProofs.v
Chat.v
ChatProofs.v
Tui.v
Relay.v
Scenarios.v
PeerScenarios.v
RingScenario.v
StaleScenario.v
NetworkScenario.v
FloodScenario.v
JoinScenario.v
NearScenario.v
HostScenario.v
ExampleScenario.v
