(* ===== verification/Prelude.v ===== *)
(** Anybus, a serverless message bus: a verification library.

    Anybus connects processes into one bus. Every node has a link-state database of what all
    nodes advertise, computes cheapest paths from it, publishes a forwarding table that clients
    and connections send with, and exchanges advertisements and packets with its neighbours over
    websockets, local sockets or in-process pipes. This library models the crate [src/], its
    macros [anybus-macro/] and the programs of [examples/] as executable definitions and proves
    what its parts promise, alone and together.

    * The parts, and where they are

    The routing core, one task per node:
    - [Types.v]: [src/routing.rs], [src/traits.rs]: identifiers, realms, costs with their
      saturating arithmetic, addresses, payloads and packets; [Names.v]: the conversions and the
      printing of the same file, and the order of routes;
    - [Messages.v]: the data of [src/routing/linkstate.rs] that travels, [src/messages.rs],
      [src/errors/mod.rs];
    - [RouteTable.v] ([route_table.rs]): the table of listeners and remote endpoints, a
      map from endpoints to lists of routes as in the code, and the effect each update asks for; [RouteSpec.v] is what it is for: a directory of providers;
    - [Linkstate.v] ([linkstate.rs]): links, what a link lets through, the order of the queue;
    - [Spf.v], [SpfProofs.v]: [LsDb::compute_spf] of [db.rs], a Dijkstra search with a sorted
      queue and saturating [u16] costs, and its correctness;
    - [LsDb.v], [LsDbProofs.v], [LsDbTheorems.v], [Advertise.v]: the rest of [db.rs]: flooding,
      acknowledgements, acceptance of advertisements, refresh and purge, peers, shutdown;
    - [Fib.v], [FibProofs.v] ([forward_table.rs]): the forwarding table;
    - [Router.v], [RouterProofs.v] ([router.rs]): the states of the task. [next] is
      [State::next], [settle] the loop of [Router::start]; [reachable] is rule induction over it.

    What clients hold:
    - [Handle.v] ([src/handle.rs]): registering, the builder with the stages of a registration
      as types, sending, the helper of remote procedure calls;
    - [Receivers.v] ([src/receivers], [src/services.rs], loops of [src/anybus.rs]): the receiving
      ends and the loops that serve an endpoint; [Services.v] ([src/services.rs],
      [src/traits.rs], [src/anybus.rs]): how a service starts, what its ticket does, what
      removing it does not do; [AnycastReceiver.v] ([receiver.rs], [rpc_receiver.rs],
      [anycast_cost.rs]): anycast receivers, and what a change of cost comes to;
    - [ClientProofs.v], [Registration.v]: the theorems about them; the second follows a
      registration from the call through the router to the published table and the next packet.

    Connections to neighbours and the tasks that keep them:
    - [Peer.v] ([src/peers/common.rs]): the heartbeat and the side of a connection that faces
      the router;
    - [WsPeer.v] ([ws_peer.rs], and how [tg_websock.rs] and [websys_websock.rs] turn frames into
      events), [WsManager.v], [WsManagerProofs.v] ([ws_manager.rs]): websockets;
    - [Ipc.v], [IpcPeer.v], [IpcPeerProofs.v] ([ipc_peer.rs]), [IpcManager.v],
      [IpcManagerProofs.v] ([ipc_manager.rs]): nodes of one machine, which find each other
      through two directory sockets held by the nodes of the lowest ranks;
    - [DummyPeer.v] ([dummy.rs]): an in-process connection with a switch.

    The host of it all:
    - [Lifecycle.v] ([suspend.rs], [watcher.rs]): noticing suspension, debouncing what is said;
    - [Config.v], [ConfigProofs.v] ([src/anybus/config.rs], [builder.rs], [src/anybus.rs],
      [src/localrpc.rs], [listener.rs]): what is built, what a bus starts, the listener.

    Nodes together:
    - [Network.v]: every node has a published table; a configuration is the log of every node and
      the list of packets under way; a step sends or forwards one of them. [Delivery.v],
      [Nearest.v], [Broadcast.v] and [Quiescence.v] are its theorems, for packets to one
      listener, to the nearest, to all, and whatever they are; [RoundTrip.v] adds the client and the
      service at the two ends of a request. [ReversePath.v] is about paths that tie, and
      [RingScenario.v] a ring where they do. [Convergence.v] is about databases that heard the same.
    - [Flooding.v], [Reach.v], [Withdraw.v], [Restart.v] and [Lifespan.v]: the routers of many nodes with the
      messages between them. A node of that network is a whole router ([settle] of [Router.v]), every
      ordered pair of neighbours has its messages under way, and a step hands one of them, any
      one, to its router. [StaleScenario.v] holds two runs after which a node is left behind.
    - [NewPeer.v], [Bridge.v], [Join.v], [Joining.v], [Networks.v]: two such networks whose tips
      become neighbours, [add_peer] at both ends: what a node computes that knows part of the other
      side ([Bridge.v]), what the joined network is ([Join.v]), what holds while the advertisements
      flood ([Joining.v]) and that one network comes of it ([Networks.v]). [Inside.v] says what
      nodes elsewhere are to a network, [Enter.v] is a registration in one, and [Formed.v] the
      networks that come about so: routers start, listeners register, networks meet.

    Around the crate:
    - [Macro.v], [MacroProofs.v] ([anybus-macro/src/rpc.rs], [bus_uuid.rs], the macro of
      [src/localrpc.rs]): what the macros read, the code they write as data, and an evaluator of
      that code;
    - [Chat.v], [ChatProofs.v], [Tui.v] ([examples/chat_tui]): the chat application, and the task
      that owns its terminal; [Relay.v] ([examples/relay], [src/helper.rs]): the relay and the
      signals that end it.

    [World.v] and this file carry what all of them share. [Concrete.v] and the files ending in
    [Scenario] or [Scenarios] evaluate the definitions on concrete nodes, connections and hosts,
    and apply each theorem that has hypotheses there.

    * How state, effects and the environment are written

    Handlers that are synchronous in the code are functions from the state and a [World] to the
    new ones. A [World] logs every message handed to a channel, with the answer of the channel,
    and counts the readings of the clock. The class [Env] answers for tokio and for the hash
    maps: the time, whether a channel takes a message, the order a map is iterated in; each
    answer may depend on everything that happened before, so an [Env] is any behaviour of the
    tasks that run at the same time. [EnvLaws] is what is documented of them: iteration visits
    every entry once, the clock does not go back. A call that may panic has an [Outcome].
    [Codec] is the typed values clients send, [std::any] and bincode; [CodecLaws] says that
    bincode decodes what it encoded to the type it was. [UrlLib] is the [url] crate.
    Tasks that wait on sockets and timers ([WsPeer], [WsManager], [IpcPeer], [IpcManager],
    [DummyPeer], [Lifecycle], the listener) are step functions whose inputs are what the wait
    yielded, with the successes of their writes as an oracle where the code looks at them; their
    outputs are lists of actions in the order of the code.

    Integers keep their width: costs are [N] saturating at [u16::MAX] or [u8::MAX], sequence
    numbers, ping tokens and connection identifiers wrap where the code wraps.

    * What the theorems show

    - Nodes together. Forwarding stops: no run of the network is infinite, whatever is under way
      ([forwarding_terminates]). With unique symmetric cheapest paths a packet is delivered once
      and to no one else ([unique_paths_deliver]), an anycast packet to the nearest of its
      listeners ([anycast_reaches_nearest]), a broadcast to every one of them exactly once
      ([broadcast_reaches_everyone]), and a remote procedure call comes full circle
      ([rpc_round_trip]). When paths tie, the reverse-path check decides: a packet arrives if every
      node on its way would go back the same way, and otherwise nobody gets it
      ([reverse_paths_decide]; a ring that loses packets is [ring_loses_packets]). Databases that heard the same agree ([databases_converge]).
    - Networks coming about. Two networks at rest whose tips become neighbours become one: no
      router panics, every run ends, and at rest every node knows everything and routes every
      unicast endpoint to its node ([networks_join]). In a network that came about from routers
      starting, listeners registering and networks meeting, in any order, nothing has to be
      supposed of the tables or the paths any more: packets find the listener
      ([formed_networks_deliver]).
    - Routers together. Flooding never panics, ends whatever the order of the messages, and at
      rest everyone a path leads from holds what the originator holds ([flooding_reaches_everyone]).
      A registration is flooded, and at rest packets from every node within reach are delivered
      to the new listener and to no one else ([registration_reaches_everyone]). When a listener
      is gone its obituary floods, and at rest no node has a record or a route of it
      ([withdrawal_reaches_everyone]); from one to the other,
      [listener_comes_and_goes]. What fails: an endpoint given up and registered again starts
      below its own obituary, so it is lost to nodes that hear the obituary last
      ([restarted_sequence_loses], with a ring of four nodes where that happens,
      [reregistration_is_lost]), a link that breaks ([lost_link_not_heard_by_all]).
    - Paths. [compute_spf] finds the cheapest ([compute_spf_shortest]), its next hops start them
      ([next_hops_start_shortest_paths]) and hop by hop lead there ([forwarding_arrives]).
    - The database: what is accepted, flooded, withdrawn, told at shutdown, and that flooding
      respects realms ([lsas_stay_in_realms] and the theorems of [LsDbTheorems.v]).
    - The route table refines a directory ([route_table_refines_directory]) and every local
      listener stays advertised at its least cost ([listeners_stay_advertised]).
    - The forwarding table: who an address leads to, what forwarding accepts, what a failed
      send gives back ([FibProofs.v]).
    - The router task comes back to its mailbox from every reachable configuration, without a
      panic unless a message introduces an endpoint of kind [Multicast] ([router_comes_back]); its published table is live ([published_table_live]); a
      registration ends, and says truly whether it is in force ([registration_end_to_end]); so
      does a change of cost ([cost_change_end_to_end]).
    - Clients: the requests of the builder, the order of service, when a stream is not woken.
    - Connections: what is registered is unregistered, when silence ends a connection, who holds
      the directories, that the newest session wins, that every peer to be dialled is accounted for
      ([peers_accounted]), and the backoff.
    - The host: what is started, what is debounced.
    - The macros: for which traits the code they write is sound ([macro_handles_plain_traits]),
      and that a generated call runs the method of the trait ([generated_call_runs_method]).
    - The examples: what a typed line may send ([commands_stay_private]), that the chat ends its
      session once ([chat_shuts_down_once]), that the terminal is given back
      ([terminal_restored]), that the relay ends when told ([relay_ends_when_told]).

    * Bounds and fuel

    [compute_spf] is run with one turn more than there are nodes mentioned in the database as
    fuel; every turn settles another node, so the loop ends before ([SpfProofs.v]). [settle] is given
    three steps, and [router_comes_back] shows that they are enough. [act] of the chat follows an
    action with at most two more ([actions_end]); [stop_loop] of the terminal polls a hundred
    times as in the code, and [tui_stop_ends] gives the bound. Runs of the network are step
    relations without fuel; that they end is proved. The runs of the scenarios are given more
    fuel than they use: they end in the configuration named. Everything else recurs on its data.

    * Assumptions worth knowing

    A connection identifier is registered with the router once: the counter that hands them out
    is a [u16] and wraps after 65536 connections. Reachable configurations of the router have met
    no endpoint of kind [Multicast]: nothing in the client interface asks for it, and the first
    message that introduces one panics the router in a [todo!()] ([router_comes_back]). Theorems
    about several nodes suppose that they share the same advertisements, which
    [databases_converge] justifies once flooding has come to rest, and [formed_networks_deliver]
    proves from the beginning for networks without cycles: two networks meet once they are at rest,
    and over one link. The theorems about routers
    together suppose that the links are open and paired (each end names the other's connection),
    that the realms of what is flooded are carried by every link, that channels take messages,
    and that no link of the node that registers has connection identifier 0, which [add_endpoint]
    passes for the connection the news came from. The token syntax that [syn] parses, the text of
    a uuid and the text area of the chat are parameters ([Syn], [uuid_text], [Widgets]). Where
    the code deviates from
    what it means to do, the theorem says what it does: the last local listener of an endpoint that
    goes while a route through another node stays ([remove_endpoint_effect_iff]), peers due at the same instant
    ([peers_accounted]), RPC registrations that ignore realm and cost ([builder_asks_for]),
    services that spin once their channel is closed ([service_serves_in_order]), streams that
    are not woken ([stream_pends_iff]), messages of a connection that overtake each other
    ([overtaken_unregister_leaks_link]), late advertisements of a dead node ([late_lsa_stored]).

    * Not modelled

    - the sockets themselves ([tg_websock.rs] and [websys_websock.rs] beyond the conversion of
      frames, TLS, the interprocess crate): I/O, inputs of the steps;
    - [src/codec.rs], the derived (de)serializers and the bytes on the wire: bincode and serde
      behind [Codec];
    - [src/lib.rs], [src/peers.rs]: re-exports; the task-spawning shim of [src/helper.rs];
    - parsing and printing of Rust tokens (syn and quote);
    - how the chat lays out its frames with ratatui, and how the examples set up their logs;
    - [Debug] implementations, logging and counters that are only displayed, wakers. *)
From stdpp Require Export base numbers gmap sets option countable sorting list.

(** The lemmas that automate the common cases. *)
Create HintDb anybus discriminated.

(** * Rust vocabulary *)

(** Unsigned machine integers are values of [N]; the widths are written out. *)
Definition u8_max : N := 255.
Definition u16_max : N := 65535.
Definition u64_mod : N := 18446744073709551616.

Definition u8_saturating_add (a b : N) : N := N.min (a + b) u8_max.
Definition u16_saturating_add (a b : N) : N := N.min (a + b) u16_max.
Definition u16_wrapping_add (a b : N) : N := N.modulo (a + b) 65536.
Definition u64_wrapping_add (a b : N) : N := N.modulo (a + b) u64_mod.

(** [Vec::retain] and the [filter] adaptor with a boolean predicate. *)
Definition retain {A} (p : A -> bool) (l : list A) : list A :=
  filter (fun x => Is_true (p x)) l.

(** [Iterator::find] and [iter().position]. *)
Definition find_first {A} (p : A -> bool) (l : list A) : option A := List.find p l.

(** [Iterator::min_by_key]: the first of the least elements. *)
Fixpoint min_by_key_from {A} (key : A -> N) (best : A) (l : list A) : A :=
  match l with
  | [] => best
  | x :: r => min_by_key_from key (if N.ltb (key x) (key best) then x else best) r
  end.
Definition min_by_key {A} (key : A -> N) (l : list A) : option A :=
  match l with
  | [] => None
  | x :: r => Some (min_by_key_from key x r)
  end.

(** Folding a body that can panic; [None] is the panic. *)
Fixpoint foldm {A B} (f : B -> A -> option B) (b : B) (l : list A) : option B :=
  match l with
  | [] => Some b
  | x :: r => match f b x with Some b' => foldm f b' r | None => None end
  end.

(** [Vec::pop]: the last element. *)
Definition vec_pop {A} (l : list A) : option (A * list A) :=
  match rev l with [] => None | x :: r => Some (x, rev r) end.

(** [iter().position(p)] followed by [Vec::remove]. *)
Fixpoint remove_first {A} (p : A -> bool) (l : list A) : option (A * list A) :=
  match l with
  | [] => None
  | x :: r =>
      if p x then Some (x, r)
      else match remove_first p r with Some (y, r') => Some (y, x :: r') | None => None end
  end.

(** [slice::sort_by_key], which is stable. *)
Fixpoint insert_by_key {A} (key : A -> N) (x : A) (l : list A) : list A :=
  match l with
  | [] => [x]
  | y :: r => if N.leb (key x) (key y) then x :: y :: r else y :: insert_by_key key x r
  end.
Definition sort_by_key {A} (key : A -> N) (l : list A) : list A := foldr (insert_by_key key) [] l.

(** [binary_search_by_key(&key(x), key).err().map(|pos| insert(pos, x))] on a sorted
    vector: nothing happens when an element with the same key is there. *)
Definition insert_if_absent {A} (key : A -> N) (x : A) (l : list A) : list A :=
  if existsb (fun y => N.eqb (key y) (key x)) l then l
  else retain (fun y => N.ltb (key y) (key x)) l ++ x :: retain (fun y => negb (N.ltb (key y) (key x))) l.

(** * Generic lemmas *)
Section lists.
Context {A : Type}.
Implicit Types (l : list A) (p : A -> bool) (key : A -> N).

Lemma elem_of_retain p l x : x ∈ retain p l <-> p x = true /\ x ∈ l.
Proof.
  unfold retain. rewrite list_elem_of_filter, Is_true_true. done.
Qed.

Lemma retain_cons p x l :
  retain p (x :: l) = if p x then x :: retain p l else retain p l.
Proof.
  unfold retain. rewrite filter_cons. destruct (p x); by case_decide.
Qed.

#[export] Instance retain_Permutation p : Proper (Permutation ==> Permutation) (retain p).
Proof.
  induction 1 as [|x l l' _ IH|x y l|l1 l2 l3 _ IH1 _ IH2]; rewrite ?retain_cons; [done| | |by etrans].
  - by destruct (p x); rewrite IH.
  - destruct (p x), (p y); done || apply Permutation_swap.
Qed.

Lemma retain_app p l1 l2 : retain p (l1 ++ l2) = retain p l1 ++ retain p l2.
Proof. apply list.filter_app. Qed.

Lemma retain_idem p l : retain p (retain p l) = retain p l.
Proof.
  induction l as [|x l IH]; [done|]. rewrite retain_cons. destruct (p x) eqn:Hx; [|done].
  by rewrite retain_cons, Hx, IH.
Qed.

Lemma retain_sublist p l : sublist (retain p l) l.
Proof.
  induction l as [|x l IH]; [done|]. rewrite retain_cons.
  destruct (p x); by constructor.
Qed.

Lemma retain_length_le p l : length (retain p l) <= length l.
Proof. apply length_filter. Qed.

Lemma retain_length_eq p l : length l = length (retain p l) -> retain p l = l.
Proof.
  induction l as [|x l IH]; [done|]. rewrite retain_cons.
  pose proof (retain_length_le p l). destruct (p x); simpl; intros ?; [f_equal; apply IH|]; lia.
Qed.

Lemma retain_all p l : (forall x, x ∈ l -> p x = true) -> retain p l = l.
Proof.
  induction l as [|x l IH]; [done|]. intros H. rewrite retain_cons, (H x) by (by left).
  f_equal. apply IH. intros y Hy. apply H. by right.
Qed.

Lemma retain_length_lt p l : length (retain p l) < length l <-> exists x, x ∈ l /\ p x = false.
Proof.
  split.
  - intros Hlt. destruct (existsb (fun x => negb (p x)) l) eqn:E.
    + apply existsb_exists in E as (x & Hx & Hp%negb_true_iff). exists x. by rewrite list_elem_of_In.
    + rewrite retain_all in Hlt; [lia|]. intros x Hx. destruct (p x) eqn:Ep; [done|].
      apply not_true_iff_false in E. destruct E. apply existsb_exists. exists x.
      by rewrite <- list_elem_of_In, Ep.
  - intros (x & Hx & Hp). pose proof (retain_length_le p l).
    destruct (decide (length l = length (retain p l))) as [He|]; [|lia].
    rewrite <- (retain_length_eq p l He) in Hx. apply elem_of_retain in Hx as [? _]. congruence.
Qed.

Lemma find_first_Some p l x : find_first p l = Some x -> x ∈ l /\ p x = true.
Proof.
  intros [Hin Hp]%List.find_some. split; [by apply list_elem_of_In | done].
Qed.

Lemma find_first_None p l : find_first p l = None <-> forall x, x ∈ l -> p x = false.
Proof.
  split.
  - intros Hn x Hx. eapply List.find_none; [done | by apply list_elem_of_In].
  - intros Hall. destruct (find_first p l) as [x|] eqn:E; [|done].
    apply find_first_Some in E as [Hx Hp]. rewrite (Hall x Hx) in Hp. done.
Qed.

Lemma find_first_is_Some p l x : x ∈ l -> p x = true -> is_Some (find_first p l).
Proof.
  intros Hx Hp. destruct (find_first p l) eqn:E; [eauto|].
  rewrite find_first_None in E. rewrite (E x Hx) in Hp. done.
Qed.

Lemma min_by_key_from_spec key l b :
  (min_by_key_from key b l = b \/ min_by_key_from key b l ∈ l) /\
  (key (min_by_key_from key b l) <= key b)%N /\
  (forall x, x ∈ l -> (key (min_by_key_from key b l) <= key x)%N).
Proof.
  revert b. induction l as [|x l IH]; intros b; simpl.
  - split; [by left|]. split; [lia|]. intros x Hx. by apply elem_of_nil in Hx.
  - destruct (IH (if (key x <? key b)%N then x else b)) as (Hin & Hb & Hall).
    destruct (N.ltb_spec (key x) (key b)) as [Hlt|Hge].
    + split; [right; destruct Hin as [->|?]; [by left | by right]|]. split; [lia|].
      intros y [->|Hy]%elem_of_cons; [done | by apply Hall].
    + split; [destruct Hin as [->|?]; [by left | by right; right]|]. split; [done|].
      intros y [->|Hy]%elem_of_cons; [lia | by apply Hall].
Qed.

Lemma min_by_key_Some key l m :
  min_by_key key l = Some m -> m ∈ l /\ forall x, x ∈ l -> (key m <= key x)%N.
Proof.
  destruct l as [|x l]; simpl; [done|]. intros [= <-].
  destruct (min_by_key_from_spec key l x) as (Hin & Hx & Hall).
  split; [destruct Hin as [->|?]; [by left | by right]|].
  intros y [->|Hy]%elem_of_cons; [done | by apply Hall].
Qed.

Lemma min_by_key_None key l : min_by_key key l = None <-> l = [].
Proof. by destruct l. Qed.

Lemma vec_pop_Some l x r : vec_pop l = Some (x, r) -> l = r ++ [x].
Proof.
  unfold vec_pop. destruct (rev l) as [|y l'] eqn:E; [done|]. intros [= <- <-].
  by rewrite <- (rev_involutive l), E.
Qed.

Lemma vec_pop_None l : vec_pop l = None -> l = [].
Proof.
  unfold vec_pop. destruct (rev l) eqn:E; [|done]. intros _.
  by rewrite <- (rev_involutive l), E.
Qed.

Lemma remove_first_Some p l x r :
  remove_first p l = Some (x, r) ->
  exists l1 l2, l = l1 ++ x :: l2 /\ r = l1 ++ l2 /\ p x = true /\ forall y, y ∈ l1 -> p y = false.
Proof.
  revert r. induction l as [|y l IH]; intros r; simpl; [done|]. destruct (p y) eqn:E.
  - intros [= -> <-]. exists [], l. split_and!; try done. by intros ? ?%elem_of_nil.
  - destruct (remove_first p l) as [[z r']|]; [|done]. intros [= -> <-].
    destruct (IH _ eq_refl) as (l1 & l2 & -> & -> & Hp & Hn). exists (y :: l1), l2.
    split_and!; try done. by intros z [->|Hz]%elem_of_cons; [|apply Hn].
Qed.

Lemma remove_first_None p l : remove_first p l = None <-> forall x, x ∈ l -> p x = false.
Proof.
  split.
  - induction l as [|y l IH]; simpl; [by intros _ x ?%elem_of_nil|]. destruct (p y) eqn:E; [done|].
    destruct (remove_first p l) as [[]|]; [done|]. intros _ x [->|Hx]%elem_of_cons; [done | by apply IH].
  - intros Hall. destruct (remove_first p l) as [[x r]|] eqn:E; [|done].
    apply remove_first_Some in E as (l1 & l2 & -> & _ & Hp & _). rewrite Hall in Hp; [done|].
    apply elem_of_app. right. by left.
Qed.

Lemma existsb_elem p l : existsb p l = true <-> exists x, x ∈ l /\ p x = true.
Proof.
  rewrite existsb_exists. split; intros (x & Hx & Hp); exists x; (split; [|done]); by apply list_elem_of_In.
Qed.

Lemma NoDup_map_eq {B} (f : A -> B) l x y :
  NoDup (map f l) -> x ∈ l -> y ∈ l -> f x = f y -> x = y.
Proof.
  induction l as [|z l IH]; simpl; [by intros _ ?%elem_of_nil|]. intros [Hz Hnd]%NoDup_cons Hx Hy He.
  apply elem_of_cons in Hx as [-> | Hx]; apply elem_of_cons in Hy as [-> | Hy]; [done| | |by apply IH].
  - destruct Hz. rewrite He. by apply list_elem_of_fmap_2.
  - destruct Hz. rewrite <- He. by apply list_elem_of_fmap_2.
Qed.

Lemma retain_partition p l : retain p l ++ retain (fun x => negb (p x)) l ≡ₚ l.
Proof.
  induction l as [|x l IH]; [done|]. rewrite !retain_cons. destruct (p x); simpl.
  - by rewrite IH.
  - rewrite <- Permutation_middle. by rewrite IH.
Qed.
End lists.

(** Vectors sorted by a numeric key. *)
Section sorted_by_key.
Context {A : Type} (key : A -> N).

Definition sorted_by_key : list A -> Prop := StronglySorted (fun a b => (key a <= key b)%N).

Lemma sorted_by_key_sublist l l' : sublist l l' -> sorted_by_key l' -> sorted_by_key l.
Proof.
  unfold sorted_by_key. induction 1 as [|x l l' Hs IH|x l l' Hs IH]; [done| |].
  - intros [Hl Hall]%StronglySorted_inv. constructor; [by apply IH|]. rewrite Forall_forall in *.
    intros y Hy. apply Hall. by eapply elem_of_sublist.
  - intros [Hl _]%StronglySorted_inv. by apply IH.
Qed.

Lemma insert_by_key_perm x l : insert_by_key key x l ≡ₚ x :: l.
Proof.
  induction l as [|y l IH]; simpl; [done|]. destruct (N.leb _ _); [done|]. rewrite IH. apply Permutation_swap.
Qed.

Lemma insert_by_key_sorted x l : sorted_by_key l -> sorted_by_key (insert_by_key key x l).
Proof.
  unfold sorted_by_key. induction l as [|y l IH]; intros Hs; simpl; [by repeat constructor|].
  pose proof Hs as Hs'. apply StronglySorted_inv in Hs' as [Hl Hall].
  destruct (N.leb_spec (key x) (key y)) as [Hle|Hlt].
  - constructor; [done|]. constructor; [done|]. eapply Forall_impl; [exact Hall|]. simpl. lia.
  - constructor; [by apply IH|]. rewrite insert_by_key_perm. constructor; [lia | done].
Qed.

Lemma sort_by_key_perm l : sort_by_key key l ≡ₚ l.
Proof. induction l as [|x l IH]; simpl; [done|]. by rewrite insert_by_key_perm, IH. Qed.

Lemma sort_by_key_sorted l : sorted_by_key (sort_by_key key l).
Proof. induction l as [|x l IH]; simpl; [constructor|]. by apply insert_by_key_sorted. Qed.

Lemma insert_if_absent_cases x l :
  (exists y, y ∈ l /\ key y = key x) /\ insert_if_absent key x l = l \/
  (forall y, y ∈ l -> key y <> key x) /\ insert_if_absent key x l ≡ₚ x :: l.
Proof.
  unfold insert_if_absent. destruct (existsb _ l) eqn:E.
  - left. split; [|done]. apply existsb_elem in E as (y & Hy & He%N.eqb_eq). by exists y.
  - right. split.
    + intros y Hy He. apply not_true_iff_false in E. apply E, existsb_elem. exists y. by rewrite He, N.eqb_refl.
    + by rewrite <- Permutation_middle, retain_partition.
Qed.

Lemma insert_if_absent_sorted x l : sorted_by_key l -> sorted_by_key (insert_if_absent key x l).
Proof.
  intros Hs. unfold insert_if_absent. destruct (existsb _ l); [done|].
  pose proof (sorted_by_key_sublist _ _ (retain_sublist (fun y => N.ltb (key y) (key x)) l) Hs) as H1.
  pose proof (sorted_by_key_sublist _ _ (retain_sublist (fun y => negb (N.ltb (key y) (key x))) l) Hs) as H2.
  unfold sorted_by_key in *. apply StronglySorted_app. split_and!.
  - intros a b [Ha%N.ltb_lt _]%elem_of_retain [->|Hb]%elem_of_cons; [lia|].
    apply elem_of_retain in Hb as [Hb%negb_true_iff%N.ltb_ge _]. lia.
  - done.
  - constructor; [done|]. apply Forall_forall. intros b [Hb%negb_true_iff%N.ltb_ge _]%elem_of_retain. done.
Qed.
End sorted_by_key.

(** Sums of counters that do not grow. *)
Lemma sum_with_le {A} (f f' : A -> nat) l :
  (forall x, f' x <= f x) -> sum_list_with f' l <= sum_list_with f l.
Proof. intros Hle. induction l as [|x l IH]; simpl; [done|]. specialize (Hle x). lia. Qed.

Lemma sum_with_lt {A} (f f' : A -> nat) l x :
  (forall x, f' x <= f x) -> x ∈ l -> f' x < f x -> sum_list_with f' l < sum_list_with f l.
Proof.
  intros Hle Hin Hlt. induction Hin as [x l|x y l Hin IH]; simpl.
  - pose proof (sum_with_le f f' l Hle). lia.
  - specialize (IH Hlt). specialize (Hle y). lia.
Qed.

(** Runs of a relation that keeps an invariant, and that three counters, the first before the
    second before the third, bring to an end. *)
Section runs.
Context {A : Type} (step : A -> A -> Prop) (inv : A -> Prop).

Lemma runs_keep x y : (forall x y, inv x -> step x y -> inv y) -> inv x -> rtc step x y -> inv y.
Proof. intros Hstep I Hr. induction Hr as [|x y z Hs _ IH]; [done|]. apply IH. by eapply Hstep. Qed.

(** What ends and can go on while it is not at rest comes to rest. *)
Lemma runs_to_rest (rest : A -> Prop) `{!forall x, Decision (rest x)} x :
  Acc (fun y x => step x y) x -> (forall y, rtc step x y -> ~ rest y -> exists z, step y z) ->
  exists y, rtc step x y /\ rest y.
Proof.
  induction 1 as [x _ IH]. intros Hgo. destruct (decide (rest x)) as [Hr|Hr]; [by exists x; split; [apply rtc_refl|]|].
  destruct (Hgo x (rtc_refl _ _) Hr) as [y Hs]. destruct (IH y Hs) as (z & Hrun & Hz).
  - intros z Hz. apply Hgo. by eapply rtc_l.
  - exists z. split; [by eapply rtc_l | done].
Qed.

Context (f g h : A -> nat).
Hypothesis keeps : forall x y, inv x -> step x y -> inv y.
Hypothesis counts : forall x y, inv x -> step x y ->
  f y < f x \/ f y = f x /\ (g y < g x \/ g y = g x /\ h y < h x).

Lemma runs_end_by_counts x : inv x -> Acc (fun y x => step x y) x.
Proof.
  remember (f x) as a eqn:Ha. remember (g x) as b eqn:Hb. remember (h x) as c eqn:Hc. revert b c x Ha Hb Hc.
  induction a as [a IHa] using lt_wf_ind. induction b as [b IHb] using lt_wf_ind.
  induction c as [c IHc] using lt_wf_ind. intros x -> -> -> I. constructor. intros y Hstep.
  pose proof (keeps _ _ I Hstep) as I'. destruct (counts _ _ I Hstep) as [Hlt|[Heq [Hlt|[Heq' Hlt]]]].
  - by apply (IHa (f y) Hlt _ _ y eq_refl eq_refl eq_refl).
  - by apply (IHb (g y) Hlt _ y (eq_sym Heq) eq_refl eq_refl).
  - by apply (IHc (h y) Hlt y (eq_sym Heq) (eq_sym Heq') eq_refl).
Qed.
End runs.

(** Invariants of folds. *)
Lemma foldl_invariant {A B} (P : B -> Prop) (f : B -> A -> B) (l : list A) b :
  (forall b x, x ∈ l -> P b -> P (f b x)) -> P b -> P (foldl f b l).
Proof.
  revert b. induction l as [|x l IH]; intros b Hstep Hb; simpl; [done|].
  apply IH; [intros; apply Hstep; [by right | done] | apply Hstep; [by left | done]].
Qed.

Lemma foldm_invariant {A B} (P : B -> Prop) (f : B -> A -> option B) (l : list A) b b' :
  (forall b x b', x ∈ l -> P b -> f b x = Some b' -> P b') ->
  P b -> foldm f b l = Some b' -> P b'.
Proof.
  revert b. induction l as [|x l IH]; intros b Hstep Hb; simpl; [by intros [= <-]|].
  destruct (f b x) as [b1|] eqn:E; [|done].
  apply IH; [intros ????; eapply Hstep; by right | eapply Hstep; [by left | done | done]].
Qed.

Lemma foldm_all {A B} (f : B -> A -> option B) (l : list A) b b' x :
  foldm f b l = Some b' -> x ∈ l -> exists c, is_Some (f c x).
Proof.
  revert b. induction l as [|y l IH]; intros b Hf Hin; [by apply elem_of_nil in Hin|]. simpl in Hf.
  destruct (f b y) as [c|] eqn:Hy; [|done]. apply elem_of_cons in Hin as [->|Hin]; [exists b; by rewrite Hy | by eapply IH].
Qed.

Lemma foldm_total {A B} (P : B -> Prop) (f : B -> A -> option B) (l : list A) b :
  (forall b x, x ∈ l -> P b -> exists b', f b x = Some b' /\ P b') ->
  P b -> exists b', foldm f b l = Some b' /\ P b'.
Proof.
  revert b. induction l as [|x l IH]; intros b Hstep Hb; simpl; [eauto|].
  destruct (Hstep b x) as (b1 & -> & Hb1); [by left | done |].
  apply IH; [intros; apply Hstep; [by right | done] | done].
Qed.

(** [collect::<HashMap<_, _>>()]: on a repeated key the last pair wins. *)
Definition collect_map {V} `{Countable K} (l : list (K * V)) : gmap K V :=
  foldl (fun m kv => <[kv.1 := kv.2]> m) ∅ l.

Lemma collect_map_lookup {V} `{Countable K} (l : list (K * V)) k v :
  collect_map l !! k = Some v -> (k, v) ∈ l.
Proof.
  unfold collect_map. induction l as [|[k' v'] l IH] using rev_ind; simpl.
  { by rewrite lookup_empty. }
  rewrite foldl_app. simpl. intros Hl. apply elem_of_app.
  destruct (decide (k' = k)) as [->|Hne].
  - rewrite lookup_insert_eq in Hl. right. set_solver.
  - rewrite lookup_insert_ne in Hl by done. left. by apply IH.
Qed.

Lemma collect_map_is_Some {V} `{Countable K} (l : list (K * V)) k v :
  (k, v) ∈ l -> is_Some (collect_map l !! k).
Proof.
  unfold collect_map. induction l as [|[k' v'] l IH] using rev_ind; simpl.
  { by intros ?%elem_of_nil. }
  rewrite foldl_app. simpl. intros Hin.
  destruct (decide (k' = k)) as [->|Hne]; [by rewrite lookup_insert_eq|].
  rewrite lookup_insert_ne by done. apply IH.
  apply elem_of_app in Hin as [Hin|Hin%list_elem_of_singleton]; [done | congruence].
Qed.

(** Saturating [u16] addition. *)
Lemma u16_saturating_add_le a b : (u16_saturating_add a b <= u16_max)%N.
Proof. unfold u16_saturating_add. lia. Qed.

Lemma u16_saturating_add_exact a b :
  (u16_saturating_add a b < u16_max)%N -> u16_saturating_add a b = (a + b)%N.
Proof. unfold u16_saturating_add. lia. Qed.
