(* ===== verification/Types.v ===== *)
(** The vocabulary of [src/routing.rs] and [src/traits.rs]: identifiers, realms,
    costs, addresses, payloads and packets, with the operations the rest of the
    bus builds on. Payload encoding is done by bincode and dynamic typing by
    [std::any]; what the code uses of them is the class [Codec]. *)
From Stdlib Require Import Init.Byte.
From S2P Require Import Prelude.

(** * Identifiers *)

(** A [Uuid] is a 128-bit value ordered as its big-endian bytes, i.e. as a number. *)
Definition Uuid := N.

Record NodeId := mkNodeId { node_uuid : Uuid }.
Record EndpointId := mkEndpointId { endpoint_uuid : Uuid }.

#[export] Instance NodeId_eq_dec : EqDecision NodeId.
Proof. solve_decision. Defined.
#[export] Instance NodeId_countable : Countable NodeId.
Proof. apply (inj_countable' node_uuid mkNodeId). by intros []. Defined.
#[export] Instance EndpointId_eq_dec : EqDecision EndpointId.
Proof. solve_decision. Defined.
#[export] Instance EndpointId_countable : Countable EndpointId.
Proof. apply (inj_countable' endpoint_uuid mkEndpointId). by intros []. Defined.

(** The derived [Ord] of [NodeId]. *)
Definition node_lt (a b : NodeId) : bool := N.ltb (node_uuid a) (node_uuid b).

Definition endpoint_of_node (n : NodeId) : EndpointId := mkEndpointId (node_uuid n).

(** * Realms *)
Inductive Realm := Process | Userspace | LocalNet | Global.
#[export] Instance Realm_eq_dec : EqDecision Realm.
Proof. solve_decision. Defined.
#[export] Instance Realm_countable : Countable Realm.
Proof.
  refine (inj_countable'
    (fun r => match r with Process => 0 | Userspace => 1 | LocalNet => 2 | Global => 3 end)
    (fun n => match n with 0 => Process | 1 => Userspace | 2 => LocalNet | _ => Global end) _).
  by intros [].
Defined.

Definition realm_default : Realm := Global.

(** [RealmList(HashSet<Realm>)]. *)
Definition RealmList := gset Realm.
Definition realms_default : RealmList := ∅.
Definition realms_of (r : Realm) : RealmList := {[ r ]}.
Definition realms_add (rl : RealmList) (r : Realm) : RealmList := rl ∪ {[ r ]}.
Definition realms_contains (rl : RealmList) (r : Realm) : bool := bool_decide (r ∈ rl).
Definition realms_intersection (a b : RealmList) : RealmList := a ∩ b.
Definition realms_is_empty (rl : RealmList) : bool := bool_decide (rl = ∅).

(** * Costs and connection identifiers, both [u16] *)
Definition Cost := N.
Definition cost_max : Cost := u16_max.
Definition cost_add (a b : Cost) : Cost := u16_saturating_add a b.

Definition ConnectionId := N.

(** [lia] on costs and connection identifiers. *)
Ltac nlia := unfold Cost, ConnectionId in *; lia.

(** [ConnectionIdCounter]: the shared [AtomicU16]; [fetch_add] returns the old
    value and wraps. *)
Definition counter_new : N := 1.
Definition counter_next (current : N) : ConnectionId * N :=
  (current, u16_wrapping_add current 1).

(** The identifier handed out by the [k]-th call after the counter holds [current]. *)
Definition nth_connection_id (current k : N) : ConnectionId :=
  (counter_next (N.iter k (fun c => (counter_next c).2) current)).1.

Lemma nth_connection_id_eq (current k : N) :
  (current < 65536)%N -> nth_connection_id current k = N.modulo (current + k) 65536.
Proof.
  intros Hc. induction k as [|k IH] using N.peano_ind; [by cbn; rewrite N.add_0_r, N.mod_small|].
  unfold nth_connection_id in *. rewrite N.iter_succ. cbn [counter_next fst snd] in *.
  rewrite IH. unfold u16_wrapping_add. rewrite N.Div0.add_mod_idemp_l. f_equal. lia.
Qed.

(** Identifiers of connections are pairwise different over any 65536 consecutive calls of the
    shared counter, and from then on every identifier is handed out again, the one reserved for
    the node itself (zero) included. *)
Theorem connection_ids_distinct (current i j : N) :
  (current < 65536)%N -> (i < j)%N ->
  ((j - i < 65536)%N -> nth_connection_id current i <> nth_connection_id current j) /\
  nth_connection_id current (i + 65536) = nth_connection_id current i /\
  nth_connection_id counter_new 65535 = 0%N.
Proof.
  intros Hc Hij. rewrite !nth_connection_id_eq by done. split_and!.
  - intros Hlt Heq. pose proof (N.div_mod (current + i) 65536 ltac:(lia)) as Hi.
    pose proof (N.div_mod (current + j) 65536 ltac:(lia)) as Hj. rewrite Heq in Hi.
    set (a := N.div (current + i) 65536) in *. set (b := N.div (current + j) 65536) in *.
    set (r := N.modulo _ _) in *. clearbody a b r. lia.
  - replace (current + (i + 65536))%N with (current + i + 1 * 65536)%N by lia.
    apply N.Div0.mod_add.
  - reflexivity.
Qed.

(** * Route kinds *)
Inductive RouteKind := Unicast | Anycast | Broadcast | Multicast | Node.
#[export] Instance RouteKind_eq_dec : EqDecision RouteKind.
Proof. solve_decision. Defined.

(** * Addresses *)
Inductive Address :=
  | AddrEndpoint (e : EndpointId)
  | AddrRemote (e : EndpointId) (n : NodeId).
#[export] Instance Address_eq_dec : EqDecision Address.
Proof. solve_decision. Defined.

Definition get_endpoint (a : Address) (local_node_id : NodeId) : EndpointId :=
  match a with
  | AddrEndpoint endpoint_id => endpoint_id
  | AddrRemote endpoint_id node_id =>
      if decide (local_node_id = node_id) then endpoint_id else endpoint_of_node node_id
  end.

(** * Payloads *)

(** What the code relies on outside [src/]: the values behind [Box<dyn BusRider>],
    their dynamic types, bincode and the downcasts of [std::any]. [encode] and
    [decode] return [None] where bincode returns an error. *)
Class Codec := {
  Rider : Type;
  RustTy : Type;
  RustTy_eq_dec :: EqDecision RustTy;
  type_of : Rider -> RustTy;
  encode : Rider -> option (list byte);
  decode : RustTy -> list byte -> option Rider;
  (** [downcast::<Box<dyn BusRider>>] *)
  downcast_box_rider : Rider -> option Rider;
}.

(** Documented behaviour used by some theorems: bincode decodes what it encoded,
    and no rider is itself a [Box<dyn BusRider>] (such a box is not [Serialize]). *)
Class CodecLaws `{Codec} := {
  decode_encode : forall r bs, encode r = Some bs -> decode (type_of r) bs = Some r;
  decode_type : forall T bs r, decode T bs = Some r -> type_of r = T;
  downcast_box_rider_None : forall r, downcast_box_rider r = None;
}.

Inductive Payload `{Codec} :=
  | PBusRider (r : Rider)
  | PBytes (b : list byte).

(** A call that may panic. *)
Inductive Outcome (A : Type) := Returns (a : A) | Panics.
Arguments Returns {A} a.
Arguments Panics {A}.

Definition outcome_bind {A B} (m : Outcome A) (k : A -> Outcome B) : Outcome B :=
  match m with Returns a => k a | Panics => Panics end.

Section payloads.
Context `{Cd : Codec}.

(** [impl BusRider for T]: [encode(self).expect(..)]. *)
Definition encode_payload (r : Rider) : Outcome (list byte) :=
  match encode r with Some b => Returns b | None => Panics end.

(** [impl From<Payload> for Vec<u8>]. *)
Definition payload_bytes (p : Payload) : Outcome (list byte) :=
  match p with
  | PBusRider r => encode_payload r
  | PBytes b => Returns b
  end.

(** [impl From<Box<dyn Any>> for Payload]. *)
Definition payload_of_any (r : Rider) : Outcome Payload :=
  match downcast_box_rider r with
  | Some b => Returns (PBusRider b)
  | None => Panics
  end.

(** [Payload::reveal::<T>]. *)
Definition reveal (T : RustTy) (p : Payload) : Outcome (Rider + Payload) :=
  match p with
  | PBusRider r =>
      if decide (type_of r = T) then Returns (inl r)
      else outcome_bind (payload_of_any r) (fun e => Returns (inr e))
  | PBytes b =>
      match decode T b with
      | Some r => Returns (inl r)
      | None => Returns (inr (PBytes b))
      end
  end.

(** * Packets *)
Record Packet := mkPacket {
  p_to : Address;
  p_reply_to : option Address;
  p_from : NodeId;
  p_payload : Payload;
}.

Record WirePacket := mkWirePacket {
  wp_to : Address;
  wp_reply_to : option Address;
  wp_from : NodeId;
  wp_payload : list byte;
}.

(** [impl From<WirePacket> for Packet] *)
Definition packet_of_wire (w : WirePacket) : Packet :=
  mkPacket (wp_to w) (wp_reply_to w) (wp_from w) (PBytes (wp_payload w)).

(** [impl From<Packet> for WirePacket] *)
Definition wire_of_packet (p : Packet) : Outcome WirePacket :=
  outcome_bind (payload_bytes (p_payload p)) (fun b =>
    Returns (mkWirePacket (p_to p) (p_reply_to p) (p_from p) b)).
End payloads.
