(* ===== verification/Messages.v ===== *)
(** The data that travels: link-state advertisements ([src/routing/linkstate.rs]),
    the messages between the bus's tasks ([src/messages.rs]) and the send errors
    ([src/errors/mod.rs]). *)
From Stdlib Require Import Init.Byte Strings.String.
From S2P Require Import Prelude Types.

(** * Link-state advertisements *)

Record EndpointInfo := mkEndpointInfo {
  ei_kind : RouteKind;
  ei_realm : Realm;
  ei_cost : Cost;
}.
#[export] Instance EndpointInfo_eq_dec : EqDecision EndpointInfo.
Proof. solve_decision. Defined.

Record LsaKey := mkLsaKey { key_origin : NodeId; key_endpoint_id : Uuid }.
#[export] Instance LsaKey_eq_dec : EqDecision LsaKey.
Proof. solve_decision. Defined.
#[export] Instance LsaKey_countable : Countable LsaKey.
Proof.
  apply (inj_countable' (fun k => (key_origin k, key_endpoint_id k))
                        (fun p => mkLsaKey p.1 p.2)).
  by intros [].
Defined.

Record Adjacency := mkAdjacency {
  adj_connection_id : ConnectionId;
  adj_peer_id : NodeId;
  adj_cost : Cost;
  adj_realms : RealmList;
}.

#[export] Instance Adjacency_eq_dec : EqDecision Adjacency.
Proof. solve_decision. Defined.

Inductive LsaBody :=
  | Router (adjacencies : list Adjacency)
  | Endpoint (info : EndpointInfo).

#[export] Instance LsaBody_eq_dec : EqDecision LsaBody.
Proof. solve_decision. Defined.

Definition is_router (b : LsaBody) : bool :=
  match b with Router _ => true | Endpoint _ => false end.

Record Lsa := mkLsa {
  lsa_key : LsaKey;
  lsa_seq : N;
  lsa_dead : bool;
  lsa_body : LsaBody;
}.
#[export] Instance Lsa_eq_dec : EqDecision Lsa.
Proof. solve_decision. Defined.

(** Time is a number of nanoseconds on the monotonic clock. *)
Definition Instant := N.
Definition Duration := N.
(** [lia] on instants and durations. *)
Ltac tlia := unfold Instant, Duration in *; lia.
Definition from_secs (s : N) : Duration := (s * 1000000000)%N.
Definition from_millis (ms : N) : Duration := (ms * 1000000)%N.
Definition saturating_duration_since (a b : Instant) : Duration := N.sub a b.

Record LsaRecord := mkLsaRecord { rec_lsa : Lsa; rec_updated_at : Instant }.

(** [lsa.seq += 1] on the [u64] sequence number. *)
Definition seq_next (s : N) : N := u64_wrapping_add s 1.

(** * Channels *)

(** A channel is known by its identity, which is what [same_channel] compares. *)
Definition ChanId := N.

(** What [Sender::try_send] answers. *)
Inductive TrySend := SendOk | SendFull | SendClosed.
#[export] Instance TrySend_eq_dec : EqDecision TrySend.
Proof. solve_decision. Defined.

(** What the bus tells its clients about itself. *)
Inductive AnyBusStatusMsg := ShuttingDown | Resuming | Suspending | NetworkChanged.
#[export] Instance AnyBusStatusMsg_eq_dec : EqDecision AnyBusStatusMsg.
Proof. solve_decision. Defined.

Section messages.
Context `{Cd : Codec}.

(** [NodeMessage]: what goes to the task that owns a connection, and the wire. *)
Inductive NodeMessage :=
  | NmWirePacket (w : WirePacket)
  | NmLsa (lsa : Lsa)
  | NmLsaAck (key : LsaKey) (seq : N).

(** [ClientMessage]: what goes to a registered listener. *)
Inductive ClientMessage :=
  | CmMessage (p : Packet)
  | CmFailedRegistration (e : EndpointId) (reason : string)
  | CmSuccessfulRegistration (e : EndpointId)
  | CmShutdown.

(** * Errors *)
Inductive SendError :=
  | ErrNoRoute (p : option Payload)
  | ErrFull (p : option Payload)
  | ErrClosed (p : option Payload).

(** [SendError::payload]. *)
Definition send_error_payload (e : SendError) : option Payload :=
  match e with ErrNoRoute p | ErrFull p | ErrClosed p => p end.

(** [TrySendError<T>] gives the message back. *)
Inductive TrySendError (T : Type) := TseFull (m : T) | TseClosed (m : T).

(** [impl From<TrySendError<ClientMessage>> for SendError]. *)
Definition send_error_from_client (e : TrySendError ClientMessage) : SendError :=
  match e with
  | TseFull _ (CmMessage p) => ErrFull (Some (p_payload p))
  | TseFull _ _ => ErrFull None
  | TseClosed _ (CmMessage p) => ErrClosed (Some (p_payload p))
  | TseClosed _ _ => ErrClosed None
  end.

(** [send_error_from_node] of [forward_table.rs]. *)
Definition send_error_from_node (e : TrySendError NodeMessage) : SendError :=
  let '(full, message) :=
    match e with TseFull _ m => (true, m) | TseClosed _ m => (false, m) end in
  let payload :=
    match message with NmWirePacket w => Some (PBytes (wp_payload w)) | _ => None end in
  if full : bool then ErrFull payload else ErrClosed payload.

(** [SetAnycastCostError] and [SetAnycastCostOutcome]. *)
Inductive SetAnycastCostError := NotAnycast | NotRegistered.
Inductive SetAnycastCostOutcome :=
  | Unchanged
  | Changed (previous new : Cost) (advertise : option Cost).

(** [RegistrationRequest]. *)
Record RegistrationRequest := mkRegistrationRequest {
  rr_endpoint_id : EndpointId;
  rr_endpoint_info : EndpointInfo;
  rr_sender : ChanId;
}.

(** [RouterMsg]: the mailbox of the router task. A [PeerEntry] is its [peer_tx]. *)
Inductive RouterMsg :=
  | RmRegisterEndpoint (r : RegistrationRequest)
  | RmDeadLink (e : EndpointId)
  | RmRegisterPeer (peer : NodeId) (c : ConnectionId) (peer_tx : ChanId)
                   (cost : Cost) (realms : RealmList)
  | RmUnRegisterPeer (c : ConnectionId)
  | RmLsaInbound (from : ConnectionId) (lsa : Lsa)
  | RmLsaAckInbound (from : ConnectionId) (key : LsaKey) (seq : N)
  | RmSetAnycastCost (e : EndpointId) (sender : ChanId) (cost : N) (reply : ChanId)
  | RmShutdown.
End messages.
Arguments TseFull {T} m.
Arguments TseClosed {T} m.
