(* ===== verification/World.v ===== *)
(** The environment of a handler: the clock, the channels and the iteration order
    of hash maps. Handlers are synchronous; everything they exchange with the rest
    of the process goes through a [World], which logs every attempted send and
    counts the clock reads, and an [Env], which answers for tokio and for the
    hasher. Because an answer may depend on the whole [World], consecutive
    questions may be answered differently: an [Env] stands for any behaviour of the
    tasks that run concurrently. *)
From Stdlib Require Import Strings.String.
From S2P Require Import Prelude Types Messages.

Section world.
Context `{Cd : Codec}.

(** What a handler did that others can observe. *)
Inductive Event :=
  | EvNode (tx : ChanId) (m : NodeMessage) (r : TrySend)
  | EvClient (tx : ChanId) (m : ClientMessage) (r : TrySend)
  | EvReply (tx : ChanId) (r : SetAnycastCostError + unit).

Record World := mkWorld { w_log : list Event; w_reads : nat }.
Definition world_init : World := mkWorld [] 0.

Class Env := {
  (** [Instant::now()], as a function of everything that happened so far. *)
  env_now : World -> Instant;
  (** [Sender::try_send], [Sender::is_closed]. *)
  env_try_send : World -> ChanId -> TrySend;
  env_is_closed : World -> ChanId -> bool;
  (** The order in which a [HashMap] or a [HashSet] is iterated. *)
  env_iter_map : forall {K V} `{Countable K}, World -> gmap K V -> list (K * V);
  env_iter_set : forall {K} `{Countable K}, World -> gset K -> list K;
}.

(** Documented behaviour: iteration visits every entry once, and the clock is
    monotonic. *)
Class EnvLaws `{Env} := {
  env_iter_map_perm : forall `{Countable K} {V} (w : World) (m : gmap K V),
    env_iter_map w m ≡ₚ map_to_list m;
  env_iter_set_perm : forall `{Countable K} (w : World) (s : gset K),
    env_iter_set w s ≡ₚ elements s;
  env_now_mono : forall w w' : World,
    w_log w `prefix_of` w_log w' -> w_reads w <= w_reads w' ->
    (env_now w <= env_now w')%N;
}.

Section ops.
Context `{E : Env}.

Definition read_clock (w : World) : Instant * World :=
  (env_now w, mkWorld (w_log w) (S (w_reads w))).

Definition log_event (ev : Event) (w : World) : World :=
  mkWorld (w_log w ++ [ev]) (w_reads w).

Definition try_send_node (tx : ChanId) (m : NodeMessage) (w : World)
    : (TrySendError NodeMessage + unit) * World :=
  let r := env_try_send w tx in
  let w' := log_event (EvNode tx m r) w in
  match r with
  | SendOk => (inr tt, w')
  | SendFull => (inl (TseFull m), w')
  | SendClosed => (inl (TseClosed m), w')
  end.

Definition try_send_client (tx : ChanId) (m : ClientMessage) (w : World)
    : (TrySendError ClientMessage + unit) * World :=
  let r := env_try_send w tx in
  let w' := log_event (EvClient tx m r) w in
  match r with
  | SendOk => (inr tt, w')
  | SendFull => (inl (TseFull m), w')
  | SendClosed => (inl (TseClosed m), w')
  end.

(** [oneshot::Sender::send(..).ok()]. *)
Definition reply (tx : ChanId) (r : SetAnycastCostError + unit) (w : World) : World :=
  log_event (EvReply tx r) w.
End ops.
End world.

(** The messages delivered to the owner of a channel. *)
Section delivered.
Context `{Cd : Codec}.

Definition delivered_node (ev : Event) : option (ChanId * NodeMessage) :=
  match ev with EvNode tx m SendOk => Some (tx, m) | _ => None end.
Definition delivered_client (ev : Event) : option (ChanId * ClientMessage) :=
  match ev with EvClient tx m SendOk => Some (tx, m) | _ => None end.
End delivered.

Section world_lemmas.
Context `{Cd : Codec} `{E : !Env} `{!EnvLaws}.

Lemma elem_of_iter_map `{Countable K} {V} w (m : gmap K V) k v :
  (k, v) ∈ env_iter_map w m <-> m !! k = Some v.
Proof. by rewrite env_iter_map_perm, elem_of_map_to_list. Qed.

Lemma length_iter_map `{Countable K} {V} w (m : gmap K V) : length (env_iter_map w m) = size m.
Proof. rewrite (Permutation_length (env_iter_map_perm w m)). apply length_map_to_list. Qed.


Lemma elem_of_iter_set `{Countable K} w (s : gset K) k :
  k ∈ env_iter_set w s <-> k ∈ s.
Proof. by rewrite env_iter_set_perm, elem_of_elements. Qed.

Lemma NoDup_iter_set `{Countable K} w (s : gset K) : NoDup (env_iter_set w s).
Proof. rewrite env_iter_set_perm. apply NoDup_elements. Qed.

Lemma NoDup_iter_map_fst `{Countable K} {V} w (m : gmap K V) :
  NoDup (env_iter_map w m).*1.
Proof. rewrite env_iter_map_perm. apply NoDup_fst_map_to_list. Qed.
End world_lemmas.

(** * Extending the log

    [emits P w w']: going from [w] to [w'] only appended events satisfying [P]. *)
Section emits.
Context `{Cd : Codec}.

Definition emits (P : Event -> Prop) (w w' : World) : Prop :=
  w_reads w <= w_reads w' /\ exists evs, w_log w' = w_log w ++ evs /\ Forall P evs.

#[export] Instance emits_refl P : Reflexive (emits P).
Proof. intros w. split; [done|]. exists []. by rewrite app_nil_r. Qed.

#[export] Instance emits_trans P : Transitive (emits P).
Proof.
  intros w1 w2 w3 [Hr1 (e1 & H1 & F1)] [Hr2 (e2 & H2 & F2)]. split; [lia|].
  exists (e1 ++ e2). rewrite H2, H1, app_assoc. split; [done|]. by apply Forall_app.
Qed.

Lemma emits_weaken (P Q : Event -> Prop) w w' :
  (forall ev, P ev -> Q ev) -> emits P w w' -> emits Q w w'.
Proof.
  intros HPQ [Hr (evs & Hl & HF)]. split; [done|]. exists evs. split; [done|].
  eapply Forall_impl; eauto.
Qed.

Lemma emits_log P ev w : P ev -> emits P w (log_event ev w).
Proof. intros HP. split; [done|]. exists [ev]. split; [done|]. by constructor. Qed.

Lemma emits_elem P w w' ev : emits P w w' -> ev ∈ w_log w' -> ev ∈ w_log w \/ P ev.
Proof.
  intros [_ (evs & -> & HF)] [?|Hin]%elem_of_app; [by left | right].
  rewrite Forall_forall in HF. by apply HF.
Qed.

Lemma emits_prefix P w w' : emits P w w' -> w_log w `prefix_of` w_log w'.
Proof. intros [_ (evs & Hl & _)]. by exists evs. Qed.

Context `{E : !Env}.

Lemma emits_read P w : emits P w (read_clock w).2.
Proof. split; simpl; [lia|]. exists []. by rewrite app_nil_r. Qed.

Lemma emits_node (P : Event -> Prop) tx m w :
  (forall r, P (EvNode tx m r)) -> emits P w (try_send_node tx m w).2.
Proof. intros HP. unfold try_send_node. destruct (env_try_send w tx); simpl; by apply emits_log. Qed.

Lemma emits_client (P : Event -> Prop) tx m w :
  (forall r, P (EvClient tx m r)) -> emits P w (try_send_client tx m w).2.
Proof. intros HP. unfold try_send_client. destruct (env_try_send w tx); simpl; by apply emits_log. Qed.
End emits.

#[export] Hint Resolve emits_read emits_log : anybus.
