(* ===== verification/Concrete.v ===== *)
(** Concrete inputs: a codec of byte riders, an environment whose channels accept
    everything but one closed and one full channel, and identifiers. The examples of
    the other files evaluate the definitions on them. *)
From Stdlib Require Import Init.Byte.
From S2P Require Import Prelude Types Messages World.

(** Riders are numbers tagged by a type; type 0 encodes in one byte, any other type
    fails to encode. *)
#[export] Instance test_codec : Codec := {|
  Rider := N * N;
  RustTy := N;
  type_of := fst;
  encode := fun r => if N.eqb r.1 0 then (fun b => [b]) <$> Byte.of_N r.2 else None;
  decode := fun T bs => match bs with [b] => if N.eqb T 0 then Some (0%N, Byte.to_N b) else None | _ => None end;
  downcast_box_rider := fun _ => None;
|}.

#[export] Instance test_codec_laws : CodecLaws.
Proof.
  split.
  - intros [T n] bs. simpl. destruct (N.eqb_spec T 0) as [->|]; [|done].
    destruct (Byte.of_N n) as [b|] eqn:Hb; [|done]. intros [= <-]. by rewrite (Byte.to_of_N _ Hb).
  - intros T bs r. simpl. destruct bs as [|b [|]]; [done| |done].
    destruct (N.eqb_spec T 0) as [->|]; [|done]. by intros [= <-].
  - done.
Defined.

Definition closed_chan : ChanId := 100%N.
Definition full_chan : ChanId := 101%N.
(** The receiver of this channel is dropped once the clock was read a thousand times. *)
Definition fading_chan : ChanId := 102%N.
Definition late (w : World) : bool := Nat.leb 1000 (w_reads w).

(** A clock that ticks a millisecond at each reading. *)
#[export] Instance test_env : Env := {|
  env_now := fun w => from_millis (N.of_nat (w_reads w));
  env_try_send := fun w tx =>
    if N.eqb tx closed_chan || (N.eqb tx fading_chan && late w) then SendClosed
    else if N.eqb tx full_chan then SendFull else SendOk;
  env_is_closed := fun w tx => N.eqb tx closed_chan || (N.eqb tx fading_chan && late w);
  env_iter_map := fun K V _ _ _ m => map_to_list m;
  env_iter_set := fun K _ _ _ s => elements s;
|}.

#[export] Instance test_env_laws : EnvLaws.
Proof.
  split; [done..|]. intros w w' _ Hr. unfold env_now, test_env, from_millis. lia.
Defined.

Definition node_a : NodeId := mkNodeId 1%N.
Definition node_b : NodeId := mkNodeId 2%N.
Definition node_c : NodeId := mkNodeId 3%N.
Definition endpoint_x : EndpointId := mkEndpointId 50%N.
Definition all_realms : RealmList := {[ Process; Userspace; LocalNet; Global ]}.
