(* ===== verification/RouteTable.v ===== *)
(** [src/routing/linkstate/db/route_table.rs]: the table of every known route,
    local listeners and endpoints learned from remote nodes, and the effect each
    update asks of the link-state database. *)
From S2P Require Import Prelude Types Messages World.

(** * Data ([src/routing/linkstate.rs]) *)

Inductive LsForwardTo :=
  | Local (sender : ChanId)
  | Remote (node : NodeId).
#[export] Instance LsForwardTo_eq_dec : EqDecision LsForwardTo.
Proof. solve_decision. Defined.

Definition is_local (via : LsForwardTo) : bool :=
  match via with Local _ => true | Remote _ => false end.

Record LsRoute := mkLsRoute {
  r_via : LsForwardTo;
  r_cost : Cost;
  r_realm : Realm;
  r_kind : RouteKind;
}.

Record LsRouteEntry := mkLsRouteEntry { re_routes : list LsRoute; re_kind : RouteKind }.

(** [impl From<&LsRoute> for EndpointInfo]. *)
Definition endpoint_info_of_route (r : LsRoute) : EndpointInfo :=
  mkEndpointInfo (r_kind r) (r_realm r) (r_cost r).

Abbreviation RouteTable := (gmap EndpointId LsRouteEntry).

Inductive Effects :=
  | AddLsa (e : EndpointId) (info : EndpointInfo)
  | UpdateLsa (e : EndpointId) (c : Cost)
  | RemoveLsa (e : EndpointId)
  | RebuildFib
  | Noop.

Inductive RouteTableError := MismatchedRouteKind | DuplicateUnicast.

(** * Operations *)

(** [iter().map(cost).min()] *)
Definition min_cost (l : list Cost) : option Cost := min_by_key (fun c => c) l.

Definition min_local_cost (routes : list LsRoute) : option Cost :=
  min_cost (map r_cost (retain (fun r => is_local (r_via r)) routes)).

Definition table_new : RouteTable := ∅.

(** [HashMap::entry(..).or_insert(LsRouteEntry { routes: vec![], kind })] *)
Definition entry_or_insert (t : RouteTable) (e : EndpointId) (kind : RouteKind) : LsRouteEntry :=
  match t !! e with Some en => en | None => mkLsRouteEntry [] kind end.

Definition push_route (en : LsRouteEntry) (r : LsRoute) : LsRouteEntry :=
  mkLsRouteEntry (re_routes en ++ [r]) (re_kind en).

Definition add_endpoint (t : RouteTable) (endpoint_id : EndpointId) (info : EndpointInfo)
    (sender : ChanId) : (RouteTableError + Effects) * RouteTable :=
  let en := entry_or_insert t endpoint_id (ei_kind info) in
  let t := <[endpoint_id := en]> t in
  if decide (re_kind en = ei_kind info) then
    let ls_route := mkLsRoute (Local sender) (ei_cost info) (ei_realm info) (ei_kind info) in
    match ei_kind info with
    | Unicast =>
        match re_routes en with
        | [] => (inr (AddLsa endpoint_id info), <[endpoint_id := push_route en ls_route]> t)
        | _ :: _ => (inl DuplicateUnicast, t)
        end
    | Anycast =>
        let previous_min := min_local_cost (re_routes en) in
        let t := <[endpoint_id := push_route en ls_route]> t in
        match previous_min with
        | None => (inr (AddLsa endpoint_id info), t)
        | Some previous =>
            if N.ltb (ei_cost info) previous
            then (inr (UpdateLsa endpoint_id (ei_cost info)), t)
            else (inr Noop, t)
        end
    | Broadcast | Multicast =>
        let effect :=
          if existsb (fun r => is_local (r_via r)) (re_routes en)
          then Noop else AddLsa endpoint_id info in
        (inr effect, <[endpoint_id := push_route en ls_route]> t)
    | Node => (inr Noop, t)
    end
  else (inl MismatchedRouteKind, t).

(** [iter_mut().find(p)] followed by an assignment through the reference. *)
Fixpoint find_update {A} (p : A -> bool) (f : A -> A) (l : list A) : option (A * list A) :=
  match l with
  | [] => None
  | x :: r =>
      if p x then Some (x, f x :: r)
      else match find_update p f r with
           | Some (y, r') => Some (y, x :: r')
           | None => None
           end
  end.

Definition is_sender (sender : ChanId) (r : LsRoute) : bool :=
  match r_via r with Local existing => N.eqb existing sender | Remote _ => false end.

Definition is_origin (origin : NodeId) (r : LsRoute) : bool :=
  match r_via r with Remote n => bool_decide (n = origin) | Local _ => false end.

Definition set_route_cost (c : Cost) (r : LsRoute) : LsRoute :=
  mkLsRoute (r_via r) c (r_realm r) (r_kind r).

Definition set_anycast_cost (t : RouteTable) (endpoint_id : EndpointId) (sender : ChanId)
    (cost : Cost) : (SetAnycastCostError + SetAnycastCostOutcome) * RouteTable :=
  match t !! endpoint_id with
  | None => (inl NotRegistered, t)
  | Some en =>
      if decide (re_kind en = Anycast) then
        let previous_min := min_local_cost (re_routes en) in
        match find_update (is_sender sender) (set_route_cost cost) (re_routes en) with
        | None => (inl NotRegistered, t)
        | Some (route, routes') =>
            if N.eqb (r_cost route) cost then (inr Unchanged, t)
            else
              let previous := r_cost route in
              let t := <[endpoint_id := mkLsRouteEntry routes' (re_kind en)]> t in
              let advertise :=
                match previous_min, min_local_cost routes' with
                | Some old, Some new_min => if N.eqb old new_min then None else Some new_min
                | _, _ => None
                end in
              (inr (Changed previous cost advertise), t)
        end
      else (inl NotAnycast, t)
  end.

Section with_env.
Context `{Cd : Codec} `{E : !Env}.

(** [RouteTable::shutdown]: every local listener is told, then the table is
    emptied. *)
Definition shutdown_entry (w : World) (en : LsRouteEntry) : World :=
  foldl (fun w fwd =>
           match r_via fwd with
           | Local sender => (try_send_client sender CmShutdown w).2
           | Remote _ => w
           end) w (re_routes en).

Definition table_shutdown (t : RouteTable) (w : World) : RouteTable * World :=
  (∅, foldl shutdown_entry w (env_iter_map w t).*2).

Definition keep_open (w : World) (r : LsRoute) : bool :=
  match r_via r with Local sender => negb (env_is_closed w sender) | Remote _ => true end.

(** [RouteTable::remove_endpoint]: [delete] stays true when no route is kept. *)
Definition remove_endpoint (t : RouteTable) (endpoint_id : EndpointId) (w : World)
    : Effects * RouteTable :=
  match t !! endpoint_id with
  | None => (Noop, t)
  | Some en =>
      let previous_min := min_local_cost (re_routes en) in
      let routes' := retain (keep_open w) (re_routes en) in
      match routes' with
      | [] => (RemoveLsa endpoint_id, delete endpoint_id t)
      | _ :: _ =>
          let t := <[endpoint_id := mkLsRouteEntry routes' (re_kind en)]> t in
          let changed :=
            if decide (length (re_routes en) = length routes') then Noop else RebuildFib in
          if decide (re_kind en = Anycast) then
            match min_local_cost routes' with
            | Some cost =>
                if decide (previous_min = Some cost) then (changed, t)
                else (UpdateLsa endpoint_id cost, t)
            | None => (changed, t)
            end
          else (changed, t)
      end
  end.
End with_env.

Definition update_route_info (info : EndpointInfo) (r : LsRoute) : LsRoute :=
  mkLsRoute (r_via r) (ei_cost info) (ei_realm info) (r_kind r).

Definition add_remote_endpoint (t : RouteTable) (endpoint_id : EndpointId) (origin : NodeId)
    (info : EndpointInfo) : (RouteTableError + Effects) * RouteTable :=
  let en := entry_or_insert t endpoint_id (ei_kind info) in
  let t := <[endpoint_id := en]> t in
  if decide (re_kind en = ei_kind info) then
    match find_update (is_origin origin) (update_route_info info) (re_routes en) with
    | Some (existing, routes') =>
        if decide (r_cost existing = ei_cost info /\ r_realm existing = ei_realm info)
        then (inr Noop, t)
        else (inr RebuildFib, <[endpoint_id := mkLsRouteEntry routes' (re_kind en)]> t)
    | None =>
        if decide (re_kind en = Unicast /\ re_routes en <> [])
        then (inl DuplicateUnicast, t)
        else
          let effect :=
            if forallb (fun r => is_local (r_via r)) (re_routes en) then RebuildFib else Noop in
          let ls_route := mkLsRoute (Remote origin) (ei_cost info) (ei_realm info) (ei_kind info) in
          (inr effect, <[endpoint_id := push_route en ls_route]> t)
    end
  else (inl MismatchedRouteKind, t).

Definition remove_remote_endpoint (t : RouteTable) (endpoint_id : EndpointId) (origin : NodeId)
    : Effects * RouteTable :=
  match t !! endpoint_id with
  | None => (Noop, t)
  | Some en =>
      let routes' := retain (fun r => negb (is_origin origin r)) (re_routes en) in
      match routes' with
      | [] => (RebuildFib, delete endpoint_id t)
      | _ :: _ =>
          (if decide (length (re_routes en) = length routes') then Noop else RebuildFib,
           <[endpoint_id := mkLsRouteEntry routes' (re_kind en)]> t)
      end
  end.

(** * Lemmas on the list operations *)

Lemma find_update_Some {A} (p : A -> bool) f l x l' :
  find_update p f l = Some (x, l') ->
  exists l1 l2, l = l1 ++ x :: l2 /\ l' = l1 ++ f x :: l2 /\ p x = true.
Proof.
  revert l'. induction l as [|y l IH]; simpl; intros l'; [done|].
  destruct (p y) eqn:Hp.
  - intros [= -> <-]. by exists [], l.
  - destruct (find_update p f l) as [[z r]|]; [|done]. intros [= -> <-].
    destruct (IH r eq_refl) as (l1 & l2 & -> & -> & Hx). by exists (y :: l1), l2.
Qed.

Lemma find_update_None {A} (p : A -> bool) f l :
  find_update p f l = None -> forall x, x ∈ l -> p x = false.
Proof.
  induction l as [|y l IH]; simpl; [by intros _ x ?%elem_of_nil|].
  destruct (p y) eqn:Hp; [done|].
  destruct (find_update p f l) as [[z r]|] eqn:E; [done|].
  intros _ x [->|Hx]%elem_of_cons; eauto.
Qed.

Lemma min_cost_Some l c : min_cost l = Some c <-> c ∈ l /\ forall x, x ∈ l -> (c <= x)%N.
Proof.
  unfold min_cost. split; [apply min_by_key_Some|]. intros [Hin Hle].
  destruct (min_by_key (fun c => c) l) as [m|] eqn:E.
  - apply min_by_key_Some in E as [Hm Hall]. f_equal.
    specialize (Hall c Hin). specialize (Hle m Hm). lia.
  - apply min_by_key_None in E. subst. by apply elem_of_nil in Hin.
Qed.

Lemma min_cost_None l : min_cost l = None <-> l = [].
Proof. apply min_by_key_None. Qed.

Definition local_costs (routes : list LsRoute) : list Cost :=
  map r_cost (retain (fun r => is_local (r_via r)) routes).

Lemma local_costs_app rs1 rs2 : local_costs (rs1 ++ rs2) = local_costs rs1 ++ local_costs rs2.
Proof. unfold local_costs. by rewrite retain_app, map_app. Qed.

Lemma local_costs_nil rs :
  local_costs rs = [] <-> forall r, r ∈ rs -> is_local (r_via r) = false.
Proof.
  unfold local_costs. induction rs as [|r rs IH].
  { split; [intros _ r Hr; by apply elem_of_nil in Hr | done]. }
  rewrite retain_cons. destruct (is_local (r_via r)) eqn:El; simpl.
  - split; [done|]. intros H. rewrite (H r) in El; [done | by left].
  - rewrite IH. split; [intros H x [->|Hx]%elem_of_cons; auto | intros H x Hx; apply H; by right].
Qed.

Lemma min_local_cost_push rs r :
  is_local (r_via r) = true ->
  min_local_cost (rs ++ [r]) =
    Some (match min_local_cost rs with Some m => N.min m (r_cost r) | None => r_cost r end).
Proof.
  intros Hl. unfold min_local_cost.
  change (min_cost (local_costs (rs ++ [r])) =
    Some (match min_cost (local_costs rs) with Some m => N.min m (r_cost r) | None => r_cost r end)).
  rewrite local_costs_app. unfold local_costs at 2. rewrite retain_cons, Hl. simpl.
  apply min_cost_Some. destruct (min_cost (local_costs rs)) as [m|] eqn:E.
  - apply min_cost_Some in E as [Hm Hall]. split.
    + apply elem_of_app. destruct (N.min_spec m (r_cost r)) as [[_ ->]|[_ ->]];
        [by left | right; by left].
    + intros x [Hx|Hx]%elem_of_app; [specialize (Hall x Hx); lia|].
      apply list_elem_of_singleton in Hx as ->. lia.
  - apply min_cost_None in E as ->. split; [by left|].
    intros x Hx. apply list_elem_of_singleton in Hx as ->. lia.
Qed.

Lemma min_local_cost_push_remote rs r :
  is_local (r_via r) = false -> min_local_cost (rs ++ [r]) = min_local_cost rs.
Proof.
  intros Hl. unfold min_local_cost. rewrite retain_app, retain_cons, Hl. simpl.
  by rewrite app_nil_r.
Qed.

Lemma min_local_cost_None rs :
  min_local_cost rs = None <-> forall r, r ∈ rs -> is_local (r_via r) = false.
Proof.
  unfold min_local_cost. rewrite min_cost_None. apply local_costs_nil.
Qed.

(** * Well-formedness *)

Definition origin_of (r : LsRoute) : option NodeId :=
  match r_via r with Remote n => Some n | Local _ => None end.
Definition origins (routes : list LsRoute) : list NodeId := omap origin_of routes.

Record entry_wf (en : LsRouteEntry) : Prop := {
  wf_kinds : Forall (fun r => r_kind r = re_kind en) (re_routes en);
  wf_origins : NoDup (origins (re_routes en));
  wf_unicast : re_kind en = Unicast -> length (re_routes en) <= 1;
  wf_nonempty : re_routes en = [] -> re_kind en = Node;
}.

Definition table_wf (t : RouteTable) : Prop := map_Forall (fun _ en => entry_wf en) t.

Section wf.
Implicit Types (t : RouteTable) (en : LsRouteEntry) (e : EndpointId).

Lemma entry_or_insert_cases t e kind :
  (t !! e = Some (entry_or_insert t e kind) /\ <[e := entry_or_insert t e kind]> t = t) \/
  (t !! e = None /\ entry_or_insert t e kind = mkLsRouteEntry [] kind).
Proof.
  unfold entry_or_insert. destruct (t !! e) as [en|] eqn:E; [left|by right].
  split; [done|]. by apply insert_id.
Qed.

Lemma table_wf_insert t e en : table_wf t -> entry_wf en -> table_wf (<[e := en]> t).
Proof. intros Ht Hen. by apply map_Forall_insert_2. Qed.

Lemma table_wf_lookup t e en : table_wf t -> t !! e = Some en -> entry_wf en.
Proof. intros Ht He. by apply (map_Forall_lookup_1 _ _ _ _ Ht He). Qed.

Lemma table_wf_delete t e : table_wf t -> table_wf (delete e t).
Proof. apply map_Forall_delete. Qed.

Lemma origins_sublist rs rs' : sublist rs rs' -> sublist (origins rs) (origins rs').
Proof.
  induction 1 as [|r rs rs' _ IH|r rs rs' _ IH]; simpl; [done| |];
    destruct (origin_of r); by repeat constructor.
Qed.

(** Keeping some of the routes of an entry keeps it well formed, unless none is left. *)
Lemma entry_wf_retain p en :
  entry_wf en -> retain p (re_routes en) <> [] ->
  entry_wf (mkLsRouteEntry (retain p (re_routes en)) (re_kind en)).
Proof.
  intros [Hk Ho Hu Hn] Hne. split; simpl.
  - apply Forall_forall. intros r [_ Hr]%elem_of_retain. by apply (Forall_forall _ _) with r in Hk.
  - eapply sublist_NoDup, origins_sublist, retain_sublist. done.
  - intros Huni. pose proof (retain_length_le p (re_routes en)). specialize (Hu Huni). lia.
  - done.
Qed.

(** Changing the cost and realm of one route keeps the entry well formed. *)
Lemma entry_wf_find_update p f en x routes' :
  (forall r, r_via (f r) = r_via r /\ r_kind (f r) = r_kind r) ->
  find_update p f (re_routes en) = Some (x, routes') ->
  entry_wf en -> entry_wf (mkLsRouteEntry routes' (re_kind en)).
Proof.
  intros Hf Hfu [Hk Ho Hu Hn]. destruct (find_update_Some _ _ _ _ _ Hfu) as (l1 & l2 & Hl & -> & _).
  rewrite Hl in *. split; simpl.
  - rewrite Forall_app, Forall_cons in *. by rewrite (proj2 (Hf x)).
  - unfold origins in *. rewrite omap_app in *. simpl in *. unfold origin_of at 2.
    rewrite (proj1 (Hf x)). exact Ho.
  - rewrite length_app in *. exact Hu.
  - intros Hnil. by apply app_nil in Hnil as [_ ?].
Qed.

Lemma entry_wf_push en r :
  r_kind r = re_kind en -> entry_wf en \/ re_routes en = [] ->
  (forall n, r_via r = Remote n -> n ∉ origins (re_routes en)) ->
  (re_kind en = Unicast -> re_routes en = []) ->
  entry_wf (push_route en r).
Proof.
  intros Hkind Hen Hfresh Huni.
  assert (Forall (fun r => r_kind r = re_kind en) (re_routes en) /\ NoDup (origins (re_routes en)))
    as [Hk Ho].
  { destruct Hen as [Hwf| ->]; [by destruct Hwf|]. split; constructor. }
  split; simpl.
  - by rewrite Forall_app, Forall_singleton.
  - unfold origins in *. rewrite omap_app. apply NoDup_app. simpl.
    destruct (origin_of r) as [n|] eqn:En; unfold origin_of in En; destruct (r_via r); try done.
    + injection En as ->. split; [done|]. split; [|repeat constructor; set_solver].
      intros n' Hn' ->%list_elem_of_singleton. by apply (Hfresh n).
    + split; [done|]. split; [|constructor]. intros n' _ Hn'. by apply elem_of_nil in Hn'.
  - intros Hu. by rewrite (Huni Hu).
  - intros Hnil. by apply app_nil in Hnil as [_ ?].
Qed.
End wf.

(** * Every operation keeps the table well formed *)

Section operations_wf.
Implicit Types (t : RouteTable) (en : LsRouteEntry) (e : EndpointId).

Lemma push_local_wf t e info sender :
  table_wf t -> re_kind (entry_or_insert t e (ei_kind info)) = ei_kind info ->
  (ei_kind info = Unicast -> re_routes (entry_or_insert t e (ei_kind info)) = []) ->
  entry_wf (push_route (entry_or_insert t e (ei_kind info))
    (mkLsRoute (Local sender) (ei_cost info) (ei_realm info) (ei_kind info))).
Proof.
  intros Ht Hk Hu. apply entry_wf_push; [done| |done|by rewrite Hk].
  destruct (entry_or_insert_cases t e (ei_kind info)) as [[Hl _]|[_ ->]]; [left|by right].
  by eapply table_wf_lookup.
Qed.

Lemma add_endpoint_wf t e info sender :
  table_wf t -> table_wf (add_endpoint t e info sender).2.
Proof.
  intros Ht. unfold add_endpoint.
  pose proof (push_local_wf t e info sender Ht) as Hpush.
  destruct (entry_or_insert_cases t e (ei_kind info)) as [[Hl Hid]|[Hn He]].
  - rewrite Hid. case_decide as Hk; [|done]. specialize (Hpush Hk).
    destruct (ei_kind info); simpl; try done; try (apply table_wf_insert; [done|apply Hpush; done]).
    + destruct (re_routes _) eqn:Er; [|done]. apply table_wf_insert; [done|by apply Hpush].
    + destruct (min_local_cost _) as [m|];
        [destruct (N.ltb _ _)|]; simpl; (apply table_wf_insert; [done|by apply Hpush]).
  - rewrite He in *. simpl in *. rewrite decide_True by done. specialize (Hpush eq_refl).
    destruct (ei_kind info); simpl; rewrite ?insert_insert_eq;
      apply table_wf_insert; try done; try (by apply Hpush).
    split; simpl; [constructor | constructor | done | done].
Qed.

Lemma set_anycast_cost_wf t e sender c :
  table_wf t -> table_wf (set_anycast_cost t e sender c).2.
Proof.
  intros Ht. unfold set_anycast_cost. destruct (t !! e) as [en|] eqn:He; [|done].
  case_decide; [|done].
  destruct (find_update _ _ _) as [[r routes']|] eqn:Hf; [|done].
  destruct (N.eqb _ _); [done|]. apply table_wf_insert; [done|].
  eapply entry_wf_find_update; [|exact Hf|by eapply table_wf_lookup]. done.
Qed.

Lemma remove_endpoint_wf `{Cd : Codec} `{E : !Env} t e w :
  table_wf t -> table_wf (remove_endpoint t e w).2.
Proof.
  intros Ht. unfold remove_endpoint. destruct (t !! e) as [en|] eqn:He; [|done].
  pose proof (entry_wf_retain (keep_open w) en (table_wf_lookup _ _ _ Ht He)) as Hr.
  destruct (retain _ _) as [|r rs]; [by apply table_wf_delete|].
  assert (table_wf (<[e := mkLsRouteEntry (r :: rs) (re_kind en)]> t)) by (by apply table_wf_insert, Hr).
  repeat case_match; done.
Qed.

(** An advertisement touches one entry; a unicast endpoint nobody had a route to gets one. *)
Lemma add_remote_other t e o info e' :
  e' <> e -> (add_remote_endpoint t e o info).2 !! e' = t !! e'.
Proof.
  intros He. unfold add_remote_endpoint. repeat case_match; cbn [snd]; by rewrite ?lookup_insert_ne by congruence.
Qed.

Lemma add_remote_fresh t e o info :
  ei_kind info = Unicast -> t !! e = None ->
  (add_remote_endpoint t e o info).2 !! e =
  Some (mkLsRouteEntry [mkLsRoute (Remote o) (ei_cost info) (ei_realm info) Unicast] Unicast).
Proof.
  intros Hk Ht. unfold add_remote_endpoint, entry_or_insert. rewrite Hk, Ht. cbn [re_kind re_routes find_update].
  rewrite decide_True by done. rewrite decide_False by by intros [_ ?]. cbn [snd]. by rewrite lookup_insert_eq.
Qed.

Lemma add_remote_endpoint_wf t e origin info :
  table_wf t -> table_wf (add_remote_endpoint t e origin info).2.
Proof.
  intros Ht. unfold add_remote_endpoint.
  assert (Hpush : forall en, re_kind en = ei_kind info -> entry_wf en \/ re_routes en = [] ->
    find_update (is_origin origin) (update_route_info info) (re_routes en) = None ->
    ~ (re_kind en = Unicast /\ re_routes en <> []) ->
    entry_wf (push_route en (mkLsRoute (Remote origin) (ei_cost info) (ei_realm info) (ei_kind info)))).
  { intros en Hk Hen Hf Hu. apply entry_wf_push; [done|done| |].
    - intros n [= <-] Hin. apply list_elem_of_omap in Hin as (r & Hr & Ho).
      pose proof (find_update_None _ _ _ Hf r Hr) as Hno. unfold is_origin, origin_of in *.
      destruct (r_via r); [done|]. injection Ho as ->. by rewrite bool_decide_true in Hno.
    - intros Hun. destruct (re_routes en) eqn:Er; [done|]. exfalso. by apply Hu. }
  destruct (entry_or_insert_cases t e (ei_kind info)) as [[Hl Hid]|[Hn He]].
  - rewrite Hid. case_decide as Hk; [|done].
    destruct (find_update _ _ _) as [[r routes']|] eqn:Hf.
    + case_decide; [done|]. apply table_wf_insert; [done|].
      eapply entry_wf_find_update; [|exact Hf|by eapply table_wf_lookup]. done.
    + case_decide; [done|]. apply table_wf_insert; [done|]. apply Hpush; try done.
      left. by eapply table_wf_lookup.
  - rewrite He. simpl. rewrite decide_True by done. rewrite decide_False by (by intros [_ []]).
    simpl. rewrite insert_insert_eq. apply table_wf_insert; [done|].
    apply Hpush; [done|by right|done|by intros [_ []]].
Qed.

Lemma remove_remote_endpoint_wf t e origin :
  table_wf t -> table_wf (remove_remote_endpoint t e origin).2.
Proof.
  intros Ht. unfold remove_remote_endpoint. destruct (t !! e) as [en|] eqn:He; [|done].
  pose proof (entry_wf_retain (fun r => negb (is_origin origin r)) en
    (table_wf_lookup _ _ _ Ht He)) as Hr.
  destruct (retain _ _) as [|r rs]; [by apply table_wf_delete|].
  by apply table_wf_insert, Hr.
Qed.
End operations_wf.

#[export] Hint Resolve add_endpoint_wf set_anycast_cost_wf remove_endpoint_wf
  add_remote_endpoint_wf remove_remote_endpoint_wf : anybus.

(** The transitions of the table. *)
Inductive table_step `{Cd : Codec} `{E : !Env} : RouteTable -> RouteTable -> Prop :=
  | step_add_endpoint t e info sender :
      table_step t (add_endpoint t e info sender).2
  | step_set_anycast_cost t e sender c :
      table_step t (set_anycast_cost t e sender c).2
  | step_remove_endpoint t e w :
      table_step t (remove_endpoint t e w).2
  | step_add_remote_endpoint t e origin info :
      table_step t (add_remote_endpoint t e origin info).2
  | step_remove_remote_endpoint t e origin :
      table_step t (remove_remote_endpoint t e origin).2
  | step_shutdown t w :
      table_step t (table_shutdown t w).1.

Lemma table_step_wf `{Cd : Codec} `{E : !Env} t t' : table_step t t' -> table_wf t -> table_wf t'.
Proof. destruct 1; auto with anybus. intros _. apply map_Forall_empty. Qed.

(** C23: every table the operations can produce from the empty one is well formed: all routes of
    an endpoint are of the entry's kind, a remote node appears at most once, a unicast endpoint
    has at most one route, and only an entry of kind [Node] can be without routes. *)
Theorem table_always_wf `{Cd : Codec} `{E : !Env} t : rtc table_step table_new t -> table_wf t.
Proof.
  intros Hr. assert (Ht : table_wf table_new) by apply map_Forall_empty.
  induction Hr as [t|t t1 t2 Hstep _ IH]; [done|]. apply IH. by eapply table_step_wf.
Qed.

(** * What the effects mean

    A node advertises, for each of its endpoints, the least cost among its local
    listeners. The table does not hold the advertisement; it asks for changes to
    it. Reading the requested effect on the advertised cost gives the contract
    between the table and the link-state database. *)

Definition local_min (t : RouteTable) (e : EndpointId) : option Cost :=
  match t !! e with Some en => min_local_cost (re_routes en) | None => None end.

Definition apply_effect (eff : Effects) (advertised : option Cost) : option Cost :=
  match eff with
  | AddLsa _ info => Some (ei_cost info)
  | UpdateLsa _ c => Some c
  | RemoveLsa _ => None
  | RebuildFib | Noop => advertised
  end.

Section effects.
Implicit Types (t : RouteTable) (en : LsRouteEntry) (e : EndpointId).

Lemma local_min_insert t e en : local_min (<[e := en]> t) e = min_local_cost (re_routes en).
Proof. unfold local_min. by rewrite lookup_insert_eq. Qed.

Lemma local_min_entry t e kind :
  local_min t e = min_local_cost (re_routes (entry_or_insert t e kind)).
Proof. unfold local_min, entry_or_insert. by destruct (t !! e). Qed.

Lemma existsb_local routes :
  existsb (fun r => is_local (r_via r)) routes = true <-> is_Some (min_local_cost routes).
Proof.
  rewrite <- not_eq_None_Some, min_local_cost_None. split.
  - intros (r & Hr & Hl)%existsb_exists Hall. apply list_elem_of_In in Hr.
    by rewrite (Hall r Hr) in Hl.
  - intros Hn. destruct (existsb _ _) eqn:Ex; [done|]. exfalso. apply Hn.
    intros r Hr. destruct (is_local (r_via r)) eqn:El; [|done].
    assert (existsb (fun r => is_local (r_via r)) routes = true) as H; [|congruence].
    apply existsb_exists. exists r. by rewrite <- list_elem_of_In.
Qed.

Lemma not_existsb_local routes :
  existsb (fun r => is_local (r_via r)) routes = false <-> min_local_cost routes = None.
Proof.
  by rewrite eq_None_not_Some, <- existsb_local, not_true_iff_false.
Qed.

(** Routes through other nodes do not count. *)
Lemma local_costs_retain_not_origin origin routes :
  local_costs (retain (fun r => negb (is_origin origin r)) routes) = local_costs routes.
Proof.
  unfold local_costs. induction routes as [|r rs IH]; [done|].
  rewrite !retain_cons. unfold is_origin at 1. destruct (r_via r) eqn:Ev; simpl.
  - rewrite retain_cons, Ev. simpl. by rewrite IH.
  - destruct (bool_decide _); simpl; [done|]. by rewrite retain_cons, Ev.
Qed.

Lemma local_costs_update_remote origin info routes x routes' :
  find_update (is_origin origin) (update_route_info info) routes = Some (x, routes') ->
  local_costs routes' = local_costs routes.
Proof.
  intros (l1 & l2 & -> & -> & Hx)%find_update_Some.
  rewrite !local_costs_app. f_equal. unfold local_costs. rewrite !retain_cons. simpl.
  unfold is_origin in Hx. by destruct (r_via x).
Qed.

(** A registration asks for exactly the change of the advertised cost. *)
Lemma add_endpoint_effect t e info sender eff t' :
  table_wf t -> ei_kind info = Unicast \/ ei_kind info = Anycast ->
  add_endpoint t e info sender = (inr eff, t') ->
  apply_effect eff (local_min t e) = local_min t' e.
Proof.
  intros Ht Hkind. unfold add_endpoint.
  rewrite (local_min_entry t e (ei_kind info)).
  set (en := entry_or_insert t e (ei_kind info)). case_decide as Hk; [|done].
  destruct (ei_kind info); try (by destruct Hkind).
  - destruct (re_routes en) eqn:Er; [|done]. intros [= <- <-].
    rewrite local_min_insert. simpl. rewrite Er. done.
  - pose proof (min_local_cost_push (re_routes en)
      (mkLsRoute (Local sender) (ei_cost info) (ei_realm info) Anycast) eq_refl) as Hpush.
    destruct (min_local_cost (re_routes en)) as [m|]; simpl in Hpush.
    + destruct (N.ltb_spec (ei_cost info) m); intros [= <- <-];
        rewrite local_min_insert; simpl; rewrite Hpush; f_equal; lia.
    + intros [= <- <-]. rewrite local_min_insert. simpl. by rewrite Hpush.
Qed.

(** For a broadcast endpoint only the presence of a listener is advertised. *)
Lemma add_endpoint_broadcast_effect t e info sender eff t' :
  ei_kind info = Broadcast \/ ei_kind info = Multicast ->
  add_endpoint t e info sender = (inr eff, t') ->
  is_Some (local_min t' e) /\
  (eff = Noop <-> is_Some (local_min t e)) /\
  (eff = AddLsa e info <-> local_min t e = None).
Proof.
  intros Hkind. unfold add_endpoint. rewrite (local_min_entry t e (ei_kind info)).
  set (en := entry_or_insert t e (ei_kind info)). case_decide as Hk; [|done].
  intros Heff.
  assert (eff = (if existsb (fun r => is_local (r_via r)) (re_routes en) then Noop else AddLsa e info)
    /\ t' = <[e := push_route en (mkLsRoute (Local sender) (ei_cost info) (ei_realm info)
                                    (ei_kind info))]> (<[e := en]> t)) as [-> ->].
  { destruct (ei_kind info), Hkind; try done; by injection Heff as <- <-. }
  rewrite local_min_insert. unfold push_route at 1. simpl.
  rewrite min_local_cost_push by done. split; [by eexists|].
  destruct (existsb _ _) eqn:Ex.
  - apply existsb_local in Ex as [m Hm]. rewrite Hm. split; [|done].
    split; [by eexists | done].
  - apply not_existsb_local in Ex. rewrite Ex. split; [|done]. split; [done|by intros []].
Qed.

Lemma set_anycast_cost_effect t e sender c out t' :
  set_anycast_cost t e sender c = (inr out, t') ->
  local_min t' e =
    match out with
    | Unchanged => local_min t e
    | Changed _ _ advertise =>
        match advertise with Some m => Some m | None => local_min t e end
    end.
Proof.
  unfold set_anycast_cost. unfold local_min at 2. unfold local_min at 2.
  destruct (t !! e) as [en|] eqn:He; [|done].
  case_decide; [|done]. destruct (find_update _ _ _) as [[r routes']|] eqn:Hf; [|done].
  destruct (N.eqb_spec (r_cost r) c).
  { intros [= <- <-]. unfold local_min. by rewrite He. }
  intros [= <- <-]. rewrite local_min_insert. simpl.
  destruct (find_update_Some _ _ _ _ _ Hf) as (l1 & l2 & Hl & Hl' & Hs).
  assert (Hloc : is_local (r_via r) = true) by (unfold is_sender in Hs; by destruct (r_via r)).
  assert (min_local_cost (re_routes en) <> None /\ min_local_cost routes' <> None) as [Hp Hn].
  { rewrite !min_local_cost_None, Hl, Hl'. split; intros Hall.
    - rewrite (Hall r) in Hloc; [done|]. apply elem_of_app. right. by left.
    - specialize (Hall (set_route_cost c r)). simpl in Hall. rewrite Hall in Hloc; [done|].
      apply elem_of_app. right. by left. }
  destruct (min_local_cost (re_routes en)) as [m|], (min_local_cost routes') as [m'|]; try done.
  by destruct (N.eqb_spec m m') as [->|].
Qed.

(** Learning or forgetting a remote route changes nothing this node advertises. *)
Lemma add_remote_endpoint_local_min t e origin info e' :
  local_min (add_remote_endpoint t e origin info).2 e' = local_min t e'.
Proof.
  unfold add_remote_endpoint. rewrite (local_min_entry t e' (ei_kind info)).
  destruct (decide (e' = e)) as [->|Hne].
  - repeat case_match; simpl; rewrite ?local_min_insert; simpl; try done.
    { unfold min_local_cost. f_equal. by eapply (local_costs_update_remote origin info). }
    all: by apply min_local_cost_push_remote.
  - rewrite <- (local_min_entry t e' (ei_kind info)). unfold local_min.
    repeat case_match; simplify_map_eq; done.
Qed.

Lemma remove_remote_endpoint_local_min t e origin e' :
  local_min (remove_remote_endpoint t e origin).2 e' = local_min t e'.
Proof.
  unfold remove_remote_endpoint. destruct (t !! e) as [en|] eqn:He; [|done].
  pose proof (local_costs_retain_not_origin origin (re_routes en)) as Hc.
  destruct (decide (e' = e)) as [->|Hne]; unfold local_min.
  - rewrite He. destruct (retain _ _) as [|r rs]; simpl.
    + rewrite lookup_delete_eq. unfold min_local_cost. fold (local_costs (re_routes en)).
      by rewrite <- Hc.
    + rewrite lookup_insert_eq. simpl. unfold min_local_cost. fold (local_costs (re_routes en)).
      by rewrite <- Hc.
  - destruct (retain _ _); simpl; by simplify_map_eq.
Qed.

Context `{Cd : Codec} `{E : !Env}.

(** The listener of the entry vanished while a route through another node stays. *)
Definition stale_advertisement (t t' : RouteTable) (e : EndpointId) : Prop :=
  is_Some (local_min t e) /\ local_min t' e = None /\ is_Some (t' !! e).

(** What a node should say of an endpoint: nothing without a listener; of an anycast endpoint its
    least cost, of any other that it is there. *)
Definition serving (t : RouteTable) (e : EndpointId) : option (option Cost) :=
  match t !! e with
  | Some en => (fun c => if decide (re_kind en = Anycast) then Some c else None) <$> min_local_cost (re_routes en)
  | None => None
  end.

(** What a node that said [said] says once it followed the effect. *)
Definition follow (eff : Effects) (said : option (option Cost)) : option (option Cost) :=
  match eff with
  | AddLsa _ info => Some (if decide (ei_kind info = Anycast) then Some (ei_cost info) else None)
  | UpdateLsa _ c => (fun _ => Some c) <$> said
  | RemoveLsa _ => None
  | RebuildFib | Noop => said
  end.

Lemma serving_lookup t e en : t !! e = Some en ->
  serving t e = (fun c => if decide (re_kind en = Anycast) then Some c else None) <$> min_local_cost (re_routes en).
Proof. unfold serving. by intros ->. Qed.

(** Fewer routes, no new minimum: a listener that is left was there before. *)
Lemma min_local_retain p l c : min_local_cost (retain p l) = Some c -> is_Some (min_local_cost l).
Proof.
  unfold min_local_cost. intros Hc. destruct (min_cost (map r_cost (retain (fun r => is_local (r_via r)) l))) eqn:Hn; [by eexists|].
  apply min_cost_None in Hn. apply map_eq_nil in Hn.
  assert (Hnil : retain (fun r => is_local (r_via r)) (retain p l) = []).
  { destruct (retain _ (retain p l)) as [|x xs] eqn:Hx; [done|]. assert (Hin : x ∈ x :: xs) by by left. rewrite <- Hx in Hin.
    apply elem_of_retain in Hin as [Hloc [_ Hin]%elem_of_retain].
    assert (Hl : x ∈ retain (fun r => is_local (r_via r)) l) by by apply elem_of_retain. rewrite Hn in Hl. by apply elem_of_nil in Hl. }
  by rewrite Hnil in Hc.
Qed.

(** C22: removing the closed listeners of an endpoint, of whatever kind, asks for the change of
    advertisement it should, with one exception: when the last local listener is gone but a route
    through another node remains, the effect leaves this node advertising an endpoint it no longer
    serves. A unicast endpoint of a well-formed table is never such an exception: it has one route. *)
Theorem remove_endpoint_effect_iff t e w eff t' :
  remove_endpoint t e w = (eff, t') ->
  (follow eff (serving t e) = serving t' e <-> ~ stale_advertisement t t' e) /\
  (table_wf t -> (exists en, t !! e = Some en /\ re_kind en = Unicast) -> ~ stale_advertisement t t' e).
Proof.
  unfold remove_endpoint, stale_advertisement. destruct (t !! e) as [en|] eqn:He.
  2: { intros [= <- <-]. unfold serving, local_min. simpl. rewrite He. naive_solver. }
  rewrite (serving_lookup t e en He).
  assert (Hl : local_min t e = min_local_cost (re_routes en)) by (unfold local_min; by rewrite He). rewrite Hl.
  destruct (retain (keep_open w) (re_routes en)) as [|r rs] eqn:Er.
  { intros [= <- <-]. unfold serving, local_min. simpl. rewrite lookup_delete_eq. naive_solver. }
  pose proof (min_local_retain (keep_open w) (re_routes en)) as Hkept. rewrite Er in Hkept.
  set (en' := mkLsRouteEntry (r :: rs) (re_kind en)) in *. set (t1 := <[e := en']> t).
  assert (Ht1 : t1 !! e = Some en') by apply lookup_insert_eq.
  assert (Hl' : local_min t1 e = min_local_cost (r :: rs)) by apply local_min_insert.
  intros Heff. assert (t' = t1) as -> by (repeat case_match; congruence).
  rewrite (serving_lookup t1 e en' Ht1), Hl'. cbn [re_kind re_routes en']. split.
  - revert Heff. destruct (min_local_cost (r :: rs)) as [m|] eqn:Em.
    + destruct (Hkept m eq_refl) as [m0 Hm0]. rewrite Hm0. repeat case_decide; intros [= <-]; simpl; naive_solver.
    + intros Heff. assert (Hf : follow eff = fun said => said) by (repeat case_decide; by injection Heff as <-).
      rewrite Hf. rewrite Ht1. destruct (min_local_cost (re_routes en)); naive_solver.
  - intros Hwf (en0 & [= <-] & Hu). specialize (Hwf e en He). pose proof (wf_unicast _ Hwf Hu) as Hlen.
    destruct (re_routes en) as [|x [|y l]] eqn:Hr; [done| |simpl in Hlen; lia].
    rewrite retain_cons in Er. change (retain (keep_open w) []) with (@nil LsRoute) in Er.
    destruct (keep_open w x); [|done]. injection Er as <- <-.
    intros ((m & Hm) & Hnone & _). by rewrite Hm in Hnone.
Qed.
End effects.

(** * Kinds of the entries

    No operation changes the kind of an entry, and a new entry has the kind it was
    registered or learned with. [build_from_db] has no case for [Multicast]. *)
Definition no_multicast (t : RouteTable) : Prop := map_Forall (fun _ en => re_kind en <> Multicast) t.

Definition routes_ok (t : RouteTable) : Prop := table_wf t /\ no_multicast t.

Section kinds.
Implicit Types (t : RouteTable) (en : LsRouteEntry) (e : EndpointId).

Lemma no_multicast_insert t e en :
  no_multicast t -> re_kind en <> Multicast -> no_multicast (<[e := en]> t).
Proof. intros Ht Hen. by apply map_Forall_insert_2. Qed.

Lemma no_multicast_entry t e kind :
  no_multicast t -> kind <> Multicast -> re_kind (entry_or_insert t e kind) <> Multicast.
Proof.
  intros Ht Hk. unfold entry_or_insert. destruct (t !! e) as [en|] eqn:He; [|done].
  by apply (Ht e en He).
Qed.

#[local] Hint Resolve no_multicast_insert no_multicast_entry : anybus.

Lemma add_endpoint_routes_ok t e info sender :
  ei_kind info <> Multicast -> routes_ok t -> routes_ok (add_endpoint t e info sender).2.
Proof.
  intros Hk [Hwf Hnm]. split; [by apply add_endpoint_wf|]. unfold add_endpoint.
  pose proof (no_multicast_entry t e (ei_kind info) Hnm Hk) as Hen.
  set (en := entry_or_insert _ _ _) in *. clearbody en.
  repeat case_match; simpl; auto 10 with anybus.
Qed.

Lemma set_anycast_cost_routes_ok t e sender c :
  routes_ok t -> routes_ok (set_anycast_cost t e sender c).2.
Proof.
  intros [Hwf Hnm]. split; [by apply set_anycast_cost_wf|]. unfold set_anycast_cost.
  destruct (t !! e) as [en|] eqn:He; [|done]. pose proof (Hnm e en He) as Hen. simpl in Hen.
  repeat case_match; simpl; auto with anybus.
Qed.

Lemma remove_endpoint_routes_ok `{Cd : Codec} `{E : !Env} t e w :
  routes_ok t -> routes_ok (remove_endpoint t e w).2.
Proof.
  intros [Hwf Hnm]. split; [by apply remove_endpoint_wf|]. unfold remove_endpoint.
  destruct (t !! e) as [en|] eqn:He; [|done]. pose proof (Hnm e en He) as Hen. simpl in Hen.
  repeat case_match; simpl; auto with anybus; by apply map_Forall_delete.
Qed.

Lemma add_remote_endpoint_routes_ok t e origin info :
  ei_kind info <> Multicast -> routes_ok t -> routes_ok (add_remote_endpoint t e origin info).2.
Proof.
  intros Hk [Hwf Hnm]. split; [by apply add_remote_endpoint_wf|]. unfold add_remote_endpoint.
  pose proof (no_multicast_entry t e (ei_kind info) Hnm Hk) as Hen.
  set (en := entry_or_insert _ _ _) in *. clearbody en.
  repeat case_match; simpl; auto 10 with anybus.
Qed.

Lemma remove_remote_endpoint_routes_ok t e origin :
  routes_ok t -> routes_ok (remove_remote_endpoint t e origin).2.
Proof.
  intros [Hwf Hnm]. split; [by apply remove_remote_endpoint_wf|]. unfold remove_remote_endpoint.
  destruct (t !! e) as [en|] eqn:He; [|done]. pose proof (Hnm e en He) as Hen. simpl in Hen.
  repeat case_match; simpl; auto with anybus; by apply map_Forall_delete.
Qed.

Lemma routes_ok_empty : routes_ok ∅.
Proof. split; apply map_Forall_empty. Qed.
End kinds.

(** A successful registration leaves a route to the new listener. *)
Lemma add_endpoint_routed t e info sender eff t' :
  ei_kind info = Unicast \/ ei_kind info = Anycast \/ ei_kind info = Broadcast ->
  add_endpoint t e info sender = (inr eff, t') ->
  exists en rs, t' !! e = Some en /\ re_kind en = ei_kind info /\
    re_routes en = rs ++ [mkLsRoute (Local sender) (ei_cost info) (ei_realm info) (ei_kind info)] /\
    (ei_kind info = Unicast -> rs = []).
Proof.
  intros Hkind. unfold add_endpoint. set (en := entry_or_insert _ _ _). case_decide as Hk; [|done].
  set (route := mkLsRoute _ _ _ _). intros Heq.
  assert (t' = <[e := push_route en route]> (<[e := en]> t) /\
    (ei_kind info = Unicast -> re_routes en = [])) as [-> Hu].
  { destruct Hkind as [Hc|[Hc|Hc]]; rewrite Hc in Heq.
    - destruct (re_routes en) eqn:Hre; [|done]. by injection Heq as _ <-.
    - destruct (min_local_cost _); [destruct (N.ltb _ _)|]; injection Heq as _ <-; (split; [done|congruence]).
    - injection Heq as _ <-. split; [done|congruence]. }
  exists (push_route en route), (re_routes en). rewrite lookup_insert_eq. done.
Qed.
