(* ===== verification/RouteSpec.v ===== *)
(** What the route table is for: a directory that maps an endpoint to its kind and to who provides
    it, a local listener or another node, at what cost and in which realm. The lists of
    [route_table.rs] implement it. *)
From S2P Require Import Prelude Types Messages World RouteTable.

(** * The directory *)
#[export] Instance LsForwardTo_countable : Countable LsForwardTo.
Proof.
  apply (inj_countable' (fun v => match v with Local tx => inl tx | Remote n => inr n end)
           (fun s => match s with inl tx => Local tx | inr n => Remote n end)).
  by intros [].
Defined.

Abbreviation Providers := (gmap LsForwardTo (Cost * Realm)).
Abbreviation Directory := (gmap EndpointId (RouteKind * Providers)).

(** Requests and answers. *)
Inductive DirOp :=
  | OpRegister (e : EndpointId) (info : EndpointInfo) (sender : ChanId)
  | OpSetCost (e : EndpointId) (sender : ChanId) (c : Cost)
  | OpSweep (e : EndpointId) (open : ChanId -> bool)
  | OpLearn (e : EndpointId) (origin : NodeId) (info : EndpointInfo)
  | OpForget (e : EndpointId) (origin : NodeId).

Inductive DirAnswer :=
  | Granted
  | Refused (r : RouteTableError)
  | CostRefused (r : SetAnycastCostError).

Definition is_open (open : ChanId -> bool) (via : LsForwardTo) : bool :=
  match via with Local tx => open tx | Remote _ => true end.

(** Keeping some providers; an endpoint without providers is forgotten. *)
Definition keep_providers (q : LsForwardTo -> bool) (e : EndpointId) (d : Directory) : Directory :=
  match d !! e with
  | None => d
  | Some (k, ps) =>
      let ps := filter (fun p => q p.1 = true) ps in
      if decide (ps = ∅) then delete e d else <[e := (k, ps)]> d
  end.

Definition dir_op (op : DirOp) (d : Directory) : DirAnswer * Directory :=
  match op with
  | OpRegister e info sender =>
      match d !! e, ei_kind info with
      | None, Node => (Granted, <[e := (Node, ∅)]> d)
      | None, k => (Granted, <[e := (k, {[Local sender := (ei_cost info, ei_realm info)]})]> d)
      | Some (k, ps), k' =>
          if decide (k = k') then
            match k with
            | Unicast => (Refused DuplicateUnicast, d)
            | Node => (Granted, d)
            | _ => (Granted, <[e := (k, <[Local sender := (ei_cost info, ei_realm info)]> ps)]> d)
            end
          else (Refused MismatchedRouteKind, d)
      end
  | OpSetCost e sender c =>
      match d !! e with
      | Some (Anycast, ps) =>
          match ps !! Local sender with
          | Some (_, realm) => (Granted, <[e := (Anycast, <[Local sender := (c, realm)]> ps)]> d)
          | None => (CostRefused NotRegistered, d)
          end
      | Some _ => (CostRefused NotAnycast, d)
      | None => (CostRefused NotRegistered, d)
      end
  | OpSweep e open => (Granted, keep_providers (is_open open) e d)
  | OpLearn e origin info =>
      let v := (ei_cost info, ei_realm info) in
      match d !! e with
      | None => (Granted, <[e := (ei_kind info, {[Remote origin := v]})]> d)
      | Some (k, ps) =>
          if decide (k = ei_kind info) then
            if decide (k = Unicast /\ ps <> ∅ /\ ps !! Remote origin = None) then (Refused DuplicateUnicast, d)
            else (Granted, <[e := (k, <[Remote origin := v]> ps)]> d)
          else (Refused MismatchedRouteKind, d)
      end
  | OpForget e origin => (Granted, keep_providers (fun v => negb (bool_decide (v = Remote origin))) e d)
  end.

(** * The table as a directory *)
Section table.
Context `{Cd : Codec} `{E : !Env}.

(** The same requests made of the table; the channels are as they are in [w]. *)
Definition table_op (op : DirOp) (w : World) (t : RouteTable) : DirAnswer * RouteTable :=
  match op with
  | OpRegister e info sender =>
      let '(r, t) := add_endpoint t e info sender in
      (match r with inl err => Refused err | inr _ => Granted end, t)
  | OpSetCost e sender c =>
      let '(r, t) := set_anycast_cost t e sender c in
      (match r with inl err => CostRefused err | inr _ => Granted end, t)
  | OpSweep e _ => (Granted, (remove_endpoint t e w).2)
  | OpLearn e origin info =>
      let '(r, t) := add_remote_endpoint t e origin info in
      (match r with inl err => Refused err | inr _ => Granted end, t)
  | OpForget e origin => (Granted, (remove_remote_endpoint t e origin).2)
  end.

Definition provider (r : LsRoute) : LsForwardTo * (Cost * Realm) := (r_via r, (r_cost r, r_realm r)).
Definition providers (rs : list LsRoute) : Providers := list_to_map (map provider rs).
Definition dir_entry (en : LsRouteEntry) : RouteKind * Providers := (re_kind en, providers (re_routes en)).
Definition directory (t : RouteTable) : Directory := dir_entry <$> t.

(** Nobody provides an endpoint twice. *)
Definition vias (rs : list LsRoute) : list LsForwardTo := map r_via rs.
Definition distinct (t : RouteTable) : Prop := map_Forall (fun _ en => NoDup (vias (re_routes en))) t.

(** A registration brings a channel of its own, and a sweep sees the channels as they are. *)
Definition op_ok (op : DirOp) (w : World) (d : Directory) : Prop :=
  match op with
  | OpRegister e _ sender => forall k ps, d !! e = Some (k, ps) -> ps !! Local sender = None
  | OpSweep _ open => forall tx, open tx = negb (env_is_closed w tx)
  | _ => True
  end.

(** * Lists of routes as maps *)
Lemma fst_provider rs : (map provider rs).*1 = vias rs.
Proof. unfold vias. induction rs as [|r rs IH]; [done|]. simpl. by f_equal. Qed.

Lemma providers_None rs v : providers rs !! v = None <-> v ∉ vias rs.
Proof. unfold providers. by rewrite <- not_elem_of_list_to_map, fst_provider. Qed.

Lemma providers_Some rs r : NoDup (vias rs) -> r ∈ rs -> providers rs !! r_via r = Some (r_cost r, r_realm r).
Proof.
  intros Hnd Hr. apply elem_of_list_to_map; [by rewrite fst_provider|].
  apply list_elem_of_fmap. by exists r.
Qed.

Lemma providers_cons r rs : providers (r :: rs) = <[r_via r := (r_cost r, r_realm r)]> (providers rs).
Proof. done. Qed.

Lemma providers_push rs r :
  r_via r ∉ vias rs -> providers (rs ++ [r]) = <[r_via r := (r_cost r, r_realm r)]> (providers rs).
Proof.
  intros Hr. unfold providers. rewrite map_app. simpl. apply list_to_map_snoc. by rewrite fst_provider.
Qed.

Lemma providers_empty rs : providers rs = ∅ <-> rs = [].
Proof.
  split; [|by intros ->]. destruct rs as [|r rs]; [done|]. rewrite providers_cons.
  intros H%insert_non_empty. done.
Qed.

Lemma vias_retain_sublist p rs : sublist (vias (retain p rs)) (vias rs).
Proof. unfold vias. apply (fmap_sublist r_via), retain_sublist. Qed.

Lemma providers_retain (p : LsRoute -> bool) (q : LsForwardTo -> bool) rs :
  (forall r, p r = q (r_via r)) -> NoDup (vias rs) ->
  providers (retain p rs) = filter (fun v => q v.1 = true) (providers rs).
Proof.
  intros Hpq. induction rs as [|r rs IH]; intros Hnd; [done|].
  inversion Hnd as [|? ? Hnew Hnd']; subst. rewrite retain_cons, (providers_cons r), Hpq.
  destruct (q (r_via r)) eqn:Hq.
  - rewrite providers_cons, IH by done. by rewrite map_filter_insert_True.
  - rewrite map_filter_insert_False by (simpl; congruence).
    rewrite delete_id by (by apply providers_None). by apply IH.
Qed.

(** Updating the route of one provider. *)
Lemma providers_update p f v rs x rs' :
  (forall r, p r = bool_decide (r_via r = v)) -> (forall r, r_via (f r) = r_via r) ->
  NoDup (vias rs) -> find_update p f rs = Some (x, rs') ->
  r_via x = v /\ x ∈ rs /\ vias rs' = vias rs /\ providers rs' = <[v := (r_cost (f x), r_realm (f x))]> (providers rs).
Proof.
  intros Hp Hf Hnd (l1 & l2 & -> & -> & Hx)%find_update_Some. rewrite Hp, bool_decide_eq_true in Hx. subst v.
  split; [done|]. split; [apply elem_of_app; right; by left|]. split.
  { unfold vias. rewrite !map_app. simpl. by rewrite Hf. }
  clear Hp. induction l1 as [|r l1 IH]; simpl in *.
  - rewrite !providers_cons, Hf, insert_insert_eq. done.
  - inversion Hnd as [|? ? Hnew Hnd']; subst. rewrite !(providers_cons r), IH by done.
    apply insert_insert_ne. intros Heq. apply Hnew. rewrite Heq. unfold vias. rewrite map_app.
    apply elem_of_app. right. by left.
Qed.

Lemma providers_no_update p f v rs :
  (forall r, p r = bool_decide (r_via r = v)) -> find_update p f rs = None -> providers rs !! v = None.
Proof.
  intros Hp Hn. apply providers_None. intros (r & -> & Hr)%list_elem_of_fmap.
  pose proof (find_update_None _ _ _ Hn r Hr) as Hf. by rewrite Hp, bool_decide_true in Hf.
Qed.

Lemma is_sender_via tx r : is_sender tx r = bool_decide (r_via r = Local tx).
Proof.
  unfold is_sender. destruct (r_via r) as [tx'|n]; [|by rewrite bool_decide_false].
  destruct (N.eqb_spec tx' tx) as [->|]; [by rewrite bool_decide_true|]. rewrite bool_decide_false; congruence.
Qed.

Lemma is_origin_via n r : is_origin n r = bool_decide (r_via r = Remote n).
Proof.
  unfold is_origin. destruct (r_via r) as [tx|n']; [by rewrite bool_decide_false|].
  apply bool_decide_ext. split; congruence.
Qed.

(** * Each operation *)
Definition dir_inv (t : RouteTable) : Prop := table_wf t /\ distinct t.

Lemma directory_lookup t e : directory t !! e = dir_entry <$> t !! e.
Proof. apply lookup_fmap. Qed.
Lemma directory_insert t e en : directory (<[e := en]> t) = <[e := dir_entry en]> (directory t).
Proof. apply fmap_insert. Qed.
Lemma directory_delete t e : directory (delete e t) = delete e (directory t).
Proof. apply fmap_delete. Qed.

Lemma distinct_insert t e rs k : distinct t -> NoDup (vias rs) -> distinct (<[e := mkLsRouteEntry rs k]> t).
Proof. intros. by apply map_Forall_insert_2. Qed.
Lemma distinct_lookup t e en : distinct t -> t !! e = Some en -> NoDup (vias (re_routes en)).
Proof. intros Ht He. exact (Ht e en He). Qed.

(** A new route of a new provider. *)
Lemma push_refines t e en r :
  distinct t -> t !! e = Some en -> r_via r ∉ vias (re_routes en) ->
  directory (<[e := push_route en r]> t) =
    <[e := (re_kind en, <[r_via r := (r_cost r, r_realm r)]> (providers (re_routes en)))]> (directory t) /\
  distinct (<[e := push_route en r]> t).
Proof.
  intros Ht He Hr. rewrite directory_insert. unfold push_route, dir_entry at 1. simpl. rewrite providers_push by done.
  split; [done|]. apply distinct_insert; [done|]. unfold vias. rewrite map_app. simpl. apply NoDup_app.
  split; [by eapply distinct_lookup|]. split; [|apply NoDup_singleton].
  intros v Hv ->%list_elem_of_singleton. done.
Qed.

(** An endpoint that was not there. *)
Lemma first_refines t e r k :
  distinct t -> directory (<[e := mkLsRouteEntry [r] k]> t) = <[e := (k, {[r_via r := (r_cost r, r_realm r)]})]> (directory t) /\
  distinct (<[e := mkLsRouteEntry [r] k]> t).
Proof. intros Ht. rewrite directory_insert. split; [done|]. apply distinct_insert; [done|]. apply NoDup_singleton. Qed.

Lemma register_refines t e info sender w a t' :
  dir_inv t -> op_ok (OpRegister e info sender) w (directory t) ->
  table_op (OpRegister e info sender) w t = (a, t') ->
  dir_op (OpRegister e info sender) (directory t) = (a, directory t') /\ distinct t'.
Proof.
  intros [Hwf Ht] Hok. cbn [table_op dir_op]. unfold add_endpoint, entry_or_insert. rewrite directory_lookup.
  simpl in Hok. setoid_rewrite directory_lookup in Hok. destruct info as [kind realm cost]. cbn [ei_kind ei_cost ei_realm].
  set (route := mkLsRoute (Local sender) cost realm kind).
  destruct (t !! e) as [en|] eqn:He; cbn [fmap option_fmap option_map].
  - rewrite (insert_id t e en He). unfold dir_entry. cbn beta iota. case_decide as Hk; [|by intros [= <- <-]].
    assert (Hfresh : r_via route ∉ vias (re_routes en)) by (apply providers_None; by eapply Hok).
    destruct (push_refines t e en route Ht He Hfresh) as [Hp Hd].
    pose proof (table_wf_lookup _ _ _ Hwf He) as Hen. rewrite Hk in *.
    destruct kind; simpl.
    + destruct (re_routes en) eqn:Er; [by pose proof (wf_nonempty _ Hen Er); congruence|]. by intros [= <- <-].
    + intros Heq. assert (a = Granted /\ t' = <[e := push_route en route]> t) as [-> ->]
        by (destruct (min_local_cost _); [destruct (N.ltb _ _)|]; simpl in Heq; by injection Heq as <- <-).
      split; [|exact Hd]. by rewrite Hp.
    + intros [= <- <-]. split; [|exact Hd]. by rewrite Hp.
    + intros [= <- <-]. split; [|exact Hd]. by rewrite Hp.
    + by intros [= <- <-].
  - rewrite decide_True by done. destruct (first_refines t e route kind Ht) as [Hp Hd].
    destruct kind; simpl; rewrite ?insert_insert_eq; intros [= <- <-];
      try (split; [f_equal; symmetry; exact Hp | exact Hd]).
    rewrite directory_insert. split; [done|]. apply distinct_insert; [done|]. constructor.
Qed.

Lemma set_cost_refines t e sender c w a t' :
  dir_inv t -> table_op (OpSetCost e sender c) w t = (a, t') ->
  dir_op (OpSetCost e sender c) (directory t) = (a, directory t') /\ distinct t'.
Proof.
  intros [_ Ht]. cbn [table_op dir_op]. unfold set_anycast_cost. rewrite directory_lookup.
  destruct (t !! e) as [en|] eqn:He; [|by intros [= <- <-]]. simpl.
  pose proof (distinct_lookup _ _ _ Ht He) as Hnd. case_decide as Hk.
  2: { intros [= <- <-]. by destruct (re_kind en). }
  rewrite Hk. destruct (find_update _ _ _) as [[r routes']|] eqn:Hf.
  - destruct (providers_update _ (set_route_cost c) (Local sender) _ _ _ (is_sender_via sender) (fun _ => eq_refl) Hnd Hf)
      as (Hv & Hin & Hvias & Hp).
    pose proof (providers_Some _ _ Hnd Hin) as Hl. rewrite Hv in Hl. rewrite Hl.
    destruct (N.eqb_spec (r_cost r) c) as [<-|Hne]; intros [= <- <-].
    + split; [|done]. f_equal. rewrite insert_id; [done|]. rewrite directory_lookup, He. simpl.
      unfold dir_entry. rewrite Hk. do 2 f_equal. by rewrite insert_id.
    + rewrite directory_insert. unfold dir_entry. simpl. rewrite Hp. split; [done|].
      apply distinct_insert; [done|]. by rewrite Hvias.
  - intros [= <- <-]. by rewrite (providers_no_update _ _ _ _ (is_sender_via sender) Hf).
Qed.

Lemma learn_refines t e origin info w a t' :
  dir_inv t -> table_op (OpLearn e origin info) w t = (a, t') ->
  dir_op (OpLearn e origin info) (directory t) = (a, directory t') /\ distinct t'.
Proof.
  intros [Hwf Ht]. cbn [table_op dir_op]. unfold add_remote_endpoint, entry_or_insert. rewrite directory_lookup.
  set (route := mkLsRoute (Remote origin) (ei_cost info) (ei_realm info) (ei_kind info)).
  destruct (t !! e) as [en|] eqn:He; cbn [fmap option_fmap option_map].
  - rewrite (insert_id t e en He). unfold dir_entry. cbn beta iota. case_decide as Hk; [|by intros [= <- <-]].
    pose proof (distinct_lookup _ _ _ Ht He) as Hnd. destruct (find_update _ _ _) as [[x rs]|] eqn:Hf.
    + destruct (providers_update _ (update_route_info info) (Remote origin) _ _ _ (is_origin_via origin) (fun _ => eq_refl) Hnd Hf)
        as (Hv & Hin & Hvias & Hp).
      pose proof (providers_Some _ _ Hnd Hin) as Hl. rewrite Hv in Hl.
      rewrite (decide_False (P := re_kind en = Unicast /\ _)) by (intros (_ & _ & ?); congruence).
      case_decide as Hsame; intros [= <- <-].
      * destruct Hsame as [Hc Hr]. split; [|done]. f_equal. rewrite insert_id; [done|].
        rewrite directory_lookup, He. simpl. unfold dir_entry. do 2 f_equal. rewrite insert_id; [done|]. by rewrite Hl, Hc, Hr.
      * rewrite directory_insert. unfold dir_entry. simpl. rewrite Hp. split; [done|].
        apply distinct_insert; [done|]. by rewrite Hvias.
    + pose proof (providers_no_update _ _ _ _ (is_origin_via origin) Hf) as Hnone.
      assert (Hdec : re_kind en = Unicast /\ providers (re_routes en) <> ∅ /\ providers (re_routes en) !! Remote origin = None <->
        re_kind en = Unicast /\ re_routes en <> []) by (rewrite providers_empty; naive_solver).
      rewrite (decide_ext _ _ _ _ Hdec). case_decide; [by intros [= <- <-]|].
      destruct (push_refines t e en route Ht He) as [Hp Hd]; [by apply providers_None|].
      intros [= <- <-]. by rewrite Hp.
  - rewrite decide_True by done. destruct (first_refines t e route (ei_kind info) Ht) as [Hp Hd].
    cbn. rewrite decide_False by (by intros [_ []]). rewrite insert_insert_eq. intros [= <- <-].
    split; [f_equal; symmetry; exact Hp | exact Hd].
Qed.

(** A sweep of the list of one entry. *)
Lemma retain_refines t e en p q :
  distinct t -> t !! e = Some en -> (forall r, p r = q (r_via r)) ->
  let rs := retain p (re_routes en) in
  let t' := match rs with [] => delete e t | _ => <[e := mkLsRouteEntry rs (re_kind en)]> t end in
  keep_providers q e (directory t) = directory t' /\ distinct t'.
Proof.
  intros Ht He Hpq rs t'. pose proof (distinct_lookup _ _ _ Ht He) as Hnd.
  pose proof (providers_retain p q (re_routes en) Hpq Hnd) as Hp. fold rs in Hp.
  unfold keep_providers. rewrite directory_lookup, He. simpl. rewrite <- Hp. unfold t'. clear t'.
  destruct (decide (providers rs = ∅)) as [Hrs|Hrs]; rewrite providers_empty in Hrs.
  - rewrite Hrs. rewrite directory_delete. split; [done|]. by apply map_Forall_delete.
  - assert (Hnd' : NoDup (vias rs)) by by eapply sublist_NoDup, vias_retain_sublist.
    destruct rs as [|r rs]; [done|]. rewrite directory_insert. split; [done|]. by apply distinct_insert.
Qed.

Lemma sweep_refines t e open w a t' :
  dir_inv t -> op_ok (OpSweep e open) w (directory t) -> table_op (OpSweep e open) w t = (a, t') ->
  dir_op (OpSweep e open) (directory t) = (a, directory t') /\ distinct t'.
Proof.
  intros [_ Ht] Hok. cbn [table_op dir_op]. unfold remove_endpoint. destruct (t !! e) as [en|] eqn:He.
  2: { intros [= <- <-]. split; [|done]. unfold keep_providers. by rewrite directory_lookup, He. }
  pose proof (retain_refines t e en (keep_open w) (is_open open) Ht He) as Hr. cbv zeta in Hr.
  destruct Hr as [Hr Hd]; [intros r; unfold keep_open, is_open; by destruct (r_via r)|].
  intros [= <- <-]. rewrite Hr. destruct (retain (keep_open w) (re_routes en)); [done|].
  simpl. by repeat case_match.
Qed.

Lemma forget_refines t e origin w a t' :
  dir_inv t -> table_op (OpForget e origin) w t = (a, t') ->
  dir_op (OpForget e origin) (directory t) = (a, directory t') /\ distinct t'.
Proof.
  intros [_ Ht]. cbn [table_op dir_op]. unfold remove_remote_endpoint. destruct (t !! e) as [en|] eqn:He.
  2: { intros [= <- <-]. split; [|done]. unfold keep_providers. by rewrite directory_lookup, He. }
  pose proof (retain_refines t e en (fun r => negb (is_origin origin r)) (fun v => negb (bool_decide (v = Remote origin))) Ht He) as Hr.
  cbv zeta in Hr. destruct Hr as [Hr Hd]; [intros r; by rewrite is_origin_via|].
  intros [= <- <-]. rewrite Hr. by destruct (retain _ (re_routes en)).
Qed.
(** One request, whichever. *)
Lemma op_refines op w t a t' :
  dir_inv t -> op_ok op w (directory t) -> table_op op w t = (a, t') ->
  dir_op op (directory t) = (a, directory t') /\ dir_inv t'.
Proof.
  intros Hinv Hok Hop. assert (Hwf : table_wf t').
  { destruct Hinv as [Hwf _]. destruct op; simpl in Hop; repeat case_match; simplify_eq;
      lazymatch goal with
      | H : ?o = (_, ?t') |- table_wf ?t' => replace t' with o.2 by (by rewrite H)
      | |- _ => idtac
      end; auto with anybus. }
  unfold dir_inv. destruct op.
  - destruct (register_refines _ _ _ _ _ _ _ Hinv Hok Hop). done.
  - destruct (set_cost_refines _ _ _ _ _ _ _ Hinv Hop). done.
  - destruct (sweep_refines _ _ _ _ _ _ Hinv Hok Hop). done.
  - destruct (learn_refines _ _ _ _ _ _ _ Hinv Hop). done.
  - destruct (forget_refines _ _ _ _ _ _ Hinv Hop). done.
Qed.

(** * Sequences of requests *)
Fixpoint table_ops (ops : list (DirOp * World)) (t : RouteTable) : list DirAnswer * RouteTable :=
  match ops with
  | [] => ([], t)
  | (op, w) :: ops => let '(a, t) := table_op op w t in let '(l, t) := table_ops ops t in (a :: l, t)
  end.

Fixpoint dir_ops (ops : list (DirOp * World)) (d : Directory) : list DirAnswer * Directory :=
  match ops with
  | [] => ([], d)
  | (op, _) :: ops => let '(a, d) := dir_op op d in let '(l, d) := dir_ops ops d in (a :: l, d)
  end.

Fixpoint ops_ok (ops : list (DirOp * World)) (d : Directory) : Prop :=
  match ops with
  | [] => True
  | (op, w) :: ops => op_ok op w d /\ ops_ok ops (dir_op op d).2
  end.

(** C12: the route table implements the directory: whatever is registered, priced, swept, learned
    and forgotten, in whatever order, from the empty table on, every request is answered as the
    directory answers it, and the table always holds the directory's endpoints, with the
    directory's kinds, providers, costs and realms. *)
Theorem route_table_refines_directory ops :
  ops_ok ops ∅ -> dir_ops ops ∅ = ((table_ops ops table_new).1, directory (table_ops ops table_new).2).
Proof.
  assert (Hinv : dir_inv table_new) by (split; apply map_Forall_empty).
  assert (Hempty : (∅ : Directory) = directory table_new) by (symmetry; apply fmap_empty).
  rewrite Hempty. revert Hinv. generalize table_new. clear Hempty.
  induction ops as [|[op w] ops IH]; intros t Hinv Hok; [done|]. destruct Hok as [Hop Hok].
  simpl. destruct (table_op op w t) as [a t'] eqn:Ht. destruct (op_refines op w t a t' Hinv Hop Ht) as [Hd Hinv'].
  rewrite Hd in *. simpl in Hok. rewrite (IH t' Hinv' Hok). by destruct (table_ops ops t').
Qed.
End table.
