(* ===== verification/Linkstate.v ===== *)
(** [src/routing/linkstate.rs]: the links to neighbours, what may be sent over
    them, and the order of the entries of the shortest-path queue. *)
From Stdlib Require Import Strings.String.
From S2P Require Import Prelude Types Messages World.

(** * Links *)
Record Link := mkLink {
  l_tx : ChanId;
  l_peer_id : NodeId;
  l_connection_id : ConnectionId;
  l_realms : RealmList;
  l_cost : Cost;
  l_default_route : bool;
  l_role_stub : bool;
}.

(** [LinkError]. *)
Inductive LinkError `{Codec} :=
  | LeTrySendError (e : TrySendError NodeMessage)
  | LeRealmMismatch.

(** The adjacencies of a router advertisement as one link may see them. *)
Definition restrict_adjacency (realms : RealmList) (adj : Adjacency) : Adjacency :=
  mkAdjacency (adj_connection_id adj) (adj_peer_id adj) (adj_cost adj)
              (realms_intersection (adj_realms adj) realms).

Definition restrict_adjacencies (realms : RealmList) (adjs : list Adjacency) : list Adjacency :=
  retain (fun adj => negb (realms_is_empty (adj_realms adj)))
         (map (restrict_adjacency realms) adjs).

Section links.
Context `{Cd : Codec} `{E : !Env}.

(** [Link::send_lsa], up to the message handed to the channel: [None] is
    [LinkError::RealmMismatch]. *)
Definition link_view (link : Link) (lsa : Lsa) : option Lsa :=
  match lsa_body lsa with
  | Router adjacencies =>
      match restrict_adjacencies (l_realms link) adjacencies with
      | [] => None
      | adjs => Some (mkLsa (lsa_key lsa) (lsa_seq lsa) (lsa_dead lsa) (Router adjs))
      end
  | Endpoint endpoint_info =>
      if realms_contains (l_realms link) (ei_realm endpoint_info) then Some lsa else None
  end.

Definition send_lsa (link : Link) (lsa : Lsa) (w : World) : (LinkError + unit) * World :=
  match link_view link lsa with
  | None => (inl LeRealmMismatch, w)
  | Some lsa =>
      match try_send_node (l_tx link) (NmLsa lsa) w with
      | (inl e, w) => (inl (LeTrySendError e), w)
      | (inr _, w) => (inr tt, w)
      end
  end.

Definition send_lsa_ack (link : Link) (key : LsaKey) (seq : N) (w : World)
    : (LinkError + unit) * World :=
  match try_send_node (l_tx link) (NmLsaAck key seq) w with
  | (inl e, w) => (inl (LeTrySendError e), w)
  | (inr _, w) => (inr tt, w)
  end.
End links.

(** What may cross a link: every realm an advertisement mentions is one of the
    link's, and it mentions at least one. *)
Definition lsa_fits (link : Link) (lsa : Lsa) : Prop :=
  match lsa_body lsa with
  | Router adjs => adjs <> [] /\ Forall (fun a => adj_realms a <> ∅ /\ adj_realms a ⊆ l_realms link) adjs
  | Endpoint info => ei_realm info ∈ l_realms link
  end.

Lemma restrict_adjacencies_spec realms adjs adj :
  adj ∈ restrict_adjacencies realms adjs -> adj_realms adj <> ∅ /\ adj_realms adj ⊆ realms.
Proof.
  unfold restrict_adjacencies. intros [Hne Hin]%elem_of_retain.
  apply list_elem_of_In, in_map_iff in Hin as (a & <- & _). simpl in *.
  apply negb_true_iff, bool_decide_eq_false in Hne.
  split; [done|]. unfold realms_intersection. set_solver.
Qed.

Lemma link_view_fits link lsa lsa' :
  link_view link lsa = Some lsa' ->
  lsa_fits link lsa' /\ lsa_key lsa' = lsa_key lsa /\ lsa_seq lsa' = lsa_seq lsa /\
  lsa_dead lsa' = lsa_dead lsa.
Proof.
  unfold link_view, lsa_fits. destruct (lsa_body lsa) as [adjs|info] eqn:Eb.
  - destruct (restrict_adjacencies _ _) as [|a l] eqn:Er; [done|]. intros [= <-]. simpl.
    split; [|done]. split; [done|]. rewrite <- Er. apply Forall_forall.
    intros x Hx. by eapply restrict_adjacencies_spec.
  - destruct (realms_contains _ _) eqn:Ec; [|done]. intros [= <-]. rewrite Eb.
    by apply bool_decide_eq_true in Ec.
Qed.

(** * Queue entries: [Entry(Cost, NodeId)] *)
Definition Entry : Type := Cost * NodeId.

(** [Entry::better]: lower cost wins, then the lower node id. *)
Definition better (a b : Entry) : bool :=
  N.ltb a.1 b.1 || (N.eqb a.1 b.1 && node_lt a.2 b.2).

(** [impl Ord for Entry] and the [PartialEq] built on it. *)
Definition entry_cmp (a b : Entry) : comparison :=
  if better a b then Lt else if better b a then Gt else Eq.
Definition entry_eq (a b : Entry) : bool :=
  match entry_cmp a b with Eq => true | _ => false end.

Lemma better_spec a b :
  better a b = true <-> (a.1 < b.1)%N \/ (a.1 = b.1 /\ (node_uuid a.2 < node_uuid b.2)%N).
Proof.
  unfold better, node_lt. rewrite orb_true_iff, andb_true_iff, N.ltb_lt, N.eqb_eq, N.ltb_lt. done.
Qed.

Lemma better_same_node c1 c2 n : better (c1, n) (c2, n) = true <-> (c1 < c2)%N.
Proof. rewrite better_spec. simpl. lia. Qed.

Lemma node_uuid_inj a b : node_uuid a = node_uuid b -> a = b.
Proof. destruct a, b. simpl. congruence. Qed.

Lemma better_irrefl a : better a a = false.
Proof. apply not_true_iff_false. rewrite better_spec. lia. Qed.

Lemma better_trans a b c : better a b = true -> better b c = true -> better a c = true.
Proof. rewrite !better_spec. lia. Qed.

Lemma better_total a b : better a b = true \/ a = b \/ better b a = true.
Proof.
  rewrite !better_spec. destruct a as [c n], b as [c' n']. simpl.
  destruct (N.lt_trichotomy c c') as [?|[->|?]]; [tauto| |tauto].
  destruct (N.lt_trichotomy (node_uuid n) (node_uuid n')) as [?|[?%node_uuid_inj|?]]; [tauto| |tauto].
  subst. tauto.
Qed.
