(* ===== verification/Spf.v ===== *)
(** [LsDb::compute_spf] of [src/routing/linkstate/db.rs]: the shortest-path
    computation behind the forwarding table. The loop is a Dijkstra search on the
    graph of router advertisements with saturating [u16] costs and a sorted
    [VecDeque] as its queue. *)
From stdpp Require Import sorting.
From S2P Require Import Prelude Types Messages Linkstate.

(** * The queue *)

(** [iter().find_position(|Entry(_, n)| n == next)] then [VecDeque::remove(pos)]. *)
Fixpoint queue_remove (n : NodeId) (q : list Entry) : list Entry :=
  match q with
  | [] => []
  | e :: r => if bool_decide (e.2 = n) then r else e :: queue_remove n r
  end.

(** [VecDeque::partition_point]: on a queue partitioned by [p], the index of the
    first entry that fails [p]. *)
Fixpoint partition_point (p : Entry -> bool) (q : list Entry) : nat :=
  match q with
  | [] => 0
  | e :: r => if p e then S (partition_point p r) else 0
  end.

(** [let pos = queue.partition_point(|e| e.better(&entry)); queue.insert(pos, entry)]. *)
Definition queue_insert (entry : Entry) (q : list Entry) : list Entry :=
  let pos := partition_point (fun e => better e entry) q in
  take pos q ++ entry :: drop pos q.

(** * The search *)

Record Spf := mkSpf {
  sp_next_hop : gmap NodeId Link;
  sp_cost : gmap NodeId Cost;
  sp_parent : gmap NodeId NodeId;
  sp_queue : list Entry;
}.

(** [unwrap] of a missing next hop panics; running out of fuel is kept apart. *)
Inductive SpfResult := SpfDone (st : Spf) | SpfPanic | SpfOutOfFuel.

Definition cost_of (st : Spf) (n : NodeId) : Cost := default cost_max (sp_cost st !! n).

Section search.
(** The root, the values of the [links] map in iteration order, and the bodies of
    the router advertisements by origin. *)
Context (root : NodeId) (links : list Link) (nodes : gmap NodeId (list Adjacency)).

Definition link_to (next : NodeId) : option Link :=
  find_first (fun link => bool_decide (l_peer_id link = next)) links.

(** The next hop recorded for [next] when it is reached from [current]. *)
Definition set_next_hop (nh : gmap NodeId Link) (current next : NodeId)
    : option (gmap NodeId Link) :=
  if decide (current = root) then
    Some (match link_to next with Some link => <[next := link]> nh | None => nh end)
  else
    match nh !! current with
    | Some link => Some (<[next := link]> nh)
    | None => None
    end.

(** The body of [for adjacency in adjacencies]. *)
Definition relax (current : Entry) (st : Spf) (adjacency : Adjacency) : option Spf :=
  let next_node := adj_peer_id adjacency in
  let new_cost := cost_add current.1 (adj_cost adjacency) in
  if better (new_cost, next_node) (cost_of st next_node, next_node) then
    match set_next_hop (sp_next_hop st) current.2 next_node with
    | None => None
    | Some next_hop =>
        Some (mkSpf next_hop
                    (<[next_node := new_cost]> (sp_cost st))
                    (<[next_node := current.2]> (sp_parent st))
                    (queue_insert (new_cost, next_node) (queue_remove next_node (sp_queue st))))
    end
  else Some st.

Definition visit (st : Spf) (current : Entry) : option Spf :=
  match nodes !! current.2 with
  | Some adjacencies => foldm (relax current) st adjacencies
  | None => Some st
  end.

(** [while let Some(current_entry) = queue.pop_front()]. *)
Fixpoint spf_loop (fuel : nat) (st : Spf) : SpfResult :=
  match fuel with
  | O => SpfOutOfFuel
  | S fuel =>
      match sp_queue st with
      | [] => SpfDone st
      | current :: q =>
          match visit (mkSpf (sp_next_hop st) (sp_cost st) (sp_parent st) q) current with
          | Some st' => spf_loop fuel st'
          | None => SpfPanic
          end
      end
  end.

Definition spf_init : Spf :=
  mkSpf ∅ (<[root := 0%N]> ((fun _ => cost_max) <$> nodes)) ∅ [(0%N, root)].

(** Every node a search can queue. *)
Definition peers_of (kv : NodeId * list Adjacency) : list NodeId := map adj_peer_id kv.2.
Definition universe : gset NodeId :=
  {[ root ]} ∪ list_to_set (concat (map peers_of (map_to_list nodes))).

Definition spf_fuel : nat := S (size universe).
Definition spf_run : SpfResult := spf_loop spf_fuel spf_init.

(** * Paths *)
Definition edge (u v : NodeId) (w : Cost) : Prop :=
  exists adjs adj, nodes !! u = Some adjs /\ adj ∈ adjs /\ adj_peer_id adj = v /\ adj_cost adj = w.

Inductive path : NodeId -> NodeId -> N -> Prop :=
  | path_nil u : path u u 0
  | path_snoc u x v c w : path u x c -> edge x v w -> path u v (c + w).

(** Each neighbour the root advertises is reachable over one of its links. *)
Definition covered : Prop :=
  forall adjs adj, nodes !! root = Some adjs -> adj ∈ adjs ->
    exists link, link ∈ links /\ l_peer_id link = adj_peer_id adj.
End search.

(** * The queue stays sorted *)

Definition queue_sorted : list Entry -> Prop := StronglySorted (fun a b => better a b = true).

Lemma elem_of_queue_remove n q e :
  NoDup q.*2 -> e ∈ queue_remove n q <-> e ∈ q /\ e.2 <> n.
Proof.
  induction q as [|x q IH]; simpl.
  { intros _. split; [by intros ?%elem_of_nil | by intros [?%elem_of_nil _]]. }
  intros [Hx Hnd]%NoDup_cons. case_bool_decide as Heq.
  - subst. rewrite elem_of_cons. split; [|intros [[->|?] ?]; done].
    intros He. split; [by right|]. intros Hn. apply Hx. rewrite <- Hn. by apply list_elem_of_fmap_2.
  - rewrite !elem_of_cons, IH by done. naive_solver.
Qed.

Lemma queue_remove_sublist n q : sublist (queue_remove n q) q.
Proof. induction q as [|x q IH]; simpl; [done|]. case_bool_decide; by constructor. Qed.

Lemma elem_of_queue_insert e q x : x ∈ queue_insert e q <-> x = e \/ x ∈ q.
Proof.
  unfold queue_insert. set (k := partition_point _ _). rewrite <- (take_drop k q) at 3.
  rewrite !elem_of_app, elem_of_cons. tauto.
Qed.

Lemma partition_point_take p q : Forall (fun e => p e = true) (take (partition_point p q) q).
Proof. induction q as [|x q IH]; simpl; [done|]. destruct (p x) eqn:E; simpl; by constructor. Qed.

Lemma partition_point_drop p q x r : drop (partition_point p q) q = x :: r -> p x = false.
Proof.
  induction q as [|y q IH]; simpl; [done|]. destruct (p y) eqn:E; simpl; [apply IH|].
  by intros [= -> ->].
Qed.

Lemma queue_sorted_sublist q q' : sublist q q' -> queue_sorted q' -> queue_sorted q.
Proof.
  unfold queue_sorted. induction 1 as [|x q q' Hs IH|x q q' Hs IH]; [done| |];
    rewrite !StronglySorted_cons.
  - intros [Hall Hq]. split; [|by apply IH]. rewrite Forall_forall in *.
    intros y Hy. apply Hall. by eapply elem_of_sublist.
  - intros [_ Hq]. by apply IH.
Qed.

(** The precondition of [partition_point]: a sorted queue is partitioned. *)
Lemma queue_partitioned e q :
  queue_sorted q ->
  forall x, x ∈ drop (partition_point (fun x => better x e) q) q -> better x e = false.
Proof.
  unfold queue_sorted. intros Hq. set (k := partition_point _ q).
  destruct (drop k q) as [|y r] eqn:Ed; [by intros x ?%elem_of_nil|].
  pose proof (partition_point_drop _ _ _ _ Ed) as Hy.
  rewrite <- (take_drop k q), Ed in Hq. apply StronglySorted_app_1_r, StronglySorted_cons in Hq as [Hr _].
  intros x [->|Hx]%elem_of_cons; [done|]. rewrite Forall_forall in Hr. specialize (Hr x Hx).
  destruct (better x e) eqn:Ex; [|done]. simpl in Hy. by rewrite (better_trans _ _ _ Hr Ex) in Hy.
Qed.

Lemma queue_insert_sorted e q :
  queue_sorted q -> (forall x, x ∈ q -> x.2 <> e.2) -> queue_sorted (queue_insert e q).
Proof.
  intros Hq Hne. pose proof (queue_partitioned e q Hq) as Hd.
  pose proof (partition_point_take (fun x => better x e) q) as Ht.
  unfold queue_insert. set (k := partition_point _ q) in *. rewrite Forall_forall in Ht.
  assert (Hlt : forall x, x ∈ drop k q -> better e x = true).
  { intros x Hx. destruct (better_total e x) as [?|[->|Hb]]; [done| |by rewrite (Hd x Hx) in Hb].
    exfalso. apply (Hne x); [|done]. rewrite <- (take_drop k q). apply elem_of_app. by right. }
  unfold queue_sorted in *. rewrite <- (take_drop k q) in Hq.
  apply StronglySorted_app in Hq as (Hcross & H1 & H2).
  apply StronglySorted_app. split; [|split; [done|]].
  - intros x y Hx [->|Hy]%elem_of_cons; [by apply Ht | by apply Hcross].
  - apply StronglySorted_cons. split; [by apply Forall_forall | done].
Qed.

Lemma queue_insert_nodup e q :
  NoDup q.*2 -> e.2 ∉ q.*2 -> NoDup (queue_insert e q).*2.
Proof.
  unfold queue_insert. set (k := partition_point _ _). intros Hnd Hni.
  rewrite <- (take_drop k q) in Hnd, Hni. rewrite fmap_app in *.
  rewrite fmap_cons, <- Permutation_middle. by constructor.
Qed.

Lemma queue_remove_nodup n q : NoDup q.*2 -> NoDup (queue_remove n q).*2.
Proof. intros Hnd. eapply sublist_NoDup, fmap_sublist, queue_remove_sublist. done. Qed.
