(* ===== verification/SpfProofs.v ===== *)
(** Correctness of [LsDb::compute_spf] as defined in [Spf.v]: the invariant of the
    search, termination, and what the computed costs, parents and next hops mean. *)
From stdpp Require Import sorting.
From S2P Require Import Prelude Types Messages Linkstate Spf.

Section spf.
Context (root : NodeId) (links : list Link) (nodes : gmap NodeId (list Adjacency)).

Abbreviation edge := (edge nodes).
Abbreviation path := (path nodes).
Abbreviation covered := (covered root links nodes).
Abbreviation universe := (universe root nodes).

(** * The invariant *)

(** [n] is reached through [link] along a path of cost [c]. *)
Definition via_link (link : Link) (n : NodeId) (c : N) : Prop :=
  link ∈ links /\
  exists w c', edge root (l_peer_id link) w /\ path (l_peer_id link) n c' /\ c = (w + c')%N.

(** [n]'s parent is settled and one edge closer to the root. *)
Definition has_parent (settled : gset NodeId) (st : Spf) (n : NodeId) : Prop :=
  exists p w, sp_parent st !! n = Some p /\ p ∈ settled /\ edge p n w /\
    cost_of st n = (cost_of st p + w)%N.

(** [settled] are the nodes already popped, [front] the cost of the last one, and
    [pending] the advertised edges of settled nodes not looked at yet. *)
Record spf_inv (settled : gset NodeId) (front : Cost) (pending : NodeId -> Adjacency -> Prop)
    (st : Spf) : Prop := {
  inv_le n : (cost_of st n <= cost_max)%N;
  inv_root : cost_of st root = 0%N;
  inv_sorted : queue_sorted (sp_queue st);
  inv_nodup : NoDup (sp_queue st).*2;
  inv_queue c n : (c, n) ∈ sp_queue st ->
    cost_of st n = c /\ (c < cost_max)%N /\ (n ∉ settled) /\ (front <= c)%N /\ n ∈ universe;
  inv_known n : (cost_of st n < cost_max)%N -> n ∈ settled \/ (cost_of st n, n) ∈ sp_queue st;
  inv_settled n : n ∈ settled ->
    (cost_of st n <= front)%N /\ (cost_of st n < cost_max)%N /\ n ∈ universe;
  inv_sound n : (cost_of st n < cost_max)%N -> path root n (cost_of st n);
  inv_closed n adjs adj : n ∈ settled -> nodes !! n = Some adjs -> adj ∈ adjs ->
    ~ pending n adj ->
    (cost_of st (adj_peer_id adj) <= cost_add (cost_of st n) (adj_cost adj))%N;
  inv_next_hop n : covered -> n <> root -> (cost_of st n < cost_max)%N ->
    exists link, sp_next_hop st !! n = Some link /\ via_link link n (cost_of st n);
  inv_hop_known n link : sp_next_hop st !! n = Some link ->
    n <> root /\ (cost_of st n < cost_max)%N /\ link ∈ links;
  inv_hop_fix n link : sp_next_hop st !! n = Some link ->
    l_peer_id link = n \/
    (l_peer_id link ∈ settled /\ sp_next_hop st !! l_peer_id link = Some link);
  inv_parent n : n <> root -> (cost_of st n < cost_max)%N -> has_parent settled st n;
}.

Definition no_pending : NodeId -> Adjacency -> Prop := fun _ _ => False.
Definition pending_of (u : NodeId) (todo : list Adjacency) : NodeId -> Adjacency -> Prop :=
  fun n adj => n = u /\ adj ∈ todo.

Lemma cost_of_insert nh c par q n v m :
  cost_of (mkSpf nh (<[n := v]> c) par q) m = if decide (m = n) then v else default cost_max (c !! m).
Proof.
  unfold cost_of. simpl. case_decide as H; [subst; by rewrite lookup_insert_eq|].
  by rewrite lookup_insert_ne.
Qed.

Lemma path_cons u x v w c : edge u x w -> path x v c -> path u v (w + c).
Proof.
  intros He. induction 1 as [x|x y v c w' Hp IH Hxv].
  - rewrite N.add_0_r, <- (N.add_0_l w). eapply path_snoc; [constructor | done].
  - rewrite N.add_assoc. eapply path_snoc; [by apply IH | done].
Qed.

(** A path that is not over has a first step. *)
Lemma path_first u v c :
  path u v c -> (u = v /\ c = 0%N) \/ exists x w r, edge u x w /\ path x v r /\ c = (w + r)%N.
Proof.
  induction 1 as [u|u x v c w Hp [[-> ->]|(y & w' & r & He' & Hr & ->)] He]; [by left| |]; right.
  - exists v, w, 0%N. split; [done|]. split; [constructor | lia].
  - exists y, w', (r + w)%N. split; [done|]. split; [by eapply path_snoc | lia].
Qed.

Lemma path_app u x v c c' : path u x c -> path x v c' -> path u v (c + c').
Proof.
  intros Hp. induction 1 as [x|x y v c' w Hp' IH Hxv]; [by rewrite N.add_0_r|].
  rewrite N.add_assoc. eapply path_snoc; [by apply IH | done].
Qed.

Lemma edge_universe u v w : edge u v w -> v ∈ universe.
Proof.
  intros (adjs & adj & Hn & Hadj & <- & _). unfold Spf.universe. apply elem_of_union_r.
  apply elem_of_list_to_set, list_elem_of_In, in_concat.
  exists (peers_of (u, adjs)). rewrite <- !list_elem_of_In. split.
  - apply (list_elem_of_fmap_2 peers_of), elem_of_map_to_list, Hn.
  - by apply (list_elem_of_fmap_2 adj_peer_id).
Qed.

Lemma spf_init_inv : spf_inv ∅ 0%N no_pending (spf_init root nodes).
Proof.
  assert (Hc : forall n, cost_of (spf_init root nodes) n = if decide (n = root) then 0%N else cost_max).
  { intros n. unfold spf_init. rewrite cost_of_insert. case_decide; [done|].
    rewrite lookup_fmap. by destruct (nodes !! n). }
  assert (Hlt : forall n, (cost_of (spf_init root nodes) n < cost_max)%N -> n = root).
  { intros n. rewrite Hc. case_decide; [done | lia]. }
  assert (Hr : cost_of (spf_init root nodes) root = 0%N) by (rewrite Hc; by rewrite decide_True).
  split; simpl.
  - intros n. rewrite Hc. case_decide; unfold cost_max, u16_max; lia.
  - done.
  - repeat constructor.
  - repeat constructor. by intros ?%elem_of_nil.
  - intros c n [= -> ->]%list_elem_of_singleton. split; [done|]. split; [done|].
    split; [set_solver|]. split; [done|]. unfold Spf.universe. set_solver.
  - intros n Hn. right. rewrite (Hlt n Hn), Hr. by left.
  - set_solver.
  - intros n Hn. rewrite (Hlt n Hn), Hr. constructor.
  - set_solver.
  - intros n _ Hne Hn. by destruct Hne, (Hlt n Hn).
  - intros n link H. by rewrite lookup_empty in H.
  - intros n link H. by rewrite lookup_empty in H.
  - intros n Hne Hn. by destruct Hne, (Hlt n Hn).
Qed.

(** * Popping the front of the queue *)
Lemma spf_pop_inv settled front st c u q adjs :
  spf_inv settled front no_pending st -> sp_queue st = (c, u) :: q ->
  default [] (nodes !! u) = adjs ->
  (u ∉ settled) /\ u ∈ universe /\
  spf_inv ({[u]} ∪ settled) c (pending_of u adjs) (mkSpf (sp_next_hop st) (sp_cost st) (sp_parent st) q)
  /\ cost_of st u = c.
Proof.
  intros I Hq Hadjs. destruct (inv_queue _ _ _ _ I c u) as (Hcu & Hlt & Hns & Hfront & Hu).
  { rewrite Hq. by left. }
  split; [done|]. split; [done|]. split; [|done].
  pose proof (inv_sorted _ _ _ _ I) as Hs. rewrite Hq in Hs. apply StronglySorted_cons in Hs as [Hall Hs].
  pose proof (inv_nodup _ _ _ _ I) as Hnd. rewrite Hq in Hnd. apply NoDup_cons in Hnd as [Huq Hnd].
  rewrite Forall_forall in Hall.
  split; try apply I; simpl; try done.
  - intros c' n Hin. destruct (inv_queue _ _ _ _ I c' n) as (? & ? & ? & ? & ?).
    { rewrite Hq. by right. }
    split; [done|]. split; [done|]. split.
    + intros [->%elem_of_singleton|?]%elem_of_union; [|done]. apply Huq.
      by apply (list_elem_of_fmap_2 snd) in Hin.
    + split; [|done]. specialize (Hall _ Hin). apply better_spec in Hall. simpl in Hall. lia.
  - intros n Hn. destruct (inv_known _ _ _ _ I n Hn) as [?|Hin]; [left; set_solver|].
    rewrite Hq in Hin. apply elem_of_cons in Hin as [[= _ ->]|?]; [left; set_solver | by right].
  - intros n [->%elem_of_singleton|Hn]%elem_of_union.
    + change (cost_of st u <= c /\ cost_of st u < cost_max /\ u ∈ universe)%N.
      rewrite Hcu. done.
    + change (cost_of st n <= c /\ cost_of st n < cost_max /\ n ∈ universe)%N.
      destruct (inv_settled _ _ _ _ I n Hn) as (? & ? & ?). split; [nlia | done].
  - intros n adjs' adj [->%elem_of_singleton|Hn]%elem_of_union Hnode Hadj Hp.
    + destruct Hp. split; [done|]. rewrite Hnode in Hadjs. simpl in Hadjs. by subst.
    + apply (inv_closed _ _ _ _ I n adjs' adj); [done..|intros []].
  - intros n link Hl. destruct (inv_hop_fix _ _ _ _ I n link Hl) as [?|[? ?]]; [by left | right].
    split; [set_solver | done].
  - intros n Hne Hn. destruct (inv_parent _ _ _ _ I n Hne Hn) as (p & w & ? & ? & ? & ?).
    exists p, w. split; [done|]. split; [set_solver | done].
Qed.

(** * Relaxing one adjacency *)
Lemma link_to_spec next link : link_to links next = Some link -> link ∈ links /\ l_peer_id link = next.
Proof.
  intros [Hin Heq]%find_first_Some. split; [done|]. by apply bool_decide_eq_true in Heq.
Qed.

Lemma link_to_covered adjs adj :
  covered -> nodes !! root = Some adjs -> adj ∈ adjs ->
  exists link, link_to links (adj_peer_id adj) = Some link.
Proof.
  intros Hcov Hn Hadj. destruct (Hcov _ _ Hn Hadj) as (link & Hin & Hpeer).
  destruct (find_first_is_Some (fun l => bool_decide (l_peer_id l = adj_peer_id adj)) links link)
    as [l Hl]; [done | by apply bool_decide_eq_true |]. by exists l.
Qed.

(** The next hop recorded for a neighbour of a settled node is a way to reach it. *)
Lemma set_next_hop_spec settled front pending st c u adjs adj :
  spf_inv settled front pending st -> u ∈ settled -> cost_of st u = c ->
  nodes !! u = Some adjs -> adj ∈ adjs ->
  match set_next_hop root links (sp_next_hop st) u (adj_peer_id adj) with
  | Some nh =>
      (forall n, n <> adj_peer_id adj -> nh !! n = sp_next_hop st !! n) /\
      (forall link, nh !! adj_peer_id adj = Some link -> link ∈ links /\
         (l_peer_id link = adj_peer_id adj \/
          (l_peer_id link ∈ settled /\ sp_next_hop st !! l_peer_id link = Some link))) /\
      (covered -> exists link, nh !! adj_peer_id adj = Some link /\
         via_link link (adj_peer_id adj) (c + adj_cost adj))
  | None => ~ covered
  end.
Proof.
  intros I Hu Hc Hn Hadj. set (v := adj_peer_id adj).
  assert (Huv : edge u v (adj_cost adj)) by (by exists adjs, adj).
  destruct (inv_settled _ _ _ _ I u Hu) as (_ & Hlt & _).
  unfold set_next_hop. case_decide as Hroot.
  - subst u. rewrite (inv_root _ _ _ _ I) in Hc. subst c.
    destruct (link_to links v) as [link|] eqn:Hl.
    + apply link_to_spec in Hl as [Hin Hpeer]. split; [by intros; apply lookup_insert_ne|].
      rewrite lookup_insert_eq. split; [intros ? [= <-]; split; [done | by left]|].
      intros _. exists link. split; [done|].
      split; [done|]. exists (adj_cost adj), 0%N. rewrite Hpeer.
      split; [done|]. split; [constructor | lia].
    + split; [done|]. split; [intros link Hnh; split;
        [by apply (inv_hop_known _ _ _ _ I) in Hnh as (_ & _ & ?) | by apply (inv_hop_fix _ _ _ _ I)]|].
      intros Hcov. destruct (link_to_covered _ _ Hcov Hn Hadj) as [l Hl']. unfold v in Hl. congruence.
  - destruct (sp_next_hop st !! u) as [link|] eqn:Hnh.
    + split; [by intros; apply lookup_insert_ne|]. rewrite lookup_insert_eq.
      split.
      { intros ? [= <-]. split; [by apply (inv_hop_known _ _ _ _ I) in Hnh as (_ & _ & ?)|].
        right. destruct (inv_hop_fix _ _ _ _ I u link Hnh) as [->|?]; done. }
      intros Hcov. exists link. split; [done|].
      destruct (inv_next_hop _ _ _ _ I u Hcov Hroot Hlt) as (l & Hl & Hin & w & c' & Hw & Hp & Heq).
      rewrite Hnh in Hl. injection Hl as <-. split; [done|].
      exists w, (c' + adj_cost adj)%N. split; [done|]. split; [by eapply path_snoc|].
      rewrite <- Hc, Heq. lia.
    + intros Hcov. destruct (inv_next_hop _ _ _ _ I u Hcov Hroot Hlt) as (l & Hl & _).
      by rewrite Hnh in Hl.
Qed.

(** What a successful relaxation does to the state. *)
Definition relaxed (u : NodeId) (c : Cost) (v : NodeId) (nh : gmap NodeId Link) (st : Spf) : Spf :=
  mkSpf nh (<[v := c]> (sp_cost st)) (<[v := u]> (sp_parent st))
        (queue_insert (c, v) (queue_remove v (sp_queue st))).

(** The queue part. *)
Lemma relaxed_queue settled front pending st c v :
  spf_inv settled front pending st -> (front <= c)%N -> (c < cost_max)%N ->
  let q := queue_insert (c, v) (queue_remove v (sp_queue st)) in
  queue_sorted q /\ NoDup q.*2 /\
  (forall e, e ∈ q <-> e = (c, v) \/ (e ∈ sp_queue st /\ e.2 <> v)).
Proof.
  intros I Hf Hc. pose proof (inv_nodup _ _ _ _ I) as Hnd.
  assert (Hq : forall e, e ∈ queue_remove v (sp_queue st) <-> e ∈ sp_queue st /\ e.2 <> v)
    by (intros; by apply elem_of_queue_remove).
  simpl. split; [|split].
  - apply queue_insert_sorted.
    + eapply queue_sorted_sublist; [apply queue_remove_sublist | apply I].
    + by intros x [_ Hx]%Hq.
  - apply queue_insert_nodup; [by apply queue_remove_nodup|].
    intros (x & Hx & [_ Hin]%Hq)%list_elem_of_fmap. by destruct Hin.
  - intros e. by rewrite elem_of_queue_insert, Hq.
Qed.

(** One successful relaxation. *)
Section relaxing.
Context (settled : gset NodeId) (st : Spf) (c : Cost) (u : NodeId) (adjs : list Adjacency) (adj : Adjacency).
Context (todo : list Adjacency) (nh : gmap NodeId Link).
Hypothesis I : spf_inv settled c (pending_of u (adj :: todo)) st.
Hypothesis Hu : u ∈ settled.
Hypothesis Hc : cost_of st u = c.
Hypothesis Hn : nodes !! u = Some adjs.
Hypothesis Hadj : adj ∈ adjs.
Hypothesis Hlt : (c + adj_cost adj < cost_of st (adj_peer_id adj))%N.
Hypothesis Hnh : set_next_hop root links (sp_next_hop st) u (adj_peer_id adj) = Some nh.
Let v : NodeId := adj_peer_id adj.
Let d : Cost := (c + adj_cost adj)%N.
Let st' : Spf := relaxed u d v nh st.

Lemma relaxed_bounds : (d < cost_max)%N /\ (c <= d)%N.
Proof. pose proof (inv_le _ _ _ _ I v). unfold d, v in *. split; nlia. Qed.

Lemma relaxed_unsettled : v ∉ settled.
Proof. intros [Hv _]%(inv_settled _ _ _ _ I). unfold v in Hv. nlia. Qed.

Lemma relaxed_not_root : v <> root.
Proof. intros Hv. pose proof Hlt as Hlt'. fold v in Hlt'. rewrite Hv, (inv_root _ _ _ _ I) in Hlt'. nlia. Qed.

Lemma relaxed_cost n : cost_of st' n = if decide (n = v) then d else cost_of st n.
Proof. apply cost_of_insert. Qed.

Lemma relaxed_keeps n : n ∈ settled -> cost_of st' n = cost_of st n.
Proof. intros Hns. rewrite relaxed_cost. case_decide as Hnv; [|done]. subst n. by destruct relaxed_unsettled. Qed.

Lemma relaxed_sound n : (cost_of st' n < cost_max)%N -> path root n (cost_of st' n).
Proof.
  rewrite relaxed_cost. case_decide as Hnv; [subst n|apply (inv_sound _ _ _ _ I)].
  intros _. unfold d. rewrite <- Hc. eapply path_snoc; [|by exists adjs, adj].
  apply (inv_sound _ _ _ _ I). by apply (inv_settled _ _ _ _ I).
Qed.

Lemma relaxed_closed n adjs' a :
  n ∈ settled -> nodes !! n = Some adjs' -> a ∈ adjs' -> ~ pending_of u todo n a ->
  (cost_of st' (adj_peer_id a) <= cost_add (cost_of st' n) (adj_cost a))%N.
Proof.
  intros Hns Hn' Ha Hp. rewrite (relaxed_keeps n Hns), relaxed_cost.
  destruct (decide (n = u /\ a = adj)) as [[-> ->]|Hne].
  - fold v. rewrite decide_True by done. rewrite Hc. destruct relaxed_bounds as [Hd _].
    unfold cost_add, u16_saturating_add, d, cost_max in *. nlia.
  - assert (Hcl : (cost_of st (adj_peer_id a) <= cost_add (cost_of st n) (adj_cost a))%N).
    { apply (inv_closed _ _ _ _ I n adjs' a Hns Hn' Ha). intros [-> [->|?]%elem_of_cons]; [by destruct Hne | by destruct Hp]. }
    case_decide as Hav; [|done]. rewrite Hav in Hcl. unfold v in Hcl. unfold d. nlia.
Qed.

Lemma relaxed_next_hop n :
  covered -> n <> root -> (cost_of st' n < cost_max)%N -> exists link, nh !! n = Some link /\ via_link link n (cost_of st' n).
Proof.
  pose proof (set_next_hop_spec _ _ _ _ _ _ _ _ I Hu Hc Hn Hadj) as Hhop. rewrite Hnh in Hhop.
  destruct Hhop as (Hother & _ & Hvia). intros Hcov Hne. rewrite relaxed_cost. case_decide as Hnv.
  - subst n. intros _. by apply Hvia.
  - rewrite Hother by done. by apply (inv_next_hop _ _ _ _ I).
Qed.

Lemma relaxed_hops n link :
  nh !! n = Some link ->
  (n <> root /\ (cost_of st' n < cost_max)%N /\ link ∈ links) /\
  (l_peer_id link = n \/ (l_peer_id link ∈ settled /\ nh !! l_peer_id link = Some link)).
Proof.
  pose proof (set_next_hop_spec _ _ _ _ _ _ _ _ I Hu Hc Hn Hadj) as Hhop. rewrite Hnh in Hhop.
  destruct Hhop as (Hother & Hlinks & _). intros Hl. rewrite relaxed_cost.
  assert (Hst : forall l, l_peer_id l ∈ settled /\ sp_next_hop st !! l_peer_id l = Some l ->
      l_peer_id l ∈ settled /\ nh !! l_peer_id l = Some l).
  { intros l [Hs Hx]. split; [done|]. rewrite Hother; [done|]. intros Heq. by destruct relaxed_unsettled; unfold v; rewrite <- Heq. }
  case_decide as Hnv.
  - subst n. apply Hlinks in Hl as (Hin & Hfix). split.
    + split; [exact relaxed_not_root | split; [apply relaxed_bounds | done]].
    + destruct Hfix as [?|?]; [by left | right; auto].
  - rewrite Hother in Hl by done. split; [by apply (inv_hop_known _ _ _ _ I)|].
    destruct (inv_hop_fix _ _ _ _ I n link Hl) as [?|?]; [by left | right; auto].
Qed.

Lemma relaxed_parent n : n <> root -> (cost_of st' n < cost_max)%N -> has_parent settled st' n.
Proof.
  intros Hne. unfold has_parent. rewrite relaxed_cost. unfold st'. simpl. case_decide as Hnv.
  - subst n. intros _. exists u, (adj_cost adj). fold st'. rewrite lookup_insert_eq, (relaxed_keeps u Hu), Hc.
    split; [done|]. split; [done|]. split; [by exists adjs, adj | done].
  - intros Hk. rewrite lookup_insert_ne by done. fold st'.
    destruct (inv_parent _ _ _ _ I n Hne Hk) as (p & w & Hp & Hps & Hw & Heq).
    exists p, w. by rewrite (relaxed_keeps p Hps).
Qed.

Lemma relaxed_inv : spf_inv settled c (pending_of u todo) st'.
Proof.
  destruct relaxed_bounds as [Hd Hcd]. destruct (relaxed_queue _ _ _ _ d v I Hcd Hd) as (Hsort & Hnd & Hin).
  split; [..|exact relaxed_parent].
  - intros n. rewrite relaxed_cost. case_decide; [nlia | apply I].
  - rewrite relaxed_cost. case_decide; [by destruct relaxed_not_root | apply I].
  - exact Hsort.
  - exact Hnd.
  - intros c' n Hin'. apply Hin in Hin' as [[= -> ->]|[Hq Hne]]; rewrite relaxed_cost.
    + rewrite decide_True by done. split_and!; try done; [exact relaxed_unsettled|].
      apply (edge_universe u _ (adj_cost adj)). by exists adjs, adj.
    + simpl in Hne. rewrite decide_False by done. by apply (inv_queue _ _ _ _ I).
  - intros n. rewrite relaxed_cost. case_decide as Hnv; [subst; right; apply Hin; by left|].
    intros Hk. destruct (inv_known _ _ _ _ I n Hk) as [?|?]; [by left | right; apply Hin; by right].
  - intros n Hns. rewrite (relaxed_keeps n Hns). by apply (inv_settled _ _ _ _ I).
  - exact relaxed_sound.
  - exact relaxed_closed.
  - intros n. apply relaxed_next_hop.
  - intros n link Hl. by apply relaxed_hops.
  - intros n link Hl. by apply relaxed_hops.
Qed.
End relaxing.

Lemma relax_inv settled st c u adjs adj todo :
  spf_inv settled c (pending_of u (adj :: todo)) st ->
  u ∈ settled -> cost_of st u = c -> nodes !! u = Some adjs -> adj ∈ adjs ->
  match relax root links (c, u) st adj with
  | Some st' => spf_inv settled c (pending_of u todo) st' /\ cost_of st' u = c
  | None => ~ covered
  end.
Proof.
  intros I Hu Hc Hn Hadj. unfold relax. simpl.
  pose proof (inv_le _ _ _ _ I (adj_peer_id adj)) as Hmax.
  destruct (better _ _) eqn:Hb.
  - apply better_same_node in Hb.
    assert (Heq : cost_add c (adj_cost adj) = (c + adj_cost adj)%N).
    { apply u16_saturating_add_exact. unfold cost_add, cost_max in *. nlia. }
    rewrite Heq in *.
    destruct (set_next_hop _ _ _ _ _) as [nh|] eqn:Hnh.
    + split; [by eapply relaxed_inv|]. unfold cost_of. simpl. rewrite lookup_insert_ne; [done|].
      intros Hvu. rewrite Hvu, Hc in Hb. nlia.
    + pose proof (set_next_hop_spec _ _ _ _ _ _ _ _ I Hu Hc Hn Hadj) as H. by rewrite Hnh in H.
  - split; [|done]. apply not_true_iff_false in Hb. rewrite better_same_node in Hb.
    split; try apply I. intros n adjs' a Hns Hn' Ha Hp.
    destruct (decide (n = u /\ a = adj)) as [[-> ->]|Hne]; [rewrite Hc; nlia|].
    apply (inv_closed _ _ _ _ I n adjs' a Hns Hn' Ha).
    intros [-> [->|?]%elem_of_cons]; [by destruct Hne | by destruct Hp].
Qed.

Lemma relax_all_inv settled u c adjs todo : forall st,
  spf_inv settled c (pending_of u todo) st ->
  u ∈ settled -> cost_of st u = c -> nodes !! u = Some adjs -> (forall a, a ∈ todo -> a ∈ adjs) ->
  match foldm (relax root links (c, u)) st todo with
  | Some st' => spf_inv settled c (pending_of u []) st'
  | None => ~ covered
  end.
Proof.
  induction todo as [|adj todo IH]; intros st I Hu Hc Hn Hsub; simpl; [done|].
  pose proof (relax_inv _ _ _ _ _ _ _ I Hu Hc Hn (Hsub adj (list_elem_of_here _ _))) as Hr.
  destruct (relax _ _ _ _ _) as [st'|]; [|done]. destruct Hr as [I' Hc'].
  apply IH; try done. intros a Ha. apply Hsub. by right.
Qed.

Lemma spf_inv_no_pending settled c u st :
  spf_inv settled c (pending_of u []) st -> spf_inv settled c no_pending st.
Proof.
  intros I. split; try apply I. intros n adjs adj Hn Hadjs Hadj _.
  apply (inv_closed _ _ _ _ I n adjs adj); try done. by intros [_ ?%elem_of_nil].
Qed.

(** One turn of the loop. *)
Lemma visit_inv settled front st c u q :
  spf_inv settled front no_pending st -> sp_queue st = (c, u) :: q ->
  match visit root links nodes (mkSpf (sp_next_hop st) (sp_cost st) (sp_parent st) q) (c, u) with
  | Some st' => spf_inv ({[u]} ∪ settled) c no_pending st'
  | None => ~ covered
  end.
Proof.
  intros I Hq. destruct (spf_pop_inv _ _ _ _ _ _ _ I Hq eq_refl) as (_ & _ & I' & Hc).
  assert (Hu : u ∈ {[u]} ∪ settled) by set_solver.
  unfold visit. simpl. destruct (nodes !! u) as [adjs|] eqn:Hn; simpl in I'.
  - pose proof (relax_all_inv _ u c adjs adjs _ I' Hu Hc Hn (fun _ H => H)) as Hr.
    destruct (foldm _ _ _); [by eapply spf_inv_no_pending | done].
  - by eapply spf_inv_no_pending.
Qed.

(** The nodes not settled yet bound the number of turns. *)
Lemma spf_loop_inv fuel : forall settled front st,
  spf_inv settled front no_pending st -> size (universe ∖ settled) < fuel ->
  match spf_loop root links nodes fuel st with
  | SpfDone st' => sp_queue st' = [] /\ exists settled' front', spf_inv settled' front' no_pending st'
  | SpfPanic => ~ covered
  | SpfOutOfFuel => False
  end.
Proof.
  induction fuel as [|fuel IH]; intros settled front st I Hfuel; simpl; [lia|].
  destruct (sp_queue st) as [|[c u] q] eqn:Hq; [eauto|].
  pose proof (visit_inv _ _ _ _ _ _ I Hq) as Hv.
  destruct (spf_pop_inv _ _ _ _ _ _ _ I Hq eq_refl) as (Hns & Hu & _ & _).
  destruct (visit _ _ _ _ _) as [st'|]; [|done]. apply (IH _ _ _ Hv).
  assert (universe ∖ ({[u]} ∪ settled) ⊂ universe ∖ settled) as Hsub%subset_size by set_solver.
  lia.
Qed.

Lemma spf_run_inv :
  match spf_run root links nodes with
  | SpfDone st' => sp_queue st' = [] /\ exists settled' front', spf_inv settled' front' no_pending st'
  | SpfPanic => ~ covered
  | SpfOutOfFuel => False
  end.
Proof.
  apply (spf_loop_inv _ ∅ 0%N); [apply spf_init_inv|]. unfold spf_fuel.
  rewrite difference_empty_L. lia.
Qed.

(** * The result *)
Lemma spf_complete st :
  spf_run root links nodes = SpfDone st ->
  forall n c, path root n c -> (cost_of st n <= N.min c cost_max)%N.
Proof.
  intros Hrun. pose proof spf_run_inv as H. rewrite Hrun in H.
  destruct H as (Hq & settled & front & I).
  cut (forall r n c, path r n c -> r = root -> (cost_of st n <= N.min c cost_max)%N); [eauto|].
  intros r n c Hpath. induction Hpath as [r|r x v c w Hp IH Hxv]; intros ->.
  - rewrite (inv_root _ _ _ _ I). lia.
  - specialize (IH eq_refl). destruct Hxv as (adjs & adj & Hx & Hadj & <- & <-).
    pose proof (inv_le _ _ _ _ I (adj_peer_id adj)).
    destruct (decide (cost_of st x < cost_max)%N) as [Hlt|Hge]; [|nlia].
    destruct (inv_known _ _ _ _ I x Hlt) as [Hs|Hin].
    + pose proof (inv_closed _ _ _ _ I x adjs adj Hs Hx Hadj (fun H => H)) as Hcl.
      unfold cost_add, u16_saturating_add in Hcl. nlia.
    + rewrite Hq in Hin. by apply elem_of_nil in Hin.
Qed.

Lemma spf_sound st n :
  spf_run root links nodes = SpfDone st -> (cost_of st n < cost_max)%N -> path root n (cost_of st n).
Proof.
  intros Hrun. pose proof spf_run_inv as H. rewrite Hrun in H.
  destruct H as (_ & settled & front & I). apply I.
Qed.

Lemma spf_cost_le st n : spf_run root links nodes = SpfDone st -> (cost_of st n <= cost_max)%N.
Proof.
  intros Hrun. pose proof spf_run_inv as H. rewrite Hrun in H.
  destruct H as (_ & settled & front & I). apply I.
Qed.

Lemma spf_next_hop st n :
  covered -> spf_run root links nodes = SpfDone st ->
  n <> root -> (cost_of st n < cost_max)%N ->
  exists link, sp_next_hop st !! n = Some link /\ via_link link n (cost_of st n).
Proof.
  intros Hcov Hrun. pose proof spf_run_inv as H. rewrite Hrun in H.
  destruct H as (_ & settled & front & I). by apply I.
Qed.

Lemma spf_next_hop_known st n link :
  spf_run root links nodes = SpfDone st -> sp_next_hop st !! n = Some link ->
  n <> root /\ (cost_of st n < cost_max)%N /\ link ∈ links.
Proof.
  intros Hrun. pose proof spf_run_inv as H. rewrite Hrun in H.
  destruct H as (_ & settled & front & I). apply I.
Qed.

(** The next hop towards a neighbour that is a next hop is that neighbour's link. *)
Lemma spf_hop_fix st n link :
  spf_run root links nodes = SpfDone st -> sp_next_hop st !! n = Some link ->
  sp_next_hop st !! l_peer_id link = Some link.
Proof.
  intros Hrun Hl. pose proof spf_run_inv as H. rewrite Hrun in H.
  destruct H as (_ & settled & front & I).
  destruct (inv_hop_fix _ _ _ _ I n link Hl) as [->|[_ ?]]; done.
Qed.

Lemma spf_done : covered -> exists st, spf_run root links nodes = SpfDone st.
Proof.
  intros Hcov. pose proof spf_run_inv as H. destruct (spf_run _ _ _); [by eexists | done | done].
Qed.
End spf.

(** * Least costs *)
Definition shortest (nodes : gmap NodeId (list Adjacency)) (u v : NodeId) (d : N) : Prop :=
  path nodes u v d /\ forall c, path nodes u v c -> (d <= c)%N.

(** One hop along the next-hop table is a step along a least-cost path. *)
Lemma next_hop_shortest root links nodes st n d :
  covered root links nodes -> spf_run root links nodes = SpfDone st ->
  shortest nodes root n d -> (d < cost_max)%N -> n <> root ->
  exists link w d', sp_next_hop st !! n = Some link /\ link ∈ links /\
    edge nodes root (l_peer_id link) w /\ shortest nodes (l_peer_id link) n d' /\ d = (w + d')%N.
Proof.
  intros Hcov Hrun [Hp Hmin] Hd Hne.
  pose proof (spf_complete _ _ _ _ Hrun n d Hp) as Hle.
  assert (Hlt : (cost_of st n < cost_max)%N) by nlia.
  assert (Heq : cost_of st n = d).
  { specialize (Hmin _ (spf_sound _ _ _ _ _ Hrun Hlt)). nlia. }
  destruct (spf_next_hop _ _ _ _ _ Hcov Hrun Hne Hlt) as (link & Hl & Hin & w & d' & Hw & Hp' & Hwd).
  exists link, w, d'. rewrite Heq in Hwd. split; [done|]. split; [done|]. split; [done|].
  split; [|done]. split; [done|]. intros c Hc.
  specialize (Hmin _ (path_cons _ _ _ _ _ _ Hw Hc)). lia.
Qed.

(** Following next hops from node to node. *)
Inductive reaches (next : NodeId -> NodeId -> option NodeId) : NodeId -> NodeId -> nat -> Prop :=
  | reaches_here u : reaches next u u 0
  | reaches_hop u v n k : u <> n -> next u n = Some v -> reaches next v n k -> reaches next u n (S k).

(** When every node computed its table from the same advertisements, and every edge
    costs something, following the tables arrives, in at most as many hops as the
    path costs. *)
Lemma reaches_shortest (links : NodeId -> list Link) (tables : NodeId -> Spf)
    (nodes : gmap NodeId (list Adjacency)) n :
  (forall u, covered u (links u) nodes) ->
  (forall u, spf_run u (links u) nodes = SpfDone (tables u)) ->
  (forall u v w, edge nodes u v w -> (0 < w)%N) ->
  forall d u, shortest nodes u n d -> (d < cost_max)%N ->
  exists k, reaches (fun u n => l_peer_id <$> sp_next_hop (tables u) !! n) u n k /\ (N.of_nat k <= d)%N.
Proof.
  intros Hcov Hrun Hpos d. induction d as [d IH] using (well_founded_induction N.lt_wf_0).
  intros u Hs Hd. destruct (decide (u = n)) as [->|Hne]; [exists 0; split; [constructor | simpl; lia]|].
  destruct (next_hop_shortest u (links u) nodes (tables u) n d)
    as (link & w & d' & Hl & _ & Hw & Hs' & Heq); try done.
  specialize (Hpos _ _ _ Hw).
  destruct (IH d') with (u := l_peer_id link) as (k & Hk & Hle); try done; [lia..|].
  exists (S k). split; [|lia]. econstructor; [done | by rewrite Hl | done].
Qed.
