(* ===== verification/LsDb.v ===== *)
(** [src/routing/linkstate/db.rs]: the link-state database of a node. It stores the
    advertisements of every router and endpoint, floods changes to the neighbours,
    keeps the shortest-path tables and drives the route table. *)
From Stdlib Require Import Strings.String.
From S2P Require Import Prelude Types Messages World RouteTable Linkstate Spf.

(** * State *)
Record LsDb := mkLsDb {
  d_db : gmap LsaKey LsaRecord;
  d_self_id : NodeId;
  d_links : gmap ConnectionId Link;
  d_pending_tx : gmap (ConnectionId * LsaKey) N;
  d_next_hop : gmap NodeId Link;
  d_cost : gmap NodeId Cost;
  d_parent : gmap NodeId NodeId;
  d_routes : RouteTable;
  d_rebuild_requested : option Instant;
  d_last_refresh : Instant;
  d_lsa_timeout : Duration;
  d_last_tick : Instant;
}.

Definition set_db (m : gmap LsaKey LsaRecord) (d : LsDb) : LsDb :=
  mkLsDb m (d_self_id d) (d_links d) (d_pending_tx d) (d_next_hop d) (d_cost d) (d_parent d)
    (d_routes d) (d_rebuild_requested d) (d_last_refresh d) (d_lsa_timeout d) (d_last_tick d).
Definition set_links (m : gmap ConnectionId Link) (d : LsDb) : LsDb :=
  mkLsDb (d_db d) (d_self_id d) m (d_pending_tx d) (d_next_hop d) (d_cost d) (d_parent d)
    (d_routes d) (d_rebuild_requested d) (d_last_refresh d) (d_lsa_timeout d) (d_last_tick d).
Definition set_pending_tx (m : gmap (ConnectionId * LsaKey) N) (d : LsDb) : LsDb :=
  mkLsDb (d_db d) (d_self_id d) (d_links d) m (d_next_hop d) (d_cost d) (d_parent d)
    (d_routes d) (d_rebuild_requested d) (d_last_refresh d) (d_lsa_timeout d) (d_last_tick d).
Definition set_spf (nh : gmap NodeId Link) (c : gmap NodeId Cost) (p : gmap NodeId NodeId)
    (d : LsDb) : LsDb :=
  mkLsDb (d_db d) (d_self_id d) (d_links d) (d_pending_tx d) nh c p
    (d_routes d) (d_rebuild_requested d) (d_last_refresh d) (d_lsa_timeout d) (d_last_tick d).
Definition set_routes (t : RouteTable) (d : LsDb) : LsDb :=
  mkLsDb (d_db d) (d_self_id d) (d_links d) (d_pending_tx d) (d_next_hop d) (d_cost d) (d_parent d)
    t (d_rebuild_requested d) (d_last_refresh d) (d_lsa_timeout d) (d_last_tick d).
Definition set_rebuild (r : option Instant) (d : LsDb) : LsDb :=
  mkLsDb (d_db d) (d_self_id d) (d_links d) (d_pending_tx d) (d_next_hop d) (d_cost d) (d_parent d)
    (d_routes d) r (d_last_refresh d) (d_lsa_timeout d) (d_last_tick d).
Definition set_last_refresh (i : Instant) (d : LsDb) : LsDb :=
  mkLsDb (d_db d) (d_self_id d) (d_links d) (d_pending_tx d) (d_next_hop d) (d_cost d) (d_parent d)
    (d_routes d) (d_rebuild_requested d) i (d_lsa_timeout d) (d_last_tick d).
Definition set_last_tick (i : Instant) (d : LsDb) : LsDb :=
  mkLsDb (d_db d) (d_self_id d) (d_links d) (d_pending_tx d) (d_next_hop d) (d_cost d) (d_parent d)
    (d_routes d) (d_rebuild_requested d) (d_last_refresh d) (d_lsa_timeout d) i.

(** The key of a node's own router advertisement. *)
Definition router_key (n : NodeId) : LsaKey := mkLsaKey n (node_uuid n).

(** The route an advertisement is about. *)
Definition key_endpoint (k : LsaKey) : EndpointId := mkEndpointId (key_endpoint_id k).

Definition is_router_record (r : LsaRecord) : bool := is_router (lsa_body (rec_lsa r)).

Section with_env.
Context `{Cd : Codec} `{E : !Env}.

(** * Construction and time *)

Definition lsdb_new (self_id : NodeId) (w : World) : LsDb * World :=
  let '(last_refresh, w) := read_clock w in
  let '(last_tick, w) := read_clock w in
  let lsa := mkLsa (router_key self_id) 0 false (Router []) in
  let '(now, w) := read_clock w in
  (mkLsDb {[ router_key self_id := mkLsaRecord lsa now ]} self_id ∅ ∅ ∅ ∅ ∅ table_new None
     last_refresh (from_secs 60) last_tick, w).

Definition when_tick (d : LsDb) : Instant := (d_last_tick d + from_millis 50)%N.

Definition request_rebuild (d : LsDb) (w : World) : LsDb * World :=
  match d_rebuild_requested d with
  | Some _ => (d, w)
  | None => let '(now, w) := read_clock w in (set_rebuild (Some now) d, w)
  end.

(** * Shortest paths *)

(** The router advertisements by origin. *)
Definition router_entry (kv : LsaKey * LsaRecord) : option (NodeId * list Adjacency) :=
  match lsa_body (rec_lsa kv.2) with
  | Router router => Some (key_origin kv.1, router)
  | Endpoint _ => None
  end.

Definition router_nodes (d : LsDb) (w : World) : gmap NodeId (list Adjacency) :=
  collect_map (omap router_entry (env_iter_map w (d_db d))).

Definition link_values (d : LsDb) (w : World) : list Link := (env_iter_map w (d_links d)).*2.

(** The fuel of [spf_run] is never the limit, see [SpfProofs]. *)
Definition compute_spf (root : NodeId) (d : LsDb) (w : World) : Outcome LsDb :=
  match spf_run root (link_values d w) (router_nodes d w) with
  | SpfDone st => Returns (set_spf (sp_next_hop st) (sp_cost st) (sp_parent st) d)
  | SpfPanic | SpfOutOfFuel => Panics
  end.

(** * Flooding *)

(** The three [continue]s of [flood_all_neighbors]. *)
Definition flood_skips (d : LsDb) (origin : NodeId) (in_connection_id : option ConnectionId)
    (out : ConnectionId * Link) : bool :=
  bool_decide (Some out.1 = in_connection_id) ||
  bool_decide (origin = l_peer_id out.2) ||
  match d_next_hop d !! origin with
  | Some from_hop => bool_decide (l_peer_id from_hop = l_peer_id out.2)
  | None => false
  end.

(** [pending_tx.insert(..)] after a successful [send_lsa]. *)
Definition send_tracked (link : Link) (lsa : Lsa) (s : LsDb * World) : LsDb * World :=
  let '(d, w) := s in
  match send_lsa link lsa w with
  | (inr _, w) =>
      (set_pending_tx (<[(l_connection_id link, lsa_key lsa) := lsa_seq lsa]> (d_pending_tx d)) d, w)
  | (inl _, w) => (d, w)
  end.

Definition flood_link (lsa : Lsa) (in_connection_id : option ConnectionId)
    (s : LsDb * World) (out : ConnectionId * Link) : LsDb * World :=
  if flood_skips s.1 (key_origin (lsa_key lsa)) in_connection_id out then s
  else send_tracked out.2 lsa s.

Definition flood_all_neighbors (lsa : Lsa) (in_connection_id : option ConnectionId)
    (d : LsDb) (w : World) : LsDb * World :=
  foldl (flood_link lsa in_connection_id) (d, w) (env_iter_map w (d_links d)).

Definition flood_peer (connection_id : ConnectionId) (d : LsDb) (w : World) : LsDb * World :=
  match d_links d !! connection_id with
  | Some link =>
      foldl (fun s record => send_tracked link (rec_lsa record) s) (d, w)
            (env_iter_map w (d_db d)).*2
  | None => (d, w)
  end.

Definition send_ack (in_connection_id : ConnectionId) (key : LsaKey) (seq : N) (d : LsDb)
    (w : World) : World :=
  match d_links d !! in_connection_id with
  | None => w
  | Some in_link => (send_lsa_ack in_link key seq w).2
  end.

(** * Advertisements of other nodes *)

Definition forget_remote (k : LsaKey) (t : RouteTable) : RouteTable :=
  (remove_remote_endpoint t (key_endpoint k) (key_origin k)).2.

Definition has_origin (n : NodeId) (kv : LsaKey * LsaRecord) : bool :=
  bool_decide (key_origin kv.1 = n).

(** Everything but the records of [n], [extract_if(|k, _| k.origin == n)]. *)
Definition drop_origin (n : NodeId) (db : gmap LsaKey LsaRecord) : gmap LsaKey LsaRecord :=
  filter (fun kv => key_origin kv.1 <> n) db.

Definition remove_dead_lsa (lsa : Lsa) (d : LsDb) (w : World) : Outcome (LsDb * World) :=
  if negb (lsa_dead lsa) then Panics
  else
    let key := lsa_key lsa in
    match d_db d !! key with
    | Some current =>
        if N.ltb (lsa_seq (rec_lsa current)) (lsa_seq lsa) then
          let d :=
            if is_router_record current then
              let extracted := retain (has_origin (key_origin key)) (env_iter_map w (d_db d)) in
              set_routes (foldl (fun t kv => forget_remote kv.1 t) (d_routes d) extracted)
                (set_db (drop_origin (key_origin key) (d_db d)) d)
            else
              set_db (delete key (d_db d)) (set_routes (forget_remote key (d_routes d)) d) in
          let '(d, w) := flood_all_neighbors lsa None d w in
          let '(d, w) := request_rebuild d w in
          Returns (set_routes (forget_remote key (d_routes d)) d, w)
        else Returns (d, w)
    | None => Returns (set_routes (forget_remote key (d_routes d)) d, w)
    end.

(** The route an accepted advertisement stands for. *)
Definition advertised_info (lsa : Lsa) (cost : gmap NodeId Cost) : EndpointInfo :=
  match lsa_body lsa with
  | Router _ =>
      mkEndpointInfo Node Global (default cost_max (cost !! key_origin (lsa_key lsa)))
  | Endpoint endpoint_info => endpoint_info
  end.

Definition upsert_lsa (lsa : Lsa) (d : LsDb) (w : World) : bool * (LsDb * World) :=
  let key := lsa_key lsa in
  let store :=
    match d_db d !! key with
    | Some current => N.ltb (lsa_seq (rec_lsa current)) (lsa_seq lsa)
    | None => true
    end in
  if store then
    let '(now, w) := read_clock w in
    let d := set_db (<[key := mkLsaRecord lsa now]> (d_db d)) d in
    let '(d, w) := request_rebuild d w in
    let info := advertised_info lsa (d_cost d) in
    (true, (set_routes (add_remote_endpoint (d_routes d) (key_endpoint key) (key_origin key) info).2 d, w))
  else (false, (d, w)).

Definition handle_lsa (lsa : Lsa) (in_connection_id : ConnectionId) (d : LsDb) (w : World)
    : Outcome (LsDb * World) :=
  let w := send_ack in_connection_id (lsa_key lsa) (lsa_seq lsa) d w in
  if decide (key_origin (lsa_key lsa) = d_self_id d) then Returns (d, w)
  else if lsa_dead lsa then remove_dead_lsa lsa d w
  else
    let run_spf := is_router (lsa_body lsa) in
    match upsert_lsa lsa d w with
    | (false, s) => Returns s
    | (true, (d, w)) =>
        let '(d, w) := flood_all_neighbors lsa (Some in_connection_id) d w in
        if run_spf then outcome_bind (compute_spf (d_self_id d) d w) (fun d => Returns (d, w))
        else Returns (d, w)
    end.

Definition handle_ack (from : ConnectionId) (key : LsaKey) (seq : N) (d : LsDb) : LsDb :=
  match d_pending_tx d !! (from, key) with
  | Some val =>
      let pending_tx := delete (from, key) (d_pending_tx d) in
      set_pending_tx (if N.ltb seq val then <[(from, key) := val]> pending_tx else pending_tx) d
  | None => d
  end.

(** * Neighbours *)

(** [record.lsa.seq += 1; record.updated_at = now] with a new body. *)
Definition bump (body : LsaBody) (now : Instant) (r : LsaRecord) : LsaRecord :=
  let lsa := rec_lsa r in
  mkLsaRecord (mkLsa (lsa_key lsa) (seq_next (lsa_seq lsa)) (lsa_dead lsa) body) now.

Definition add_adjacency (peer_id : NodeId) (connection_id : ConnectionId) (realms : RealmList)
    (cost : Cost) (d : LsDb) (w : World) : option Lsa * (LsDb * World) :=
  let adjacency := mkAdjacency connection_id peer_id cost realms in
  let key := router_key (d_self_id d) in
  let '(root_lsa, w) :=
    match d_db d !! key with
    | Some record => (record, w)
    | None => let '(now, w) := read_clock w in (mkLsaRecord (mkLsa key 0 false (Router [])) now, w)
    end in
  match lsa_body (rec_lsa root_lsa) with
  | Router adjacencies =>
      let '(now, w) := read_clock w in
      let record := bump (Router (adjacencies ++ [adjacency])) now root_lsa in
      (Some (rec_lsa record), (set_db (<[key := record]> (d_db d)) d, w))
  | Endpoint _ => (None, (d, w))
  end.

Definition add_peer (link : Link) (d : LsDb) (w : World) : LsDb * World :=
  let connection_id := l_connection_id link in
  match add_adjacency (l_peer_id link) (l_connection_id link) (l_realms link) (l_cost link) d w with
  | (None, s) => s
  | (Some lsa, (d, w)) =>
      let d := set_links (<[l_connection_id link := link]> (d_links d)) d in
      let '(d, w) := request_rebuild d w in
      let '(d, w) := flood_all_neighbors lsa (Some connection_id) d w in
      flood_peer connection_id d w
  end.

Definition not_connection (c : ConnectionId) (adj : Adjacency) : bool :=
  negb (N.eqb (adj_connection_id adj) c).

(** The part of [remove_peer] that edits the node's own advertisement. *)
Definition drop_adjacency (connection_id : ConnectionId) (d : LsDb) (w : World) : LsDb * World :=
  let key := router_key (d_self_id d) in
  match d_db d !! key with
  | Some record =>
      match lsa_body (rec_lsa record) with
      | Router adjacencies =>
          let adjacencies' := retain (not_connection connection_id) adjacencies in
          if Nat.ltb (length adjacencies') (length adjacencies) then
            let '(now, w) := read_clock w in
            let record := bump (Router adjacencies') now record in
            flood_all_neighbors (rec_lsa record) None (set_db (<[key := record]> (d_db d)) d) w
          else (d, w)
      | Endpoint _ => (d, w)
      end
  | None => (d, w)
  end.

Definition remove_peer (connection_id : ConnectionId) (d : LsDb) (w : World)
    : Outcome (LsDb * World) :=
  match d_links d !! connection_id with
  | None => Returns (d, w)
  | Some link =>
      let '(d, w) := drop_adjacency connection_id (set_links (delete connection_id (d_links d)) d) w in
      outcome_bind (compute_spf (d_self_id d) d w) (fun d => Returns (d, w))
  end.

(** * Refreshing and purging *)

(** [iter().find(|r| r.updated_at + lsa_timeout < Instant::now())], the clock being
    read for each record: what [extract_if(..).peekable()] finds. *)
Fixpoint peek_stale (lsa_timeout : Duration) (l : list (LsaKey * LsaRecord)) (w : World)
    : option LsaKey * World :=
  match l with
  | [] => (None, w)
  | (key, record) :: r =>
      let '(now, w) := read_clock w in
      if N.ltb (rec_updated_at record + lsa_timeout)%N now then (Some key, w)
      else peek_stale lsa_timeout r w
  end.

(** [peek] extracts the first stale record. When there is one, [dirty || ..] does
    not evaluate its right operand, and the dropped iterator keeps what it has not
    visited; when there is none, the right operand runs over an exhausted iterator. *)
Definition purge_stale_lsas (d : LsDb) (w : World) : bool * (LsDb * World) :=
  match peek_stale (d_lsa_timeout d) (env_iter_map w (d_db d)) w with
  | (Some key, w) => (true, (set_db (delete key (d_db d)) d, w))
  | (None, w) => (false, (d, w))
  end.

(** A record of this node that has not been refreshed for a third of the timeout. *)
Definition needs_refresh (d : LsDb) (now : Instant) (record : LsaRecord) : bool :=
  bool_decide (key_origin (lsa_key (rec_lsa record)) = d_self_id d) &&
  N.ltb (rec_updated_at record + d_lsa_timeout d / 3)%N now.

Definition refresh_record (d : LsDb) (now : Instant) (record : LsaRecord) : LsaRecord :=
  if needs_refresh d now record then bump (lsa_body (rec_lsa record)) now record else record.

Definition refresh_and_purge_lsas (d : LsDb) (w : World) : Outcome (LsDb * World) :=
  let '(now, w) := read_clock w in
  let refreshed := retain (needs_refresh d now) (env_iter_map w (d_db d)).*2 in
  let to_flood := map (fun record => rec_lsa (refresh_record d now record)) refreshed in
  let d := set_db (refresh_record d now <$> d_db d) d in
  let '(d, w) := foldl (fun s lsa => flood_all_neighbors lsa None s.1 s.2) (d, w) to_flood in
  let '(dirty, (d, w)) := purge_stale_lsas d w in
  let result :=
    if dirty then
      outcome_bind (compute_spf (d_self_id d) d w) (fun d => Returns (request_rebuild d w))
    else Returns (d, w) in
  outcome_bind result (fun '(d, w) =>
    let '(now, w) := read_clock w in Returns (set_last_refresh now d, w)).

Definition tick (d : LsDb) (w : World) : Outcome (bool * (LsDb * World)) :=
  let '(now, w) := read_clock w in
  let d := set_last_tick now d in
  let result :=
    if N.ltb (d_last_refresh d + d_lsa_timeout d / 3)%N now then refresh_and_purge_lsas d w
    else Returns (d, w) in
  outcome_bind result (fun '(d, w) =>
    match d_rebuild_requested d with
    | Some _ => Returns (true, (set_rebuild None d, w))
    | None => Returns (false, (d, w))
    end).

(** * Shutdown *)
Definition kill (now : Instant) (record : LsaRecord) : LsaRecord :=
  let lsa := rec_lsa record in
  mkLsaRecord (mkLsa (lsa_key lsa) (seq_next (lsa_seq lsa)) true (lsa_body lsa)) now.

Definition lsdb_shutdown (d : LsDb) (w : World) : LsDb * World :=
  let key := router_key (d_self_id d) in
  let '(d, w) :=
    match d_db d !! key with
    | Some record =>
        let '(now, w) := read_clock w in
        let record := kill now record in
        let d := set_db (<[key := record]> (d_db d)) d in
        if is_router_record record then flood_all_neighbors (rec_lsa record) None d w else (d, w)
    | None => (d, w)
    end in
  let '(routes, w) := table_shutdown (d_routes d) w in
  (set_routes routes (set_links ∅ (set_db ∅ d)), w).

(** * Endpoints of this node *)

Definition endpoint_key (d : LsDb) (e : EndpointId) : LsaKey :=
  mkLsaKey (d_self_id d) (endpoint_uuid e).

Definition update_endpoint_cost (endpoint_id : EndpointId) (cost : Cost) (d : LsDb) (w : World)
    : LsDb * World :=
  let key := endpoint_key d endpoint_id in
  match d_db d !! key with
  | None => (d, w)
  | Some record =>
      match lsa_body (rec_lsa record) with
      | Router _ => (d, w)
      | Endpoint body =>
          if N.eqb (ei_cost body) cost then (d, w)
          else
            let '(now, w) := read_clock w in
            let body := mkEndpointInfo (ei_kind body) (ei_realm body) cost in
            let record := bump (Endpoint body) now record in
            let d := set_db (<[key := record]> (d_db d)) d in
            let '(d, w) := flood_all_neighbors (rec_lsa record) None d w in
            request_rebuild d w
      end
  end.

(** The application of an [Effects] by [add_endpoint]. *)
Definition apply_add (effect : Effects) (d : LsDb) (w : World) : LsDb * World :=
  match effect with
  | AddLsa endpoint_id endpoint_info =>
      let key := endpoint_key d endpoint_id in
      let lsa := mkLsa key 0 false (Endpoint endpoint_info) in
      let '(now, w) := read_clock w in
      let '(d, w) := flood_all_neighbors lsa (Some 0%N) d w in
      (set_db (<[key := mkLsaRecord lsa now]> (d_db d)) d, w)
  | UpdateLsa endpoint_id cost => update_endpoint_cost endpoint_id cost d w
  | RemoveLsa _ | RebuildFib | Noop => request_rebuild d w
  end.

Definition lsdb_add_endpoint (request : RegistrationRequest) (d : LsDb) (w : World)
    : (unit + unit) * (LsDb * World) :=
  let endpoint_id := rr_endpoint_id request in
  let '(r, routes) := add_endpoint (d_routes d) endpoint_id (rr_endpoint_info request) (rr_sender request) in
  let d := set_routes routes d in
  match r with
  | inr effect => (inr tt, apply_add effect d w)
  | inl _ =>
      (inl tt, (d, (try_send_client (rr_sender request) (CmFailedRegistration endpoint_id EmptyString) w).2))
  end.

Definition lsdb_set_anycast_cost (endpoint_id : EndpointId) (sender : ChanId) (cost : Cost)
    (d : LsDb) : (SetAnycastCostError + SetAnycastCostOutcome) * LsDb :=
  let '(r, routes) := set_anycast_cost (d_routes d) endpoint_id sender cost in
  (r, set_routes routes d).

(** The application of an [Effects] by [remove_endpoint]. *)
Definition apply_remove (effect : Effects) (d : LsDb) (w : World) : LsDb * World :=
  match effect with
  | UpdateLsa endpoint_id cost => update_endpoint_cost endpoint_id cost d w
  | RemoveLsa endpoint_id =>
      let key := endpoint_key d endpoint_id in
      match d_db d !! key with
      | Some record =>
          let lsa := rec_lsa record in
          let lsa := mkLsa (lsa_key lsa) (seq_next (lsa_seq lsa)) true (lsa_body lsa) in
          flood_all_neighbors lsa None (set_db (delete key (d_db d)) d) w
      | None => (d, w)
      end
  | AddLsa _ _ | RebuildFib | Noop => (d, w)
  end.

Definition lsdb_remove_endpoint (endpoint_id : EndpointId) (d : LsDb) (w : World) : LsDb * World :=
  let '(effects, routes) := remove_endpoint (d_routes d) endpoint_id w in
  let '(d, w) := request_rebuild (set_routes routes d) w in
  apply_remove effects d w.
End with_env.
