(* ===== verification/LsDbProofs.v ===== *)
(** The lemmas about [LsDb.v]: what flooding does, the invariant of the database,
    its preservation by every operation, and the absence of panics. *)
From Stdlib Require Import Strings.String.
From S2P Require Import Prelude Types Messages World RouteTable Linkstate Spf SpfProofs LsDb.

(** * What may be emitted *)

(** Advertisements go over a link of the database and fit its realms. *)
Definition ev_fits `{Codec} (links : gmap ConnectionId Link) (ev : Event) : Prop :=
  match ev with
  | EvNode tx (NmLsa lsa) _ =>
      exists c link, links !! c = Some link /\ l_tx link = tx /\ lsa_fits link lsa
  | EvNode tx (NmLsaAck _ _) _ => exists c link, links !! c = Some link /\ l_tx link = tx
  | EvNode _ (NmWirePacket _) _ => False
  | EvClient _ _ _ | EvReply _ _ => True
  end.

(** Only the list of unacknowledged advertisements differs. *)
Definition frame (d d' : LsDb) : Prop := d' = set_pending_tx (d_pending_tx d') d.

#[export] Instance frame_refl : Reflexive frame.
Proof. by intros []. Qed.
#[export] Instance frame_trans : Transitive frame.
Proof. intros d1 d2 d3 H1 H2. unfold frame in *. rewrite H2, H1. by destruct d1. Qed.

Section flooding.
Context `{Cd : Codec} `{E : !Env} `{!EnvLaws}.

Lemma send_tracked_spec links c link lsa s s' :
  links !! c = Some link -> send_tracked link lsa s = s' ->
  frame s.1 s'.1 /\ emits (ev_fits links) s.2 s'.2.
Proof.
  intros Hl <-. destruct s as [d w]. unfold send_tracked, send_lsa. simpl.
  destruct (link_view link lsa) as [lsa'|] eqn:Hv; [|done].
  pose proof (link_view_fits _ _ _ Hv) as [Hfit _].
  pose proof (emits_node (ev_fits links) (l_tx link) (NmLsa lsa') w) as Hem.
  assert (Hev : forall r, ev_fits links (EvNode (l_tx link) (NmLsa lsa') r)) by (intros r; simpl; eauto).
  specialize (Hem Hev). destruct (try_send_node _ _ w) as [[e|u] w']; simpl in *; [done|].
  split; [by destruct d | done].
Qed.

Lemma flood_spec lsa inc d w d' w' :
  flood_all_neighbors lsa inc d w = (d', w') ->
  frame d d' /\ emits (ev_fits (d_links d)) w w'.
Proof.
  unfold flood_all_neighbors. intros Hf.
  pose (P s := frame d s.1 /\ emits (ev_fits (d_links d)) w s.2).
  change (P (d', w')). rewrite <- Hf. apply foldl_invariant.
  - intros s [c link] Hin [Hfr Hem]. unfold flood_link. destruct (flood_skips _ _ _ _); [done|].
    apply elem_of_iter_map in Hin.
    destruct (send_tracked_spec (d_links d) c link lsa s _ Hin eq_refl) as [Hf' He'].
    split; [by etrans | by etrans].
  - split; reflexivity.
Qed.

Lemma flood_peer_spec c d w d' w' :
  flood_peer c d w = (d', w') -> frame d d' /\ emits (ev_fits (d_links d)) w w'.
Proof.
  unfold flood_peer. destruct (d_links d !! c) as [link|] eqn:Hl; [|intros [= <- <-]; split; reflexivity].
  intros Hf. pose (P s := frame d s.1 /\ emits (ev_fits (d_links d)) w s.2).
  change (P (d', w')). rewrite <- Hf. apply foldl_invariant.
  - intros s record _ [Hfr Hem].
    destruct (send_tracked_spec (d_links d) c link (rec_lsa record) s _ Hl eq_refl) as [Hf' He'].
    split; [by etrans | by etrans].
  - split; reflexivity.
Qed.

Lemma send_ack_emits c key seq d w : emits (ev_fits (d_links d)) w (send_ack c key seq d w).
Proof.
  unfold send_ack. destruct (d_links d !! c) as [link|] eqn:Hl; [|reflexivity].
  unfold send_lsa_ack. pose proof (emits_node (ev_fits (d_links d)) (l_tx link) (NmLsaAck key seq) w) as Hem.
  destruct (try_send_node _ _ w) as [[?|?] ?]; simpl in *; apply Hem; eauto.
Qed.

(** The links an advertisement is offered to, with what they may see of it. *)
Definition flood_target (d : LsDb) (lsa : Lsa) (inc : option ConnectionId)
    (out : ConnectionId * Link) : option (ChanId * Lsa) :=
  if flood_skips d (key_origin (lsa_key lsa)) inc out then None
  else (fun v => (l_tx out.2, v)) <$> link_view out.2 lsa.

Definition sent_lsa (ev : Event) : option (ChanId * Lsa) :=
  match ev with EvNode tx (NmLsa lsa) _ => Some (tx, lsa) | _ => None end.

Lemma flood_skips_frame d d' origin inc out :
  frame d d' -> flood_skips d' origin inc out = flood_skips d origin inc out.
Proof. intros ->. done. Qed.

Lemma flood_fold_exact d lsa inc l : forall s,
  frame d s.1 ->
  exists evs, w_log (foldl (flood_link lsa inc) s l).2 = w_log s.2 ++ evs /\
    map sent_lsa evs = map Some (omap (flood_target d lsa inc) l).
Proof.
  induction l as [|[c link] l IH]; intros s Hs; simpl.
  { exists []. by rewrite app_nil_r. }
  unfold flood_link at 2. rewrite (flood_skips_frame d s.1) by done.
  unfold flood_target at 1. simpl. destruct (flood_skips d _ inc (c, link)) eqn:Hsk; simpl; [by apply IH|].
  destruct s as [d1 w1]. unfold send_tracked, send_lsa. simpl in *.
  destruct (link_view link lsa) as [v|] eqn:Hv; simpl.
  - unfold try_send_node. destruct (env_try_send w1 (l_tx link)); simpl.
    + destruct (IH (set_pending_tx (<[(l_connection_id link, lsa_key lsa):=lsa_seq lsa]> (d_pending_tx d1)) d1,
        log_event (EvNode (l_tx link) (NmLsa v) SendOk) w1)) as (evs & He & Hm).
      { simpl. etrans; [done|]. by destruct d1. }
      exists (EvNode (l_tx link) (NmLsa v) SendOk :: evs). simpl in *.
      rewrite He, Hm. by rewrite <- app_assoc.
    + destruct (IH (d1, log_event (EvNode (l_tx link) (NmLsa v) SendFull) w1)) as (evs & He & Hm); [done|].
      exists (EvNode (l_tx link) (NmLsa v) SendFull :: evs). simpl in *.
      rewrite He, Hm. by rewrite <- app_assoc.
    + destruct (IH (d1, log_event (EvNode (l_tx link) (NmLsa v) SendClosed) w1)) as (evs & He & Hm); [done|].
      exists (EvNode (l_tx link) (NmLsa v) SendClosed :: evs). simpl in *.
      rewrite He, Hm. by rewrite <- app_assoc.
  - by apply IH.
Qed.

Lemma request_rebuild_spec d w d' w' :
  request_rebuild d w = (d', w') ->
  d' = set_rebuild (d_rebuild_requested d') d /\ is_Some (d_rebuild_requested d') /\
  forall P, emits P w w'.
Proof.
  unfold request_rebuild. destruct (d_rebuild_requested d) eqn:Hr.
  - intros [= <- <-]. split; [by destruct d|]. rewrite Hr. split; [done | reflexivity].
  - simpl. intros [= <- <-]. split; [done|]. split; [by eexists|]. intros P. apply emits_read.
Qed.
End flooding.

(** * The invariant *)

(** Every adjacency is backed by the link of its connection. *)
Definition backed (links : gmap ConnectionId Link) (adj : Adjacency) : Prop :=
  exists link, links !! adj_connection_id adj = Some link /\ l_peer_id link = adj_peer_id adj.

(** A record is filed under its key; a node has one router advertisement of its own,
    and its adjacencies are backed by links. *)
Definition ok_record (self : NodeId) (links : gmap ConnectionId Link) (k : LsaKey) (r : LsaRecord)
    : Prop :=
  lsa_key (rec_lsa r) = k /\
  (key_origin k = self -> forall adjs, lsa_body (rec_lsa r) = Router adjs ->
     k = router_key self /\ forall adj, adj ∈ adjs -> backed links adj).

Record lsdb_inv (d : LsDb) : Prop := {
  i_db : map_Forall (ok_record (d_self_id d) (d_links d)) (d_db d);
  i_links : map_Forall (fun c link => l_connection_id link = c) (d_links d);
  i_routes : routes_ok (d_routes d);
  i_hops : map_Forall (fun _ link => d_links d !! l_connection_id link = Some link) (d_next_hop d);
}.

(** The fields the invariant speaks about. *)
Lemma lsdb_inv_ext d d' :
  d_self_id d' = d_self_id d -> d_db d' = d_db d -> d_links d' = d_links d ->
  d_routes d' = d_routes d -> d_next_hop d' = d_next_hop d -> lsdb_inv d -> lsdb_inv d'.
Proof.
  intros Hs Hd Hl Hr Hn [I1 I2 I3 I4]. split; rewrite ?Hs, ?Hd, ?Hl, ?Hr, ?Hn; done.
Qed.

Lemma lsdb_inv_frame d d' : frame d d' -> lsdb_inv d -> lsdb_inv d'.
Proof. intros ->. by apply lsdb_inv_ext. Qed.

Lemma lsdb_inv_set_rebuild d r : lsdb_inv d -> lsdb_inv (set_rebuild r d).
Proof. by apply lsdb_inv_ext. Qed.

Lemma lsdb_inv_set_routes d t : routes_ok t -> lsdb_inv d -> lsdb_inv (set_routes t d).
Proof. intros Ht [I1 I2 I3 I4]. by split. Qed.

Lemma lsdb_inv_set_db d m :
  map_Forall (ok_record (d_self_id d) (d_links d)) m -> lsdb_inv d -> lsdb_inv (set_db m d).
Proof. intros Hm [I1 I2 I3 I4]. by split. Qed.

Lemma lsdb_inv_insert d k r :
  ok_record (d_self_id d) (d_links d) k r -> lsdb_inv d -> lsdb_inv (set_db (<[k := r]> (d_db d)) d).
Proof. intros Hr I. apply lsdb_inv_set_db; [|done]. apply map_Forall_insert_2; [done | apply I]. Qed.

Lemma lsdb_inv_delete d k : lsdb_inv d -> lsdb_inv (set_db (delete k (d_db d)) d).
Proof. intros I. apply lsdb_inv_set_db; [|done]. apply map_Forall_delete, I. Qed.

Lemma lsdb_inv_drop_origin d n : lsdb_inv d -> lsdb_inv (set_db (drop_origin n (d_db d)) d).
Proof.
  intros I. apply lsdb_inv_set_db; [|done]. intros k r [Hk _]%map_lookup_filter_Some.
  by apply (i_db _ I).
Qed.

#[export] Hint Resolve lsdb_inv_set_rebuild lsdb_inv_delete lsdb_inv_drop_origin lsdb_inv_insert
  lsdb_inv_set_routes : anybus.

(** Keeping the body of a record keeps it in order. *)
Lemma ok_record_same_body self links k r r' :
  lsa_key (rec_lsa r') = lsa_key (rec_lsa r) -> lsa_body (rec_lsa r') = lsa_body (rec_lsa r) ->
  ok_record self links k r -> ok_record self links k r'.
Proof. unfold ok_record. intros -> ->. done. Qed.

Lemma ok_record_endpoint self links k r info :
  lsa_key (rec_lsa r) = k -> lsa_body (rec_lsa r) = Endpoint info -> ok_record self links k r.
Proof. intros Hk Hb. split; [done|]. intros _ adjs Hr. congruence. Qed.

Section spf.
Context `{Cd : Codec} `{E : !Env} `{!EnvLaws}.

Lemma elem_of_link_values d w link : link ∈ link_values d w <-> exists c, d_links d !! c = Some link.
Proof.
  unfold link_values. rewrite list_elem_of_fmap. split.
  - intros ([c l] & -> & Hin%elem_of_iter_map). by exists c.
  - intros [c Hl]. exists (c, link). split; [done|]. by apply elem_of_iter_map.
Qed.

Lemma router_nodes_lookup d w n adjs :
  router_nodes d w !! n = Some adjs ->
  exists k r, d_db d !! k = Some r /\ key_origin k = n /\ lsa_body (rec_lsa r) = Router adjs.
Proof.
  intros ([k r] & Hin & He)%collect_map_lookup%list_elem_of_omap.
  apply elem_of_iter_map in Hin. unfold router_entry in He. simpl in He.
  destruct (lsa_body (rec_lsa r)) eqn:Hb; [|done]. injection He as <- <-. by exists k, r.
Qed.

(** The neighbours a node advertises are covered by its links. *)
Lemma inv_covered d w :
  map_Forall (ok_record (d_self_id d) (d_links d)) (d_db d) ->
  covered (d_self_id d) (link_values d w) (router_nodes d w).
Proof.
  intros Hdb adjs adj Hn Hadj. destruct (router_nodes_lookup _ _ _ _ Hn) as (k & r & Hk & Ho & Hb).
  destruct (Hdb k r Hk) as [_ Hself]. destruct (Hself Ho adjs Hb) as [_ Hback].
  destruct (Hback adj Hadj) as (link & Hl & Hp). exists link. split; [|done].
  apply elem_of_link_values. by exists (adj_connection_id adj).
Qed.

Lemma compute_spf_done d w :
  map_Forall (ok_record (d_self_id d) (d_links d)) (d_db d) ->
  map_Forall (fun c link => l_connection_id link = c) (d_links d) ->
  exists st, spf_run (d_self_id d) (link_values d w) (router_nodes d w) = SpfDone st /\
    compute_spf (d_self_id d) d w = Returns (set_spf (sp_next_hop st) (sp_cost st) (sp_parent st) d) /\
    map_Forall (fun _ link => d_links d !! l_connection_id link = Some link) (sp_next_hop st).
Proof.
  intros Hdb Hlinks. destruct (spf_done _ _ _ (inv_covered d w Hdb)) as [st Hst].
  exists st. split; [done|]. unfold compute_spf. rewrite Hst. split; [done|].
  intros n link Hl. destruct (spf_next_hop_known _ _ _ _ _ _ Hst Hl) as (_ & _ & Hin).
  apply elem_of_link_values in Hin as [c Hc]. by rewrite (Hlinks c link Hc).
Qed.

Lemma compute_spf_inv d w :
  lsdb_inv d -> exists nh c p, compute_spf (d_self_id d) d w = Returns (set_spf nh c p d) /\
    lsdb_inv (set_spf nh c p d).
Proof.
  intros I. destruct (compute_spf_done d w (i_db _ I) (i_links _ I)) as (st & _ & Hc & Hh).
  do 3 eexists. split; [done|]. split; try apply I. done.
Qed.
End spf.

(** * Operations that keep the links *)

(** What the operations that neither add nor remove a neighbour have in common. *)
Definition well_behaved `{Cd : Codec} (s s' : LsDb * World) : Prop :=
  (lsdb_inv s.1 -> lsdb_inv s'.1) /\ d_self_id s'.1 = d_self_id s.1 /\
  d_links s'.1 = d_links s.1 /\ emits (ev_fits (d_links s.1)) s.2 s'.2.

Section operations.
Context `{Cd : Codec} `{E : !Env} `{!EnvLaws}.

#[export] Instance well_behaved_refl : Reflexive well_behaved.
Proof. intros s. split; [done|]. split; [done|]. split; [done | reflexivity]. Qed.

#[export] Instance well_behaved_trans : Transitive well_behaved.
Proof.
  intros s1 s2 s3 (I1 & S1 & L1 & E1) (I2 & S2 & L2 & E2). split; [auto|].
  rewrite S2, L2. split; [done|]. split; [done|]. rewrite L1 in E2. by etrans.
Qed.

(** A change of the database alone. *)
Lemma well_behaved_set d d' w :
  (lsdb_inv d -> lsdb_inv d') -> d_self_id d' = d_self_id d -> d_links d' = d_links d ->
  well_behaved (d, w) (d', w).
Proof. intros ???. split; [done|]. split; [done|]. split; [done | reflexivity]. Qed.

Lemma well_behaved_read d w : well_behaved (d, w) (d, (read_clock w).2).
Proof. split; [done|]. split; [done|]. split; [done|]. apply emits_read. Qed.

Lemma well_behaved_flood lsa inc d w : well_behaved (d, w) (flood_all_neighbors lsa inc d w).
Proof.
  destruct (flood_all_neighbors lsa inc d w) as [d' w'] eqn:Hf.
  destruct (flood_spec _ _ _ _ _ _ Hf) as [Hfr Hem].
  split; [by apply lsdb_inv_frame|]. rewrite Hfr. done.
Qed.

Lemma well_behaved_flood_peer c d w : well_behaved (d, w) (flood_peer c d w).
Proof.
  destruct (flood_peer c d w) as [d' w'] eqn:Hf.
  destruct (flood_peer_spec _ _ _ _ _ Hf) as [Hfr Hem].
  split; [by apply lsdb_inv_frame|]. rewrite Hfr. done.
Qed.

Lemma well_behaved_rebuild d w : well_behaved (d, w) (request_rebuild d w).
Proof.
  destruct (request_rebuild d w) as [d' w'] eqn:Hr.
  destruct (request_rebuild_spec _ _ _ _ Hr) as (Hd & _ & Hem).
  split; [rewrite Hd; apply lsdb_inv_set_rebuild|]. rewrite Hd. simpl. done.
Qed.

Lemma well_behaved_ack c key seq d w : well_behaved (d, w) (d, send_ack c key seq d w).
Proof. split; [done|]. split; [done|]. split; [done|]. apply send_ack_emits. Qed.

Lemma forget_all_routes_ok (l : list (LsaKey * LsaRecord)) t :
  routes_ok t -> routes_ok (foldl (fun t kv => forget_remote kv.1 t) t l).
Proof.
  intros Ht. apply foldl_invariant; [|done]. intros t' kv _ Ht'. by apply remove_remote_endpoint_routes_ok.
Qed.

Lemma remove_dead_lsa_ok lsa d w :
  lsa_dead lsa = true ->
  exists s', remove_dead_lsa lsa d w = Returns s' /\ well_behaved (d, w) s'.
Proof.
  intros Hdead. unfold remove_dead_lsa. rewrite Hdead. simpl.
  assert (Hforget : forall d, lsdb_inv d ->
    lsdb_inv (set_routes (forget_remote (lsa_key lsa) (d_routes d)) d)).
  { intros d' I. apply lsdb_inv_set_routes; [|done]. apply remove_remote_endpoint_routes_ok, I. }
  destruct (d_db d !! lsa_key lsa) as [current|];
    [|eexists; split; [done | by apply well_behaved_set; [apply Hforget|..]]].
  destruct (N.ltb _ _); [|eexists; split; [done | reflexivity]].
  set (d1 := if is_router_record current then _ else _).
  assert (H1 : well_behaved (d, w) (d1, w)).
  { apply well_behaved_set; [|by unfold d1; destruct (is_router_record current)..].
    intros I. unfold d1. destruct (is_router_record current).
    - apply lsdb_inv_set_routes; [apply forget_all_routes_ok, I | by apply lsdb_inv_drop_origin].
    - by apply (lsdb_inv_delete (set_routes _ d)), lsdb_inv_set_routes; [apply remove_remote_endpoint_routes_ok, I|]. }
  pose proof (well_behaved_flood lsa None d1 w) as H2.
  destruct (flood_all_neighbors lsa None d1 w) as [d2 w2].
  pose proof (well_behaved_rebuild d2 w2) as H3.
  destruct (request_rebuild d2 w2) as [d3 w3].
  eexists. split; [done|]. etrans; [exact H1|]. etrans; [exact H2|]. etrans; [exact H3|].
  by apply well_behaved_set; [apply Hforget|..].
Qed.

(** The advertisement is not about a multicast endpoint. *)
Definition not_multicast (lsa : Lsa) : Prop :=
  match lsa_body lsa with Router _ => True | Endpoint info => ei_kind info <> Multicast end.

Lemma upsert_lsa_ok lsa d w :
  key_origin (lsa_key lsa) <> d_self_id d -> not_multicast lsa ->
  well_behaved (d, w) (upsert_lsa lsa d w).2.
Proof.
  intros Horigin Hnm. unfold upsert_lsa. set (store := match _ with Some _ => _ | None => _ end).
  destruct store; [|reflexivity]. simpl. etrans; [apply well_behaved_read|]. simpl.
  set (w1 := mkWorld _ _). set (d1 := set_db _ d).
  assert (H1 : well_behaved (d, w1) (d1, w1)).
  { apply well_behaved_set; [|done..]. apply lsdb_inv_insert. split; [done|]. intros ?. congruence. }
  pose proof (well_behaved_rebuild d1 w1) as H2.
  destruct (request_rebuild d1 w1) as [d2 w2].
  etrans; [exact H1|]. etrans; [exact H2|]. simpl. apply well_behaved_set; [|done..].
  intros I. apply lsdb_inv_set_routes; [|done]. apply add_remote_endpoint_routes_ok; [|apply I].
  unfold advertised_info. unfold not_multicast in Hnm. by destruct (lsa_body lsa).
Qed.

Lemma compute_spf_ok d w :
  lsdb_inv d -> exists d', compute_spf (d_self_id d) d w = Returns d' /\ well_behaved (d, w) (d', w).
Proof.
  intros I. destruct (compute_spf_inv d w I) as (nh & c & p & Hc & I').
  eexists. split; [done|]. by apply well_behaved_set.
Qed.

Lemma handle_lsa_ok lsa c d w :
  lsdb_inv d -> not_multicast lsa -> exists s', handle_lsa lsa c d w = Returns s' /\ well_behaved (d, w) s'.
Proof.
  intros I Hnm. unfold handle_lsa.
  pose proof (well_behaved_ack c (lsa_key lsa) (lsa_seq lsa) d w) as H0.
  set (w0 := send_ack _ _ _ _ _) in *. case_decide as Ho; [by eexists|].
  destruct (lsa_dead lsa) eqn:Hdead.
  { destruct (remove_dead_lsa_ok lsa d w0 Hdead) as (s' & -> & H1).
    eexists. split; [done | by etrans]. }
  pose proof (upsert_lsa_ok lsa d w0 Ho Hnm) as H1.
  destruct (upsert_lsa lsa d w0) as [[] [d1 w1]]; simpl in H1; [|by eexists; split; [|etrans]].
  pose proof (well_behaved_flood lsa (Some c) d1 w1) as H2.
  destruct (flood_all_neighbors lsa (Some c) d1 w1) as [d2 w2].
  assert (H02 : well_behaved (d, w) (d2, w2)) by (etrans; [exact H0|]; by etrans).
  destruct (is_router (lsa_body lsa)); [|by eexists].
  destruct (compute_spf_ok d2 w2) as (d3 & -> & H3); [by apply H02|].
  eexists. split; [done | by etrans].
Qed.

Lemma handle_ack_ok c key seq d w : well_behaved (d, w) (handle_ack c key seq d, w).
Proof.
  unfold handle_ack. destruct (d_pending_tx d !! (c, key)); [|reflexivity].
  apply well_behaved_set; [|done..]. by apply lsdb_inv_ext.
Qed.

Lemma update_endpoint_cost_ok e c d w : well_behaved (d, w) (update_endpoint_cost e c d w).
Proof.
  unfold update_endpoint_cost. set (key := endpoint_key d e).
  destruct (d_db d !! key) as [record|] eqn:Hk; [|reflexivity].
  destruct (lsa_body (rec_lsa record)) as [|body] eqn:Hb; [reflexivity|].
  destruct (N.eqb _ _); [reflexivity|]. simpl.
  etrans; [apply well_behaved_read|]. simpl. set (w1 := mkWorld _ _). set (d1 := set_db _ d).
  assert (H1 : well_behaved (d, w1) (d1, w1)).
  { apply well_behaved_set; [|done..]. intros I. apply lsdb_inv_insert; [|done].
    eapply ok_record_endpoint; [|done]. by destruct (i_db _ I key record Hk). }
  set (lsa := mkLsa _ _ _ _).
  pose proof (well_behaved_flood lsa None d1 w1) as H2.
  destruct (flood_all_neighbors lsa None d1 w1) as [d2 w2].
  etrans; [exact H1|]. etrans; [exact H2|]. apply well_behaved_rebuild.
Qed.

Lemma apply_add_ok eff d w : well_behaved (d, w) (apply_add eff d w).
Proof.
  destruct eff as [e info|e c|e| |]; simpl; try apply well_behaved_rebuild;
    [|apply update_endpoint_cost_ok].
  set (w1 := mkWorld _ _). set (lsa := mkLsa _ _ _ _).
  etrans; [apply well_behaved_read|]. simpl. fold w1.
  pose proof (well_behaved_flood lsa (Some 0%N) d w1) as H1.
  destruct (flood_all_neighbors lsa (Some 0%N) d w1) as [d1 w2] eqn:Hf.
  etrans; [exact H1|]. apply well_behaved_set; [|done..].
  apply lsdb_inv_insert. by eapply ok_record_endpoint.
Qed.

Lemma well_behaved_routes d t w : routes_ok t -> well_behaved (d, w) (set_routes t d, w).
Proof. intros Ht. apply well_behaved_set; [|done..]. by apply lsdb_inv_set_routes. Qed.

Lemma lsdb_add_endpoint_ok rq d w :
  ei_kind (rr_endpoint_info rq) <> Multicast -> lsdb_inv d -> well_behaved (d, w) (lsdb_add_endpoint rq d w).2.
Proof.
  intros Hk I. unfold lsdb_add_endpoint.
  pose proof (add_endpoint_routes_ok (d_routes d) (rr_endpoint_id rq) (rr_endpoint_info rq)
    (rr_sender rq) Hk (i_routes _ I)) as Ht.
  destruct (add_endpoint _ _ _ _) as [[e|eff] t]; simpl in *;
    (etrans; [by apply (well_behaved_routes d t w)|]); [|apply apply_add_ok].
  split; [done|]. split; [done|]. split; [done|]. by apply emits_client.
Qed.

Lemma lsdb_set_anycast_cost_ok e sender c d w :
  lsdb_inv d -> well_behaved (d, w) ((lsdb_set_anycast_cost e sender c d).2, w).
Proof.
  intros I. unfold lsdb_set_anycast_cost.
  pose proof (set_anycast_cost_routes_ok (d_routes d) e sender c (i_routes _ I)) as Ht.
  destruct (set_anycast_cost _ _ _ _) as [r t]. by apply well_behaved_routes.
Qed.

Lemma apply_remove_ok eff d w : well_behaved (d, w) (apply_remove eff d w).
Proof.
  destruct eff as [e info|e c|e| |]; simpl; try reflexivity; [apply update_endpoint_cost_ok|].
  destruct (d_db d !! endpoint_key d e) as [record|]; [|reflexivity].
  etrans; [|apply well_behaved_flood]. apply well_behaved_set; [|done..]. apply lsdb_inv_delete.
Qed.

Lemma lsdb_remove_endpoint_ok e d w :
  lsdb_inv d -> well_behaved (d, w) (lsdb_remove_endpoint e d w).
Proof.
  intros I. unfold lsdb_remove_endpoint.
  pose proof (remove_endpoint_routes_ok (d_routes d) e w (i_routes _ I)) as Ht.
  destruct (remove_endpoint _ _ _) as [eff t].
  pose proof (well_behaved_rebuild (set_routes t d) w) as H1.
  destruct (request_rebuild (set_routes t d) w) as [d1 w1].
  etrans; [by apply (well_behaved_routes d t w)|]. etrans; [exact H1|]. apply apply_remove_ok.
Qed.

(** * Ticks *)
Lemma peek_stale_emits timeout l P : forall w, emits P w (peek_stale timeout l w).2.
Proof.
  induction l as [|[k r] l IH]; intros w; simpl; [reflexivity|].
  destruct (N.ltb _ _); simpl; [apply emits_read|]. etrans; [apply emits_read | apply IH].
Qed.

Lemma purge_stale_ok d w : well_behaved (d, w) (purge_stale_lsas d w).2.
Proof.
  unfold purge_stale_lsas.
  pose proof (peek_stale_emits (d_lsa_timeout d) (env_iter_map w (d_db d)) (ev_fits (d_links d)) w) as He.
  destruct (peek_stale _ _ _) as [[k|] w1]; simpl in *; (split; [|by split; [|split]]); [|done].
  apply lsdb_inv_delete.
Qed.

Lemma refresh_record_ok self links d now k r :
  ok_record self links k r -> ok_record self links k (refresh_record d now r).
Proof.
  unfold refresh_record. destruct (needs_refresh d now r); [|done]. by apply ok_record_same_body.
Qed.

Lemma flood_list_ok l d w :
  well_behaved (d, w) (foldl (fun s lsa => flood_all_neighbors lsa None s.1 s.2) (d, w) l).
Proof.
  apply foldl_invariant; [|reflexivity]. intros [d' w'] lsa _ Hs. etrans; [exact Hs|].
  apply well_behaved_flood.
Qed.

Lemma refresh_and_purge_ok d w :
  lsdb_inv d -> exists s', refresh_and_purge_lsas d w = Returns s' /\ well_behaved (d, w) s'.
Proof.
  intros I. unfold refresh_and_purge_lsas. simpl. set (w1 := mkWorld _ _).
  set (to_flood := map _ _). set (d1 := set_db _ d).
  assert (H1 : well_behaved (d, w) (d1, w1)).
  { etrans; [apply well_behaved_read|]. apply well_behaved_set; [|done..]. intros _.
    apply lsdb_inv_set_db; [|done]. intros k r Hk. rewrite lookup_fmap in Hk.
    destruct (d_db d !! k) as [r0|] eqn:H0; [|done]. injection Hk as <-.
    apply refresh_record_ok, (i_db _ I k r0 H0). }
  pose proof (flood_list_ok to_flood d1 w1) as H2.
  destruct (foldl _ _ to_flood) as [d2 w2].
  pose proof (purge_stale_ok d2 w2) as H3.
  destruct (purge_stale_lsas d2 w2) as [dirty [d3 w3]]. simpl in H3.
  assert (H03 : well_behaved (d, w) (d3, w3)) by (etrans; [exact H1|]; by etrans).
  assert (Hend : forall d' w', well_behaved (d, w) (d', w') ->
    exists s', (let '(now, w) := read_clock w' in Returns (set_last_refresh now d', w)) = Returns s' /\
      well_behaved (d, w) s').
  { intros d' w' Hs. eexists. split; [done|]. etrans; [exact Hs|].
    etrans; [apply well_behaved_read|]. apply well_behaved_set; [|done..]. by apply lsdb_inv_ext. }
  destruct dirty; [|by apply Hend].
  destruct (compute_spf_ok d3 w3) as (d4 & -> & H4); [by apply H03|].
  cbn [outcome_bind]. pose proof (well_behaved_rebuild d4 w3) as H5.
  destruct (request_rebuild d4 w3) as [d5 w5]. apply Hend.
  etrans; [exact H03|]. etrans; [exact H4 | exact H5].
Qed.

Lemma tick_ok d w :
  lsdb_inv d -> exists b s', tick d w = Returns (b, s') /\ well_behaved (d, w) s'.
Proof.
  intros I. unfold tick. simpl. set (w1 := mkWorld _ _). set (d1 := set_last_tick _ d).
  assert (H1 : well_behaved (d, w) (d1, w1)).
  { etrans; [apply well_behaved_read|]. apply well_behaved_set; [|done..]. by apply lsdb_inv_ext. }
  assert (Hr : exists s', (if N.ltb (d_last_refresh d + d_lsa_timeout d / 3)%N (env_now w)
      then refresh_and_purge_lsas d1 w1 else Returns (d1, w1)) = Returns s' /\ well_behaved (d, w) s').
  { destruct (N.ltb _ _); [|by eexists].
    destruct (refresh_and_purge_ok d1 w1) as (s' & -> & H2); [by apply H1|].
    eexists. split; [done | by etrans]. }
  destruct Hr as ([d2 w2] & -> & H2). simpl.
  destruct (d_rebuild_requested d2); do 2 eexists; (split; [done|]); [|done].
  etrans; [exact H2|]. apply well_behaved_set; [|done..]. apply lsdb_inv_set_rebuild.
Qed.

(** * Neighbours coming and going *)
Lemma ev_fits_mono (links links' : gmap ConnectionId Link) ev :
  links ⊆ links' -> ev_fits links ev -> ev_fits links' ev.
Proof.
  intros Hsub. destruct ev as [tx [wp|lsa|k s] r| |]; simpl; try done.
  - intros (c & link & Hl & ?). exists c, link. split; [by eapply lookup_weaken | done].
  - intros (c & link & Hl & ?). exists c, link. split; [by eapply lookup_weaken | done].
Qed.

Lemma backed_insert links c link adj :
  links !! c = None -> backed links adj -> backed (<[c := link]> links) adj.
Proof.
  intros Hn (l & Hl & Hp). exists l. split; [|done]. rewrite lookup_insert_ne; [done | congruence].
Qed.

(** The new link together with the adjacency it backs. *)
Lemma lsdb_inv_add_link d link record adjs :
  let c := l_connection_id link in
  let adj := mkAdjacency c (l_peer_id link) (l_cost link) (l_realms link) in
  let key := router_key (d_self_id d) in
  d_links d !! c = None -> lsdb_inv d ->
  lsa_key (rec_lsa record) = key -> lsa_body (rec_lsa record) = Router (adjs ++ [adj]) ->
  (forall a, a ∈ adjs -> backed (d_links d) a) ->
  lsdb_inv (set_links (<[c := link]> (d_links d)) (set_db (<[key := record]> (d_db d)) d)).
Proof.
  intros c adj key Hn I Hkey Hbody Hback. destruct I as [I1 I2 I3 I4]. split; simpl; [| |done|].
  - apply map_Forall_insert_2.
    + split; [done|]. intros _ adjs' Hb. split; [done|]. rewrite Hbody in Hb. injection Hb as <-.
      intros a [Ha|Ha%list_elem_of_singleton]%elem_of_app; [by apply backed_insert, Hback|].
      subst a. exists link. by rewrite lookup_insert_eq.
    + intros k r Hk. destruct (I1 k r Hk) as [Hk' Hself]. split; [done|].
      intros Ho adjs' Hb. destruct (Hself Ho adjs' Hb) as [-> Hbk]. split; [done|].
      intros a Ha. by apply backed_insert, Hbk.
  - by apply map_Forall_insert_2.
  - intros n l Hl. pose proof (I4 n l Hl) as Hl4. simpl in Hl4.
    rewrite lookup_insert_ne; [done | congruence].
Qed.

Lemma add_peer_ok link d w :
  lsdb_inv d -> d_links d !! l_connection_id link = None ->
  let s' := add_peer link d w in
  lsdb_inv s'.1 /\ d_self_id s'.1 = d_self_id d /\
  (d_links s'.1 = d_links d \/ d_links s'.1 = <[l_connection_id link := link]> (d_links d)) /\
  emits (ev_fits (d_links s'.1)) w s'.2.
Proof.
  intros I Hn. set (links' := <[l_connection_id link := link]> (d_links d)). unfold add_peer, add_adjacency.
  set (key := router_key (d_self_id d)).
  set (root := match d_db d !! key with Some record => _ | None => _ end).
  assert (Hroot : (forall P, emits P w root.2) /\ lsa_key (rec_lsa root.1) = key /\
    (forall adjs, lsa_body (rec_lsa root.1) = Router adjs -> forall a, a ∈ adjs -> backed (d_links d) a)).
  { unfold root. destruct (d_db d !! key) as [r|] eqn:Hk; simpl.
    - destruct (i_db _ I key r Hk) as [Hkey Hself]. split; [reflexivity|]. split; [done|].
      intros adjs Hb. by apply Hself.
    - split; [intros P; apply emits_read|]. split; [done|]. intros adjs [= <-] a Ha. by apply elem_of_nil in Ha. }
  destruct root as [record w1]. simpl in Hroot. destruct Hroot as (Hem1 & Hkey & Hback).
  destruct (lsa_body (rec_lsa record)) as [adjs|] eqn:Hb; simpl.
  2: { split; [done|]. split; [done|]. split; [by left | apply Hem1]. }
  set (w2 := mkWorld _ _). set (record' := bump _ _ _).
  assert (H1 : lsdb_inv (set_links links' (set_db (<[key := record']> (d_db d)) d))).
  { apply (lsdb_inv_add_link d link record' adjs); try done. by apply Hback. }
  set (d1 := set_links _ _) in *. fold links' in d1.
  pose proof (well_behaved_rebuild d1 w2) as H2. destruct (request_rebuild d1 w2) as [d2 w3].
  pose proof (well_behaved_flood (rec_lsa record') (Some (l_connection_id link)) d2 w3) as H3.
  destruct (flood_all_neighbors _ _ d2 w3) as [d3 w4].
  pose proof (well_behaved_flood_peer (l_connection_id link) d3 w4) as H4.
  destruct (flood_peer _ d3 w4) as [d4 w5]. simpl.
  assert (H14 : well_behaved (d1, w2) (d4, w5)) by (etrans; [exact H2|]; by etrans).
  destruct H14 as (Hinv & Hself & Hlinks & Hem). simpl in *.
  split; [by apply Hinv|]. split; [done|]. split; [by right|]. rewrite Hlinks.
  etrans; [apply Hem1|]. etrans; [apply emits_read | done].
Qed.

Lemma ok_record_delete_link self links c k r :
  ok_record self links k r ->
  (key_origin k = self -> forall adjs adj, lsa_body (rec_lsa r) = Router adjs -> adj ∈ adjs ->
     not_connection c adj = true) ->
  ok_record self (delete c links) k r.
Proof.
  intros [Hkey Hself] Hnc. split; [done|]. intros Ho adjs Hb.
  destruct (Hself Ho adjs Hb) as [-> Hback]. split; [done|]. intros adj Hadj.
  destruct (Hback adj Hadj) as (l & Hl & Hp). exists l. split; [|done].
  specialize (Hnc Ho adjs adj Hb Hadj). unfold not_connection in Hnc.
  apply negb_true_iff, N.eqb_neq in Hnc. by rewrite lookup_delete_ne.
Qed.

Lemma drop_adjacency_ok c d w :
  let links' := delete c (d_links d) in
  let s' := drop_adjacency c (set_links links' d) w in
  lsdb_inv d ->
  map_Forall (ok_record (d_self_id d) links') (d_db s'.1) /\ d_links s'.1 = links' /\
  d_self_id s'.1 = d_self_id d /\ d_routes s'.1 = d_routes d /\
  emits (ev_fits (d_links d)) w s'.2.
Proof.
  intros links' s' I. set (key := router_key (d_self_id d)).
  assert (Hall : (forall r adjs adj, d_db d !! key = Some r -> lsa_body (rec_lsa r) = Router adjs ->
      adj ∈ adjs -> not_connection c adj = true) ->
    map_Forall (ok_record (d_self_id d) links') (d_db d)).
  { intros Hnc k r Hk. apply ok_record_delete_link; [by apply (i_db _ I)|].
    intros Ho adjs adj Hb. destruct (i_db _ I k r Hk) as [_ Hself].
    destruct (Hself Ho adjs Hb) as [-> _]. by apply (Hnc r adjs adj Hk Hb). }
  subst s'. unfold drop_adjacency. simpl. fold key.
  destruct (d_db d !! key) as [record|] eqn:Hk.
  2: { split; [apply Hall; intros; congruence|]. split; [done|]. split; [done|]. split; [done | reflexivity]. }
  destruct (lsa_body (rec_lsa record)) as [adjs|] eqn:Hb.
  2: { split; [apply Hall; intros; congruence|]. split; [done|]. split; [done|]. split; [done | reflexivity]. }
  destruct (Nat.ltb_spec (length (retain (not_connection c) adjs)) (length adjs)) as [Hlt|Hge].
  - cbn [read_clock]. set (record' := bump _ _ _). set (w1 := mkWorld _ _). set (d1 := set_db _ _).
    set (lsa := mkLsa _ _ _ _). destruct (flood_all_neighbors lsa None d1 w1) as [d2 w2] eqn:Hf.
    destruct (flood_spec _ _ _ _ _ _ Hf) as [Hfr Hem]. unfold frame in Hfr.
    cbn [fst snd]. rewrite Hfr. simpl.
    split; [|split; [done|split; [done|split; [done|]]]].
    + intros k r [[<- <-]|[Hne Hk']]%lookup_insert_Some.
      * destruct (i_db _ I key record Hk) as [Hkey Hself]. split; [done|].
        intros _ adjs' [= <-]. split; [done|]. intros adj [Hnc Hin]%elem_of_retain.
        destruct (Hself eq_refl adjs Hb) as [_ Hback]. destruct (Hback adj Hin) as (l & Hl & Hp).
        exists l. split; [|done]. unfold not_connection in Hnc.
        apply negb_true_iff, N.eqb_neq in Hnc. unfold links'. by rewrite lookup_delete_ne.
      * apply ok_record_delete_link; [by apply (i_db _ I)|]. intros Ho adjs' adj Hb' _.
        destruct (i_db _ I k r Hk') as [_ Hself]. by destruct (Hself Ho adjs' Hb').
    + etrans; [apply emits_read|]. eapply emits_weaken; [|exact Hem].
      intros ev. apply ev_fits_mono. apply delete_subseteq.
  - split; [|split; [done|split; [done|split; [done | reflexivity]]]]. apply Hall. intros r adjs' adj [= <-] Hb' Hin.
    rewrite Hb in Hb'. injection Hb' as <-.
    pose proof (retain_length_le (not_connection c) adjs).
    rewrite <- (retain_length_eq (not_connection c) adjs) in Hin by lia.
    by apply elem_of_retain in Hin as [? _].
Qed.

Lemma remove_peer_ok c d w :
  lsdb_inv d -> exists s', remove_peer c d w = Returns s' /\
    lsdb_inv s'.1 /\ d_self_id s'.1 = d_self_id d /\ d_links s'.1 = delete c (d_links d) /\
    emits (ev_fits (d_links d)) w s'.2.
Proof.
  intros I. unfold remove_peer. destruct (d_links d !! c) as [link|] eqn:Hc.
  2: { eexists. split; [done|]. simpl. rewrite delete_id by done.
    split; [done|]. split; [done|]. split; [done | reflexivity]. }
  destruct (drop_adjacency_ok c d w I) as (Hdb & Hlinks & Hself & Hroutes & Hem).
  destruct (drop_adjacency _ _ w) as [d1 w1]. simpl in *.
  rewrite <- Hself, <- Hlinks in Hdb.
  destruct (compute_spf_done d1 w1 Hdb) as (st & _ & Hspf & Hhops).
  { rewrite Hlinks. apply map_Forall_delete, I. }
  rewrite Hspf. eexists. split; [done|]. simpl. split; [|done].
  split; simpl; [done| | |done]; [rewrite Hlinks; apply map_Forall_delete, I|].
  rewrite Hroutes. apply I.
Qed.

(** * Shutdown *)
Lemma table_shutdown_emits t w P :
  (forall tx r, P (EvClient tx CmShutdown r)) -> emits P w (table_shutdown t w).2.
Proof.
  intros HP. unfold table_shutdown. simpl. apply (foldl_invariant (emits P w)); [|reflexivity].
  intros w1 en _ H1. etrans; [exact H1|]. unfold shutdown_entry.
  apply (foldl_invariant (emits P w1)); [|reflexivity].
  intros w2 r _ H2. etrans; [exact H2|]. destruct (r_via r); [|reflexivity].
  by apply emits_client.
Qed.

Lemma lsdb_shutdown_emits d w : emits (ev_fits (d_links d)) w (lsdb_shutdown d w).2.
Proof.
  unfold lsdb_shutdown. set (s := match d_db d !! _ with Some _ => _ | None => _ end).
  assert (Hs : emits (ev_fits (d_links d)) w s.2).
  { unfold s. destruct (d_db d !! _) as [record|]; [|reflexivity]. cbn [read_clock].
    destruct (is_router_record _); [|apply emits_read].
    set (d1 := set_db _ d). set (w1 := mkWorld _ _).
    etrans; [apply emits_read|]. fold w1. apply (well_behaved_flood _ None d1 w1). }
  destruct s as [d1 w1]. simpl in Hs.
  pose proof (table_shutdown_emits (d_routes d1) w1 (ev_fits (d_links d)) ltac:(done)) as Ht.
  destruct (table_shutdown (d_routes d1) w1) as [t w2]. simpl in *. by etrans.
Qed.

Lemma lsdb_new_inv self w : lsdb_inv (lsdb_new self w).1.
Proof.
  unfold lsdb_new. simpl. split; simpl.
  - apply map_Forall_singleton. split; [done|]. intros _ adjs [= <-]. split; [done|].
    by intros ? ?%elem_of_nil.
  - apply map_Forall_empty.
  - apply routes_ok_empty.
  - apply map_Forall_empty.
Qed.
End operations.
