(* ===== verification/LsDbTheorems.v ===== *)
(** What the operations of the link-state database guarantee: shortest paths and next
    hops, the acceptance and the withdrawal of advertisements, flooding and its
    acknowledgements, purging and shutdown. *)
From Stdlib Require Import Strings.String.
From S2P Require Import Prelude Types Messages World RouteTable Linkstate Spf SpfProofs LsDb LsDbProofs.

(** * Withdrawing the routes of a node *)

(** No route of the table goes to [n] for endpoint [e]. *)
Definition no_route_to (t : RouteTable) (e : EndpointId) (n : NodeId) : Prop :=
  forall en r, t !! e = Some en -> r ∈ re_routes en -> r_via r <> Remote n.

Lemma forget_remote_routes k t e en r :
  forget_remote k t !! e = Some en -> r ∈ re_routes en ->
  exists en0, t !! e = Some en0 /\ r ∈ re_routes en0 /\
    (e = key_endpoint k -> r_via r <> Remote (key_origin k)).
Proof.
  unfold forget_remote, remove_remote_endpoint.
  destruct (t !! key_endpoint k) as [en1|] eqn:He.
  2: { simpl. intros Hl Hr. exists en. split; [done|]. split; [done|]. intros ->. congruence. }
  assert (Hsub : forall x, x ∈ retain (fun r => negb (is_origin (key_origin k) r)) (re_routes en1) ->
    x ∈ re_routes en1 /\ r_via x <> Remote (key_origin k)).
  { intros x [Hx Hin]%elem_of_retain. split; [done|]. intros Hv. unfold is_origin in Hx.
    rewrite Hv, bool_decide_true in Hx by done. done. }
  destruct (retain _ _) as [|r0 rs] eqn:Hret; simpl.
  - intros [Hne Hl]%lookup_delete_Some Hr. exists en. split; [done|]. split; [done|]. intros ->. done.
  - intros [[<- <-]|[Hne Hl]]%lookup_insert_Some Hr.
    + destruct (Hsub r) as [Hin Hv]; [done|]. by exists en1.
    + exists en. split; [done|]. split; [done|]. intros ->. done.
Qed.

Lemma forget_remote_gone k t : no_route_to (forget_remote k t) (key_endpoint k) (key_origin k).
Proof.
  intros en r Hl Hr. destruct (forget_remote_routes _ _ _ _ _ Hl Hr) as (en0 & _ & _ & Hv). by apply Hv.
Qed.

Lemma forget_remote_mono k t e n : no_route_to t e n -> no_route_to (forget_remote k t) e n.
Proof.
  intros Hn en r Hl Hr. destruct (forget_remote_routes _ _ _ _ _ Hl Hr) as (en0 & Hl0 & Hr0 & _).
  by eapply Hn.
Qed.

(** Forgetting twice is forgetting once. *)
Lemma forget_remote_idem k t : forget_remote k (forget_remote k t) = forget_remote k t.
Proof.
  unfold forget_remote, remove_remote_endpoint. destruct (t !! key_endpoint k) as [en|] eqn:He; [|cbn [snd]; by rewrite He].
  set (p := fun r => negb (is_origin (key_origin k) r)).
  destruct (retain p (re_routes en)) as [|r rs] eqn:Hr; cbn [snd].
  - by rewrite lookup_delete_eq.
  - rewrite lookup_insert_eq. cbn [re_routes]. rewrite <- Hr, retain_idem, Hr. cbn [snd]. by rewrite insert_insert_eq.
Qed.

Lemma forget_all_gone (l : list (LsaKey * LsaRecord)) : forall t k r,
  (k, r) ∈ l ->
  no_route_to (foldl (fun t kv => forget_remote kv.1 t) t l) (key_endpoint k) (key_origin k).
Proof.
  assert (Hmono : forall (l : list (LsaKey * LsaRecord)) t e n, no_route_to t e n ->
    no_route_to (foldl (fun t kv => forget_remote kv.1 t) t l) e n).
  { intros l' t e n Hn. apply (foldl_invariant (fun t => no_route_to t e n)); [|done].
    intros t' kv _. apply forget_remote_mono. }
  induction l as [|[k0 r0] l IH]; intros t k r; simpl; [by intros ?%elem_of_nil|].
  intros [[= -> ->]|Hin]%elem_of_cons; [apply Hmono, forget_remote_gone | by eapply IH].
Qed.

Section theorems.
Context `{Cd : Codec} `{E : !Env} `{!EnvLaws}.

(** * Shortest paths *)

Lemma compute_spf_run d w d' :
  compute_spf (d_self_id d) d w = Returns d' ->
  exists st, spf_run (d_self_id d) (link_values d w) (router_nodes d w) = SpfDone st /\
    d' = set_spf (sp_next_hop st) (sp_cost st) (sp_parent st) d.
Proof.
  unfold compute_spf. destruct (spf_run _ _ _) as [st| |]; [|done..]. intros [= <-]. by exists st.
Qed.

(** C15: [compute_spf] terminates without panicking on every database that satisfies the
    invariant, and the cost it records for a node is the cost of a cheapest path through the
    advertised adjacencies, capped at [u16::MAX], which stands for unreachable. *)
Theorem compute_spf_shortest d w :
  lsdb_inv d -> exists d', compute_spf (d_self_id d) d w = Returns d' /\
    forall n, let c := default cost_max (d_cost d' !! n) in
      (c <= cost_max)%N /\
      (forall c', path (router_nodes d w) (d_self_id d) n c' -> (c <= c')%N) /\
      ((c < cost_max)%N -> path (router_nodes d w) (d_self_id d) n c).
Proof.
  intros I. destruct (compute_spf_done d w (i_db _ I) (i_links _ I)) as (st & Hst & Hc & _).
  eexists. split; [done|]. intros n c. split; [by eapply (spf_cost_le _ _ _ st n)|]. split.
  - intros c' Hp. pose proof (spf_complete _ _ _ _ Hst n c' Hp) as Hle. subst c. simpl.
    unfold cost_of in Hle. nlia.
  - intros Hlt. by eapply (spf_sound _ _ _ st n).
Qed.

(** The next hop recorded for a reachable node is one of the node's links, and starts a
    cheapest path: the cost to the neighbour plus the cheapest cost from there is the cheapest
    cost. A next hop is recorded for no other node. *)
Theorem next_hops_start_shortest_paths d w d' n :
  lsdb_inv d -> compute_spf (d_self_id d) d w = Returns d' ->
  (forall dist, shortest (router_nodes d w) (d_self_id d) n dist -> (dist < cost_max)%N ->
     n <> d_self_id d ->
     exists link w1 rest, d_next_hop d' !! n = Some link /\
       d_links d !! l_connection_id link = Some link /\
       edge (router_nodes d w) (d_self_id d) (l_peer_id link) w1 /\
       shortest (router_nodes d w) (l_peer_id link) n rest /\ dist = (w1 + rest)%N) /\
  (forall link, d_next_hop d' !! n = Some link ->
     n <> d_self_id d /\ exists dist, path (router_nodes d w) (d_self_id d) n dist /\ (dist < cost_max)%N).
Proof.
  intros I Hspf. destruct (compute_spf_run _ _ _ Hspf) as (st & Hst & ->). simpl. split.
  - intros dist Hs Hlt Hne.
    destruct (next_hop_shortest _ _ _ _ _ _ (inv_covered d w (i_db _ I)) Hst Hs Hlt Hne)
      as (link & w1 & rest & Hl & Hin & He & Hr & Heq).
    exists link, w1, rest. split; [done|]. split; [|done].
    apply elem_of_link_values in Hin as [c Hc]. by rewrite (i_links _ I c link Hc).
  - intros link Hl. destruct (spf_next_hop_known _ _ _ _ _ _ Hst Hl) as (Hne & Hlt & _).
    split; [done|]. exists (cost_of st n). split; [by eapply spf_sound | done].
Qed.

(** C14: hop-by-hop forwarding arrives: when every node computed its tables from the same router
    advertisements and every adjacency costs at least one, following next hops from node to node
    leads from any node to any node within reach, without loops, in at most as many hops as the
    path costs. *)
Theorem forwarding_arrives (dbs tables : NodeId -> LsDb) (ws : NodeId -> World) g u n dist :
  (forall v, lsdb_inv (dbs v) /\ d_self_id (dbs v) = v /\ router_nodes (dbs v) (ws v) = g) ->
  (forall v, compute_spf v (dbs v) (ws v) = Returns (tables v)) ->
  (forall v x c, edge g v x c -> (0 < c)%N) ->
  shortest g u n dist -> (dist < cost_max)%N ->
  exists k, reaches (fun v n => l_peer_id <$> d_next_hop (tables v) !! n) u n k /\
    (N.of_nat k <= dist)%N.
Proof.
  intros Hdbs Hspf Hpos Hs Hd.
  assert (Hst : forall v, exists st, spf_run v (link_values (dbs v) (ws v)) g = SpfDone st /\
    d_next_hop (tables v) = sp_next_hop st).
  { intros v. destruct (Hdbs v) as (_ & Hv & Hg). specialize (Hspf v). rewrite <- Hv in Hspf at 1.
    destruct (compute_spf_run _ _ _ Hspf) as (st & Hst & ->). exists st.
    rewrite Hv, Hg in Hst. done. }
  pose (st v := match spf_run v (link_values (dbs v) (ws v)) g with
                | SpfDone st => st | _ => spf_init v g end).
  assert (Hrun : forall v, spf_run v (link_values (dbs v) (ws v)) g = SpfDone (st v)).
  { intros v. unfold st. by destruct (Hst v) as (s & -> & _). }
  assert (Hnh : forall v, d_next_hop (tables v) = sp_next_hop (st v)).
  { intros v. destruct (Hst v) as (s & Hs' & ->). specialize (Hrun v). congruence. }
  destruct (reaches_shortest (fun v => link_values (dbs v) (ws v)) st g n) with (d := dist) (u := u)
    as (k & Hk & Hle); try done.
  { intros v. destruct (Hdbs v) as (I & Hv & Hg). pose proof (inv_covered _ (ws v) (i_db _ I)) as Hcov.
    by rewrite Hv, Hg in Hcov. }
  exists k. split; [|done]. clear -Hk Hnh. induction Hk as [|u v n k Hne Hnext _ IH]; [constructor|].
  econstructor; [done | by rewrite Hnh | done].
Qed.

(** * Receiving advertisements *)

(** A replayed or outdated advertisement, and one of the node's own, changes nothing: it is
    acknowledged to the sender and otherwise ignored, so it is not flooded again. *)
Theorem replay_only_acked lsa c d w :
  key_origin (lsa_key lsa) = d_self_id d \/
  (exists r, d_db d !! lsa_key lsa = Some r /\ (lsa_seq lsa <= lsa_seq (rec_lsa r))%N) ->
  handle_lsa lsa c d w = Returns (d, send_ack c (lsa_key lsa) (lsa_seq lsa) d w).
Proof.
  unfold handle_lsa. case_decide as Ho; [done|]. intros [?|(r & Hr & Hle)]; [done|].
  set (w0 := send_ack _ _ _ _ _). unfold remove_dead_lsa, upsert_lsa. rewrite Hr.
  destruct (N.ltb_spec (lsa_seq (rec_lsa r)) (lsa_seq lsa)); [lia|].
  by destruct (lsa_dead lsa).
Qed.

Lemma flood_db lsa inc d w : d_db (flood_all_neighbors lsa inc d w).1 = d_db d.
Proof.
  destruct (flood_all_neighbors lsa inc d w) as [d' w'] eqn:Hf. apply flood_spec in Hf as [Hfr _].
  simpl. by rewrite Hfr.
Qed.

Lemma rebuild_db d w : d_db (request_rebuild d w).1 = d_db d.
Proof.
  destruct (request_rebuild d w) as [d' w'] eqn:Hr. by apply request_rebuild_spec in Hr as (-> & _).
Qed.

Lemma remove_dead_lsa_db lsa d w d' w' k :
  remove_dead_lsa lsa d w = Returns (d', w') -> forall r, d_db d' !! k = Some r -> d_db d !! k = Some r.
Proof.
  unfold remove_dead_lsa. destruct (negb _); [done|].
  destruct (d_db d !! lsa_key lsa) as [current|]; [|by intros [= <- _]].
  destruct (N.ltb _ _); [|by intros [= <- _]].
  set (d1 := if is_router_record current then _ else _).
  pose proof (flood_db lsa None d1 w) as H1. destruct (flood_all_neighbors lsa None d1 w) as [d2 w2].
  pose proof (rebuild_db d2 w2) as H2. destruct (request_rebuild d2 w2) as [d3 w3]. simpl in *.
  intros [= <- _] r. simpl. rewrite H2, H1. unfold d1. destruct (is_router_record current); simpl.
  - by intros [? _]%map_lookup_filter_Some.
  - by intros [_ ?]%lookup_delete_Some.
Qed.

(** A live advertisement of another node is stored exactly when it is newer than the record of
    its key. *)
Definition stores (lsa : Lsa) (d : LsDb) : bool :=
  match d_db d !! lsa_key lsa with
  | Some current => N.ltb (lsa_seq (rec_lsa current)) (lsa_seq lsa)
  | None => true
  end.

Lemma handle_lsa_live lsa c d w d' w' :
  lsa_dead lsa = false -> key_origin (lsa_key lsa) <> d_self_id d -> handle_lsa lsa c d w = Returns (d', w') ->
  d_self_id d' = d_self_id d /\
  exists now, d_db d' = if stores lsa d then <[lsa_key lsa := mkLsaRecord lsa now]> (d_db d) else d_db d.
Proof.
  intros Hdead Ho. unfold handle_lsa. set (w0 := send_ack _ _ _ _ _). rewrite decide_False, Hdead by done.
  unfold upsert_lsa. change (match d_db d !! lsa_key lsa with Some _ => _ | None => _ end) with (stores lsa d).
  destruct (stores lsa d); [|intros [= <- _]; split; [done | by exists 0%N]]. cbn [read_clock].
  set (d1 := set_db _ d). set (w1 := mkWorld _ _).
  destruct (request_rebuild d1 w1) as [d2 w2] eqn:H2. apply request_rebuild_spec in H2 as (H2 & _).
  set (d3 := set_routes _ d2). destruct (flood_all_neighbors lsa (Some c) d3 w2) as [d4 w4] eqn:H4.
  apply flood_spec in H4 as [H4 _]. intros Hres.
  assert (Hd : d_self_id d' = d_self_id d4 /\ d_db d' = d_db d4).
  { destruct (is_router _); [|by injection Hres as <- _].
    destruct (compute_spf _ d4 w4) as [d5|] eqn:Hspf; [|done]. injection Hres as <- _.
    by destruct (compute_spf_run _ _ _ Hspf) as (st & _ & ->). }
  destruct Hd as [-> ->]. rewrite H4. unfold d3. simpl. rewrite H2. simpl. split; [done | by eexists].
Qed.

(** An advertisement is replaced only by a newer one from another node: whatever record the
    database holds after receiving [lsa] was there before, or is [lsa] itself, live, of another
    origin, and with a greater sequence number than the record it replaces. *)
Theorem lsas_only_move_forward lsa c d w d' w' k r' :
  handle_lsa lsa c d w = Returns (d', w') -> d_db d' !! k = Some r' ->
  d_db d !! k = Some r' \/
  (k = lsa_key lsa /\ rec_lsa r' = lsa /\ key_origin k <> d_self_id d /\ lsa_dead lsa = false /\
   forall r, d_db d !! k = Some r -> (lsa_seq (rec_lsa r) < lsa_seq lsa)%N).
Proof.
  intros Hres Hk. destruct (decide (key_origin (lsa_key lsa) = d_self_id d)) as [Ho|Ho].
  { left. unfold handle_lsa in Hres. rewrite decide_True in Hres by done. by injection Hres as <- _. }
  destruct (lsa_dead lsa) eqn:Hdead.
  { left. unfold handle_lsa in Hres. rewrite decide_False, Hdead in Hres by done. by eapply remove_dead_lsa_db. }
  destruct (handle_lsa_live _ _ _ _ _ _ Hdead Ho Hres) as (_ & now & Hdb). rewrite Hdb in Hk.
  unfold stores in Hk. destruct (match d_db d !! lsa_key lsa with Some _ => _ | None => _ end) eqn:Hs; [|by left].
  apply lookup_insert_Some in Hk as [[<- <-]|[_ Hk]]; [right | by left].
  repeat split; try done. intros r Hr. rewrite Hr in Hs. by apply N.ltb_lt.
Qed.

(** When a router announces its own death, every trace of it goes: no advertisement of that
    node remains, no route leads to it for any endpoint it had advertised, the other nodes'
    advertisements stay, and a rebuild of the forwarding table is requested. *)
Theorem dead_router_withdrawn lsa c d w d' w' current :
  lsa_dead lsa = true -> key_origin (lsa_key lsa) <> d_self_id d ->
  d_db d !! lsa_key lsa = Some current -> is_router_record current = true ->
  (lsa_seq (rec_lsa current) < lsa_seq lsa)%N ->
  handle_lsa lsa c d w = Returns (d', w') ->
  let origin := key_origin (lsa_key lsa) in
  (forall k r, d_db d' !! k = Some r <-> d_db d !! k = Some r /\ key_origin k <> origin) /\
  (forall k r, d_db d !! k = Some r -> key_origin k = origin ->
     no_route_to (d_routes d') (key_endpoint k) origin) /\
  is_Some (d_rebuild_requested d').
Proof.
  intros Hdead Ho Hcur Hrouter Hlt. unfold handle_lsa. set (w0 := send_ack _ _ _ _ _).
  rewrite decide_False by done. rewrite Hdead. unfold remove_dead_lsa. rewrite Hdead, Hcur. simpl.
  apply N.ltb_lt in Hlt. rewrite Hlt, Hrouter.
  set (origin := key_origin (lsa_key lsa)). set (l := retain _ _).
  set (t1 := foldl _ _ l). set (d1 := set_routes t1 _).
  destruct (flood_all_neighbors lsa None d1 w0) as [d2 w2] eqn:Hf.
  apply flood_spec in Hf as [Hfr _].
  destruct (request_rebuild d2 w2) as [d3 w3] eqn:Hrb.
  apply request_rebuild_spec in Hrb as (Hd3 & Hreq & _).
  assert (Hdb : d_db d3 = drop_origin origin (d_db d)) by (rewrite Hd3, Hfr; done).
  assert (Hrt : d_routes d3 = t1) by (rewrite Hd3, Hfr; done).
  intros [= <- _]. simpl. split; [|split; [|done]].
  - intros k r. rewrite Hdb. unfold drop_origin. by rewrite map_lookup_filter_Some.
  - intros k r Hk Hko. rewrite Hrt. apply forget_remote_mono. unfold t1. rewrite <- Hko.
    apply (forget_all_gone l _ k r). unfold l. apply elem_of_retain. split.
    + unfold has_origin. simpl. by apply bool_decide_true.
    + by apply elem_of_iter_map.
Qed.
End theorems.

Section flooding.
Context `{Cd : Codec} `{E : !Env} `{!EnvLaws}.

(** What one link does to the list of unacknowledged advertisements. *)
Lemma send_tracked_pending link lsa d w :
  let s := send_tracked link lsa (d, w) in
  (forall ck, ck <> (l_connection_id link, lsa_key lsa) ->
     d_pending_tx s.1 !! ck = d_pending_tx d !! ck) /\
  (d_pending_tx s.1 = d_pending_tx d \/
   exists v, link_view link lsa = Some v /\ EvNode (l_tx link) (NmLsa v) SendOk ∈ w_log s.2 /\
     d_pending_tx s.1 !! (l_connection_id link, lsa_key lsa) = Some (lsa_seq lsa)).
Proof.
  unfold send_tracked, send_lsa. destruct (link_view link lsa) as [v|] eqn:Hv; [|split; [done | by left]].
  unfold try_send_node. destruct (env_try_send w (l_tx link)); simpl; [|split; [done | by left]..].
  split; [intros ck Hne; by rewrite lookup_insert_ne|]. right. exists v. split; [done|].
  split; [apply elem_of_app; right; by left | apply lookup_insert_eq].
Qed.

Lemma flood_fold_pending (d : LsDb) (lsa : Lsa) inc (l : list (ConnectionId * Link)) : forall s,
  frame d s.1 -> (forall c link, (c, link) ∈ l -> l_connection_id link = c) ->
  let s' := foldl (flood_link lsa inc) s l in
  (forall ck, ck.2 <> lsa_key lsa -> d_pending_tx s'.1 !! ck = d_pending_tx s.1 !! ck) /\
  (forall c, d_pending_tx s'.1 !! (c, lsa_key lsa) = d_pending_tx s.1 !! (c, lsa_key lsa) \/
     (d_pending_tx s'.1 !! (c, lsa_key lsa) = Some (lsa_seq lsa) /\
      exists link v, (c, link) ∈ l /\ flood_target d lsa inc (c, link) = Some (l_tx link, v) /\
        EvNode (l_tx link) (NmLsa v) SendOk ∈ w_log s'.2)).
Proof.
  induction l as [|[c0 link] l IH]; intros [d1 w1] Hfr Hids; cbn [foldl]; [split; [done | by left]|].
  assert (Hid : l_connection_id link = c0) by (apply Hids; by left).
  assert (Hids' : forall c link, (c, link) ∈ l -> l_connection_id link = c).
  { intros c l0 Hin. apply Hids. by right. }
  assert (Hstep : flood_link lsa inc (d1, w1) (c0, link) =
    if flood_skips d (key_origin (lsa_key lsa)) inc (c0, link) then (d1, w1)
    else send_tracked link lsa (d1, w1)).
  { unfold flood_link. cbn [fst snd]. by rewrite (flood_skips_frame d d1). }
  rewrite Hstep. clear Hstep.
  destruct (flood_skips d _ inc (c0, link)) eqn:Hsk.
  { destruct (IH (d1, w1) Hfr Hids') as [H1 H2]. split; [done|]. intros c.
    destruct (H2 c) as [?|(? & l0 & v & Hin & ? & ?)]; [by left|]. right. split; [done|].
    exists l0, v. split; [by right | done]. }
  destruct (send_tracked_pending link lsa d1 w1) as [Hother Hthis].
  set (s1 := send_tracked link lsa (d1, w1)) in *.
  assert (Hf1 : frame d s1.1).
  { etrans; [exact Hfr|]. unfold s1, send_tracked. destruct (send_lsa _ _ _) as [[?|?] ?]; [done|].
    simpl. by destruct d1. }
  destruct (IH s1 Hf1 Hids') as [H1 H2]. split.
  - intros ck Hck. rewrite H1 by done. apply Hother. intros ->. by destruct Hck.
  - intros c. destruct (H2 c) as [Heq|(? & l0 & v & Hin & ? & ?)].
    + rewrite Heq. destruct (decide (c = c0)) as [->|Hne].
      * destruct Hthis as [->|(v & Hv & Hev & Hp)]; [by left|]. right. rewrite <- Hid at 1.
        split; [done|]. exists link, v. split; [by left|]. split.
        { unfold flood_target. rewrite Hsk. simpl. by rewrite Hv. }
        destruct (flood_fold_exact d lsa inc l s1 Hf1) as (evs & -> & _).
        apply elem_of_app. by left.
      * left. apply Hother. rewrite Hid. congruence.
    + right. split; [done|]. exists l0, v. split; [by right | done].
Qed.

(** Who an advertisement is meant for. *)
Lemma flood_target_spec d lsa inc c link tx v :
  flood_target d lsa inc (c, link) = Some (tx, v) <->
  tx = l_tx link /\ link_view link lsa = Some v /\ inc <> Some c /\
  key_origin (lsa_key lsa) <> l_peer_id link /\
  l_peer_id <$> d_next_hop d !! key_origin (lsa_key lsa) <> Some (l_peer_id link).
Proof.
  unfold flood_target, flood_skips. simpl.
  destruct (decide (Some c = inc)) as [<-|Hc].
  { rewrite bool_decide_eq_true_2 by done. simpl. split; [done | by intros (_ & _ & ? & _)]. }
  destruct (decide (key_origin (lsa_key lsa) = l_peer_id link)) as [Ho|Ho].
  { rewrite (bool_decide_eq_true_2 (_ = l_peer_id _)), orb_true_r by done. simpl.
    split; [done | by intros (_ & _ & _ & ? & _)]. }
  rewrite !bool_decide_eq_false_2 by done. simpl.
  destruct (d_next_hop d !! key_origin (lsa_key lsa)) as [hop|]; simpl; [case_bool_decide as Hh|].
  - split; [done | intros (_ & _ & _ & _ & Hn); congruence].
  - destruct (link_view link lsa); simpl; split; [|intros (-> & [= ->] & _); done|done|intros (_ & ? & _); done].
    intros [= <- <-]. split_and!; congruence.
  - destruct (link_view link lsa); simpl; split; [|intros (-> & [= ->] & _); done|done|intros (_ & ? & _); done].
    intros [= <- <-]. split_and!; congruence.
Qed.

(** Flooding offers an advertisement to exactly the neighbours it is meant for, once each:
    every link but the one it came in on, those of its originator and those on the path back to
    it, and to each only what the link's realms may see. A link is recorded as owing an
    acknowledgement of this sequence number exactly where the send succeeded, and no other
    pending acknowledgement changes. *)
Theorem flooding_is_exact lsa inc d w :
  lsdb_inv d ->
  let s := flood_all_neighbors lsa inc d w in
  (exists evs, w_log s.2 = w_log w ++ evs /\
     map sent_lsa evs = map Some (omap (flood_target d lsa inc) (env_iter_map w (d_links d)))) /\
  (forall c link tx v, flood_target d lsa inc (c, link) = Some (tx, v) <->
     tx = l_tx link /\ link_view link lsa = Some v /\ inc <> Some c /\
     key_origin (lsa_key lsa) <> l_peer_id link /\
     l_peer_id <$> d_next_hop d !! key_origin (lsa_key lsa) <> Some (l_peer_id link)) /\
  (forall ck, ck.2 <> lsa_key lsa -> d_pending_tx s.1 !! ck = d_pending_tx d !! ck) /\
  (forall c, d_pending_tx s.1 !! (c, lsa_key lsa) = d_pending_tx d !! (c, lsa_key lsa) \/
     (d_pending_tx s.1 !! (c, lsa_key lsa) = Some (lsa_seq lsa) /\
      exists link v, d_links d !! c = Some link /\
        flood_target d lsa inc (c, link) = Some (l_tx link, v) /\
        EvNode (l_tx link) (NmLsa v) SendOk ∈ w_log s.2)).
Proof.
  intros I s. assert (Hfr : frame d (d, w).1) by reflexivity.
  split; [by apply flood_fold_exact|]. split; [intros; apply flood_target_spec|].
  destruct (flood_fold_pending d lsa inc (env_iter_map w (d_links d)) (d, w) Hfr) as [H1 H2].
  { intros c link Hin%elem_of_iter_map. apply (i_links _ I c link Hin). }
  split; [done|]. intros c. destruct (H2 c) as [?|(? & link & v & Hin & ? & ?)]; [by left|].
  right. split; [done|]. exists link, v. by apply elem_of_iter_map in Hin.
Qed.

(** An acknowledgement settles what the neighbour owes, on that connection and for that
    key only, unless a newer version was sent in the meantime, which stays owed. *)
Theorem ack_settles from key seq d c' key' :
  d_pending_tx (handle_ack from key seq d) !! (c', key') =
  match d_pending_tx d !! (c', key') with
  | Some owed =>
      if decide ((c', key') = (from, key)) then if (owed <=? seq)%N then None else Some owed
      else Some owed
  | None => None
  end.
Proof.
  unfold handle_ack. destruct (d_pending_tx d !! (from, key)) as [val|] eqn:Hv; simpl.
  - case_decide as Heq.
    + injection Heq as -> ->. rewrite Hv. rewrite N.leb_antisym.
      destruct (seq <? val)%N; simpl; [apply lookup_insert_eq | apply lookup_delete_eq].
    + destruct (seq <? val)%N; simpl; rewrite ?lookup_insert_ne, ?lookup_delete_ne by done;
        by destruct (d_pending_tx d !! (c', key')).
  - case_decide as Heq; [injection Heq as -> ->; by rewrite Hv|].
    by destruct (d_pending_tx d !! (c', key')).
Qed.

(** * Purging *)

Lemma peek_stale_spec timeout l k w' : forall w,
  peek_stale timeout l w = (Some k, w') -> exists r, (k, r) ∈ l.
Proof.
  induction l as [|[k0 r0] l IH]; intros w; simpl; [done|].
  destruct (N.ltb _ _); [intros [= -> _]; exists r0; by left|].
  intros Hp. destruct (IH _ Hp) as [r Hr]. exists r. by right.
Qed.

(** A purge removes at most one stale advertisement per call and withdraws no route: the
    iterator is peeked, which extracts one record, and the short-circuited right operand of
    [dirty || ..], which would have withdrawn the routes and extracted the rest, never runs on
    a record. *)
Theorem purge_drops_one_and_no_route d w :
  let '(dirty, (d', w')) := purge_stale_lsas d w in
  d_routes d' = d_routes d /\
  (dirty = false /\ d_db d' = d_db d \/
   dirty = true /\ exists k r, d_db d !! k = Some r /\ d_db d' = delete k (d_db d)).
Proof.
  unfold purge_stale_lsas. destruct (peek_stale _ _ _) as [[k|] w1] eqn:Hp; (split; [done|]); [right|by left].
  split; [done|]. destruct (peek_stale_spec _ _ _ _ _ Hp) as [r Hr%elem_of_iter_map].
  by exists k, r.
Qed.

(** * Shutdown *)

Lemma shutdown_entry_tells en : forall w r sender,
  r ∈ re_routes en -> r_via r = Local sender ->
  exists res, EvClient sender CmShutdown res ∈ w_log (shutdown_entry w en).
Proof.
  unfold shutdown_entry. induction (re_routes en) as [|r0 rs IH]; intros w r sender Hr Hv; simpl;
    [by apply elem_of_nil in Hr|].
  apply elem_of_cons in Hr as [->|Hr]; [|by eapply IH].
  rewrite Hv. set (w1 := (try_send_client _ _ w).2).
  assert (exists res, EvClient sender CmShutdown res ∈ w_log w1) as [res Hres].
  { unfold w1, try_send_client. destruct (env_try_send w sender); simpl; eexists;
      apply elem_of_app; right; by left. }
  exists res.
  assert (Hem : emits (fun _ => True) w1 (shutdown_entry w1 (mkLsRouteEntry rs Node))).
  { unfold shutdown_entry. apply (foldl_invariant (emits (fun _ => True) w1)); [|reflexivity].
    intros w2 x _ H2. etrans; [exact H2|]. destruct (r_via x); [|reflexivity]. by apply emits_client. }
  destruct Hem as [_ (evs & Hl & _)]. unfold shutdown_entry in Hl. simpl in Hl. rewrite Hl.
  apply elem_of_app. by left.
Qed.

Lemma shutdown_all_tells (l : list LsRouteEntry) : forall w en r sender,
  en ∈ l -> r ∈ re_routes en -> r_via r = Local sender ->
  exists res, EvClient sender CmShutdown res ∈ w_log (foldl shutdown_entry w l).
Proof.
  assert (Hem : forall w en, emits (fun _ => True) w (shutdown_entry w en)).
  { intros w en. unfold shutdown_entry. apply (foldl_invariant (emits (fun _ => True) w)); [|reflexivity].
    intros w2 x _ H2. etrans; [exact H2|]. destruct (r_via x); [|reflexivity]. by apply emits_client. }
  assert (Hall : forall (l : list LsRouteEntry) w, emits (fun _ => True) w (foldl shutdown_entry w l)).
  { intros l' w. apply (foldl_invariant (emits (fun _ => True) w)); [|reflexivity].
    intros w2 en _ H2. etrans; [exact H2 | apply Hem]. }
  induction l as [|en0 l IH]; intros w en r sender Hin Hr Hv; simpl; [by apply elem_of_nil in Hin|].
  apply elem_of_cons in Hin as [->|Hin]; [|by eapply IH].
  destruct (shutdown_entry_tells en0 w r sender Hr Hv) as [res Hres]. exists res.
  destruct (Hall l (shutdown_entry w en0)) as [_ (evs & -> & _)]. apply elem_of_app. by left.
Qed.

(** Shutting down empties the database, the links and the routes, offers the neighbours
    the node's own router advertisement marked dead with the next sequence number, and tells
    every local listener. *)
Theorem shutdown_tells_everyone d w :
  let s := lsdb_shutdown d w in
  d_db s.1 = ∅ /\ d_links s.1 = ∅ /\ d_routes s.1 = ∅ /\
  (forall e en r sender, d_routes d !! e = Some en -> r ∈ re_routes en -> r_via r = Local sender ->
     exists res, EvClient sender CmShutdown res ∈ w_log s.2) /\
  (forall record adjs, d_db d !! router_key (d_self_id d) = Some record ->
     lsa_body (rec_lsa record) = Router adjs -> lsa_key (rec_lsa record) = router_key (d_self_id d) ->
     exists evs rest w1,
       let dead := mkLsa (router_key (d_self_id d)) (seq_next (lsa_seq (rec_lsa record))) true (Router adjs) in
       w_log s.2 = w_log w ++ evs ++ rest /\
       map sent_lsa evs = map Some (omap (flood_target d dead None) (env_iter_map w1 (d_links d)))).
Proof.
  intros s. subst s. unfold lsdb_shutdown. set (key := router_key (d_self_id d)).
  set (s1 := match d_db d !! key with Some _ => _ | None => _ end).
  assert (Hroutes : d_routes s1.1 = d_routes d).
  { unfold s1. destruct (d_db d !! key) as [record|]; [|done]. cbn [read_clock].
    destruct (is_router_record _); [|done]. set (lsa := rec_lsa _).
    destruct (flood_all_neighbors lsa None _ _) as [d2 w2] eqn:Hf.
    apply flood_spec in Hf as [Hfr _]. simpl. by rewrite Hfr. }
  assert (Hdead : forall record adjs, d_db d !! key = Some record ->
     lsa_body (rec_lsa record) = Router adjs -> lsa_key (rec_lsa record) = key ->
     exists evs w1, w_log s1.2 = w_log w ++ evs /\
       map sent_lsa evs = map Some (omap (flood_target d
         (mkLsa key (seq_next (lsa_seq (rec_lsa record))) true (Router adjs)) None)
         (env_iter_map w1 (d_links d)))).
  { intros record adjs Hk Hb Hkey. unfold s1. rewrite Hk. cbn [read_clock].
    unfold is_router_record, kill. simpl. rewrite Hb, Hkey. simpl.
    set (dead := mkLsa _ _ _ _). set (w1 := mkWorld _ _). set (d1 := set_db _ d).
    destruct (flood_fold_exact d1 dead None (env_iter_map w1 (d_links d1)) (d1, w1)) as (evs & Hl & Hm);
      [reflexivity|].
    exists evs, w1. split; [exact Hl|]. exact Hm. }
  destruct s1 as [d1 w1]. simpl in Hroutes, Hdead. unfold table_shutdown. simpl.
  split; [done|]. split; [done|]. split; [done|]. split.
  - intros e en r sender He Hr Hv. apply (shutdown_all_tells _ _ en r sender); [|done..].
    rewrite Hroutes. apply list_elem_of_fmap. exists (e, en). split; [done|]. by apply elem_of_iter_map.
  - intros record adjs Hk Hb Hkey. destruct (Hdead record adjs Hk Hb Hkey) as (evs & w2 & Hl & Hm).
    assert (Hem : emits (fun _ => True) w1 (table_shutdown (d_routes d1) w1).2)
      by (by apply table_shutdown_emits).
    destruct Hem as [_ (rest & Hrest & _)]. exists evs, rest, w2. split; [|done].
    unfold table_shutdown in Hrest. simpl in Hrest. by rewrite Hrest, Hl, app_assoc.
Qed.
End flooding.
