(* ===== verification/Convergence.v ===== *)
(** Link-state databases agree once they have heard the same: however advertisements are ordered,
    repeated and interleaved on their way, the records that remain are those with the greatest
    sequence numbers. This is what the theorems about several nodes assume of them. *)
From S2P Require Import Prelude Types Messages World RouteTable Linkstate Spf SpfProofs LsDb.
From S2P Require Import LsDbProofs LsDbTheorems.

(** * Keeping the newest *)
Definition newest (cur : option Lsa) (lsa : Lsa) : option Lsa :=
  match cur with
  | Some c => if N.ltb (lsa_seq c) (lsa_seq lsa) then Some lsa else Some c
  | None => Some lsa
  end.

(** What is held under each key, after one more advertisement. *)
Definition learn (h : LsaKey -> option Lsa) (lsa : Lsa) : LsaKey -> option Lsa :=
  fun k => if decide (k = lsa_key lsa) then newest (h k) lsa else h k.
Definition learn_all (h : LsaKey -> option Lsa) (l : list Lsa) : LsaKey -> option Lsa := foldl learn h l.

Lemma learn_all_ext l : forall h1 h2 k, (forall k, h1 k = h2 k) -> learn_all h1 l k = learn_all h2 l k.
Proof.
  induction l as [|x l IH]; intros h1 h2 k Hh; [apply Hh|]. simpl. apply IH. intros k'. unfold learn. by rewrite Hh.
Qed.

(** What was known under a key: held, or heard since. *)
Definition candidate (h : LsaKey -> option Lsa) (l : list Lsa) (k : LsaKey) (lsa : Lsa) : Prop :=
  h k = Some lsa \/ (lsa ∈ l /\ lsa_key lsa = k).

Lemma newest_seq cur lsa : exists r, newest cur lsa = Some r /\ (lsa_seq lsa <= lsa_seq r)%N /\
  (cur = Some r \/ r = lsa) /\ forall c, cur = Some c -> (lsa_seq c <= lsa_seq r)%N.
Proof.
  unfold newest. destruct cur as [c|]; [destruct (N.ltb_spec (lsa_seq c) (lsa_seq lsa))|];
    eexists; split_and!; try done; try lia; try (by left); try (by right); intros ? [= <-]; lia.
Qed.

(** The newest candidate of a key is what is held in the end. *)
Lemma learn_all_spec l : forall h k,
  match learn_all h l k with
  | Some r => candidate h l k r /\ forall lsa, candidate h l k lsa -> (lsa_seq lsa <= lsa_seq r)%N
  | None => forall lsa, ~ candidate h l k lsa
  end.
Proof.
  induction l as [|x l IH]; intros h k; simpl.
  - destruct (h k) as [r|] eqn:Hk; [split; [by left|]; intros lsa [Hl|[Hl _]]|intros lsa [Hl|[Hl _]]];
      try (by apply elem_of_nil in Hl); simplify_eq; [lia].
  - specialize (IH (learn h x) k).
    assert (Hsplit : forall lsa, candidate h (x :: l) k lsa <->
      candidate h l k lsa \/ (lsa = x /\ lsa_key x = k)) by (unfold candidate; set_solver).
    unfold learn in IH at 2 3 4. unfold candidate in IH.
    destruct (learn_all (learn h x) l k) as [r|].
    + destruct IH as [Hr Hmax]. unfold learn in Hr, Hmax. case_decide as Hk.
      * destruct (newest_seq (h k) x) as (m & Hm & Hx & Hfrom & Hc). rewrite Hm in *. split.
        -- apply Hsplit. destruct Hr as [[= ->]|Hr]; [|by left; right].
           destruct Hfrom as [Hh | ->]; [by left; left | by right].
        -- intros lsa [[Hh|Hl]|[-> _]]%Hsplit.
           ++ specialize (Hc _ Hh). specialize (Hmax m (or_introl eq_refl)). lia.
           ++ by apply Hmax; right.
           ++ specialize (Hmax m (or_introl eq_refl)). lia.
      * split; [by apply Hsplit; left|]. intros lsa [Hl|[-> Hx]]%Hsplit; [by apply Hmax | congruence].
    + intros lsa [Hl|[-> Hx]]%Hsplit.
      * destruct Hl as [Hh|Hl]; [|by apply (IH lsa); right]. unfold learn in IH. case_decide as Hk.
        -- destruct (newest_seq (h k) x) as (m & Hm & _). apply (IH m). by left.
        -- apply (IH lsa). by left.
      * destruct (newest_seq (h k) x) as (m & Hm & _). apply (IH m). left. unfold learn. by rewrite decide_True.
Qed.

(** Two that knew the same in the end hold the same. *)
Lemma learn_all_agree h1 l1 h2 l2 :
  (forall k lsa, candidate h1 l1 k lsa <-> candidate h2 l2 k lsa) ->
  (forall k lsa lsa', candidate h1 l1 k lsa -> candidate h1 l1 k lsa' -> lsa_seq lsa = lsa_seq lsa' -> lsa = lsa') ->
  forall k, learn_all h1 l1 k = learn_all h2 l2 k.
Proof.
  intros Hsame Hone k. pose proof (learn_all_spec l1 h1 k) as H1. pose proof (learn_all_spec l2 h2 k) as H2.
  destruct (learn_all h1 l1 k) as [r1|], (learn_all h2 l2 k) as [r2|]; [| | |done].
  - destruct H1 as [Hr1 Hm1], H2 as [Hr2 Hm2]. f_equal. apply Hsame in Hr2. apply (Hone k); try done.
    specialize (Hm1 r2 Hr2). specialize (Hm2 r1 ltac:(by apply Hsame)). lia.
  - destruct H1 as [Hr1 _]. exfalso. apply (H2 r1). by apply Hsame.
  - destruct H2 as [Hr2 _]. exfalso. apply (H1 r2). by apply Hsame.
Qed.

(** * The handlers *)
Section handlers.
Context `{Cd : Codec} `{E : !Env} `{!EnvLaws}.

Definition held (d : LsDb) (k : LsaKey) : option Lsa := rec_lsa <$> d_db d !! k.

(** The advertisements that arrive, one after the other. *)
Fixpoint handle_all (l : list (Lsa * ConnectionId)) (d : LsDb) (w : World) : Outcome (LsDb * World) :=
  match l with
  | [] => Returns (d, w)
  | (lsa, c) :: l => outcome_bind (handle_lsa lsa c d w) (fun '(d, w) => handle_all l d w)
  end.

(** A node's own advertisements come back no newer than they were. *)
Definition own_known (d : LsDb) (lsa : Lsa) : Prop :=
  key_origin (lsa_key lsa) = d_self_id d ->
  exists r, held d (lsa_key lsa) = Some r /\ (lsa_seq lsa <= lsa_seq r)%N.

Lemma handle_lsa_held lsa c d w d' w' :
  lsa_dead lsa = false -> own_known d lsa -> handle_lsa lsa c d w = Returns (d', w') ->
  d_self_id d' = d_self_id d /\ forall k, held d' k = learn (held d) lsa k.
Proof.
  intros Hlive Hown Hres. unfold learn, held.
  destruct (decide (key_origin (lsa_key lsa) = d_self_id d)) as [Ho|Ho].
  - destruct (Hown Ho) as (r & Hr & Hle). unfold handle_lsa in Hres. rewrite decide_True in Hres by done.
    injection Hres as <- _. split; [done|]. intros k. case_decide as Hk; [subst k|done].
    unfold held in Hr. rewrite Hr. simpl. by rewrite (proj2 (N.ltb_ge _ _) Hle).
  - destruct (handle_lsa_live _ _ _ _ _ _ Hlive Ho Hres) as (Hself & now & Hdb). split; [done|].
    intros k. rewrite Hdb. unfold stores. case_decide as Hk; [subst k|].
    + destruct (d_db d !! lsa_key lsa) as [r|] eqn:Hr; simpl; [destruct (N.ltb _ _)|];
        rewrite ?lookup_insert_eq, ?Hr; done.
    + destruct (match d_db d !! lsa_key lsa with Some _ => _ | None => _ end); [|done].
      by rewrite lookup_insert_ne by congruence.
Qed.

(** What a node is told, and how it stands. *)
Record hears (l : list (Lsa * ConnectionId)) (d : LsDb) : Prop := {
  hr_inv : lsdb_inv d;
  hr_live : forall lsa, lsa ∈ l.*1 -> lsa_dead lsa = false /\ not_multicast lsa;
  hr_own : forall lsa, lsa ∈ l.*1 -> own_known d lsa;
}.

Lemma handle_all_held l : forall d w, hears l d ->
  exists d' w', handle_all l d w = Returns (d', w') /\ lsdb_inv d' /\
    forall k, held d' k = learn_all (held d) l.*1 k.
Proof.
  induction l as [|[lsa c] l IH]; intros d w [Hinv Hlive Hown]; [by exists d, w|].
  destruct (Hlive lsa) as [Hl Hnm]; [by left|].
  destruct (handle_lsa_ok lsa c d w Hinv Hnm) as ([d1 w1] & Hres & Hwb & Hself & _). simpl in *.
  destruct (handle_lsa_held lsa c d w d1 w1 Hl) as [_ Hheld]; [by apply Hown; left | done|].
  destruct (IH d1 w1) as (d' & w' & Hall & Hinv' & Hk).
  { split; [by apply Hwb|by intros x Hx; apply Hlive; right|]. intros x Hx Hxo. rewrite Hself in Hxo.
    destruct (Hown x) as (r & Hr & Hle); [by right|done|]. rewrite Hheld. unfold learn. case_decide as Hkey; [|by exists r].
    destruct (newest_seq (held d (lsa_key x)) lsa) as (m & Hm & _ & _ & Hc). exists m. split; [done|].
    specialize (Hc r Hr). lia. }
  exists d', w'. rewrite Hres. simpl. split; [done|]. split; [done|]. intros k. rewrite Hk.
  unfold learn_all. simpl. by apply learn_all_ext.
Qed.

(** The graph is that of the router advertisements held. *)
Definition held_adjacencies (d : LsDb) (n : NodeId) : option (list Adjacency) :=
  match held d (router_key n) with
  | Some lsa => match lsa_body lsa with Router adjs => Some adjs | Endpoint _ => None end
  | None => None
  end.

Lemma router_nodes_held d w :
  (forall k lsa adjs, held d k = Some lsa -> lsa_body lsa = Router adjs -> k = router_key (key_origin k)) ->
  forall n, router_nodes d w !! n = held_adjacencies d n.
Proof.
  intros Hkey n. unfold held_adjacencies.
  assert (Hup : forall adjs, router_nodes d w !! n = Some adjs -> held_adjacencies d n = Some adjs).
  { intros adjs (k & r & Hk & <- & Hb)%router_nodes_lookup. unfold held_adjacencies.
    assert (Hh : held d k = Some (rec_lsa r)) by (unfold held; by rewrite Hk).
    rewrite <- (Hkey k _ adjs Hh Hb), Hh. by rewrite Hb. }
  destruct (router_nodes d w !! n) as [adjs|] eqn:Hn; [by rewrite <- (Hup adjs)|].
  unfold held. destruct (d_db d !! router_key n) as [r|] eqn:Hr; [|done]. simpl.
  destruct (lsa_body (rec_lsa r)) as [adjs|] eqn:Hb; [|done]. exfalso.
  destruct (collect_map_is_Some (omap router_entry (env_iter_map w (d_db d))) n adjs) as [x Hx].
  - apply list_elem_of_omap. exists (router_key n, r). split; [by apply elem_of_iter_map|].
    unfold router_entry. simpl. by rewrite Hb.
  - unfold router_nodes in Hn. congruence.
Qed.

(** Held already, or about to be heard. *)
Definition known (l : list (Lsa * ConnectionId)) (d : LsDb) (lsa : Lsa) : Prop :=
  held d (lsa_key lsa) = Some lsa \/ lsa ∈ l.*1.

Lemma candidate_known l d k lsa :
  lsdb_inv d -> candidate (held d) l.*1 k lsa <-> known l d lsa /\ lsa_key lsa = k.
Proof.
  intros I. unfold candidate, known. split.
  - intros [Hh|[Hl <-]]; [|by split; [right|]]. unfold held in *.
    destruct (d_db d !! k) as [r|] eqn:Hk; [|done]. injection Hh as <-. destruct (i_db _ I k r Hk) as [Hkey _].
    simpl in Hkey. split; [left; by rewrite Hkey, Hk | done].
  - intros [[Hh|Hl] <-]; [by left | by right].
Qed.

(** C13: link-state databases converge: two nodes that between what they held and what arrives
    have heard the same advertisements of live nodes end with the same ones, whatever their
    order, repetitions and connections were: under each key the one with the greatest sequence
    number. They then see the same network. The handlers return all along. *)
Theorem databases_converge l1 l2 d1 w1 d2 w2 :
  hears l1 d1 -> hears l2 d2 ->
  (forall lsa, known l1 d1 lsa <-> known l2 d2 lsa) ->
  (forall lsa lsa', known l1 d1 lsa -> known l1 d1 lsa' ->
     lsa_key lsa = lsa_key lsa' -> lsa_seq lsa = lsa_seq lsa' -> lsa = lsa') ->
  (forall lsa adjs, known l1 d1 lsa -> lsa_body lsa = Router adjs ->
     lsa_key lsa = router_key (key_origin (lsa_key lsa))) ->
  exists d1' w1' d2' w2',
    handle_all l1 d1 w1 = Returns (d1', w1') /\ handle_all l2 d2 w2 = Returns (d2', w2') /\
    (forall k, held d1' k = held d2' k) /\
    (forall k lsa, held d1' k = Some lsa -> known l1 d1 lsa /\
       forall lsa', known l1 d1 lsa' -> lsa_key lsa' = k -> (lsa_seq lsa' <= lsa_seq lsa)%N) /\
    forall w w', router_nodes d1' w = router_nodes d2' w'.
Proof.
  intros H1 H2 Hsame Hone Hkey. pose proof (hr_inv _ _ H1) as I1. pose proof (hr_inv _ _ H2) as I2.
  destruct (handle_all_held l1 d1 w1 H1) as (d1' & w1' & Hr1 & I1' & Hk1).
  destruct (handle_all_held l2 d2 w2 H2) as (d2' & w2' & Hr2 & I2' & Hk2).
  assert (Hagree : forall k, held d1' k = held d2' k).
  { intros k. rewrite Hk1, Hk2. apply learn_all_agree.
    - intros k' lsa. rewrite !candidate_known by done. by rewrite Hsame.
    - intros k' lsa lsa'. rewrite !candidate_known by done. intros [Ha Hka] [Hb Hkb]. apply Hone; congruence. }
  assert (Hmax : forall k lsa, held d1' k = Some lsa -> known l1 d1 lsa /\
       forall lsa', known l1 d1 lsa' -> lsa_key lsa' = k -> (lsa_seq lsa' <= lsa_seq lsa)%N).
  { intros k lsa Hh. pose proof (learn_all_spec l1.*1 (held d1) k) as Hs. rewrite <- Hk1, Hh in Hs.
    destruct Hs as [Hc Hm]. apply candidate_known in Hc as [Hc _]; [|done]. split; [done|].
    intros lsa' Hk' Hkey'. apply Hm. by apply candidate_known. }
  assert (Hrk : forall k lsa adjs, held d1' k = Some lsa -> lsa_body lsa = Router adjs -> k = router_key (key_origin k)).
  { intros k lsa adjs Hh Hb. destruct (Hmax k lsa Hh) as [Hc _]. pose proof (Hkey _ _ Hc Hb) as Hlk.
    unfold held in Hh. destruct (d_db d1' !! k) as [r|] eqn:Hr; [|done]. injection Hh as <-.
    destruct (i_db _ I1' k r Hr) as [Hf _]. simpl in Hf. by rewrite Hf in Hlk. }
  exists d1', w1', d2', w2'. split_and!; try done. intros w w'. apply map_eq. intros n.
  rewrite !router_nodes_held; [unfold held_adjacencies; by rewrite Hagree| |done].
  intros k lsa adjs. rewrite <- Hagree. apply Hrk.
Qed.
(** Nothing remembers a node that announced its end: an advertisement it had sent before and that
    arrives after the announcement, whatever its sequence number, is stored again. *)
Lemma late_lsa_stored obituary late c c' d w d1 w1 d2 w2 current :
  lsa_dead obituary = true -> key_origin (lsa_key obituary) <> d_self_id d ->
  d_db d !! lsa_key obituary = Some current -> is_router_record current = true ->
  (lsa_seq (rec_lsa current) < lsa_seq obituary)%N ->
  handle_lsa obituary c d w = Returns (d1, w1) ->
  lsa_key late = lsa_key obituary -> lsa_dead late = false -> d_self_id d1 = d_self_id d ->
  handle_lsa late c' d1 w1 = Returns (d2, w2) -> held d2 (lsa_key late) = Some late.
Proof.
  intros Hdead Ho Hcur Hr Hseq H1 Hkey Hlive Hself H2.
  assert (Hgone : d_db d1 !! lsa_key obituary = None).
  { unfold handle_lsa in H1. rewrite decide_False, Hdead in H1 by done. revert H1. unfold remove_dead_lsa.
    rewrite Hdead, Hcur, Hr. simpl. rewrite (proj2 (N.ltb_lt _ _) Hseq).
    set (d0 := set_routes _ (set_db _ d)). destruct (flood_all_neighbors obituary None d0 _) as [da wa] eqn:Hf.
    apply flood_spec in Hf as [Hf _]. destruct (request_rebuild da wa) as [db wb] eqn:Hb.
    apply request_rebuild_spec in Hb as (Hb & _). intros [= <- _]. simpl. rewrite Hb. simpl. rewrite Hf. simpl.
    apply map_lookup_filter_None. right. intros x _ Hx. simpl in Hx. by apply Hx. }
  destruct (handle_lsa_held late c' d1 w1 d2 w2 Hlive) as [_ Hheld]; [|done|].
  - intros Hown. rewrite Hkey, Hself in Hown. done.
  - rewrite Hheld. unfold learn. rewrite decide_True by done. unfold held. by rewrite Hkey, Hgone.
Qed.
End handlers.
