(* ===== verification/Advertise.v ===== *)
(** The contract between the route table and the link-state database: every endpoint
    with a local listener is advertised by this node, with its kind and, for unicast
    and anycast endpoints, at the least cost among its listeners. *)
From S2P Require Import Prelude Types Messages World RouteTable Linkstate Spf SpfProofs LsDb LsDbProofs.

(** What the table says about an endpoint of this node: its kind and least cost. *)
Definition local_info (t : RouteTable) (e : EndpointId) : option (RouteKind * Cost) :=
  match t !! e with
  | Some en => (fun c => (re_kind en, c)) <$> min_local_cost (re_routes en)
  | None => None
  end.

(** What the database advertises about it. *)
Definition advertisement (d : LsDb) (e : EndpointId) : option (RouteKind * Cost) :=
  match d_db d !! endpoint_key d e with
  | Some r =>
      match lsa_body (rec_lsa r) with
      | Endpoint info => if lsa_dead (rec_lsa r) then None else Some (ei_kind info, ei_cost info)
      | Router _ => None
      end
  | None => None
  end.

(** Kinds whose advertised cost is the least cost. *)
Definition cost_matters (k : RouteKind) : bool :=
  match k with Unicast | Anycast => true | _ => false end.

(** An advertisement does for what the table says. *)
Definition does_for (said adv : option (RouteKind * Cost)) : Prop :=
  forall k c, said = Some (k, c) ->
    exists c', adv = Some (k, c') /\ (cost_matters k = true -> c' = c).

Definition advertised (d : LsDb) : Prop :=
  forall e, does_for (local_info (d_routes d) e) (advertisement d e).

(** [s'] advertises whenever [s] does. *)
Definition keeps_adv (d d' : LsDb) : Prop := advertised d -> advertised d'.

#[export] Instance keeps_adv_refl : Reflexive keeps_adv.
Proof. intros d Hd. exact Hd. Qed.
#[export] Instance keeps_adv_trans : Transitive keeps_adv.
Proof. unfold keeps_adv. intros d1 d2 d3. auto. Qed.

Lemma does_for_None adv : does_for None adv.
Proof. by intros k c. Qed.

Lemma local_info_min t e k c : local_info t e = Some (k, c) -> local_min t e = Some c.
Proof.
  unfold local_info, local_min. destruct (t !! e) as [en|]; [|done].
  destruct (min_local_cost _); [|done]. by intros [= _ <-].
Qed.

Lemma local_info_Some t e k c :
  local_info t e = Some (k, c) <->
  exists en, t !! e = Some en /\ re_kind en = k /\ min_local_cost (re_routes en) = Some c.
Proof.
  unfold local_info. split.
  - destruct (t !! e) as [en|]; [|done]. intros Hm. exists en. split; [done|].
    destruct (min_local_cost (re_routes en)); [|done]. by injection Hm as <- <-.
  - intros (en & -> & <- & ->). done.
Qed.

Lemma local_info_insert t e en :
  local_info (<[e := en]> t) e = (fun c => (re_kind en, c)) <$> min_local_cost (re_routes en).
Proof. unfold local_info. by rewrite lookup_insert_eq. Qed.

Lemma local_info_insert_ne t e e' en : e <> e' -> local_info (<[e := en]> t) e' = local_info t e'.
Proof. intros Hne. unfold local_info. by rewrite lookup_insert_ne. Qed.

Lemma local_info_entry t e kind e' :
  local_info (<[e := entry_or_insert t e kind]> t) e' = local_info t e'.
Proof.
  destruct (entry_or_insert_cases t e kind) as [[_ ->]|[Hn Hen]]; [done|].
  rewrite Hen. destruct (decide (e = e')) as [<-|Hne].
  - rewrite local_info_insert. unfold local_info. by rewrite Hn.
  - by apply local_info_insert_ne.
Qed.

(** * The changes that do not matter *)

Lemma advertised_ext d d' :
  d_self_id d' = d_self_id d ->
  (forall e, local_info (d_routes d') e = local_info (d_routes d) e) ->
  (forall k, key_origin k = d_self_id d -> d_db d' !! k = d_db d !! k) -> keeps_adv d d'.
Proof.
  intros Hs Hr Hdb Had e. rewrite Hr. unfold advertisement, endpoint_key. rewrite Hs, Hdb by done.
  apply Had.
Qed.

Lemma keeps_adv_frame d d' : frame d d' -> keeps_adv d d'.
Proof. intros ->. by apply advertised_ext. Qed.

(** Routes through other nodes are not the table's own. *)
Lemma local_info_add_remote t e origin info e' :
  local_info (add_remote_endpoint t e origin info).2 e' = local_info t e'.
Proof.
  unfold add_remote_endpoint. rewrite <- (local_info_entry t e (ei_kind info) e').
  set (en := entry_or_insert t e (ei_kind info)).
  case_decide; [|done].
  destruct (find_update _ _ _) as [[r routes']|] eqn:Hf; case_decide; simpl; try done;
    (destruct (decide (e = e')) as [<-|Hne]; [|by rewrite !local_info_insert_ne]);
    rewrite !local_info_insert; simpl.
  - apply local_costs_update_remote in Hf. unfold min_local_cost.
    fold (local_costs routes'). by rewrite Hf.
  - by rewrite min_local_cost_push_remote.
Qed.

Lemma local_info_remove_remote t e origin e' :
  local_info (remove_remote_endpoint t e origin).2 e' = local_info t e'.
Proof.
  unfold remove_remote_endpoint. destruct (t !! e) as [en|] eqn:He; [|done].
  pose proof (local_costs_retain_not_origin origin (re_routes en)) as Hc.
  set (routes' := retain _ _) in *.
  assert (Hmin : min_local_cost routes' = min_local_cost (re_routes en)).
  { unfold min_local_cost. fold (local_costs routes'). by rewrite Hc. }
  destruct (decide (e = e')) as [<-|Hne].
  - unfold local_info. rewrite He, <- Hmin. destruct routes' as [|r rs]; simpl.
    + by rewrite lookup_delete_eq.
    + by rewrite lookup_insert_eq.
  - unfold local_info. destruct routes'; simpl; by rewrite ?lookup_delete_ne, ?lookup_insert_ne.
Qed.

Lemma local_info_forget k t e : local_info (forget_remote k t) e = local_info t e.
Proof. apply local_info_remove_remote. Qed.

Lemma local_info_forget_all (l : list (LsaKey * LsaRecord)) t e :
  local_info (foldl (fun t kv => forget_remote kv.1 t) t l) e = local_info t e.
Proof.
  apply (foldl_invariant (fun t' => local_info t' e = local_info t e)); [|done].
  intros t' kv _ <-. apply local_info_forget.
Qed.

Section operations.
Context `{Cd : Codec} `{E : !Env} `{!EnvLaws}.

Lemma keeps_adv_flood lsa inc d w : keeps_adv d (flood_all_neighbors lsa inc d w).1.
Proof.
  destruct (flood_all_neighbors lsa inc d w) as [d' w'] eqn:Hf. apply flood_spec in Hf as [Hf _].
  by apply keeps_adv_frame.
Qed.

Lemma keeps_adv_flood_peer c d w : keeps_adv d (flood_peer c d w).1.
Proof.
  destruct (flood_peer c d w) as [d' w'] eqn:Hf. apply flood_peer_spec in Hf as [Hf _].
  by apply keeps_adv_frame.
Qed.

Lemma keeps_adv_rebuild d w : keeps_adv d (request_rebuild d w).1.
Proof.
  destruct (request_rebuild d w) as [d' w'] eqn:Hr. apply request_rebuild_spec in Hr as (-> & _).
  by apply advertised_ext.
Qed.

Lemma keeps_adv_spf root d w d' : compute_spf root d w = Returns d' -> keeps_adv d d'.
Proof. unfold compute_spf. destruct (spf_run _ _ _); [|done..]. intros [= <-]. by apply advertised_ext. Qed.

(** Storing under a key of another node. *)
Lemma keeps_adv_foreign k r d :
  key_origin k <> d_self_id d -> keeps_adv d (set_db (<[k := r]> (d_db d)) d).
Proof.
  intros Hk. apply advertised_ext; [done..|]. intros k' Ho. simpl.
  rewrite lookup_insert_ne; [done | congruence].
Qed.

Lemma keeps_adv_drop_origin n d : n <> d_self_id d -> keeps_adv d (set_db (drop_origin n (d_db d)) d).
Proof.
  intros Hn. apply advertised_ext; [done..|]. intros k Ho. simpl.
  destruct (d_db d !! k) as [r|] eqn:Hk.
  - apply map_lookup_filter_Some. split; [done|]. simpl. congruence.
  - apply map_lookup_filter_None. by left.
Qed.

Lemma remove_dead_lsa_adv lsa d w d' w' :
  key_origin (lsa_key lsa) <> d_self_id d ->
  remove_dead_lsa lsa d w = Returns (d', w') -> keeps_adv d d'.
Proof.
  intros Ho. unfold remove_dead_lsa. destruct (lsa_dead lsa); [|done]. simpl.
  assert (Hforget : forall d, keeps_adv d (set_routes (forget_remote (lsa_key lsa) (d_routes d)) d)).
  { intros d0. apply advertised_ext; [done| |done]. intros e. apply local_info_forget. }
  destruct (d_db d !! lsa_key lsa) as [current|]; [|intros [= <- _]; apply Hforget].
  destruct (N.ltb _ _); [|by intros [= <- _]].
  set (d1 := if is_router_record current then _ else _).
  assert (H1 : keeps_adv d d1).
  { unfold d1. destruct (is_router_record current).
    - etrans; [by apply (keeps_adv_drop_origin (key_origin (lsa_key lsa)))|].
      apply advertised_ext; [done| |done]. intros e. apply local_info_forget_all.
    - apply advertised_ext; [done|intros e; apply local_info_forget|].
      intros k Hk. simpl. apply lookup_delete_ne. congruence. }
  pose proof (keeps_adv_flood lsa None d1 w) as H2.
  destruct (flood_all_neighbors lsa None d1 w) as [d2 w2].
  pose proof (keeps_adv_rebuild d2 w2) as H3. destruct (request_rebuild d2 w2) as [d3 w3].
  intros [= <- _]. etrans; [exact H1|]. etrans; [exact H2|]. etrans; [exact H3 | apply Hforget].
Qed.

Lemma upsert_lsa_adv lsa d w :
  key_origin (lsa_key lsa) <> d_self_id d -> keeps_adv d (upsert_lsa lsa d w).2.1.
Proof.
  intros Ho. unfold upsert_lsa. set (store := match _ with Some _ => _ | None => _ end).
  destruct store; [|reflexivity]. cbn [read_clock]. set (d1 := set_db _ d). set (w1 := mkWorld _ _).
  pose proof (keeps_adv_rebuild d1 w1) as H2. destruct (request_rebuild d1 w1) as [d2 w2].
  simpl. etrans; [by apply keeps_adv_foreign|]. etrans; [exact H2|].
  apply advertised_ext; [done| |done]. intros e. apply local_info_add_remote.
Qed.

Lemma handle_lsa_adv lsa c d w d' w' : handle_lsa lsa c d w = Returns (d', w') -> keeps_adv d d'.
Proof.
  unfold handle_lsa. set (w0 := send_ack _ _ _ _ _). case_decide as Ho; [by intros [= <- _]|].
  destruct (lsa_dead lsa); [by apply remove_dead_lsa_adv|].
  pose proof (upsert_lsa_adv lsa d w0 Ho) as H1.
  destruct (upsert_lsa lsa d w0) as [[] [d1 w1]]; simpl in H1; [|by intros [= <- _]].
  pose proof (keeps_adv_flood lsa (Some c) d1 w1) as H2.
  destruct (flood_all_neighbors lsa (Some c) d1 w1) as [d2 w2].
  assert (H02 : keeps_adv d d2) by (etrans; [exact H1 | exact H2]).
  destruct (is_router (lsa_body lsa)); [|by intros [= <- _]].
  destruct (compute_spf _ d2 w2) as [d3|] eqn:Hs; [|done]. intros [= <- _].
  etrans; [exact H02 | by eapply keeps_adv_spf].
Qed.

(** * The node's own router advertisement *)

(** Storing a router body where no endpoint is advertised. *)
Lemma keeps_adv_own_router r d :
  (forall info r0, d_db d !! router_key (d_self_id d) = Some r0 ->
     lsa_body (rec_lsa r0) <> Endpoint info) ->
  keeps_adv d (set_db (<[router_key (d_self_id d) := r]> (d_db d)) d).
Proof.
  intros Hno Had e k c Hi. destruct (Had e k c Hi) as (c' & Hadv & Hc). exists c'. split; [|done].
  revert Hadv. unfold advertisement. simpl. unfold endpoint_key. simpl.
  destruct (decide (router_key (d_self_id d) = mkLsaKey (d_self_id d) (endpoint_uuid e))) as [Heq|Hne].
  - rewrite <- Heq. destruct (d_db d !! router_key (d_self_id d)) as [r0|] eqn:H0; [|done].
    destruct (lsa_body (rec_lsa r0)) as [|info] eqn:Hb; [done|]. by destruct (Hno info r0 eq_refl).
  - by rewrite lookup_insert_ne.
Qed.

Lemma add_peer_adv link d w : keeps_adv d (add_peer link d w).1.
Proof.
  unfold add_peer, add_adjacency. set (key := router_key (d_self_id d)).
  set (root := match d_db d !! key with Some record => _ | None => _ end).
  assert (Hroot : forall r0, d_db d !! key = Some r0 -> root.1 = r0).
  { intros r0 H0. unfold root. by rewrite H0. }
  destruct root as [record w1]. simpl in Hroot.
  destruct (lsa_body (rec_lsa record)) as [adjs|] eqn:Hb; [|done].
  cbn [read_clock]. set (w2 := mkWorld _ _). set (record' := bump _ _ _). set (d1 := set_links _ _).
  assert (H1 : keeps_adv d d1).
  { etrans; [apply (keeps_adv_own_router record')|by apply advertised_ext].
    intros info r0 H0. rewrite <- (Hroot r0 H0), Hb. done. }
  pose proof (keeps_adv_rebuild d1 w2) as H2. destruct (request_rebuild d1 w2) as [d2 w3].
  set (lsa := rec_lsa record'). pose proof (keeps_adv_flood lsa (Some (l_connection_id link)) d2 w3) as H3.
  destruct (flood_all_neighbors lsa _ d2 w3) as [d3 w4].
  etrans; [exact H1|]. etrans; [exact H2|]. etrans; [exact H3|]. apply keeps_adv_flood_peer.
Qed.

Lemma drop_adjacency_adv c d w : keeps_adv d (drop_adjacency c d w).1.
Proof.
  unfold drop_adjacency. destruct (d_db d !! _) as [record|] eqn:Hk; [|done].
  destruct (lsa_body (rec_lsa record)) as [adjs|] eqn:Hb; [|done].
  destruct (Nat.ltb _ _); [|done]. cbn [read_clock].
  etrans; [|apply keeps_adv_flood]. apply keeps_adv_own_router. intros info r0 H0. congruence.
Qed.

Lemma remove_peer_adv c d w d' w' : remove_peer c d w = Returns (d', w') -> keeps_adv d d'.
Proof.
  unfold remove_peer. destruct (d_links d !! c) as [link|]; [|by intros [= <- _]].
  pose proof (drop_adjacency_adv c (set_links (delete c (d_links d)) d) w) as H1.
  destruct (drop_adjacency _ _ _) as [d1 w1].
  destruct (compute_spf _ d1 w1) as [d2|] eqn:Hs; [|done]. intros [= <- _].
  etrans; [by apply (advertised_ext d (set_links (delete c (d_links d)) d))|].
  etrans; [exact H1 | by eapply keeps_adv_spf].
Qed.

(** * The endpoints of the node *)

Lemma endpoint_key_inj d e e' : endpoint_key d e = endpoint_key d e' -> e = e'.
Proof. destruct e, e'. unfold endpoint_key. simpl. congruence. Qed.

Lemma advertisement_insert d e r e' :
  advertisement (set_db (<[endpoint_key d e := r]> (d_db d)) d) e' =
  if decide (e = e') then
    match lsa_body (rec_lsa r) with
    | Endpoint info => if lsa_dead (rec_lsa r) then None else Some (ei_kind info, ei_cost info)
    | Router _ => None
    end
  else advertisement d e'.
Proof.
  unfold advertisement. simpl. case_decide as He.
  - subst. by rewrite lookup_insert_eq.
  - rewrite lookup_insert_ne; [done|]. by intros Heq%(endpoint_key_inj d).
Qed.

Lemma advertisement_frame d d' e : frame d d' -> advertisement d' e = advertisement d e.
Proof. by intros ->. Qed.

Lemma advertisement_rebuild d w e : advertisement (request_rebuild d w).1 e = advertisement d e.
Proof.
  destruct (request_rebuild d w) as [d' w'] eqn:Hr. by apply request_rebuild_spec in Hr as (-> & _).
Qed.

Lemma advertisement_flood lsa inc d w e :
  advertisement (flood_all_neighbors lsa inc d w).1 e = advertisement d e.
Proof.
  destruct (flood_all_neighbors lsa inc d w) as [d' w'] eqn:Hf. apply flood_spec in Hf as [Hf _].
  by apply advertisement_frame.
Qed.

(** [update_endpoint_cost] changes the cost of one live advertisement. *)
Lemma update_endpoint_cost_advertisement e c d w e' :
  advertisement (update_endpoint_cost e c d w).1 e' =
  if decide (e = e') then (fun kc => (kc.1, c)) <$> advertisement d e' else advertisement d e'.
Proof.
  unfold update_endpoint_cost. destruct (d_db d !! endpoint_key d e) as [r|] eqn:Hr.
  2: { case_decide as He; [|done]. subst. unfold advertisement. simpl. by rewrite Hr. }
  destruct (lsa_body (rec_lsa r)) as [adjs|info] eqn:Hb.
  { case_decide as He; [|done]. subst. unfold advertisement. simpl. by rewrite Hr, Hb. }
  destruct (N.eqb_spec (ei_cost info) c) as [Heq|Hne].
  { case_decide as He; [|done]. subst. unfold advertisement. simpl. rewrite Hr, Hb.
    by destruct (lsa_dead _). }
  cbn [read_clock]. set (w1 := mkWorld _ _). set (r' := bump _ _ _). set (d1 := set_db _ d).
  set (lsa := rec_lsa r'). pose proof (advertisement_flood lsa None d1 w1 e') as Hf.
  destruct (flood_all_neighbors lsa None d1 w1) as [d2 w2]. simpl in Hf.
  rewrite advertisement_rebuild, Hf. unfold d1. rewrite advertisement_insert.
  case_decide as He; [|done]. subst. unfold advertisement. simpl. rewrite Hr, Hb.
  by destruct (lsa_dead _).
Qed.

Lemma update_endpoint_cost_routes e c d w : d_routes (update_endpoint_cost e c d w).1 = d_routes d.
Proof.
  unfold update_endpoint_cost. repeat case_match; try done. cbn [read_clock] in *. simplify_eq.
  match goal with Hf : flood_all_neighbors _ _ _ _ = _ |- _ => apply flood_spec in Hf as [Hf _] end.
  match goal with |- context [request_rebuild ?d ?w] =>
    destruct (request_rebuild d w) as [d' w'] eqn:Hr end.
  apply request_rebuild_spec in Hr as (-> & _). simpl. match goal with Hf : frame _ _ |- _ => by rewrite Hf end.
Qed.

(** Setting the cost of an advertised endpoint to its new least cost. *)
Lemma update_endpoint_cost_adv e c d w t' k c0 :
  advertised d -> local_info (d_routes d) e = Some (k, c0) ->
  (forall e', e' <> e -> local_info t' e' = local_info (d_routes d) e') ->
  local_info t' e = Some (k, c) ->
  advertised (update_endpoint_cost e c (set_routes t' d) w).1.
Proof.
  intros Had Hold Hother Hnew e' k' c' Hi.
  rewrite update_endpoint_cost_routes in Hi. simpl in Hi.
  rewrite update_endpoint_cost_advertisement.
  change (advertisement (set_routes t' d) e') with (advertisement d e').
  case_decide as He.
  - subst e'. rewrite Hnew in Hi. injection Hi as <- <-.
    destruct (Had e k c0 Hold) as (c1 & -> & _). by exists c.
  - rewrite Hother in Hi by done. by apply Had.
Qed.

(** Only the entry registered for changes. *)
Lemma add_endpoint_other t e info sender e' :
  e' <> e -> local_info (add_endpoint t e info sender).2 e' = local_info t e'.
Proof.
  intros Hne. unfold add_endpoint. repeat case_match; simpl; rewrite ?local_info_insert_ne by done; done.
Qed.

Lemma add_endpoint_kind t e info sender eff t' c :
  add_endpoint t e info sender = (inr eff, t') -> local_min t' e = Some c ->
  local_info t' e = Some (ei_kind info, c).
Proof.
  unfold add_endpoint. set (en := entry_or_insert _ _ _). case_decide as Hk; [|done].
  intros Heff Hmin. assert (exists en', t' !! e = Some en' /\ re_kind en' = ei_kind info) as (en' & Hl & Hk').
  { repeat case_match; simplify_eq; rewrite ?lookup_insert_eq; (eexists; split; [done|]); simpl; congruence. }
  unfold local_min in Hmin. rewrite Hl in Hmin. apply local_info_Some. by exists en'.
Qed.

Lemma add_endpoint_error t e info sender err t' e' :
  add_endpoint t e info sender = (inl err, t') -> local_info t' e' = local_info t e'.
Proof.
  unfold add_endpoint. rewrite <- (local_info_entry t e (ei_kind info) e').
  repeat case_match; by intros [= _ <-].
Qed.

(** The effect names the endpoint registered. *)
Lemma add_endpoint_effect_names t e info sender eff t' :
  add_endpoint t e info sender = (inr eff, t') ->
  match eff with
  | AddLsa e' info' => e' = e /\ info' = info
  | UpdateLsa e' c => e' = e /\ ei_kind info = Anycast /\
      exists en, t !! e = Some en /\ re_kind en = Anycast /\ is_Some (min_local_cost (re_routes en))
  | RemoveLsa _ | RebuildFib => False
  | Noop => True
  end.
Proof.
  unfold add_endpoint.
  pose proof (entry_or_insert_cases t e (ei_kind info)) as Hcases.
  set (en := entry_or_insert t e (ei_kind info)) in *.
  case_decide as Hk; [|done]. destruct (ei_kind info) eqn:Hkind.
  - destruct (re_routes en); intros Heq; by simplify_eq.
  - destruct (min_local_cost (re_routes en)) as [m|] eqn:Hm.
    + destruct (N.ltb _ _); intros Heq; simplify_eq; [|done].
      split; [done|]. split; [done|]. destruct Hcases as [[Hl _]|[_ Hen]].
      * exists en. by rewrite Hm.
      * rewrite Hen in Hm. done.
    + intros Heq. by simplify_eq.
  - destruct (existsb _ _); intros Heq; by simplify_eq.
  - destruct (existsb _ _); intros Heq; by simplify_eq.
  - intros Heq. by simplify_eq.
Qed.

Lemma add_endpoint_noop t e info sender t' c :
  add_endpoint t e info sender = (inr Noop, t') -> local_min t' e = Some c ->
  exists c0, local_info t e = Some (ei_kind info, c0).
Proof.
  unfold add_endpoint.
  pose proof (entry_or_insert_cases t e (ei_kind info)) as Hcases.
  set (en := entry_or_insert t e (ei_kind info)) in *.
  case_decide as Hk; [|done]. intros Heq Hmin.
  assert (Hold : is_Some (min_local_cost (re_routes en))).
  { destruct (ei_kind info).
    - by destruct (re_routes en).
    - destruct (min_local_cost (re_routes en)); [by eexists | done].
    - destruct (existsb _ _) eqn:Hx; [|done]. by apply existsb_local.
    - destruct (existsb _ _) eqn:Hx; [|done]. by apply existsb_local.
    - injection Heq as <-. rewrite local_min_insert in Hmin. by rewrite Hmin. }
  destruct Hold as [c0 Hc0]. exists c0. destruct Hcases as [[Hl _]|[_ Hen]].
  - apply local_info_Some. by exists en.
  - rewrite Hen in Hc0. done.
Qed.

(** A table whose own part only changed at [e]. *)
Lemma advertised_at d d' e :
  advertised d ->
  (forall e', e' <> e -> local_info (d_routes d') e' = local_info (d_routes d) e') ->
  (forall e', e' <> e -> advertisement d' e' = advertisement d e') ->
  does_for (local_info (d_routes d') e) (advertisement d' e) -> advertised d'.
Proof.
  intros Had Hl Ha He e'. destruct (decide (e' = e)) as [->|Hne]; [done|].
  rewrite Hl, Ha by done. apply Had.
Qed.

Lemma does_for_weaken said said' adv :
  (forall k c', said' = Some (k, c') ->
     exists c, said = Some (k, c) /\ (cost_matters k = true -> c = c')) ->
  does_for said adv -> does_for said' adv.
Proof.
  intros Hs Hd k c' Hi. destruct (Hs k c' Hi) as (c & Hc & Heq). destruct (Hd k c Hc) as (c1 & -> & H1).
  exists c1. split; [done|]. intros Hk. by rewrite H1, Heq.
Qed.

Lemma lsdb_add_endpoint_adv rq d w :
  table_wf (d_routes d) -> keeps_adv d (lsdb_add_endpoint rq d w).2.1.
Proof.
  intros Hwf Had. unfold lsdb_add_endpoint.
  set (e := rr_endpoint_id rq). set (info := rr_endpoint_info rq). set (tx := rr_sender rq).
  pose proof (fun e' => add_endpoint_other (d_routes d) e info tx e') as Hother.
  destruct (add_endpoint (d_routes d) e info tx) as [[err|eff] t] eqn:Hadd; simpl in *.
  { revert Had. apply advertised_ext; [done| |done]. intros e'. by eapply add_endpoint_error. }
  pose proof (add_endpoint_effect_names _ _ _ _ _ _ Hadd) as Hnames.
  (* what is said of [e] afterwards *)
  assert (Hsaid : forall k c, local_info t e = Some (k, c) -> k = ei_kind info /\ local_min t e = Some c).
  { intros k c Hi. pose proof (local_info_min _ _ _ _ Hi) as Hm. split; [|done].
    pose proof (add_endpoint_kind _ _ _ _ _ _ _ Hadd Hm) as Hk. congruence. }
  assert (Hcost : cost_matters (ei_kind info) = true ->
    apply_effect eff (local_min (d_routes d) e) = local_min t e).
  { intros Hk. apply (add_endpoint_effect _ _ _ _ _ _ Hwf) with (2 := Hadd).
    destruct (ei_kind info); auto; done. }
  destruct eff as [e1 info1|e1 c1|e1| |]; try done.
  - destruct Hnames as [-> ->]. cbn [apply_add read_clock].
    set (lsa := mkLsa _ _ _ _). set (w1 := mkWorld _ _). set (d1 := set_routes t d).
    pose proof (fun e' => advertisement_flood lsa (Some 0%N) d1 w1 e') as Hf.
    destruct (flood_all_neighbors lsa (Some 0%N) d1 w1) as [d2 w2] eqn:Hfl. simpl in Hf.
    apply flood_spec in Hfl as [Hfr _].
    assert (Hself : endpoint_key d1 e = endpoint_key d2 e) by (by rewrite Hfr).
    assert (Hr : d_routes d2 = t) by (by rewrite Hfr).
    rewrite Hself. apply (advertised_at d _ e Had); simpl; rewrite ?Hr; [done| |].
    + intros e' Hne. rewrite advertisement_insert, decide_False by done. apply Hf.
    + intros k c Hi. destruct (Hsaid k c Hi) as [-> Hm].
      rewrite advertisement_insert, decide_True by done. simpl. exists (ei_cost info).
      split; [done|]. intros Hk. specialize (Hcost Hk). rewrite Hm in Hcost. by injection Hcost.
  - destruct Hnames as (-> & Hany & en & Hen & Hk & [c0 Hc0]). simpl.
    apply (update_endpoint_cost_adv e c1 d w t Anycast c0); try done.
    + apply local_info_Some. by exists en.
    + specialize (Hcost ltac:(by rewrite Hany)). simpl in Hcost.
      rewrite <- Hany. by eapply add_endpoint_kind.
  - cbn [apply_add]. apply (keeps_adv_rebuild (set_routes t d) w).
    apply (advertised_at d _ e Had); simpl; [done..|].
    eapply does_for_weaken; [|apply (Had e)]. intros k c Hi. destruct (Hsaid k c Hi) as [-> Hm].
    destruct (add_endpoint_noop _ _ _ _ _ _ Hadd Hm) as [c0 Hc0]. exists c0. split; [done|].
    intros Hk. specialize (Hcost Hk). simpl in Hcost.
    rewrite (local_info_min _ _ _ _ Hc0), Hm in Hcost. by injection Hcost.
Qed.

(** * Changing a cost, and losing listeners *)

Lemma set_anycast_cost_other t e sender c e' :
  e' <> e -> local_info (set_anycast_cost t e sender c).2 e' = local_info t e'.
Proof.
  intros Hne. unfold set_anycast_cost. repeat case_match; simpl; rewrite ?local_info_insert_ne by done; done.
Qed.

Lemma set_anycast_cost_said t e sender c out t' k c' :
  set_anycast_cost t e sender c = (inr out, t') -> local_info t' e = Some (k, c') ->
  exists c0, local_info t e = Some (k, c0) /\
    match out with
    | Changed _ _ (Some m) => c' = m
    | _ => c' = c0
    end.
Proof.
  intros Hs Hi. pose proof (local_info_min _ _ _ _ Hi) as Hm.
  pose proof (set_anycast_cost_effect _ _ _ _ _ _ Hs) as Heff. rewrite Hm in Heff.
  revert Hs. unfold set_anycast_cost. destruct (t !! e) as [en|] eqn:He; [|done].
  case_decide as Hk; [|done]. destruct (find_update _ _ _) as [[r routes']|] eqn:Hf; [|done].
  assert (Hr : exists c0, min_local_cost (re_routes en) = Some c0).
  { destruct (min_local_cost (re_routes en)) eqn:Hn; [by eexists|].
    rewrite min_local_cost_None in Hn.
    destruct (find_update_Some _ _ _ _ _ Hf) as (l1 & l2 & Hl & _ & Hx). specialize (Hn r).
    rewrite Hl in Hn. unfold is_sender in Hx. destruct (r_via r); [|done].
    discriminate Hn. apply elem_of_app. right. by left. }
  destruct Hr as [c0 Hc0]. intros Hs. exists c0.
  assert (Hkt : k = re_kind en).
  { apply local_info_Some in Hi as (en' & Hl & <- & _). revert Hs.
    destruct (N.eqb _ _); intros [= _ <-]; [congruence|]. rewrite lookup_insert_eq in Hl.
    by injection Hl as <-. }
  split.
  - apply local_info_Some. by exists en.
  - assert (local_min t e = Some c0) as Hlm by (unfold local_min; by rewrite He).
    rewrite Hlm in Heff. destruct out as [|p n [m|]]; congruence.
Qed.

Lemma set_anycast_cost_error t e sender c err t' :
  set_anycast_cost t e sender c = (inl err, t') -> t' = t.
Proof. unfold set_anycast_cost. repeat case_match; by intros [= _ <-]. Qed.

(** [SetAnycastCost], as the router handles it. *)
Lemma lsdb_set_anycast_cost_adv e sender c d res d' w :
  lsdb_set_anycast_cost e sender c d = (res, d') -> advertised d ->
  advertised (match res with
              | inr (Changed _ _ (Some m)) => (update_endpoint_cost e m d' w).1
              | _ => d'
              end).
Proof.
  unfold lsdb_set_anycast_cost.
  pose proof (fun e' => set_anycast_cost_other (d_routes d) e sender c e') as Hother.
  destruct (set_anycast_cost (d_routes d) e sender c) as [r t] eqn:Hs. intros [= <- <-] Had.
  destruct r as [err|out].
  { apply set_anycast_cost_error in Hs as ->. by destruct d. }
  pose proof (fun k c' => set_anycast_cost_said _ _ _ _ _ _ k c' Hs) as Hsaid. simpl in Hother.
  assert (Hplain : (forall k c', local_info t e = Some (k, c') -> local_info (d_routes d) e = Some (k, c')) ->
    advertised (set_routes t d)).
  { intros Hp. apply (advertised_at d _ e Had); simpl; [done..|].
    eapply does_for_weaken; [|apply (Had e)]. intros k c' Hi. exists c'. split; [by apply Hp | done]. }
  destruct out as [|p n [m|]].
  - apply Hplain. intros k c' Hi. destruct (Hsaid k c' Hi) as (c0 & ? & ->). done.
  - destruct (local_info t e) as [[k c']|] eqn:Hi.
    + destruct (Hsaid k c' eq_refl) as (c0 & Hold & ->). by eapply update_endpoint_cost_adv.
    + assert (advertised (set_routes t d)) as Hd by (apply Hplain; congruence).
      intros e' k c' Hi'. rewrite update_endpoint_cost_routes in Hi'. simpl in Hi'.
      rewrite update_endpoint_cost_advertisement. case_decide as He; [congruence|]. by apply Hd.
  - apply Hplain. intros k c' Hi. destruct (Hsaid k c' Hi) as (c0 & ? & ->). done.
Qed.

(** What is left of an entry when the closed listeners go. *)
Lemma remove_endpoint_said t e w eff t' k c' :
  table_wf t -> remove_endpoint t e w = (eff, t') -> local_info t' e = Some (k, c') ->
  exists c0, local_info t e = Some (k, c0) /\
    match eff with
    | UpdateLsa e' m => e' = e /\ c' = m
    | RemoveLsa _ => False
    | _ => cost_matters k = true -> c' = c0
    end.
Proof.
  intros Hwf Hrem Hi. revert Hrem. unfold remove_endpoint.
  destruct (t !! e) as [en|] eqn:He.
  2: { intros [= <- <-]. unfold local_info in Hi. by rewrite He in Hi. }
  destruct (retain (keep_open w) (re_routes en)) as [|r rs] eqn:Hr.
  { intros [= <- <-]. unfold local_info in Hi. by rewrite lookup_delete_eq in Hi. }
  intros Hrem. assert (t' = <[e := mkLsRouteEntry (r :: rs) (re_kind en)]> t) as ->
    by (repeat case_match; congruence).
  rewrite local_info_insert in Hi. simpl in Hi.
  destruct (min_local_cost (r :: rs)) as [m|] eqn:Hm; [|done]. injection Hi as <- <-.
  assert (Hold : exists c0, min_local_cost (re_routes en) = Some c0).
  { destruct (min_local_cost (re_routes en)) eqn:Hn; [by eexists|].
    rewrite min_local_cost_None in Hn. assert (min_local_cost (r :: rs) = None) as Hz; [|congruence].
    apply min_local_cost_None. intros x Hx. apply Hn. rewrite <- Hr in Hx.
    by apply elem_of_retain in Hx as [_ ?]. }
  destruct Hold as [c0 Hc0]. exists c0. split; [apply local_info_Some; by exists en|].
  destruct (decide (re_kind en = Anycast)) as [Hk|Hk].
  - rewrite Hc0 in Hrem. destruct (decide (Some c0 = Some m)) as [Heq|].
    + injection Hrem as <-. injection Heq as ->. by case_decide.
    + by injection Hrem as <-.
  - assert (cost_matters (re_kind en) = true -> m = c0) as Hgoal.
    { intros Hcm. assert (re_kind en = Unicast) as Hu by (destruct (re_kind en); done).
      pose proof (wf_unicast _ (table_wf_lookup _ _ _ Hwf He) Hu) as Hlen.
      pose proof (retain_length_le (keep_open w) (re_routes en)) as Hle.
      rewrite Hr in Hle. simpl in Hle. pose proof (retain_length_eq (keep_open w) (re_routes en)) as Heq.
      rewrite Hr in Heq. rewrite Heq in Hm by (simpl; lia). congruence. }
    injection Hrem as <-. by case_decide.
Qed.

Lemma remove_endpoint_other t e w e' :
  e' <> e -> local_info (remove_endpoint t e w).2 e' = local_info t e'.
Proof.
  intros Hne. unfold remove_endpoint.
  repeat case_match; simpl; rewrite ?local_info_insert_ne by done; try done;
    unfold local_info; by rewrite lookup_delete_ne.
Qed.

(** The effect names the endpoint looked at. *)
Lemma remove_endpoint_names t e w eff t' :
  remove_endpoint t e w = (eff, t') ->
  match eff with
  | AddLsa _ _ => False
  | UpdateLsa e' _ => e' = e
  | RemoveLsa e' => e' = e /\ t' !! e = None
  | RebuildFib | Noop => True
  end.
Proof.
  unfold remove_endpoint. repeat case_match; intros Heq; simplify_eq; try done.
  by rewrite lookup_delete_eq.
Qed.

Lemma lsdb_remove_endpoint_adv e d w :
  table_wf (d_routes d) -> keeps_adv d (lsdb_remove_endpoint e d w).1.
Proof.
  intros Hwf Had. unfold lsdb_remove_endpoint.
  pose proof (fun e' => remove_endpoint_other (d_routes d) e w e') as Hother.
  destruct (remove_endpoint (d_routes d) e w) as [eff t] eqn:Hrem. simpl in Hother.
  pose proof (fun k c' => remove_endpoint_said _ _ _ _ _ k c' Hwf Hrem) as Hsaid.
  pose proof (remove_endpoint_names _ _ _ _ _ Hrem) as Hnames.
  set (d0 := set_routes t d).
  destruct (request_rebuild d0 w) as [d1 w1] eqn:Hrb.
  apply request_rebuild_spec in Hrb as (Hd1 & _).
  assert (Hd1a : forall e', advertisement d1 e' = advertisement d e') by (intros; by rewrite Hd1).
  assert (Hd1r : d_routes d1 = t) by (by rewrite Hd1).
  assert (Hplain : (forall k c', local_info t e = Some (k, c') ->
      exists c0, local_info (d_routes d) e = Some (k, c0) /\ (cost_matters k = true -> c0 = c')) ->
    advertised d1).
  { intros Hp. apply (advertised_at d _ e Had); rewrite ?Hd1r; try done.
    rewrite Hd1a. eapply does_for_weaken; [|apply (Had e)]. exact Hp. }
  destruct eff as [e1 info1|e1 c1|e1| |]; try done; simpl.
  - subst e1. destruct (local_info t e) as [[k c']|] eqn:Hi.
    + destruct (Hsaid k c' eq_refl) as (c0 & Hold & _ & ->).
      assert (Hd1' : d1 = set_routes t (set_rebuild (d_rebuild_requested d1) d)) by (rewrite Hd1 at 1; done).
      rewrite Hd1'. apply (update_endpoint_cost_adv e c1 _ w1 t k c0); try done.
    + assert (advertised d1) as Hd by (apply Hplain; congruence).
      intros e' k c' Hi'. rewrite update_endpoint_cost_routes, Hd1r in Hi'.
      rewrite update_endpoint_cost_advertisement. case_decide as He; [congruence|].
      apply Hd. by rewrite Hd1r.
  - destruct Hnames as [-> Ht].
    assert (Hnone : local_info t e = None) by (unfold local_info; by rewrite Ht).
    assert (Hd : advertised d1) by (apply Hplain; intros; congruence).
    destruct (d_db d1 !! endpoint_key d1 e) as [record|]; [|done].
    apply keeps_adv_flood. apply (advertised_at d1 _ e Hd); [done| |].
    + intros e' Hne. unfold advertisement. simpl. rewrite lookup_delete_ne; [done|].
      by intros Heq%(endpoint_key_inj d1).
    + simpl. rewrite Hd1r, Hnone. apply does_for_None.
  - apply Hplain. intros k c' Hi. destruct (Hsaid k c' Hi) as (c0 & ? & Hc). exists c0.
    split; [done|]. intros Hk. by rewrite (Hc Hk).
  - apply Hplain. intros k c' Hi. destruct (Hsaid k c' Hi) as (c0 & ? & Hc). exists c0.
    split; [done|]. intros Hk. by rewrite (Hc Hk).
Qed.

(** * Ticks *)

(** The clock readings of one tick are close together: the first and the last are no
    further apart than two thirds of the timeout (forty seconds). *)
Definition prompt (d : LsDb) (w : World) : Prop :=
  forall w', w_log w `prefix_of` w_log w' -> w_reads w' <= w_reads w + size (d_db d) + 2 ->
    (env_now w' <= env_now w + (d_lsa_timeout d - d_lsa_timeout d / 3))%N.

Lemma flood_reads lsa inc d w : w_reads (flood_all_neighbors lsa inc d w).2 = w_reads w.
Proof.
  unfold flood_all_neighbors. apply (foldl_invariant (fun s => w_reads s.2 = w_reads w)); [|done].
  intros [d1 w1] out _ <-. unfold flood_link. destruct (flood_skips _ _ _ _); [done|].
  unfold send_tracked, send_lsa, try_send_node. simpl.
  destruct (link_view _ _); [|done]. by destruct (env_try_send _ _).
Qed.

Lemma peek_stale_Some timeout l k w' : forall w,
  peek_stale timeout l w = (Some k, w') ->
  exists r w0, (k, r) ∈ l /\ w_log w0 = w_log w /\ w_reads w <= w_reads w0 < w_reads w + length l /\
    (rec_updated_at r + timeout < env_now w0)%N.
Proof.
  induction l as [|[k0 r0] l IH]; intros w; simpl; [done|].
  destruct (N.ltb_spec (rec_updated_at r0 + timeout) (env_now w)) as [Hlt|Hge].
  - intros [= <- _]. exists r0, w. split; [by left|]. split; [done|]. split; [lia | done].
  - intros Hp. destruct (IH _ Hp) as (r & w0 & Hin & Hlog & Hreads & Hlt). simpl in *.
    exists r, w0. split; [by right|]. split; [done|]. split; [lia | done].
Qed.

(** A record of the node itself is not stale right after the refresh. *)
Lemma refreshed_not_stale d k r now now' :
  key_origin (lsa_key (rec_lsa r)) = d_self_id d ->
  (now' <= now + (d_lsa_timeout d - d_lsa_timeout d / 3))%N ->
  rec_updated_at (refresh_record d now r) = k ->
  (now' <= k + d_lsa_timeout d)%N.
Proof.
  intros Ho Hp. unfold refresh_record, needs_refresh. rewrite bool_decide_true by done. simpl.
  assert (d_lsa_timeout d / 3 <= d_lsa_timeout d)%N as Hthird by (apply N.Div0.div_le_upper_bound; tlia).
  destruct (N.ltb_spec (rec_updated_at r + d_lsa_timeout d / 3) now) as [Hlt|Hge]; simpl; intros <-;
    (eapply N.le_trans; [exact Hp|]).
  - apply N.add_le_mono_l, N.le_sub_l.
  - eapply N.le_trans; [apply N.add_le_mono_r, Hge|].
    rewrite <- N.add_assoc, (N.add_comm (d_lsa_timeout d / 3)), N.sub_add by done. done.
Qed.

Lemma flood_list_keeps l d w :
  let s := foldl (fun s lsa => flood_all_neighbors lsa None s.1 s.2) (d, w) l in
  frame d s.1 /\ w_reads s.2 = w_reads w /\ w_log w `prefix_of` w_log s.2.
Proof.
  apply (foldl_invariant (fun s => frame d s.1 /\ w_reads s.2 = w_reads w /\
    w_log w `prefix_of` w_log s.2)); [|done].
  intros [d1 w1] lsa _ (Hf & Hr & Hl). cbn [fst snd] in *.
  pose proof (flood_reads lsa None d1 w1) as Hr'.
  destruct (flood_all_neighbors lsa None d1 w1) as [d2 w2] eqn:Hfl.
  apply flood_spec in Hfl as [Hf2 Hem]. simpl in *. split; [by etrans|]. split; [congruence|].
  etrans; [done | by eapply emits_prefix].
Qed.

Lemma refresh_keeps_adv d now : keeps_adv d (set_db (refresh_record d now <$> d_db d) d).
Proof.
  intros Had e k c Hi. destruct (Had e k c Hi) as (c' & Hadv & Hc). exists c'. split; [|done].
  rewrite <- Hadv. unfold advertisement. simpl. rewrite lookup_fmap.
  change (endpoint_key (set_db _ d) e) with (endpoint_key d e).
  destruct (d_db d !! endpoint_key d e) as [r|]; [|done]. simpl.
  unfold refresh_record. by destruct (needs_refresh d now r).
Qed.

Lemma refresh_and_purge_adv d w w0 d' w' :
  lsdb_inv d -> prompt d w0 -> w_log w = w_log w0 -> w_reads w = S (w_reads w0) ->
  refresh_and_purge_lsas d w = Returns (d', w') -> keeps_adv d d'.
Proof.
  intros I Hprompt Hlog Hreads. unfold refresh_and_purge_lsas. cbn [read_clock].
  set (now := env_now w). set (to_flood := map _ _). set (d1 := set_db _ d). set (w1 := mkWorld _ _).
  destruct (flood_list_keeps to_flood d1 w1) as (Hfr & Hr2 & Hl2).
  destruct (foldl _ _ to_flood) as [d2 w2]. cbn [fst snd] in *.
  assert (H2 : keeps_adv d d2).
  { etrans; [apply (refresh_keeps_adv d now) | by apply keeps_adv_frame]. }
  assert (Hdb2 : d_db d2 = refresh_record d now <$> d_db d) by (by rewrite Hfr).
  assert (Ht2 : d_lsa_timeout d2 = d_lsa_timeout d) by (by rewrite Hfr).
  assert (Hs2 : d_self_id d2 = d_self_id d) by (by rewrite Hfr).
  unfold purge_stale_lsas. destruct (peek_stale _ _ _) as [[k|] w3] eqn:Hpeek.
  2: { cbn. by intros [= <- _]. }
  assert (Hforeign : key_origin k <> d_self_id d2).
  { apply peek_stale_Some in Hpeek as (r' & w4 & Hin & Hl4 & Hr4 & Hlt).
    apply elem_of_iter_map in Hin. rewrite Hdb2, lookup_fmap in Hin.
    destruct (d_db d !! k) as [r|] eqn:Hk; [|done]. injection Hin as <-.
    destruct (i_db _ I k r Hk) as [Hkey _]. intros Ho. rewrite Hs2 in Ho.
    assert (Hb : (env_now w4 <= env_now w0 + (d_lsa_timeout d - d_lsa_timeout d / 3))%N).
    { apply Hprompt.
      - rewrite Hl4, <- Hlog. done.
      - rewrite (length_iter_map w2), Hdb2, map_size_fmap in Hr4. simpl in Hr2. lia. }
    assert (env_now w0 <= now)%N by (apply env_now_mono; [by rewrite Hlog | tlia]).
    rewrite Ht2 in Hlt.
    pose proof (refreshed_not_stale d _ r now (env_now w4) ltac:(congruence) ltac:(tlia) eq_refl). tlia. }
  set (d3 := set_db _ d2). assert (H3 : keeps_adv d d3).
  { etrans; [exact H2|]. apply advertised_ext; [done..|]. intros k' Ho. simpl.
    apply lookup_delete_ne. congruence. }
  destruct (compute_spf _ d3 w3) as [d4|] eqn:Hspf; [|done]. cbn [outcome_bind].
  pose proof (keeps_adv_rebuild d4 w3) as H5. destruct (request_rebuild d4 w3) as [d5 w5].
  cbn. intros [= <- _]. etrans; [exact H3|]. etrans; [by eapply keeps_adv_spf|].
  etrans; [exact H5 | by apply advertised_ext].
Qed.

Lemma tick_adv d w b d' w' :
  lsdb_inv d -> prompt d w -> tick d w = Returns (b, (d', w')) -> keeps_adv d d'.
Proof.
  intros I Hp. unfold tick. cbn [read_clock]. set (w1 := mkWorld _ _). set (d1 := set_last_tick _ d).
  assert (Hres : forall d2 w2, (if N.ltb (d_last_refresh d1 + d_lsa_timeout d1 / 3)%N (env_now w)
      then refresh_and_purge_lsas d1 w1 else Returns (d1, w1)) = Returns (d2, w2) -> keeps_adv d d2).
  { intros d2 w2. destruct (N.ltb _ _); [|intros [= <- _]; by apply advertised_ext].
    intros Hr. etrans; [by apply (advertised_ext d d1)|].
    by eapply (refresh_and_purge_adv d1 w1 w); [apply (lsdb_inv_ext d)|..]. }
  set (res := if N.ltb _ _ then _ else _) in *. destruct res as [[d2 w2]|]; [|done].
  specialize (Hres d2 w2 eq_refl). cbn [outcome_bind].
  destruct (d_rebuild_requested d2); intros [= _ <- _]; [|done].
  etrans; [exact Hres | by apply advertised_ext].
Qed.
End operations.
