(* ===== verification/Fib.v ===== *)
(** [src/routing/linkstate/db/forward_table.rs]: the forwarding table built from the
    link-state database, the sending of local packets and the forwarding of packets
    received from neighbours. *)
From S2P Require Import Prelude Types Messages World RouteTable Linkstate LsDb.

(** * Data *)

(** [FibForwardTo] of [src/routing/linkstate.rs]. *)
Inductive FibForwardTo :=
  | FwdLocal (sender : ChanId)
  | FwdRemote (next_hop : Link).

Inductive FibEntry :=
  | Single (h : FibForwardTo)
  | MultiCast (v : list FibForwardTo).

Record ForwardingTable := mkForwardingTable {
  f_our_id : NodeId;
  f_table : gmap EndpointId FibEntry;
  f_links : gmap ConnectionId Link;
  f_next_hop : gmap NodeId Link;
}.

Definition fib_new (our_id : NodeId) : ForwardingTable := mkForwardingTable our_id ∅ ∅ ∅.

Definition fwd_local (h : FibForwardTo) : option ChanId :=
  match h with FwdLocal tx => Some tx | FwdRemote _ => None end.
Definition fwd_remote (h : FibForwardTo) : option Link :=
  match h with FwdRemote link => Some link | FwdLocal _ => None end.

Definition hops (e : FibEntry) : list FibForwardTo :=
  match e with Single h => [h] | MultiCast v => v end.
Definition locals (e : FibEntry) : list ChanId := omap fwd_local (hops e).
Definition remotes (e : FibEntry) : list Link := omap fwd_remote (hops e).

(** * Construction *)

Definition anycast_total (d : LsDb) (route : LsRoute) : option Cost :=
  match r_via route with
  | Local _ => Some (r_cost route)
  | Remote node_id =>
      match d_cost d !! node_id with
      | None => None
      | Some path =>
          if N.eqb path u16_max then None
          else match d_next_hop d !! node_id with
               | None => None
               | Some _ => Some (cost_add (r_cost route) path)
               end
      end
  end.

Definition fib_forward (d : LsDb) (route : LsRoute) : option FibForwardTo :=
  match r_via route with
  | Local sender => Some (FwdLocal sender)
  | Remote node_id => FwdRemote <$> d_next_hop d !! node_id
  end.

(** [filter_map(|route| anycast_total(lsdb, route).map(|total| (total, route)))] *)
Definition anycast_candidates (d : LsDb) (routes : list LsRoute) : list (Cost * LsRoute) :=
  omap (fun route => (fun total => (total, route)) <$> anycast_total d route) routes.

Definition anycast_entry (d : LsDb) (routes : list LsRoute) : option FibEntry :=
  match min_by_key fst (anycast_candidates d routes) with
  | None => None
  | Some (_, route) => Single <$> fib_forward d route
  end.

Definition unicast_entry (d : LsDb) (routes : list LsRoute) : option FibEntry :=
  match min_by_key r_cost routes with
  | None => None
  | Some route => Single <$> fib_forward d route
  end.

Definition local_sender (r : LsRoute) : option FibForwardTo :=
  match r_via r with Local sender => Some (FwdLocal sender) | Remote _ => None end.

(** The neighbour through which a remote route goes. *)
Definition route_neighbour (d : LsDb) (r : LsRoute) : option NodeId :=
  match r_via r with
  | Local _ => None
  | Remote node_id => l_peer_id <$> d_next_hop d !! node_id
  end.

Definition neighbours (d : LsDb) (routes : list LsRoute) : list NodeId :=
  omap (route_neighbour d) routes.

Section with_env.
Context `{Cd : Codec} `{E : !Env}.

Definition broadcast_entry (d : LsDb) (routes : list LsRoute) (w : World) : option FibEntry :=
  let remotes : gset NodeId := list_to_set (neighbours d routes) in
  let forwards :=
    omap local_sender routes ++
    omap (fun node_id => FwdRemote <$> d_next_hop d !! node_id) (env_iter_set w remotes) in
  match forwards with
  | [] => None
  | _ :: _ => Some (MultiCast forwards)
  end.

(** One turn of the loop of [build_from_db]: [None] is [continue]. *)
Definition fib_entry_of (d : LsDb) (en : LsRouteEntry) (w : World) : Outcome (option FibEntry) :=
  match re_kind en with
  | Anycast => Returns (anycast_entry d (re_routes en))
  | Unicast | Node => Returns (unicast_entry d (re_routes en))
  | Broadcast => Returns (broadcast_entry d (re_routes en) w)
  | Multicast => Panics
  end.

Definition fib_insert (d : LsDb) (w : World) (fib : ForwardingTable)
    (kv : EndpointId * LsRouteEntry) : option ForwardingTable :=
  match fib_entry_of d kv.2 w with
  | Panics => None
  | Returns None => Some fib
  | Returns (Some fib_entry) =>
      Some (mkForwardingTable (f_our_id fib) (<[kv.1 := fib_entry]> (f_table fib))
              (f_links fib) (f_next_hop fib))
  end.

Definition build_from_db (d : LsDb) (w : World) : Outcome ForwardingTable :=
  let fib := mkForwardingTable (d_self_id d) ∅ (d_links d) (d_next_hop d) in
  match foldm (fib_insert d w) fib (env_iter_map w (d_routes d)) with
  | Some fib => Returns fib
  | None => Panics
  end.

(** [LsDb::build_fib]. *)
Definition build_fib (d : LsDb) (w : World) : Outcome (LsDb * ForwardingTable) :=
  outcome_bind (compute_spf (d_self_id d) d w) (fun d =>
    let d := set_rebuild None d in
    outcome_bind (build_from_db d w) (fun fib => Returns (d, fib))).

(** * Packets from local clients *)

(** One hop of a broadcast: a failure is logged and ignored. *)
Definition send_copy (packet : Packet) (w : World) (h : FibForwardTo) : option World :=
  match h with
  | FwdLocal sender => Some (try_send_client sender (CmMessage packet) w).2
  | FwdRemote next_hop =>
      match wire_of_packet packet with
      | Returns wire => Some (try_send_node (l_tx next_hop) (NmWirePacket wire) w).2
      | Panics => None
      end
  end.

Definition fib_send (f : ForwardingTable) (packet : Packet) (w : World)
    : Outcome ((SendError + unit) * World) :=
  let endpoint_id := get_endpoint (p_to packet) (f_our_id f) in
  match f_table f !! endpoint_id with
  | None => Returns (inl (ErrNoRoute (Some (p_payload packet))), w)
  | Some (Single (FwdLocal sender)) =>
      match try_send_client sender (CmMessage packet) w with
      | (inl e, w) => Returns (inl (send_error_from_client e), w)
      | (inr _, w) => Returns (inr tt, w)
      end
  | Some (Single (FwdRemote next_hop)) =>
      outcome_bind (wire_of_packet packet) (fun wire =>
        match try_send_node (l_tx next_hop) (NmWirePacket wire) w with
        | (inl e, w) => Returns (inl (send_error_from_node e), w)
        | (inr _, w) => Returns (inr tt, w)
        end)
  | Some (MultiCast fib_forward_tos) =>
      match foldm (send_copy packet) w fib_forward_tos with
      | Some w => Returns (inr tt, w)
      | None => Panics
      end
  end.

(** * Packets from neighbours *)

(** [ForwardingTable::deliver]: the value is cloned for every hop but the last. *)
Fixpoint deliver {I T S} (iter : list I) (value : T) (f : S -> I -> T -> S) (s : S) : S :=
  match iter with
  | [] => s
  | [hop] => f s hop value
  | hop :: rest => deliver rest value f (f s hop value)
  end.

Definition tx_local (w : World) (tx : ChanId) (p : Packet) : World :=
  (try_send_client tx (CmMessage p) w).2.

(** A neighbour the packet would go back to is skipped. *)
Definition back_path (f : ForwardingTable) (from : NodeId) (link : Link) : bool :=
  match f_next_hop f !! from with
  | Some from_hop => bool_decide (l_peer_id from_hop = l_peer_id link)
  | None => false
  end.

Definition tx_remote (f : ForwardingTable) (w : World) (link : Link) (p : WirePacket) : World :=
  if back_path f (wp_from p) link then w
  else (try_send_node (l_tx link) (NmWirePacket p) w).2.

(** Reverse-path check: a packet is accepted on the connection used to reach its sender. *)
Definition accepts_from (f : ForwardingTable) (packet : WirePacket) (connection_id : ConnectionId)
    : bool :=
  if decide (wp_from packet = f_our_id f) then false
  else match f_next_hop f !! wp_from packet with
       | Some link => N.eqb (l_connection_id link) connection_id
       | None => false
       end.

Definition fib_forward_packet (f : ForwardingTable) (packet : WirePacket)
    (connection_id : ConnectionId) (w : World) : World :=
  if accepts_from f packet connection_id then
    let endpoint_id := get_endpoint (wp_to packet) (f_our_id f) in
    match f_table f !! endpoint_id with
    | None => w
    | Some fib_entry =>
        match locals fib_entry, remotes fib_entry with
        | [], [] => w
        | (_ :: _) as ls, [] => deliver ls (packet_of_wire packet) tx_local w
        | [], (_ :: _) as rs => deliver rs packet (tx_remote f) w
        | ls, rs =>
            deliver rs packet (tx_remote f) (deliver ls (packet_of_wire packet) tx_local w)
        end
    end
  else w.
End with_env.
