(* ===== verification/FibProofs.v ===== *)
(** The lemmas about [Fib.v]: what the forwarding table holds after a rebuild, and
    what sending and forwarding through it do. *)
From S2P Require Import Prelude Types Messages World RouteTable Linkstate Spf SpfProofs LsDb LsDbProofs LsDbTheorems Fib.

(** * Choosing a route *)
Section selection.
Implicit Types (d : LsDb) (route : LsRoute).

Lemma elem_of_anycast_candidates d routes total route :
  (total, route) ∈ anycast_candidates d routes <->
  route ∈ routes /\ anycast_total d route = Some total.
Proof.
  unfold anycast_candidates. rewrite list_elem_of_omap. split.
  - intros (r & Hr & Heq). destruct (anycast_total d r) as [c|] eqn:Hc; [|done].
    simpl in Heq. injection Heq as <- <-. done.
  - intros [Hr Hc]. exists route. by rewrite Hc.
Qed.

(** A route with a total can be forwarded to. *)
Lemma anycast_total_forward d route total :
  anycast_total d route = Some total -> is_Some (fib_forward d route).
Proof.
  unfold anycast_total, fib_forward. destruct (r_via route); [by eexists|].
  destruct (d_cost d !! _); [|done]. destruct (N.eqb _ _); [done|].
  destruct (d_next_hop d !! _); [by eexists | done].
Qed.

Lemma anycast_entry_Some d routes en :
  anycast_entry d routes = Some en ->
  exists route total h, en = Single h /\ route ∈ routes /\ fib_forward d route = Some h /\
    anycast_total d route = Some total /\
    forall route' total', route' ∈ routes -> anycast_total d route' = Some total' ->
      (total <= total')%N.
Proof.
  unfold anycast_entry. destruct (min_by_key _ _) as [[total route]|] eqn:Hm; [|done].
  apply min_by_key_Some in Hm as [Hin Hmin].
  apply elem_of_anycast_candidates in Hin as [Hr Ht].
  destruct (fib_forward d route) as [h|] eqn:Hh; [|done]. intros [= <-].
  exists route, total, h. repeat split; try done.
  intros route' total' Hr' Ht'. apply (Hmin (total', route')). by apply elem_of_anycast_candidates.
Qed.

Lemma anycast_entry_None d routes :
  anycast_entry d routes = None <-> forall route, route ∈ routes -> anycast_total d route = None.
Proof.
  unfold anycast_entry. split.
  - destruct (min_by_key _ _) as [[total route]|] eqn:Hm.
    + apply min_by_key_Some in Hm as [Hin _]. apply elem_of_anycast_candidates in Hin as [_ Ht].
      destruct (anycast_total_forward _ _ _ Ht) as [h ->]. done.
    + intros _ route Hr. apply min_by_key_None in Hm.
      destruct (anycast_total d route) as [total|] eqn:Ht; [|done].
      assert ((total, route) ∈ anycast_candidates d routes) as Hin by (by apply elem_of_anycast_candidates).
      rewrite Hm in Hin. by apply elem_of_nil in Hin.
  - intros Hall. destruct (min_by_key _ _) as [[total route]|] eqn:Hm; [|done].
    apply min_by_key_Some in Hm as [Hin _]. apply elem_of_anycast_candidates in Hin as [Hr Ht].
    by rewrite (Hall route Hr) in Ht.
Qed.

Lemma unicast_entry_Some d routes en :
  unicast_entry d routes = Some en ->
  exists route h, en = Single h /\ route ∈ routes /\ fib_forward d route = Some h /\
    forall route', route' ∈ routes -> (r_cost route <= r_cost route')%N.
Proof.
  unfold unicast_entry. destruct (min_by_key _ _) as [route|] eqn:Hm; [|done].
  apply min_by_key_Some in Hm as [Hr Hmin].
  destruct (fib_forward d route) as [h|] eqn:Hh; [|done]. intros [= <-]. by exists route, h.
Qed.

(** A unicast entry has one route, so it is the one used. *)
Lemma unicast_entry_singleton d route : unicast_entry d [route] = Single <$> fib_forward d route.
Proof. done. Qed.
End selection.

(** * The table built *)
Section build.
Context `{Cd : Codec} `{E : !Env} `{!EnvLaws}.

Lemma fib_entry_of_returns d en w :
  re_kind en <> Multicast -> exists o, fib_entry_of d en w = Returns o.
Proof. unfold fib_entry_of. destruct (re_kind en); eauto. done. Qed.

Lemma fib_fold_spec d w l : forall fib fib',
  NoDup l.*1 -> foldm (fib_insert d w) fib l = Some fib' ->
  f_our_id fib' = f_our_id fib /\ f_links fib' = f_links fib /\ f_next_hop fib' = f_next_hop fib /\
  forall e, f_table fib' !! e =
    match list_to_map (M := gmap EndpointId LsRouteEntry) l !! e with
    | None => f_table fib !! e
    | Some en => match fib_entry_of d en w with
                 | Returns (Some fe) => Some fe
                 | _ => f_table fib !! e
                 end
    end.
Proof.
  induction l as [|[e0 en0] l IH]; intros fib fib' Hnd; simpl.
  { intros [= <-]. by repeat split. }
  apply NoDup_cons in Hnd as [Hni Hnd]. unfold fib_insert at 1. simpl.
  destruct (fib_entry_of d en0 w) as [[fe|]|] eqn:He; [| |done].
  - intros Hf. destruct (IH _ _ Hnd Hf) as (-> & -> & -> & Ht). simpl in *.
    repeat split; try done. intros e. rewrite Ht. destruct (decide (e = e0)) as [->|Hne].
    + rewrite (not_elem_of_list_to_map_1 l) by done. by rewrite !lookup_insert_eq, He.
    + by rewrite !lookup_insert_ne by done.
  - intros Hf. destruct (IH _ _ Hnd Hf) as (-> & -> & -> & Ht).
    repeat split; try done. intros e. rewrite Ht. destruct (decide (e = e0)) as [->|Hne].
    + rewrite (not_elem_of_list_to_map_1 l) by done. by rewrite lookup_insert_eq, He.
    + by rewrite lookup_insert_ne by done.
Qed.

Lemma build_from_db_spec d w fib :
  build_from_db d w = Returns fib ->
  f_our_id fib = d_self_id d /\ f_links fib = d_links d /\ f_next_hop fib = d_next_hop d /\
  forall e, f_table fib !! e =
    match d_routes d !! e with
    | None => None
    | Some en => match fib_entry_of d en w with Returns o => o | Panics => None end
    end.
Proof.
  unfold build_from_db. destruct (foldm _ _ _) as [f|] eqn:Hf; [|done]. intros [= <-].
  apply fib_fold_spec in Hf as (-> & -> & -> & Ht); [|apply NoDup_iter_map_fst].
  simpl in *. repeat split; try done. intros e. rewrite Ht.
  rewrite (list_to_map_proper _ (map_to_list (d_routes d))), list_to_map_to_list;
    [|apply NoDup_iter_map_fst | apply env_iter_map_perm].
  rewrite lookup_empty. destruct (d_routes d !! e) as [en|]; [|done].
  by destruct (fib_entry_of d en w) as [[]|].
Qed.

(** [todo!()]: no table is built while there is an entry of kind [Multicast]. *)
Lemma build_from_db_multicast d w e en :
  d_routes d !! e = Some en -> re_kind en = Multicast -> build_from_db d w = Panics.
Proof.
  intros He Hk. unfold build_from_db. destruct (foldm _ _ _) as [fib|] eqn:Hf; [|done]. exfalso.
  assert (Hin : (e, en) ∈ env_iter_map w (d_routes d)) by by apply elem_of_iter_map.
  destruct (foldm_all _ _ _ _ _ Hf Hin) as [c [x Hx]]. unfold fib_insert, fib_entry_of in Hx. simpl in Hx. by rewrite Hk in Hx.
Qed.

Lemma build_from_db_total d w :
  no_multicast (d_routes d) -> exists fib, build_from_db d w = Returns fib.
Proof.
  intros Hnm. unfold build_from_db.
  destruct (foldm_total (fun _ => True) (fib_insert d w) (env_iter_map w (d_routes d))
    (mkForwardingTable (d_self_id d) ∅ (d_links d) (d_next_hop d))) as (fib & -> & _); [|done|eauto].
  intros fib [e en] Hin _. apply elem_of_iter_map in Hin. unfold fib_insert. simpl.
  destruct (fib_entry_of_returns d en w (Hnm e en Hin)) as [[fe|] ->]; eauto.
Qed.

Lemma build_fib_ok d w :
  lsdb_inv d -> exists d' fib, build_fib d w = Returns (d', fib) /\
    well_behaved (d, w) (d', w) /\ d_routes d' = d_routes d /\ build_from_db d' w = Returns fib.
Proof.
  intros I. unfold build_fib. destruct (compute_spf_inv d w I) as (nh & c & p & -> & I'). simpl.
  set (d' := set_rebuild None _).
  destruct (build_from_db_total d' w) as [fib Hfib]; [apply (i_routes _ I)|].
  rewrite Hfib. exists d', fib. split; [done|]. split; [|done].
  apply well_behaved_set; [|done..]. intros _. by apply lsdb_inv_set_rebuild.
Qed.

(** What a table is built from: the records, the links and the routes. *)
Lemma build_from_db_ext d d' w :
  d_self_id d' = d_self_id d -> d_links d' = d_links d -> d_routes d' = d_routes d ->
  d_next_hop d' = d_next_hop d -> d_cost d' = d_cost d -> build_from_db d' w = build_from_db d w.
Proof. destruct d, d'. simpl. intros -> -> -> -> ->. reflexivity. Qed.

Lemma build_fib_ext d d' w t fib :
  d_self_id d' = d_self_id d -> d_links d' = d_links d -> d_db d' = d_db d -> d_routes d' = d_routes d ->
  build_fib d w = Returns (t, fib) -> exists t', build_fib d' w = Returns (t', fib).
Proof.
  intros Hs Hl Hdb Hr. unfold build_fib, compute_spf, router_nodes, link_values. rewrite Hs, Hl, Hdb.
  destruct (spf_run _ _ _) as [st| |]; [|done..]. cbn [outcome_bind].
  rewrite <- (build_from_db_ext _ (set_rebuild None (set_spf (sp_next_hop st) (sp_cost st) (sp_parent st) d')));
    [|done..]. destruct (build_from_db _ w); [|done]. intros [= _ <-]. by eexists.
Qed.
(** * Broadcast entries *)
Lemma elem_of_route_neighbours d routes n :
  n ∈ neighbours d routes <->
  exists r dest link, r ∈ routes /\ r_via r = Remote dest /\ d_next_hop d !! dest = Some link /\
    l_peer_id link = n.
Proof.
  unfold neighbours. rewrite list_elem_of_omap. split.
  - intros (r & Hr & Hn). unfold route_neighbour in Hn. destruct (r_via r) as [|dest] eqn:Hv; [done|].
    destruct (d_next_hop d !! dest) as [link|] eqn:Hl; [|done]. injection Hn as <-.
    by exists r, dest, link.
  - intros (r & dest & link & Hr & Hv & Hl & <-). exists r. split; [done|].
    unfold route_neighbour. by rewrite Hv, Hl.
Qed.

Definition broadcast_forwards (d : LsDb) (routes : list LsRoute) (w : World) : list FibForwardTo :=
  default [] ((fun e => hops e) <$> broadcast_entry d routes w).

Lemma broadcast_forwards_eq d routes w :
  broadcast_forwards d routes w =
  omap local_sender routes ++
  omap (fun node_id => FwdRemote <$> d_next_hop d !! node_id)
       (env_iter_set w (list_to_set (C := gset NodeId) (neighbours d routes))).
Proof.
  unfold broadcast_forwards, broadcast_entry. cbv zeta.
  destruct (omap local_sender routes ++ _); done.
Qed.

Lemma elem_of_broadcast_local d routes w sender :
  FwdLocal sender ∈ broadcast_forwards d routes w <->
  exists r, r ∈ routes /\ r_via r = Local sender.
Proof.
  rewrite broadcast_forwards_eq, elem_of_app, !list_elem_of_omap. split.
  - intros [(r & Hr & Hs)|(n & _ & Hn)].
    + exists r. split; [done|]. unfold local_sender in Hs. destruct (r_via r); congruence.
    + by destruct (d_next_hop d !! n).
  - intros (r & Hr & Hv). left. exists r. split; [done|]. unfold local_sender. by rewrite Hv.
Qed.

Lemma elem_of_broadcast_remote d routes w link :
  FwdRemote link ∈ broadcast_forwards d routes w <->
  exists n, n ∈ neighbours d routes /\ d_next_hop d !! n = Some link.
Proof.
  rewrite broadcast_forwards_eq, elem_of_app. split.
  - intros [(r & _ & Hs)%list_elem_of_omap|(n & Hn & Hl)%list_elem_of_omap].
    { unfold local_sender in Hs. by destruct (r_via r). }
    exists n. apply elem_of_iter_set, elem_of_list_to_set in Hn. split; [done|].
    destruct (d_next_hop d !! n); simpl in Hl; congruence.
  - intros (n & Hn & Hl). right. apply list_elem_of_omap. exists n. split.
    + by apply elem_of_iter_set, elem_of_list_to_set.
    + by rewrite Hl.
Qed.

(** * Anycast by distance *)

(** How far a listener is: its own cost, plus the cost of a cheapest path to its node. *)
Definition distance (g : gmap NodeId (list Adjacency)) (self : NodeId) (route : LsRoute) (t : Cost)
    : Prop :=
  match r_via route with
  | Local _ => t = r_cost route
  | Remote n => n <> self /\
      exists p, shortest g self n p /\ (p < cost_max)%N /\ t = cost_add (r_cost route) p
  end.

Lemma anycast_total_distance d w d' route t :
  lsdb_inv d -> compute_spf (d_self_id d) d w = Returns d' ->
  anycast_total d' route = Some t <-> distance (router_nodes d w) (d_self_id d) route t.
Proof.
  intros I Hspf. destruct (compute_spf_run _ _ _ Hspf) as (st & Hst & ->).
  unfold anycast_total, distance. simpl. destruct (r_via route) as [sender|n]; [naive_solver|].
  pose proof (spf_cost_le _ _ _ st n Hst) as Hle. unfold cost_of in Hle. split.
  - destruct (sp_cost st !! n) as [p|] eqn:Hp; [|done]. simpl in Hle.
    destruct (N.eqb_spec p u16_max) as [|Hne]; [done|].
    destruct (sp_next_hop st !! n) as [link|] eqn:Hl; [|done]. intros [= <-].
    destruct (spf_next_hop_known _ _ _ _ _ _ Hst Hl) as (Hself & _ & _). split; [done|].
    assert (Hc : cost_of st n = p) by (unfold cost_of; by rewrite Hp).
    assert (Hlt : (p < cost_max)%N) by (unfold cost_max in *; nlia).
    exists p. split; [|done]. split.
    + rewrite <- Hc. eapply spf_sound; [done | by rewrite Hc].
    + intros c Hpath. pose proof (spf_complete _ _ _ _ Hst n c Hpath) as Hm. rewrite Hc in Hm. nlia.
  - intros (Hself & p & [Hpath Hmin] & Hlt & ->).
    pose proof (spf_complete _ _ _ _ Hst n p Hpath) as Hm.
    assert (Hclt : (cost_of st n < cost_max)%N) by nlia.
    pose proof (Hmin _ (spf_sound _ _ _ _ _ Hst Hclt)) as Hge.
    destruct (spf_next_hop _ _ _ _ n (inv_covered d w (i_db _ I)) Hst Hself Hclt) as (link & -> & _).
    unfold cost_of in *. destruct (sp_cost st !! n) as [p'|]; simpl in *; [|unfold cost_max in *; nlia].
    assert (p' = p) as -> by nlia. unfold cost_max in Hlt.
    destruct (N.eqb_spec p u16_max); [nlia | done].
Qed.

(** After a rebuild, an anycast address leads to the nearest listener: the entry is a single
    hop towards a listener whose distance (its own cost plus the cost of a cheapest path to its
    node) is least among all listeners known, and there is no entry exactly when no listener can
    be reached. *)
Theorem anycast_goes_to_nearest d w d' fib e en :
  lsdb_inv d -> build_fib d w = Returns (d', fib) ->
  d_routes d !! e = Some en -> re_kind en = Anycast ->
  match f_table fib !! e with
  | Some fe => exists route t h, fe = Single h /\ route ∈ re_routes en /\
      fib_forward d' route = Some h /\ distance (router_nodes d w) (d_self_id d) route t /\
      forall route' t', route' ∈ re_routes en ->
        distance (router_nodes d w) (d_self_id d) route' t' -> (t <= t')%N
  | None => forall route t, route ∈ re_routes en ->
      ~ distance (router_nodes d w) (d_self_id d) route t
  end.
Proof.
  intros I. unfold build_fib. destruct (compute_spf _ d w) as [d1|] eqn:Hspf; [|done]. cbn [outcome_bind].
  destruct (build_from_db _ w) as [f|] eqn:Hb; [|done]. intros [= <- <-] He Hk.
  apply build_from_db_spec in Hb as (_ & _ & _ & Ht). rewrite Ht.
  assert (Hr : d_routes (set_rebuild None d1) !! e = Some en).
  { destruct (compute_spf_run _ _ _ Hspf) as (st & _ & ->). done. }
  rewrite Hr. unfold fib_entry_of. rewrite Hk.
  assert (Hdist : forall route t, anycast_total (set_rebuild None d1) route = Some t <->
    distance (router_nodes d w) (d_self_id d) route t).
  { intros route t. rewrite <- (anycast_total_distance d w d1) by done. done. }
  destruct (anycast_entry (set_rebuild None d1) (re_routes en)) as [fe|] eqn:Ha.
  - apply anycast_entry_Some in Ha as (route & t & h & -> & Hin & Hh & Htot & Hmin).
    exists route, t, h. rewrite <- Hdist. split; [done|]. split; [done|]. split; [done|]. split; [done|].
    intros route' t' Hin' Hd'. apply Hdist in Hd'. by apply (Hmin route' t').
  - intros route t Hin Hd. apply Hdist in Hd. rewrite anycast_entry_None in Ha. by rewrite (Ha route Hin) in Hd.
Qed.

(** * Broadcast, once per neighbour *)

Lemma compute_spf_hop_fix d w d' n link :
  compute_spf (d_self_id d) d w = Returns d' -> d_next_hop d' !! n = Some link ->
  d_next_hop d' !! l_peer_id link = Some link.
Proof.
  intros Hspf. destruct (compute_spf_run _ _ _ Hspf) as (st & Hst & ->). simpl. by apply (spf_hop_fix _ _ _ _ _ _ Hst).
Qed.

Lemma omap_fwd_local routes : omap fwd_remote (omap local_sender routes) = [].
Proof.
  induction routes as [|r rs IH]; [done|]. simpl. unfold local_sender at 1.
  by destruct (r_via r).
Qed.

Lemma peers_of_ids (nh : gmap NodeId Link) (ids : list NodeId) :
  (forall n link, n ∈ ids -> nh !! n = Some link -> l_peer_id link = n) ->
  sublist (l_peer_id <$> omap fwd_remote (omap (fun n => FwdRemote <$> nh !! n) ids)) ids.
Proof.
  induction ids as [|n ids IH]; intros Hp; simpl; [constructor|].
  destruct (nh !! n) as [link|] eqn:Hl; simpl.
  - rewrite (Hp n link); [|by left|done]. apply sublist_skip, IH. intros m l Hm. apply Hp. by right.
  - apply sublist_cons, IH. intros m l Hm. apply Hp. by right.
Qed.

Lemma remotes_broadcast d routes w fe :
  broadcast_entry d routes w = Some fe ->
  (forall n link, d_next_hop d !! n = Some link -> d_next_hop d !! l_peer_id link = Some link) ->
  NoDup (l_peer_id <$> remotes fe).
Proof.
  intros Hb Hfix. pose proof (broadcast_forwards_eq d routes w) as Heq. unfold broadcast_forwards in Heq.
  rewrite Hb in Heq. simpl in Heq. unfold remotes. rewrite Heq, omap_app, omap_fwd_local. simpl.
  eapply sublist_NoDup; [apply NoDup_iter_set | apply peers_of_ids].
  intros n link Hn Hl. apply elem_of_iter_set, elem_of_list_to_set in Hn.
  apply elem_of_route_neighbours in Hn as (r & dest & l0 & _ & _ & Hd & <-).
  apply Hfix in Hd. congruence.
Qed.

(** After a rebuild, a broadcast address reaches every listener within reach and no
    neighbour twice: the entry holds every local listener of the endpoint and, for every remote
    listener whose node has a next hop, that next hop; the neighbours it sends to are pairwise
    different. *)
Theorem broadcast_reaches_each_once d w d' fib e en :
  build_fib d w = Returns (d', fib) -> d_routes d !! e = Some en -> re_kind en = Broadcast ->
  let forwards := default [] (hops <$> f_table fib !! e) in
  (forall sender, FwdLocal sender ∈ forwards <->
     exists r, r ∈ re_routes en /\ r_via r = Local sender) /\
  (forall link, FwdRemote link ∈ forwards <->
     exists r n, r ∈ re_routes en /\ r_via r = Remote n /\ d_next_hop d' !! n = Some link) /\
  NoDup (l_peer_id <$> omap fwd_remote forwards).
Proof.
  unfold build_fib. destruct (compute_spf _ d w) as [d1|] eqn:Hspf; [|done]. cbn [outcome_bind].
  destruct (build_from_db _ w) as [f|] eqn:Hb; [|done]. intros [= <- <-] He Hk.
  apply build_from_db_spec in Hb as (_ & _ & _ & Ht).
  set (d2 := set_rebuild None d1) in *.
  assert (Hr : d_routes d2 !! e = Some en).
  { destruct (compute_spf_run _ _ _ Hspf) as (st & _ & Hd1). unfold d2. by rewrite Hd1. }
  assert (Hfix : forall n link, d_next_hop d2 !! n = Some link -> d_next_hop d2 !! l_peer_id link = Some link).
  { intros n link. by apply (compute_spf_hop_fix d w d1). }
  assert (Hforwards : default [] (hops <$> f_table f !! e) = broadcast_forwards d2 (re_routes en) w).
  { rewrite Ht, Hr. unfold fib_entry_of. by rewrite Hk. }
  cbv zeta. rewrite Hforwards. split; [|split].
  - intros sender. apply elem_of_broadcast_local.
  - intros link. rewrite elem_of_broadcast_remote. split.
    + intros (n & Hn & Hl). apply elem_of_route_neighbours in Hn as (r & dest & l0 & Hin & Hv & Hd & <-).
      exists r, dest. split; [done|]. split; [done|]. rewrite Hd. apply Hfix in Hd. congruence.
    + intros (r & n & Hin & Hv & Hl). exists (l_peer_id link). split; [|by apply Hfix in Hl].
      apply elem_of_route_neighbours. by exists r, n, link.
  - unfold broadcast_forwards. destruct (broadcast_entry d2 (re_routes en) w) as [fe|] eqn:Hbe; simpl; [|constructor].
    by apply (remotes_broadcast d2 (re_routes en) w).
Qed.
End build.

(** * Sending and forwarding *)
Section traffic.
Context `{Cd : Codec} `{E : !Env}.

(** A packet that could not be handed over is given back: when [send] fails, nothing was
    delivered, the error is [NoRoute] exactly when the table has no entry for the address, and
    it carries the packet's payload, or its encoding when the packet was already on its way to
    another node. *)
Theorem failed_send_returns_payload f packet w err w' :
  fib_send f packet w = Returns (inl err, w') ->
  let endpoint_id := get_endpoint (p_to packet) (f_our_id f) in
  (f_table f !! endpoint_id = None /\ err = ErrNoRoute (Some (p_payload packet)) /\ w' = w) \/
  (exists tx res, f_table f !! endpoint_id = Some (Single (FwdLocal tx)) /\ res <> SendOk /\
     w_log w' = w_log w ++ [EvClient tx (CmMessage packet) res] /\
     send_error_payload err = Some (p_payload packet)) \/
  (exists link wire res, f_table f !! endpoint_id = Some (Single (FwdRemote link)) /\
     wire_of_packet packet = Returns wire /\ res <> SendOk /\
     w_log w' = w_log w ++ [EvNode (l_tx link) (NmWirePacket wire) res] /\
     send_error_payload err = Some (PBytes (wp_payload wire))).
Proof.
  unfold fib_send. destruct (f_table f !! _) as [[[tx|link]|v]|] eqn:Ht.
  - unfold try_send_client. destruct (env_try_send w tx) eqn:Hs; [done|..]; intros [= <- <-]; right; left;
      do 2 eexists; (split; [done|]); (split; [|split; [simpl; reflexivity | done]]); done.
  - destruct (wire_of_packet packet) as [wire|] eqn:Hwire; [|done]. cbn [outcome_bind].
    unfold try_send_node. destruct (env_try_send w (l_tx link)) eqn:Hs; [done|..]; intros [= <- <-]; right; right;
      do 3 eexists; (split; [done|]); (split; [done|]); (split; [|split; [simpl; reflexivity | done]]); done.
  - destruct (foldm _ w v); [|done]. intros [= ].
  - intros [= <- <-]. by left.
Qed.

(** The attempts of an event log, whatever came of them. *)
Definition attempt (ev : Event) : option (ChanId * (Packet + WirePacket)) :=
  match ev with
  | EvClient tx (CmMessage p) _ => Some (tx, inl p)
  | EvNode tx (NmWirePacket p) _ => Some (tx, inr p)
  | _ => None
  end.

Lemma deliver_foldl {I T S} (iter : list I) (value : T) (g : S -> I -> T -> S) s :
  deliver iter value g s = foldl (fun s hop => g s hop value) s iter.
Proof.
  revert s. induction iter as [|hop rest IH]; intros s; simpl; [done|].
  destruct rest as [|hop' rest]; [done|]. by rewrite IH.
Qed.

Lemma tx_local_log (ls : list ChanId) p : forall w,
  exists evs, w_log (foldl (fun w tx => tx_local w tx p) w ls) = w_log w ++ evs /\
    map attempt evs = map (fun tx => Some (tx, inl p)) ls.
Proof.
  induction ls as [|tx ls IH]; intros w; simpl; [exists []; by rewrite app_nil_r|].
  destruct (IH (tx_local w tx p)) as (evs & -> & Hm).
  unfold tx_local, try_send_client. exists (EvClient tx (CmMessage p) (env_try_send w tx) :: evs).
  simpl. rewrite Hm. split; [|done]. rewrite cons_middle, app_assoc. f_equal. by destruct (env_try_send w tx).
Qed.

Lemma tx_remote_log f (rs : list Link) p : forall w,
  exists evs, w_log (foldl (fun w link => tx_remote f w link p) w rs) = w_log w ++ evs /\
    map attempt evs = map (fun link => Some (l_tx link, inr p))
      (retain (fun link => negb (back_path f (wp_from p) link)) rs).
Proof.
  induction rs as [|link rs IH]; intros w; simpl; [exists []; by rewrite app_nil_r|].
  rewrite retain_cons. unfold tx_remote at 2. destruct (back_path f (wp_from p) link); simpl; [apply IH|].
  set (w1 := (try_send_node _ _ w).2). destruct (IH w1) as (evs & -> & Hm).
  exists (EvNode (l_tx link) (NmWirePacket p) (env_try_send w (l_tx link)) :: evs). simpl. rewrite Hm.
  split; [|done]. rewrite cons_middle, app_assoc. f_equal. unfold w1, try_send_node.
  by destruct (env_try_send w (l_tx link)).
Qed.

Lemma forward_both f packet w ls rs :
  exists evs, w_log (deliver rs packet (tx_remote f) (deliver ls (packet_of_wire packet) tx_local w)) = w_log w ++ evs /\
    map attempt evs = map (fun tx => Some (tx, inl (packet_of_wire packet))) ls ++
      map (fun link => Some (l_tx link, inr packet))
        (retain (fun link => negb (back_path f (wp_from packet) link)) rs).
Proof.
  rewrite !deliver_foldl. destruct (tx_local_log ls (packet_of_wire packet) w) as (e1 & Hl1 & Hm1).
  set (w1 := foldl _ w ls) in *. destruct (tx_remote_log f rs packet w1) as (e2 & Hl2 & Hm2).
  exists (e1 ++ e2). by rewrite Hl2, Hl1, map_app, Hm1, Hm2, app_assoc.
Qed.

(** C19: a packet from a neighbour is accepted only on the connection that leads back to its
    sender, and an accepted packet is offered exactly once to every local listener and every
    remote hop of the entry of its address, except the neighbours it came through; a packet of
    the node's own, one from the wrong connection or one without an entry goes nowhere. *)
Theorem forwarding_is_exact f packet c w :
  let entry := f_table f !! get_endpoint (wp_to packet) (f_our_id f) in
  exists evs, w_log (fib_forward_packet f packet c w) = w_log w ++ evs /\
    map attempt evs =
      match f_next_hop f !! wp_from packet with
      | Some from_hop =>
          if decide (wp_from packet <> f_our_id f /\ l_connection_id from_hop = c) then
            map (fun tx => Some (tx, inl (packet_of_wire packet))) (default [] (locals <$> entry)) ++
            map (fun link => Some (l_tx link, inr packet))
              (retain (fun link => negb (bool_decide (l_peer_id from_hop = l_peer_id link)))
                 (default [] (remotes <$> entry)))
          else []
      | None => []
      end.
Proof.
  intros entry. unfold fib_forward_packet, accepts_from. destruct (f_next_hop f !! wp_from packet) as [from_hop|] eqn:Eh.
  2: { exists []. destruct (decide _); by rewrite app_nil_r. }
  destruct (decide (wp_from packet <> f_our_id f /\ l_connection_id from_hop = c)) as [[Hne Hc]|Hno].
  2: { exists []. rewrite app_nil_r. destruct (decide _) as [|Hne]; [done|].
       destruct (N.eqb_spec (l_connection_id from_hop) c); [by destruct Hno | done]. }
  destruct (decide (wp_from packet = f_our_id f)) as [|_]; [done|]. rewrite (proj2 (N.eqb_eq _ _) Hc).
  assert (Hback : forall l, retain (fun link => negb (bool_decide (l_peer_id from_hop = l_peer_id link))) l =
    retain (fun link => negb (back_path f (wp_from packet) link)) l) by (intros l; unfold back_path; by rewrite Eh).
  rewrite Hback. fold entry. destruct entry as [fe|]; simpl; [|exists []; by rewrite app_nil_r].
  destruct (forward_both f packet w (locals fe) (remotes fe)) as (evs & Hboth).
  destruct (locals fe) as [|l ls], (remotes fe) as [|r rs]; exists evs; exact Hboth.
Qed.
End traffic.

(** * The hops of a table *)
Section table_hops.
Context `{Cd : Codec} `{E : !Env} `{!EnvLaws}.

Lemma fib_forward_remote d route link :
  fib_forward d route = Some (FwdRemote link) -> exists n, d_next_hop d !! n = Some link.
Proof.
  unfold fib_forward. destruct (r_via route) as [|n]; [done|]. intros Hl. exists n.
  by destruct (d_next_hop d !! n); simplify_eq/=.
Qed.

(** The remote hops of an entry are next hops. *)
Lemma fib_entry_remotes d en w fe link :
  fib_entry_of d en w = Returns (Some fe) -> link ∈ remotes fe -> exists n, d_next_hop d !! n = Some link.
Proof.
  assert (Hsingle : forall o, (forall fe, o = Some fe -> exists route h, fe = Single h /\ fib_forward d route = Some h) ->
    o = Some fe -> link ∈ remotes fe -> exists n, d_next_hop d !! n = Some link).
  { intros o Ho Hfe Hl. destruct (Ho fe Hfe) as (route & h & -> & Hf). unfold remotes in Hl. simpl in Hl.
    destruct h as [|link']; simpl in Hl; [by apply elem_of_nil in Hl|].
    apply list_elem_of_singleton in Hl as ->. by eapply fib_forward_remote. }
  unfold fib_entry_of. destruct (re_kind en); intros [= Hfe]; revert Hfe.
  - apply Hsingle. intros f (route & h & -> & _ & Hf & _)%unicast_entry_Some. by exists route, h.
  - apply Hsingle. intros f (route & _ & h & -> & _ & Hf & _)%anycast_entry_Some. by exists route, h.
  - intros Hfe Hl. destruct (elem_of_broadcast_remote d (re_routes en) w link) as [Hb _].
    unfold broadcast_forwards in Hb. rewrite Hfe in Hb. destruct Hb as (n & _ & Hn); [|by exists n].
    unfold remotes in Hl. apply list_elem_of_omap in Hl as (h & Hh & Hf). by destruct h; simplify_eq/=.
  - apply Hsingle. intros f (route & h & -> & _ & Hf & _)%unicast_entry_Some. by exists route, h.
Qed.
End table_hops.
