(* ===== verification/Handle.v ===== *)
(** [src/handle.rs]: what clients hold. Registering listeners, the builder that describes a
    registration, sending, and the helper behind remote procedure calls. *)
From Stdlib Require Import Init.Byte Strings.String.
From S2P Require Import Prelude Types Messages World RouteTable Linkstate LsDb Fib.

(** * Errors ([src/errors/mod.rs]) *)
Section errors.
Context `{Cd : Codec}.

Inductive ReceiveError :=
  | ReConnectionClosed
  | ReRegistrationFailed (reason : string)
  | ReDeserializationError (p : Payload)
  | ReShutdown
  | ReRpcNoReplyTo.

Inductive AnyBusHandleError :=
  | HeSendError (e : SendError)
  | HeNoRoute
  | HeSubscriptionFailed
  | HeShutdown
  | HeReceiveError (e : ReceiveError)
  | HeNotAnycast
  | HeListenerNotRegistered.
End errors.

(** * Routes ([src/routing.rs]) *)
Inductive ForwardTo :=
  | ToLocal (tx : ChanId)
  | ToBroadcast (txs : list ChanId) (realm : Realm).

Record Route := mkRoute {
  rt_via : ForwardTo;
  rt_cost : Cost;
  rt_realm : Realm;
  rt_learned_from : ConnectionId;
  rt_kind : RouteKind;
}.

(** [impl From<&Route> for EndpointInfo]. *)
Definition info_of_route (route : Route) : EndpointInfo :=
  mkEndpointInfo (rt_kind route) (rt_realm route) (rt_cost route).

(** [route.into()] in a [RegistrationRequest]. *)
Definition request_of (endpoint_id : EndpointId) (route : Route) (sender : ChanId) : RegistrationRequest :=
  mkRegistrationRequest endpoint_id (info_of_route route) sender.

(** * Registering *)
Section registration.
Context `{Cd : Codec}.

(** [wait_for_registration]: [response] is the first message of the new channel, [None] when
    it is closed. Besides the result, what is sent to the router. *)
Definition wait_for_registration (response : option ClientMessage) (endpoint_id : EndpointId)
    : (ReceiveError + unit) * list RouterMsg :=
  match response with
  | None => (inl ReShutdown, [])
  | Some (CmMessage _) => (inl (ReRegistrationFailed "Bad response from Bus"), [RmDeadLink endpoint_id])
  | Some (CmFailedRegistration _ reason) => (inl (ReRegistrationFailed reason), [])
  | Some CmShutdown => (inl ReShutdown, [])
  | Some (CmSuccessfulRegistration _) => (inr tt, [])
  end.

(** What a registration meets: whether the router's mailbox takes the request (a closed one is
    [ConnectionClosed]), and the first answer. *)
Record Meeting := mkMeeting { mt_sent : bool; mt_response : option ClientMessage }.

(** [self.tx.send(..).await?; self.wait_for_registration(..).await?]. *)
Definition register_with (request : RegistrationRequest) (m : Meeting)
    : (ReceiveError + unit) * list RouterMsg :=
  if mt_sent m then
    let '(r, outs) := wait_for_registration (mt_response m) (rr_endpoint_id request) in
    (r, RmRegisterEndpoint request :: outs)
  else (inl ReConnectionClosed, []).

(** The requests of the [register_*_inner]; [tx] is the new channel. *)
Definition anycast_request (endpoint_id : EndpointId) (realm : Realm) (cost : Cost) (tx : ChanId)
    : RegistrationRequest :=
  request_of endpoint_id (mkRoute (ToLocal tx) cost realm 0%N Anycast) tx.

Definition unicast_request (endpoint_id : EndpointId) (realm : Realm) (tx : ChanId) : RegistrationRequest :=
  request_of endpoint_id (mkRoute (ToLocal tx) 0%N realm 0%N Unicast) tx.

Definition broadcast_request (broadcast_id : EndpointId) (realm : Realm) (tx : ChanId) : RegistrationRequest :=
  request_of broadcast_id (mkRoute (ToBroadcast [tx] realm) 0%N realm 0%N Broadcast) tx.

Definition rpc_channel_request (endpoint_id : EndpointId) (kind : RouteKind) (realm : Realm)
    (cost : Cost) (tx : ChanId) : RegistrationRequest :=
  request_of endpoint_id (mkRoute (ToLocal tx) cost realm 0%N kind) tx.

(** [register_anycast] and [register_anycast_uuid]; [register_unicast] and
    [register_unicast_uuid]; [register_broadcast] and [register_broadcast_uuid]. The endpoint
    is the argument or [T::ANYBUS_UUID]. *)
Definition register_anycast (endpoint_id : EndpointId) (tx : ChanId) : RegistrationRequest :=
  anycast_request endpoint_id Global 0%N tx.
Definition register_unicast (endpoint_id : EndpointId) (tx : ChanId) : RegistrationRequest :=
  unicast_request endpoint_id Global tx.
Definition register_broadcast (endpoint_id : EndpointId) (tx : ChanId) : RegistrationRequest :=
  broadcast_request endpoint_id Global tx.

(** [register_rpc], [register_rpc_uuid], [register_anycast_rpc], [register_anycast_rpc_uuid] and
    [register_anycast_rpc_inner]. *)
Definition register_rpc (endpoint_id : EndpointId) (tx : ChanId) : RegistrationRequest :=
  rpc_channel_request endpoint_id Unicast realm_default 0%N tx.
Definition register_anycast_rpc_inner (endpoint_id : EndpointId) (realm : Realm) (cost : Cost) (tx : ChanId)
    : RegistrationRequest :=
  rpc_channel_request endpoint_id Anycast realm cost tx.
Definition register_anycast_rpc (endpoint_id : EndpointId) (tx : ChanId) : RegistrationRequest :=
  register_anycast_rpc_inner endpoint_id realm_default 0%N tx.
End registration.

(** * The builder

    The marker types of the source; the stages a registration goes through are the types. *)
Inductive NoEndpointId := MkNoEndpointId.
Inductive NoCast := MkNoCast.
Inductive EndpointSet := MkEndpointSet (e : EndpointId).
Inductive CastSet := MkCastSet (kind : RouteKind).
Inductive AnycastSet := MkAnycastSet.
Inductive NoRpc := MkNoRpc.
Inductive RpcSet := MkRpcSet.

Record RegistrationBuilder (EP CAST RPC : Type) := mkBuilder {
  b_endpoint_id : EP;
  b_realm : Realm;
  b_cast : CAST;
  b_rpc_flag : RPC;
  b_cost : Cost;
}.
Arguments mkBuilder {EP CAST RPC} b_endpoint_id b_realm b_cast b_rpc_flag b_cost.
Arguments b_endpoint_id {EP CAST RPC} r.
Arguments b_realm {EP CAST RPC} r.
Arguments b_cast {EP CAST RPC} r.
Arguments b_rpc_flag {EP CAST RPC} r.
Arguments b_cost {EP CAST RPC} r.

(** [Handle::listener]. *)
Definition listener : RegistrationBuilder NoEndpointId NoCast NoRpc :=
  mkBuilder MkNoEndpointId realm_default MkNoCast MkNoRpc 0%N.

Section builder.
Context {EP CAST RPC : Type}.

Definition with_realm (r : Realm) (b : RegistrationBuilder EP CAST RPC) : RegistrationBuilder EP CAST RPC :=
  mkBuilder (b_endpoint_id b) r (b_cast b) (b_rpc_flag b) (b_cost b).
Definition with_cost (c : Cost) (b : RegistrationBuilder EP CAST RPC) : RegistrationBuilder EP CAST RPC :=
  mkBuilder (b_endpoint_id b) (b_realm b) (b_cast b) (b_rpc_flag b) c.
Definition with_endpoint (ep : EndpointId) (b : RegistrationBuilder EP CAST RPC)
    : RegistrationBuilder EndpointSet CAST RPC :=
  mkBuilder (MkEndpointSet ep) (b_realm b) (b_cast b) (b_rpc_flag b) (b_cost b).
Definition anycast (b : RegistrationBuilder EP NoCast RPC) : RegistrationBuilder EP AnycastSet RPC :=
  mkBuilder (b_endpoint_id b) (b_realm b) MkAnycastSet (b_rpc_flag b) (b_cost b).
Definition unicast (b : RegistrationBuilder EP NoCast RPC) : RegistrationBuilder EP CastSet RPC :=
  mkBuilder (b_endpoint_id b) (b_realm b) (MkCastSet Unicast) (b_rpc_flag b) (b_cost b).
Definition broadcast (b : RegistrationBuilder EP NoCast NoRpc) : RegistrationBuilder EP CastSet NoRpc :=
  mkBuilder (b_endpoint_id b) (b_realm b) (MkCastSet Broadcast) (b_rpc_flag b) (b_cost b).
(** [rpc], on an anycast registration and on one without a cast. *)
Definition anycast_rpc (b : RegistrationBuilder EP AnycastSet NoRpc) : RegistrationBuilder EP AnycastSet RpcSet :=
  mkBuilder (b_endpoint_id b) (b_realm b) MkAnycastSet MkRpcSet (b_cost b).
Definition rpc (b : RegistrationBuilder EP NoCast NoRpc) : RegistrationBuilder EP NoCast RpcSet :=
  mkBuilder (b_endpoint_id b) (b_realm b) MkNoCast MkRpcSet (b_cost b).
End builder.

(** The endpoint a builder registers: the one it was given, or [T::ANYBUS_UUID]. *)
Class HasEndpoint (EP : Type) := endpoint_or : EP -> EndpointId -> EndpointId.
#[export] Instance NoEndpointId_endpoint : HasEndpoint NoEndpointId := fun _ uuid => uuid.
#[export] Instance EndpointSet_endpoint : HasEndpoint EndpointSet := fun '(MkEndpointSet e) _ => e.

(** The [register] of each stage: the request it makes of the router. [register_cast_set] is where
    the source has [unreachable!] and [unimplemented!]. *)
Section register.
Context {EP : Type} `{!HasEndpoint EP}.

Definition register_anycast_set (b : RegistrationBuilder EP AnycastSet NoRpc) (uuid : EndpointId) (tx : ChanId)
    : RegistrationRequest :=
  anycast_request (endpoint_or (b_endpoint_id b) uuid) (b_realm b) (b_cost b) tx.

Definition register_cast_set (b : RegistrationBuilder EP CastSet NoRpc) (uuid : EndpointId) (tx : ChanId)
    : Outcome RegistrationRequest :=
  let ep := endpoint_or (b_endpoint_id b) uuid in
  match b_cast b with
  | MkCastSet Unicast => Returns (unicast_request ep (b_realm b) tx)
  | MkCastSet Broadcast => Returns (broadcast_request ep (b_realm b) tx)
  | MkCastSet (Anycast | Multicast | Node) => Panics
  end.

Definition register_no_cast_rpc (b : RegistrationBuilder EP NoCast RpcSet) (uuid : EndpointId) (tx : ChanId)
    : RegistrationRequest :=
  register_rpc (endpoint_or (b_endpoint_id b) uuid) tx.

Definition register_anycast_rpc_set (b : RegistrationBuilder EP AnycastSet RpcSet) (uuid : EndpointId) (tx : ChanId)
    : RegistrationRequest :=
  register_anycast_rpc_inner (endpoint_or (b_endpoint_id b) uuid) (b_realm b) (b_cost b) tx.
End register.

(** [get_anybus_status_receiver]. *)
Definition status_listener (status_id : EndpointId) : RegistrationBuilder EndpointSet CastSet NoRpc :=
  with_realm Process (broadcast (with_endpoint status_id listener)).

(** [RegistrationConfig], the two [create_config] and the two conversions. *)
Record RegistrationConfig := mkRegistrationConfig {
  rc_endpoint_id : EndpointId;
  rc_realm : Realm;
  rc_cast : RouteKind;
  rc_rpc : bool;
  rc_cost : Cost;
}.

Definition create_config {RPC} (builder : RegistrationBuilder NoEndpointId CastSet RPC) (ep : EndpointId)
    : RegistrationConfig :=
  let '(MkCastSet kind) := b_cast builder in
  mkRegistrationConfig ep (b_realm builder) kind false (b_cost builder).

Definition config_of_rpc (builder : RegistrationBuilder EndpointSet CastSet RpcSet) : RegistrationConfig :=
  let '(MkEndpointSet ep) := b_endpoint_id builder in
  let '(MkCastSet kind) := b_cast builder in
  mkRegistrationConfig ep (b_realm builder) kind true (b_cost builder).

Definition config_of_no_rpc (builder : RegistrationBuilder EndpointSet CastSet NoRpc) : RegistrationConfig :=
  let '(MkEndpointSet ep) := b_endpoint_id builder in
  let '(MkCastSet kind) := b_cast builder in
  mkRegistrationConfig ep (b_realm builder) kind false (b_cost builder).

(** * Sending *)

(** [BusTicket]. *)
Record BusTicket `{Codec} := mkTicket { bt_rider : Rider; bt_dest : EndpointId }.

Section sending.
Context `{Cd : Codec} `{E : !Env}.

Definition map_send_error (r : Outcome ((SendError + unit) * World))
    : Outcome ((AnyBusHandleError + unit) * World) :=
  outcome_bind r (fun '(res, w) =>
    Returns (match res with inl e => inl (HeSendError e) | inr _ => inr tt end, w)).

(** [send_to_address]; [map] is the table published at the time of the call. *)
Definition send_to_address (map : ForwardingTable) (address : Address) (payload : Rider) (w : World)
    : Outcome ((AnyBusHandleError + unit) * World) :=
  map_send_error (fib_send map (mkPacket address None (f_our_id map) (PBusRider payload)) w).

(** [send], with [T::ANYBUS_UUID], and [send_to_uuid]. *)
Definition send_to_uuid (map : ForwardingTable) (endpoint_id : EndpointId) (payload : Rider) (w : World)
    : Outcome ((AnyBusHandleError + unit) * World) :=
  send_to_address map (AddrEndpoint endpoint_id) payload w.

Definition send_busticket (map : ForwardingTable) (ticket : BusTicket) (w : World)
    : Outcome ((AnyBusHandleError + unit) * World) :=
  map_send_error (fib_send map
    (mkPacket (AddrEndpoint (bt_dest ticket)) None (f_our_id map) (PBusRider (bt_rider ticket))) w).

(** [Handle::shutdown]: the broadcast of [ShuttingDown], then the message for the router; a
    failed send is ignored. *)
Definition handle_shutdown (map : ForwardingTable) (status_id : EndpointId) (shutting_down : Rider) (w : World)
    : Outcome (list RouterMsg * World) :=
  outcome_bind (send_to_uuid map status_id shutting_down w) (fun '(_, w) => Returns ([RmShutdown], w)).

(** * Requests *)

(** [RequestHelper], as the endpoint its answers come to. *)
Definition rpc_helper_request (response_uuid : EndpointId) (tx : ChanId) : RegistrationRequest :=
  request_of response_uuid (mkRoute (ToLocal tx) 0%N Process 0%N Unicast) tx.

(** [rpc_helper]: the answer to the registration. *)
Definition rpc_helper_ready (response_uuid : EndpointId) (response : option ClientMessage)
    : AnyBusHandleError + EndpointId :=
  match response with
  | Some (CmSuccessfulRegistration uuid) =>
      if decide (uuid = response_uuid) then inr response_uuid else inl HeSubscriptionFailed
  | _ => inl HeSubscriptionFailed
  end.

(** The packet of [request] and [request_to_uuid]. *)
Definition request_packet (fib : ForwardingTable) (response_uuid to : EndpointId) (payload : Rider) : Packet :=
  mkPacket (AddrEndpoint to) (Some (AddrRemote response_uuid (f_our_id fib))) (f_our_id fib) (PBusRider payload).

Definition request_send (fib : ForwardingTable) (response_uuid to : EndpointId) (payload : Rider) (w : World)
    : Outcome ((AnyBusHandleError + unit) * World) :=
  map_send_error (fib_send fib (request_packet fib response_uuid to payload) w).

(** What [request] makes of what its channel yields; [unreachable!()] and [todo!()] panic. *)
Definition request_answer (T : RustTy) (incoming : option ClientMessage)
    : Outcome (AnyBusHandleError + Rider) :=
  match incoming with
  | Some (CmMessage val) =>
      outcome_bind (reveal T (p_payload val)) (fun r =>
        Returns (match r with
                 | inl v => inr v
                 | inr p => inl (HeReceiveError (ReDeserializationError p))
                 end))
  | Some CmShutdown | None => Returns (inl HeShutdown)
  | Some (CmFailedRegistration _ _ | CmSuccessfulRegistration _) => Panics
  end.

(** A request of a helper whose mailbox holds [queue] and gets [arrivals] before the wait ends,
    which is when there is a message or, with none, when the channel is closed; the rest of the
    mailbox is left for the next request. *)
Definition request (T : RustTy) (fib : ForwardingTable) (response_uuid to : EndpointId) (payload : Rider)
    (queue arrivals : list ClientMessage) (w : World)
    : Outcome ((AnyBusHandleError + Rider) * list ClientMessage * World) :=
  outcome_bind (request_send fib response_uuid to payload w) (fun '(sent, w) =>
    match sent with
    | inl e => Returns (inl e, queue ++ arrivals, w)
    | inr _ =>
        outcome_bind (request_answer T (head (queue ++ arrivals))) (fun r =>
          Returns (r, tail (queue ++ arrivals), w))
    end).

(** [rpc_once]: a helper of its own, then one request; the helper is dropped either way it
    ends once it was made. *)
Definition rpc_once (T : RustTy) (fib : ForwardingTable) (response_uuid to : EndpointId) (payload : Rider)
    (registered : option ClientMessage) (arrivals : list ClientMessage) (w : World)
    : Outcome ((AnyBusHandleError + Rider) * list RouterMsg * World) :=
  match rpc_helper_ready response_uuid registered with
  | inl e => Returns (inl e, [], w)
  | inr helper =>
      outcome_bind (request T fib helper to payload [] arrivals w) (fun '(r, _, w) =>
        Returns (r, [RmDeadLink helper], w))
  end.

(** Dropping a helper, a receiver: [unregister_endpoint]. *)
Definition unregister_endpoint (endpoint_id : EndpointId) : RouterMsg := RmDeadLink endpoint_id.
End sending.
