(* ===== verification/Receivers.v ===== *)
(** [src/receivers]: the receiving ends of registered endpoints, the change of an anycast cost,
    and the loops of [src/services.rs] and [src/anybus.rs] that serve an endpoint. *)
From Stdlib Require Import Init.Byte Strings.String.
From S2P Require Import Prelude Types Messages World RouteTable Linkstate LsDb Fib Handle.

(** * Mailboxes

    What waits in the channel of a receiver, and whether every sender is gone. *)
Inductive Poll (A : Type) := Ready (a : A) | Pending.
Arguments Ready {A} a.
Arguments Pending {A}.

Section receivers.
Context `{Cd : Codec}.

Record Mailbox := mkMailbox { mb_queue : list ClientMessage; mb_closed : bool }.

Definition set_queue (q : list ClientMessage) (mb : Mailbox) : Mailbox := mkMailbox q (mb_closed mb).

(** [mpsc::Receiver::poll_recv]. *)
Definition poll_recv (mb : Mailbox) : Poll (option ClientMessage) * Mailbox :=
  match mb_queue mb with
  | m :: q => (Ready (Some m), set_queue q mb)
  | [] => (if mb_closed mb then Ready None else Pending, mb)
  end.

(** * PacketReceiver *)

(** The loop of [recv] over what the mailbox holds: [Pending] is a wait for more. *)
Fixpoint recv_loop (closed : bool) (q : list ClientMessage)
    : Poll (ReceiveError + Packet) * list ClientMessage :=
  match q with
  | [] => (if closed then Ready (inl ReShutdown) else Pending, [])
  | CmMessage packet :: q => (Ready (inr packet), q)
  | CmShutdown :: q => (Ready (inl ReShutdown), q)
  | (CmFailedRegistration _ _ | CmSuccessfulRegistration _) :: q => recv_loop closed q
  end.

Definition packet_recv (mb : Mailbox) : Poll (ReceiveError + Packet) * Mailbox :=
  let '(r, q) := recv_loop (mb_closed mb) (mb_queue mb) in (r, set_queue q mb).

Definition packet_try_recv (mb : Mailbox) : option (ReceiveError + Packet) * Mailbox :=
  match mb_queue mb with
  | CmMessage packet :: q => (Some (inr packet), set_queue q mb)
  | CmShutdown :: q => (Some (inl ReShutdown), set_queue q mb)
  | CmFailedRegistration _ _ :: q =>
      (Some (inl (ReRegistrationFailed "Registration failed")), set_queue q mb)
  | CmSuccessfulRegistration _ :: q =>
      (Some (inl (ReRegistrationFailed "Unexpected successful registration")), set_queue q mb)
  | [] => (if mb_closed mb then Some (inl ReShutdown) else None, mb)
  end.

(** [Stream::poll_next]. *)
Definition packet_poll_next (mb : Mailbox) : Poll (option Packet) * Mailbox :=
  let '(polled, mb) := poll_recv mb in
  (match polled with
   | Ready (Some (CmMessage packet)) => Ready (Some packet)
   | Ready (Some CmShutdown) => Ready None
   | Ready (Some (CmFailedRegistration _ _ | CmSuccessfulRegistration _)) => Pending
   | Ready None => Ready None
   | Pending => Pending
   end, mb).

(** * Receiver *)

(** [packet.payload.reveal().map_err(DeserializationError)]. *)
Definition reveal_or_error (T : RustTy) (p : Payload) : Outcome (ReceiveError + Rider) :=
  outcome_bind (reveal T p) (fun r =>
    Returns (match r with inl v => inr v | inr p => inl (ReDeserializationError p) end)).

Definition receiver_recv (T : RustTy) (mb : Mailbox) : Outcome (Poll (ReceiveError + Rider)) * Mailbox :=
  let '(r, mb) := packet_recv mb in
  (match r with
   | Pending => Returns Pending
   | Ready (inl e) => Returns (Ready (inl e))
   | Ready (inr packet) =>
       outcome_bind (reveal_or_error T (p_payload packet)) (fun v => Returns (Ready v))
   end, mb).

Definition receiver_try_recv (T : RustTy) (mb : Mailbox)
    : Outcome (option (ReceiveError + Rider)) * Mailbox :=
  let '(r, mb) := packet_try_recv mb in
  (match r with
   | None => Returns None
   | Some (inl e) => Returns (Some (inl e))
   | Some (inr packet) =>
       outcome_bind (reveal T (p_payload packet)) (fun v =>
         Returns (match v with inl msg => Some (inr msg) | inr _ => None end))
   end, mb).

Definition receiver_poll_next (T : RustTy) (mb : Mailbox) : Outcome (Poll (option Rider)) * Mailbox :=
  let '(polled, mb) := poll_recv mb in
  (match polled with
   | Pending => Returns Pending
   | Ready (Some (CmMessage packet)) =>
       outcome_bind (reveal T (p_payload packet)) (fun v =>
         Returns (match v with inl msg => Ready (Some msg) | inr _ => Pending end))
   | Ready (Some CmShutdown) => Returns (Ready None)
   | Ready (Some (CmFailedRegistration _ _ | CmSuccessfulRegistration _)) => Returns Pending
   | Ready None => Returns (Ready None)
   end, mb).

(** * RPC receivers *)
Record RpcRequest := mkRpcRequest { rq_response : Address; rq_payload : option Rider }.

(** [recv_rpc], for both [RpcReceiver] and [AnycastRpcReceiver]. *)
Definition rpc_request_of (T : RustTy) (packet : Packet) : Outcome (ReceiveError + RpcRequest) :=
  match p_reply_to packet with
  | None => Returns (inl ReRpcNoReplyTo)
  | Some reply_to =>
      outcome_bind (reveal_or_error T (p_payload packet)) (fun r =>
        Returns (match r with
                 | inl e => inl e
                 | inr payload => inr (mkRpcRequest reply_to (Some payload))
                 end))
  end.

Definition recv_rpc (T : RustTy) (mb : Mailbox) : Outcome (Poll (ReceiveError + RpcRequest)) * Mailbox :=
  let '(r, mb) := packet_recv mb in
  (match r with
   | Pending => Returns Pending
   | Ready (inl e) => Returns (Ready (inl e))
   | Ready (inr packet) => outcome_bind (rpc_request_of T packet) (fun v => Returns (Ready v))
   end, mb).

(** [RpcRequest::payload] takes the payload. *)
Definition take_payload (r : RpcRequest) : option Rider * RpcRequest :=
  (rq_payload r, mkRpcRequest (rq_response r) None).

(** * The cost of an anycast listener *)

(** [AnycastCost::set_cost]: what is sent to the router, and the result given whether the mailbox
    took it and what the router answered ([None]: the reply channel was dropped). *)
Definition set_cost_msg (endpoint_id : EndpointId) (sender : ChanId) (cost : Cost) (reply : ChanId) : RouterMsg :=
  RmSetAnycastCost endpoint_id sender cost reply.

Definition set_cost_result (sent : bool) (result : option (SetAnycastCostError + unit))
    : AnyBusHandleError + unit :=
  if sent then
    match result with
    | Some (inr _) => inr tt
    | Some (inl NotAnycast) => inl HeNotAnycast
    | Some (inl NotRegistered) => inl HeListenerNotRegistered
    | None => inl HeShutdown
    end
  else inl HeShutdown.
End receivers.

Section serving.
Context `{Cd : Codec} `{E : !Env}.

(** [RpcRequest::reply]. *)
Definition rpc_reply (map : ForwardingTable) (r : RpcRequest) (response : Rider) (w : World)
    : Outcome ((AnyBusHandleError + unit) * World) :=
  send_to_address map (rq_response r) response w.

(** * The service loops *)

(** What one [recv().await] of a service does; [Parked] is a wait for the mailbox, the loop is
    the same whether the result was an error or not. *)
Inductive Turn := Served (w : World) | Spun | Parked | Crashed.

(** [BusStopService::bus_stop_service]: the tickets of [on_message] are sent one by one, failures
    are logged. *)
Definition send_tickets (map : ForwardingTable) (tickets : list BusTicket) (w : World) : option World :=
  foldm (fun w bt => match send_busticket map bt w with
                     | Returns (_, w) => Some w
                     | Panics => None
                     end) w tickets.

Definition bus_stop_turn (T : RustTy) (on_message : Rider -> list BusTicket) (map : ForwardingTable)
    (mb : Mailbox) (w : World) : Turn * Mailbox :=
  let '(r, mb) := receiver_recv T mb in
  (match r with
   | Panics => Crashed
   | Returns Pending => Parked
   | Returns (Ready (inl _)) => Spun
   | Returns (Ready (inr msg)) =>
       match send_tickets map (on_message msg) w with Some w => Served w | None => Crashed end
   end, mb).

(** The task of [add_bus_depot_with_endpoint]; [S] is the state of the [BusDepot]. *)
Context {S : Type}.

Definition bus_depot_turn (T : RustTy) (on_request : S -> option Rider -> Rider * S) (map : ForwardingTable)
    (mb : Mailbox) (st : S) (w : World) : Turn * Mailbox * S :=
  let '(r, mb) := recv_rpc T mb in
  match r with
  | Panics => (Crashed, mb, st)
  | Returns Pending => (Parked, mb, st)
  | Returns (Ready (inl _)) => (Spun, mb, st)
  | Returns (Ready (inr req)) =>
      let '(payload, req) := take_payload req in
      let '(response, st) := on_request st payload in
      match rpc_reply map req response w with
      | Returns (_, w) => (Served w, mb, st)
      | Panics => (Crashed, mb, st)
      end
  end.
End serving.
