(* ===== verification/Names.v ===== *)
(** The rest of [src/routing.rs]: conversions between identifiers, how identifiers, addresses and
    kinds are printed, and the order of routes. A [Uuid] prints as its library prints it. *)
From Stdlib Require Import Strings.String Strings.Ascii.
From stdpp Require Import pretty.
From S2P Require Import Prelude Types Messages Handle.
Open Scope string_scope.

(** * Conversions *)
Definition node_of_uuid (value : Uuid) : NodeId := mkNodeId value.
Definition uuid_of_node (value : NodeId) : Uuid := node_uuid value.
Definition endpoint_of_uuid (value : Uuid) : EndpointId := mkEndpointId value.
Definition uuid_of_endpoint (value : EndpointId) : Uuid := endpoint_uuid value.
Definition address_of_endpoint (value : EndpointId) : Address := AddrEndpoint value.
Definition address_of_uuid (value : Uuid) : Address := AddrEndpoint (mkEndpointId value).

(** * The order of routes

    [Ord], [PartialOrd] and [PartialEq] of [Route]: nothing but the cost counts. *)
Definition route_cmp (a b : Route) : comparison := N.compare (rt_cost a) (rt_cost b).
Definition route_partial_cmp (a b : Route) : option comparison := Some (route_cmp a b).
Definition route_eq (a b : Route) : bool := N.eqb (rt_cost a) (rt_cost b).

(** [Advertisement], [PeerEntry]. *)
Record Advertisement := mkAdvertisement { av_kind : RouteKind; av_cost : Cost; av_endpoint_id : EndpointId }.
Record PeerEntry := mkPeerEntry { pe_peer_tx : ChanId }.

(** * Printing *)
Definition show_kind (k : RouteKind) : string :=
  match k with
  | Unicast => "Unicast"
  | Anycast => "Anycast"
  | Broadcast => "Broadcast"
  | Multicast => "Multicast"
  | Node => "Node"
  end.
Definition show_connection_id (c : ConnectionId) : string := pretty c.

Section names.
Context (uuid_text : Uuid -> string).

Definition show_node (n : NodeId) : string := uuid_text (node_uuid n).
Definition show_endpoint (e : EndpointId) : string := uuid_text (endpoint_uuid e).
Definition show_address (a : Address) : string :=
  match a with
  | AddrEndpoint eid => "Endpoint(" ++ show_endpoint eid ++ ")"
  | AddrRemote eid nid => "Remote(eid:" ++ show_endpoint eid ++ ", nid:" ++ show_node nid ++ ")"
  end.

(** * What it promises *)
Fixpoint mentions (c : ascii) (s : string) : bool :=
  match s with EmptyString => false | String x s => Ascii.eqb x c || mentions c s end.

(** The hyphenated form of a [Uuid] names it, and has no comma. *)
Hypothesis uuid_text_inj : forall u v, uuid_text u = uuid_text v -> u = v.
Hypothesis uuid_text_plain : forall u, mentions "," (uuid_text u) = false.

Lemma append_split c x y a b :
  mentions c x = false -> mentions c y = false -> x ++ String c a = y ++ String c b -> x = y /\ a = b.
Proof.
  revert y. induction x as [|d x IH]; intros [|f y]; simpl; intros Hx Hy Heq.
  - by injection Heq.
  - injection Heq as <- _. by rewrite Ascii.eqb_refl in Hy.
  - injection Heq as -> _. by rewrite Ascii.eqb_refl in Hx.
  - apply orb_false_iff in Hx as [_ Hx]. apply orb_false_iff in Hy as [_ Hy]. injection Heq as -> Heq.
    destruct (IH y Hx Hy Heq) as [-> ->]. done.
Qed.

Lemma append_end s t u : s ++ u = t ++ u -> s = t.
Proof.
  assert (Hlen : forall x y, String.length (x ++ y) = String.length x + String.length y).
  { induction x as [|c x IH]; intros y; simpl; [done|]. by rewrite IH. }
  intros Heq. assert (Hl : String.length s = String.length t).
  { apply (f_equal String.length) in Heq. rewrite !Hlen in Heq. lia. }
  revert t Heq Hl. induction s as [|c s IH]; intros [|d t]; simpl; try done.
  intros [= -> Heq] [= Hl]. f_equal. by apply IH.
Qed.

(** No two addresses print alike. *)
Lemma show_address_inj a b : show_address a = show_address b -> a = b.
Proof.
  destruct a as [e|e n], b as [e'|e' n']; simpl; try done.
  - intros [= Heq]. assert (Hq : show_endpoint e ++ ")" = show_endpoint e' ++ ")") by exact Heq.
    apply append_end, uuid_text_inj in Hq. f_equal. by destruct e, e'; simpl in *; subst.
  - intros [= Heq].
    assert (Hq : show_endpoint e ++ String "," (" nid:" ++ show_node n ++ ")") =
      show_endpoint e' ++ String "," (" nid:" ++ show_node n' ++ ")")) by exact Heq.
    apply append_split in Hq as [He Hn]; [|apply uuid_text_plain..].
    injection Hn as Hn. assert (Hm : show_node n ++ ")" = show_node n' ++ ")") by exact Hn.
    apply append_end, uuid_text_inj in Hm. apply uuid_text_inj in He.
    by destruct e, e', n, n'; simpl in *; subst.
Qed.
End names.

(** Routes are ordered by cost, totally; equal in the order is equal in [==], not equal. *)
Lemma route_order a b c :
  (route_cmp a b = Eq <-> route_eq a b = true) /\ route_cmp b a = CompOpp (route_cmp a b) /\
  (route_cmp a b <> Gt -> route_cmp b c <> Gt -> route_cmp a c <> Gt).
Proof.
  unfold route_cmp, route_eq. split; [by rewrite N.compare_eq_iff, N.eqb_eq|]. split; [apply N.compare_antisym|].
  apply N.le_trans.
Qed.
