(* ===== verification/Services.v ===== *)
(** The services a bus runs for its owner ([src/services.rs], [BusStop] and [BusDepot] of
    [src/traits.rs], the corresponding part of [src/anybus.rs]): how one starts, serves and is
    removed. The loops themselves are in [Receivers.v]. *)
From S2P Require Import Prelude Types Messages World RouteTable Fib Handle Receivers.

(** * What is asked of the router *)

(** [handle.listener().endpoint(id).anycast().register::<T>()]. *)
Definition bus_stop_request (id uuid : EndpointId) (tx : ChanId) : RegistrationRequest :=
  register_anycast_set (anycast (with_endpoint id listener)) uuid tx.
(** [handle.listener().endpoint(id).rpc().register::<T>()]. *)
Definition bus_depot_request (id uuid : EndpointId) (tx : ChanId) : RegistrationRequest :=
  register_no_cast_rpc (rpc (with_endpoint id listener)) uuid tx.

(** The methods of a [BusStop] or [BusDepot] that are called. *)
Inductive Callback := OnLoad | OnMessage | OnRequest | OnShutdown.

Section services.
Context `{Cd : Codec}.

(** A service that was asked for: what of it is called at once, and whether its loop runs. *)
Record Started := mkStarted { sv_called : list Callback; sv_serving : bool; sv_told : list RouterMsg }.

(** [bus_stop_service] up to its loop; a refused registration ends it with [on_shutdown]. *)
Definition bus_stop_service (id uuid : EndpointId) (tx : ChanId) (m : Meeting) : Started :=
  let '(res, told) := register_with (bus_stop_request id uuid tx) m in
  match res with
  | inl _ => mkStarted [OnShutdown] false told
  | inr _ => mkStarted [] true told
  end.

(** [add_bus_depot_with_endpoint] up to its loop. *)
Definition add_bus_depot_with_endpoint (id uuid : EndpointId) (tx : ChanId) (m : Meeting) : Started :=
  let '(res, told) := register_with (bus_depot_request id uuid tx) m in
  match res with
  | inl _ => mkStarted [] false told
  | inr _ => mkStarted [] true told
  end.
(** [add_bus_depot], with [T::ANYBUS_UUID]. *)
Definition add_bus_depot (uuid : EndpointId) (tx : ChanId) (m : Meeting) : Started :=
  add_bus_depot_with_endpoint uuid uuid tx m.

(** [remove_bus_stop], [remove_bus_depot]: [Ok], whatever runs. *)
Definition remove_bus_stop {Tasks : Type} (id : Uuid) (running : Tasks) : (AnyBusHandleError + unit) * Tasks :=
  (inr tt, running).
Definition remove_bus_depot {Tasks : Type} (id : EndpointId) (running : Tasks) : (AnyBusHandleError + unit) * Tasks :=
  (inr tt, running).

(** [From<T> for BusTicket]. *)
Definition ticket_of (rider : Rider) (uuid : Uuid) : BusTicket :=
  {| bt_rider := rider; bt_dest := mkEndpointId uuid |}.

(** [Drop for RequestHelper]. *)
Definition drop_helper (response_endpoint_id : EndpointId) : RouterMsg := unregister_endpoint response_endpoint_id.

(** * What it promises *)

(** A service serves exactly when its registration was granted; a bus stop that is refused is told,
    a depot is not, and neither is told that it was loaded. *)
Lemma service_starts id uuid tx m :
  (sv_serving (bus_stop_service id uuid tx m) = true <-> (register_with (bus_stop_request id uuid tx) m).1 = inr tt) /\
  (sv_serving (add_bus_depot_with_endpoint id uuid tx m) = true <->
     (register_with (bus_depot_request id uuid tx) m).1 = inr tt) /\
  (OnShutdown ∈ sv_called (bus_stop_service id uuid tx m) <-> sv_serving (bus_stop_service id uuid tx m) = false) /\
  sv_called (add_bus_depot_with_endpoint id uuid tx m) = [] /\ OnLoad ∉ sv_called (bus_stop_service id uuid tx m).
Proof.
  unfold bus_stop_service, add_bus_depot_with_endpoint.
  destruct (register_with (bus_stop_request _ _ _) _) as [[e1|[]] o1], (register_with (bus_depot_request _ _ _) _) as [[e2|[]] o2];
    simpl; split_and!; try done; set_solver.
Qed.

(** A bus stop listens as an anycast endpoint in every realm; a depot as a unicast one, whatever
    its endpoint. *)
Lemma service_requests id uuid tx :
  bus_stop_request id uuid tx = anycast_request id Global 0%N tx /\
  rr_endpoint_id (bus_depot_request id uuid tx) = id /\
  ei_kind (rr_endpoint_info (bus_depot_request id uuid tx)) = Unicast.
Proof. done. Qed.

(** Removing changes nothing. *)
Lemma removed_runs_on {Tasks : Type} id e (running : Tasks) :
  remove_bus_stop id running = (inr tt, running) /\ remove_bus_depot e running = (inr tt, running).
Proof. done. Qed.
End services.
