(* ===== verification/Network.v ===== *)
(** Several nodes joined by connections: every node forwards with its own table, and what it
    hands to a connection arrives, on some connection, at another node. The composition of
    [src/handle.rs], [forward_table.rs], [src/receivers] and the payload conversions: what sending
    and forwarding do hop by hop, and a request and its answer that both find their way. *)
From Stdlib Require Import Init.Byte Strings.String.
From S2P Require Import Prelude Types Messages World RouteTable Linkstate LsDb Fib Handle Receivers.

(** * Mailboxes seen through the log *)
Section inbox.
Context `{Cd : Codec}.

Definition client_message_to (tx : ChanId) (ev : Event) : option ClientMessage :=
  match delivered_client ev with
  | Some (tx', m) => if N.eqb tx tx' then Some m else None
  | None => None
  end.

(** What a listener's channel was given so far. *)
Definition inbox (tx : ChanId) (w : World) : list ClientMessage := omap (client_message_to tx) (w_log w).

(** What a handler added to the log. *)
Definition news (w w' : World) : list Event := drop (length (w_log w)) (w_log w').

Lemma news_app w w' evs : w_log w' = w_log w ++ evs -> news w w' = evs.
Proof. unfold news. intros ->. by rewrite drop_app_length. Qed.
End inbox.

(** * The network *)
Section network.
Context `{Cd : Codec} `{E : !Env}.

(** The published tables, and where a connection's channel leads: the node at the other end and
    the connection it is there. *)
Context (F : NodeId -> ForwardingTable) (dest : ChanId -> option (NodeId * ConnectionId)).

Definition flight : Type := NodeId * ConnectionId * WirePacket.

Record Net := mkNet { net_world : NodeId -> World; net_wire : list flight }.

Definition set_world (n : NodeId) (w : World) (W : NodeId -> World) : NodeId -> World :=
  fun m => if decide (m = n) then w else W m.

Definition departure (ev : Event) : option flight :=
  match delivered_node ev with
  | Some (tx, NmWirePacket p) => (fun '(n, c) => (n, c, p)) <$> dest tx
  | _ => None
  end.

(** A packet that is on its way arrives and is forwarded. *)
Inductive net_step : Net -> Net -> Prop :=
  | net_forward n c p W pre post :
      net_step (mkNet W (pre ++ (n, c, p) :: post))
        (mkNet (set_world n (fib_forward_packet (F n) p c (W n)) W)
           (pre ++ post ++ omap departure (news (W n) (fib_forward_packet (F n) p c (W n))))).

(** A local client hands a packet to its node. *)
Inductive net_send (n : NodeId) (packet : Packet) : Net -> SendError + unit -> Net -> Prop :=
  | net_sent W wire r w :
      fib_send (F n) packet (W n) = Returns (r, w) ->
      net_send n packet (mkNet W wire) r
        (mkNet (set_world n w W) (wire ++ omap departure (news (W n) w))).

Definition hop_chan (h : FibForwardTo) : ChanId :=
  match h with FwdLocal tx => tx | FwdRemote link => l_tx link end.

(** At node [n] the next hop for an address is [h], whose channel takes what it is given. *)
Definition hop_of (n : NodeId) (to : Address) (h : FibForwardTo) : Prop :=
  f_table (F n) !! get_endpoint to (f_our_id (F n)) = Some (Single h) /\
  forall w, env_try_send w (hop_chan h) = SendOk.

(** The way of a packet: it is accepted at every node, and handed on until a node delivers it. *)
Inductive carried (p : WirePacket) : NodeId -> ConnectionId -> NodeId -> ChanId -> Prop :=
  | carried_here n c tx :
      accepts_from (F n) p c = true -> hop_of n (wp_to p) (FwdLocal tx) ->
      carried p n c n tx
  | carried_on n c link m c' n' tx :
      accepts_from (F n) p c = true -> hop_of n (wp_to p) (FwdRemote link) ->
      back_path (F n) (wp_from p) link = false ->
      dest (l_tx link) = Some (m, c') -> carried p m c' n' tx ->
      carried p n c n' tx.

(** * One hop *)

Lemma forward_local n c p tx w :
  accepts_from (F n) p c = true -> hop_of n (wp_to p) (FwdLocal tx) ->
  fib_forward_packet (F n) p c w = log_event (EvClient tx (CmMessage (packet_of_wire p)) SendOk) w.
Proof.
  intros Ha [Hh Hok]. simpl in Hok. unfold fib_forward_packet. rewrite Ha, Hh. simpl.
  unfold tx_local, try_send_client. by rewrite Hok.
Qed.

Lemma forward_remote n c p link w :
  accepts_from (F n) p c = true -> hop_of n (wp_to p) (FwdRemote link) ->
  back_path (F n) (wp_from p) link = false ->
  fib_forward_packet (F n) p c w = log_event (EvNode (l_tx link) (NmWirePacket p) SendOk) w.
Proof.
  intros Ha [Hh Hok] Hb. simpl in Hok. unfold fib_forward_packet. rewrite Ha, Hh. simpl.
  unfold tx_remote, try_send_node. by rewrite Hb, Hok.
Qed.

Lemma news_log ev w : news w (log_event ev w) = [ev].
Proof. by apply news_app. Qed.

Lemma inbox_log tx ev w :
  inbox tx (log_event ev w) = inbox tx w ++ match client_message_to tx ev with Some m => [m] | None => [] end.
Proof. unfold inbox. simpl. rewrite omap_app. simpl. by destruct (client_message_to tx ev). Qed.

Lemma set_world_eq n w W : set_world n w W n = w.
Proof. unfold set_world. by rewrite decide_True. Qed.

Lemma set_world_ne n m w W : m <> n -> set_world n w W m = W m.
Proof. intros. unfold set_world. by rewrite decide_False. Qed.

(** What a packet handed to a connection becomes. *)
Lemma departs link p m c :
  dest (l_tx link) = Some (m, c) -> omap departure [EvNode (l_tx link) (NmWirePacket p) SendOk] = [(m, c, p)].
Proof. intros Hd. simpl. unfold departure. simpl. by rewrite Hd. Qed.

(** * Delivery *)

(** What changed: one more message in one mailbox. *)
Definition delivered (n : NodeId) (tx : ChanId) (m : ClientMessage) (W W' : NodeId -> World) : Prop :=
  forall n' tx', inbox tx' (W' n') = inbox tx' (W n') ++ (if decide (n' = n /\ tx' = tx) then [m] else []).

Lemma delivered_here n tx m W :
  delivered n tx m W (set_world n (log_event (EvClient tx m SendOk) (W n)) W).
Proof.
  intros n' tx'. destruct (decide (n' = n)) as [->|Hne].
  - rewrite set_world_eq, inbox_log. unfold client_message_to. simpl. f_equal.
    destruct (N.eqb_spec tx' tx) as [->|]; [by rewrite decide_True|]. rewrite decide_False; [done|naive_solver].
  - rewrite set_world_ne by done. rewrite decide_False by naive_solver. by rewrite app_nil_r.
Qed.

Lemma inbox_node tx n p link W n' :
  inbox tx (set_world n (log_event (EvNode (l_tx link) (NmWirePacket p) SendOk) (W n)) W n') = inbox tx (W n').
Proof.
  unfold set_world. destruct (decide (n' = n)) as [->|]; [|done]. rewrite inbox_log. apply app_nil_r.
Qed.

(** A packet on its way arrives, once, and nothing else happens. *)
Lemma carried_delivered p n c n' tx W :
  carried p n c n' tx ->
  exists W', rtc net_step (mkNet W [(n, c, p)]) (mkNet W' []) /\
    delivered n' tx (CmMessage (packet_of_wire p)) W W'.
Proof.
  intros Hc. revert W. induction Hc as [n c tx Ha Hh|n c link m c' n' tx Ha Hh Hb Hd Hc IH]; intros W.
  - eexists. split; [|apply delivered_here]. apply rtc_once.
    pose proof (net_forward n c p W [] []) as Hs. rewrite (forward_local _ _ _ _ _ Ha Hh), news_log in Hs. exact Hs.
  - pose proof (net_forward n c p W [] []) as Hs.
    rewrite (forward_remote _ _ _ _ _ Ha Hh Hb), news_log, (departs _ _ _ _ Hd) in Hs.
    destruct (IH (set_world n (log_event (EvNode (l_tx link) (NmWirePacket p) SendOk) (W n)) W)) as (W' & Hr & HW').
    exists W'. split; [by eapply rtc_l|]. intros n0 tx0. rewrite HW'. by rewrite inbox_node.
Qed.

(** A packet a client sends reaches the listener: directly when it is on this node, encoded and
    over the network otherwise. *)
Inductive arrives (n : NodeId) (packet : Packet) (n' : NodeId) (tx : ChanId) : Packet -> Prop :=
  | arrives_here :
      n' = n -> hop_of n (p_to packet) (FwdLocal tx) -> arrives n packet n' tx packet
  | arrives_there link wire m c :
      hop_of n (p_to packet) (FwdRemote link) -> wire_of_packet packet = Returns wire ->
      dest (l_tx link) = Some (m, c) -> carried wire m c n' tx ->
      arrives n packet n' tx (packet_of_wire wire).

Lemma arrives_delivered n packet n' tx got W :
  arrives n packet n' tx got ->
  exists net W', net_send n packet (mkNet W []) (inr tt) net /\ rtc net_step net (mkNet W' []) /\
    delivered n' tx (CmMessage got) W W'.
Proof.
  intros [-> Hh | link wire m c Hh Hw Hd Hc].
  - do 2 eexists. split; [|split; [|apply delivered_here]]; [|apply rtc_refl].
    pose proof (net_sent n packet W [] (inr tt) (log_event (EvClient tx (CmMessage packet) SendOk) (W n))) as Hs.
    rewrite news_log in Hs. apply Hs. destruct Hh as [Hh Hok]. simpl in Hok. unfold fib_send. rewrite Hh. unfold try_send_client.
    by rewrite Hok.
  - set (w := log_event (EvNode (l_tx link) (NmWirePacket wire) SendOk) (W n)).
    destruct (carried_delivered wire m c n' tx (set_world n w W) Hc) as (W' & Hr & HW').
    exists (mkNet (set_world n w W) [(m, c, wire)]), W'. split; [|split; [done|]].
    + pose proof (net_sent n packet W [] (inr tt) w) as Hs. unfold w in Hs at 3. rewrite news_log, (departs _ _ _ _ Hd) in Hs.
      apply Hs. destruct Hh as [Hh Hok]. simpl in Hok. unfold fib_send. rewrite Hh, Hw. simpl.
      unfold try_send_node. by rewrite Hok.
    + intros n0 tx0. rewrite HW'. unfold w. by rewrite inbox_node.
Qed.

(** * Remote procedure calls *)
Context `{!CodecLaws}.

(** The payload survives, whether it was encoded on the way or not. *)
Lemma reveal_rider r : reveal (type_of r) (PBusRider r) = Returns (inl r).
Proof. unfold reveal. by rewrite decide_True. Qed.

Lemma reveal_encoded r bs : encode r = Some bs -> reveal (type_of r) (PBytes bs) = Returns (inl r).
Proof. intros He. unfold reveal. by rewrite (decode_encode r bs He). Qed.

Lemma arrives_got n packet r n' tx got :
  p_payload packet = PBusRider r -> arrives n packet n' tx got ->
  p_to got = p_to packet /\ p_reply_to got = p_reply_to packet /\ p_from got = p_from packet /\
  reveal (type_of r) (p_payload got) = Returns (inl r).
Proof.
  intros Hp [-> _ | link wire m c _ Hw _ _]; [rewrite Hp; split_and!; try done; apply reveal_rider|].
  unfold wire_of_packet, payload_bytes, encode_payload in Hw. rewrite Hp in Hw.
  destruct (encode r) as [bs|] eqn:He; [|done]. injection Hw as <-. simpl. split_and!; try done.
  by apply reveal_encoded.
Qed.

(** The packet [RpcRequest::reply] sends. *)
Definition reply_packet (map : ForwardingTable) (to : Address) (response : Rider) : Packet :=
  mkPacket to None (f_our_id map) (PBusRider response).

(** A request and its answer that both find their way: the listener gets the request once, reads
    the value that was sent and where to answer, its reply arrives in the helper's mailbox once,
    the helper reads the value that was replied, and no other mailbox of the network changes.
    Which requests do is [RoundTrip.v]. *)
Lemma round_trip_arrives a b W response service srv cli r resp got got' :
  let request := request_packet (F a) response service r in
  let answer := reply_packet (F b) (AddrRemote response (f_our_id (F a))) resp in
  arrives a request b srv got -> arrives b answer a cli got' ->
  exists net1 W1 rq net2 W2,
    net_send a request (mkNet W []) (inr tt) net1 /\ rtc net_step net1 (mkNet W1 []) /\
    delivered b srv (CmMessage got) W W1 /\
    rpc_request_of (type_of r) got = Returns (inr rq) /\ fst (take_payload rq) = Some r /\
    (forall w, rpc_reply (F b) rq resp w = map_send_error (fib_send (F b) answer w)) /\
    net_send b answer (mkNet W1 []) (inr tt) net2 /\ rtc net_step net2 (mkNet W2 []) /\
    delivered a cli (CmMessage got') W1 W2 /\
    request_answer (type_of resp) (Some (CmMessage got')) = Returns (inr resp).
Proof.
  intros request answer Hreq Hans.
  destruct (arrives_delivered _ _ _ _ _ W Hreq) as (net1 & W1 & Hs1 & Hr1 & Hd1).
  destruct (arrives_delivered _ _ _ _ _ W1 Hans) as (net2 & W2 & Hs2 & Hr2 & Hd2).
  destruct (arrives_got a request r b srv got eq_refl Hreq) as (_ & Hto & _ & Hv1).
  destruct (arrives_got b answer resp a cli got' eq_refl Hans) as (_ & _ & _ & Hv2).
  exists net1, W1, (mkRpcRequest (AddrRemote response (f_our_id (F a))) (Some r)), net2, W2.
  split_and!; try done.
  - unfold rpc_request_of, reveal_or_error. rewrite Hto, Hv1. done.
  - unfold request_answer. by rewrite Hv2.
Qed.
End network.
