(* ===== verification/Delivery.v ===== *)
(** When the reverse-path check lets a packet through: the tables of nodes that share the same
    advertisements carry a packet all the way when cheapest paths are unique and symmetric. What
    happens otherwise is [ReversePath.v]. *)
From S2P Require Import Prelude Types Messages World RouteTable Linkstate Spf SpfProofs LsDb.
From S2P Require Import LsDbProofs LsDbTheorems Fib FibProofs Handle Receivers Network.

(** A table in force at node [v]: it was built from a database in good order whose router
    advertisements are the graph [g]. *)
Definition in_force `{Codec} `{!Env} (g : gmap NodeId (list Adjacency)) (v : NodeId) (d : LsDb)
    (fib : ForwardingTable) : Prop :=
  lsdb_inv d /\ d_self_id d = v /\
  exists w t, router_nodes d w = g /\ build_fib d w = Returns (t, fib).

Section tables.
Context `{Cd : Codec} `{E : !Env} `{!EnvLaws}.
Context (g : gmap NodeId (list Adjacency)) (v : NodeId) (d : LsDb) (fib : ForwardingTable).
Hypothesis force : in_force g v d fib.

(** What the table holds, in terms of the search it was built with. *)
Lemma table_fields : exists w t st,
  spf_run v (link_values d w) g = SpfDone st /\ covered v (link_values d w) g /\
  f_our_id fib = v /\ f_next_hop fib = sp_next_hop st /\ d_next_hop t = sp_next_hop st /\
  forall e, f_table fib !! e =
    match d_routes d !! e with
    | None => None
    | Some en => match fib_entry_of t en w with Returns o => o | Panics => None end
    end.
Proof.
  destruct force as (I & Hv & w & t & Hg & Hb). unfold build_fib in Hb.
  destruct (compute_spf (d_self_id d) d w) as [d'|] eqn:Hspf; simpl in Hb; [|done].
  destruct (build_from_db (set_rebuild None d') w) as [f|] eqn:Hf; simpl in Hb; [|done].
  injection Hb as <- <-. destruct (compute_spf_run _ _ _ Hspf) as (st & Hst & ->).
  pose proof (inv_covered _ w (i_db _ I)) as Hcov. apply build_from_db_spec in Hf as (H1 & _ & H3 & H4).
  rewrite Hg, Hv in Hst, Hcov. simpl in H1, H3, H4. rewrite Hv in H1.
  exists w, (set_rebuild None (set_spf (sp_next_hop st) (sp_cost st) (sp_parent st) d)), st.
  split_and!; done.
Qed.

Lemma table_self : f_our_id fib = v.
Proof. by destruct table_fields as (w & t & st & _ & _ & ? & _). Qed.

(** The next hop of a node within reach. *)
Lemma table_hop n dist :
  shortest g v n dist -> (dist < cost_max)%N -> n <> v ->
  exists link w r, f_next_hop fib !! n = Some link /\
    d_links d !! l_connection_id link = Some link /\
    edge g v (l_peer_id link) w /\ shortest g (l_peer_id link) n r /\ dist = (w + r)%N.
Proof.
  intros Hs Hd Hne. destruct table_fields as (w0 & t & st & Hst & Hcov & _ & -> & _).
  destruct (next_hop_shortest _ _ _ _ _ _ Hcov Hst Hs Hd Hne) as (link & w & r & Hl & Hin & He & Hr & Heq).
  exists link, w, r. split_and!; try done. apply elem_of_link_values in Hin as [c Hc].
  by rewrite (i_links _ (proj1 force) c link Hc).
Qed.

(** A next hop starts a cheapest path. *)
Lemma hop_distance n link :
  f_next_hop fib !! n = Some link -> exists dist w r,
    shortest g v n dist /\ (dist < cost_max)%N /\ n <> v /\ d_links d !! l_connection_id link = Some link /\
    edge g v (l_peer_id link) w /\ shortest g (l_peer_id link) n r /\ dist = (w + r)%N.
Proof.
  intros Hl. assert (Hs : exists dist, shortest g v n dist /\ (dist < cost_max)%N /\ n <> v).
  { destruct table_fields as (w0 & t & st & Hst & _ & _ & Hn & _). rewrite Hn in Hl.
    destruct (spf_next_hop_known _ _ _ _ _ _ Hst Hl) as (Hne & Hlt & _). exists (cost_of st n).
    split; [|done]. split; [by eapply spf_sound|]. intros c Hc.
    pose proof (spf_complete _ _ _ _ Hst n c Hc). nlia. }
  destruct Hs as (dist & Hs & Hd & Hne). destruct (table_hop n dist Hs Hd Hne) as (link' & w & r & Hl' & ? & ? & ? & ?).
  rewrite Hl' in Hl. injection Hl as ->. by exists dist, w, r.
Qed.

(** The entry of an endpoint with one route. *)
Lemma single_route e route kind :
  kind = Unicast \/ kind = Node -> d_routes d !! e = Some (mkLsRouteEntry [route] kind) ->
  f_table fib !! e = Single <$> match r_via route with
    | Local sender => Some (FwdLocal sender)
    | Remote n => FwdRemote <$> f_next_hop fib !! n
    end.
Proof.
  intros Hk Hr. destruct table_fields as (w & t & st & _ & _ & _ & -> & Hn & ->). rewrite Hr.
  unfold fib_entry_of. simpl. destruct Hk as [-> | ->]; rewrite unicast_entry_singleton; unfold fib_forward;
    by rewrite Hn; destruct (r_via route).
Qed.

(** Remote hops of an entry are next hops. *)
Lemma table_remotes e fe link :
  f_table fib !! e = Some fe -> link ∈ remotes fe -> exists n, f_next_hop fib !! n = Some link.
Proof.
  intros Hfe Hin. destruct table_fields as (w & t & st & _ & _ & _ & -> & Hn & Ht). rewrite Ht in Hfe.
  destruct (d_routes d !! e) as [en|]; [|done]. destruct (fib_entry_of t en w) as [o|] eqn:Ho; [|done].
  subst o. rewrite <- Hn. by eapply fib_entry_remotes.
Qed.
End tables.

Section delivery.
Context `{Cd : Codec} `{E : !Env} `{!EnvLaws}.
Context (dest : ChanId -> option (NodeId * ConnectionId)).
Context (g : gmap NodeId (list Adjacency)).
Context (dbs : NodeId -> LsDb) (F : NodeId -> ForwardingTable).

(** Every node published its table from the same advertisements. *)
Hypothesis same_view : forall v, in_force g v (dbs v) (F v).

(** Adjacencies cost something and are mutual, and no two neighbours tie. *)
Hypothesis costs_positive : forall u v c, edge g u v c -> (0 < c)%N.
Hypothesis symmetric : forall u v c, edge g u v c -> edge g v u c.
Hypothesis no_ties : forall u n v1 c1 r1 v2 c2 r2,
  shortest g u n (c1 + r1) -> (c1 + r1 = c2 + r2)%N ->
  edge g u v1 c1 -> shortest g v1 n r1 -> edge g u v2 c2 -> shortest g v2 n r2 -> v1 = v2.

(** A node has one link to a neighbour, its channel takes what it is given and leads to the
    neighbour's link back. *)
Definition good_links : Prop := forall v c link, d_links (dbs v) !! c = Some link ->
  (forall w, env_try_send w (l_tx link) = SendOk) /\
  (forall c' link', d_links (dbs v) !! c' = Some link' -> l_peer_id link' = l_peer_id link -> link' = link) /\
  exists c' back, dest (l_tx link) = Some (l_peer_id link, c') /\
    d_links (dbs (l_peer_id link)) !! c' = Some back /\ l_peer_id back = v.
Hypothesis links_good : good_links.

(** * Paths backwards *)
Lemma path_rev u v c : path g u v c -> path g v u c.
Proof.
  induction 1 as [u|u x v c w _ IH Hxv]; [constructor|]. rewrite N.add_comm.
  eapply path_cons; [by apply symmetric | done].
Qed.

Lemma shortest_rev u v d : shortest g u v d -> shortest g v u d.
Proof. intros [Hp Hmin]. split; [by apply path_rev|]. intros c Hc. apply Hmin. by apply path_rev. Qed.

Lemma shortest_eq u v d d' : shortest g u v d -> shortest g u v d' -> d = d'.
Proof. intros [Hp Hm] [Hp' Hm']. specialize (Hm _ Hp'). specialize (Hm' _ Hp). lia. Qed.

Lemma shortest_self u : shortest g u u 0.
Proof. split; [constructor | lia]. Qed.

(** A neighbour on a cheapest path is itself reached by a cheapest path. *)
Lemma shortest_prefix a v m n da w r :
  shortest g a v da -> edge g v m w -> shortest g m n r -> shortest g a n (da + (w + r)) ->
  shortest g a m (da + w).
Proof.
  intros [Ha _] Hw [Hm _] [_ Hmin]. split; [by eapply path_snoc|]. intros c Hc.
  specialize (Hmin _ (path_app _ _ _ _ _ _ Hc Hm)). lia.
Qed.

(** * The way of a packet *)
Section way.
Context (a n : NodeId) (to : Address) (tx : ChanId) (D : N).
Hypothesis within_reach : shortest g a n D /\ (D < cost_max)%N.

(** On the cheapest path from [a] the address leads to [n], and at [n] to the listener. *)
Hypothesis heads_for : forall v da d, shortest g a v da -> shortest g v n d -> D = (da + d)%N ->
  f_table (F v) !! get_endpoint to v = Single <$>
    (if decide (v = n) then Some (FwdLocal tx) else FwdRemote <$> f_next_hop (F v) !! n).
Hypothesis listener_open : forall w, env_try_send w tx = SendOk.

(** On its way from [v] to [m], the packet is accepted at [m]. *)
Lemma accepted v m link p c da w r :
  shortest g a v da -> edge g v m w -> shortest g m n r -> D = (da + (w + r))%N ->
  d_links (dbs v) !! l_connection_id link = Some link -> l_peer_id link = m ->
  dest (l_tx link) = Some (m, c) -> wp_from p = a ->
  accepts_from (F m) p c = true /\
  (forall out w2 r2, edge g m (l_peer_id out) w2 -> shortest g (l_peer_id out) n r2 -> r = (w2 + r2)%N ->
     back_path (F m) a out = false).
Proof.
  intros Ha Hw Hm HD Hl Hpeer Hdest Hfrom. destruct within_reach as [HaD HDmax].
  rewrite HD in HaD. pose proof (shortest_prefix _ _ _ _ _ _ _ Ha Hw Hm HaD) as Ham.
  pose proof (costs_positive _ _ _ Hw) as Hwpos.
  assert (Hne : a <> m).
  { intros ->. assert (Hmm : shortest g m m 0) by (split; [constructor | lia]).
    pose proof (shortest_eq _ _ _ _ Ham Hmm). lia. }
  destruct (table_hop g m _ _ (same_view m) a (da + w)) as (lm & w1 & r1 & Hnh & Hlm & He1 & Hr1 & Heq1);
    [by apply shortest_rev|lia|done|].
  assert (Hv : l_peer_id lm = v).
  { apply (no_ties m a (l_peer_id lm) w1 r1 v w da); try done; [| lia| |].
    - rewrite <- Heq1. by apply shortest_rev.
    - by apply symmetric.
    - by apply shortest_rev. }
  destruct (links_good _ _ _ Hl) as (_ & _ & c' & back & Hd & Hback & Hbv). rewrite Hpeer in Hd, Hback.
  rewrite Hdest in Hd. injection Hd as <-.
  destruct (links_good _ _ _ Hlm) as (_ & Hone & _).
  pose proof (Hone _ _ Hback ltac:(congruence)) as ->.
  destruct (same_view m) as (I & _). pose proof (i_links _ I _ _ Hback) as Hc. simpl in Hc.
  pose proof (table_self g m _ _ (same_view m)) as Hid. split.
  - unfold accepts_from. rewrite Hid, Hfrom, decide_False, Hnh by done. apply N.eqb_eq. done.
  - intros out w2 r2 He2 Hr2 Hr. unfold back_path. rewrite Hnh, Hv. apply bool_decide_eq_false_2.
    intros Hout. subst r. rewrite <- Hout in Hr2.
    destruct HaD as [_ Hmin]. specialize (Hmin _ (path_app _ _ _ _ _ _ (proj1 Ha) (proj1 Hr2))). lia.
Qed.

(** From any node on the way the packet is carried to the listener. *)
Lemma carried_along p : forall d v m link c da w r,
  (r <= d)%N -> shortest g a v da -> edge g v m w -> shortest g m n r -> D = (da + (w + r))%N ->
  d_links (dbs v) !! l_connection_id link = Some link -> l_peer_id link = m ->
  dest (l_tx link) = Some (m, c) -> wp_from p = a -> wp_to p = to ->
  carried F dest p m c n tx.
Proof.
  intros d. induction d as [d IH] using (well_founded_induction N.lt_wf_0).
  intros v m link c da w r Hd Ha Hw Hm HD Hl Hpeer Hdest Hfrom Hto.
  destruct (accepted v m link p c da w r Ha Hw Hm HD Hl Hpeer Hdest Hfrom) as [Hacc Hback].
  assert (Ham : shortest g a m (da + w)).
  { eapply shortest_prefix; [done..|]. rewrite <- HD. apply within_reach. }
  pose proof (table_self g m _ _ (same_view m)) as Hid. pose proof (heads_for m _ r Ham Hm ltac:(lia)) as Hh.
  destruct (decide (m = n)) as [->|Hne].
  - apply carried_here; [done|]. split; [|done]. by rewrite Hto, Hid, Hh.
  - destruct within_reach as [_ HDmax].
    destruct (table_hop g m _ _ (same_view m) n r Hm) as (out & w2 & r2 & Hout & Hlout & He2 & Hr2 & Hr); [lia|done|].
    destruct (links_good _ _ _ Hlout) as (Hok & _ & c' & back & Hd' & _).
    pose proof (costs_positive _ _ _ He2).
    eapply (carried_on F dest p m c out (l_peer_id out) c'); [done| |rewrite Hfrom; by eapply Hback|done|].
    + split; [|done]. by rewrite Hto, Hid, Hh, Hout.
    + apply (IH r2) with (v := m) (link := out) (da := (da + w)%N) (w := w2) (r := r2); try done; lia.
Qed.

Lemma packet_arrives packet wire :
  p_from packet = a -> p_to packet = to -> wire_of_packet packet = Returns wire ->
  arrives F dest a packet n tx (if decide (a = n) then packet else packet_of_wire wire).
Proof.
  intros Hfrom Hto Hwire. pose proof (table_self g a _ _ (same_view a)) as Hid.
  destruct within_reach as [HaD HDmax]. pose proof (heads_for a 0%N D (shortest_self a) HaD eq_refl) as Hh.
  destruct (decide (a = n)) as [Han|Han].
  { apply arrives_here; [done|]. split; [|done]. by rewrite Hto, Hid, Hh. }
  destruct (table_hop g a _ _ (same_view a) n D HaD HDmax ltac:(done)) as (link & w & r & Hl & Hlk & He & Hr & HD).
  destruct (links_good _ _ _ Hlk) as (Hok & _ & c' & back & Hd & _).
  eapply (arrives_there F dest a packet n tx link wire (l_peer_id link) c'); [|done|done|].
  - split; [|done]. by rewrite Hto, Hid, Hh, Hl.
  - unfold wire_of_packet in Hwire. destruct (payload_bytes _) as [b|]; simpl in Hwire; [|done].
    injection Hwire as <-.
    eapply (carried_along _ r a (l_peer_id link) link c' 0%N w r); try done. apply shortest_self.
Qed.
End way.

(** * An address with one listener *)
Context (a n : NodeId) (to : Address) (tx : ChanId) (D : N).
Hypothesis within_reach : shortest g a n D /\ (D < cost_max)%N.

(** The address has one route at every node that is no farther from [n]: through [n], and at [n]
    the listener's. *)
Hypothesis one_route : forall v d, shortest g v n d -> (d <= D)%N -> exists route kind, (kind = Unicast \/ kind = Node) /\
  d_routes (dbs v) !! get_endpoint to v = Some (mkLsRouteEntry [route] kind) /\
  r_via route = if decide (v = n) then Local tx else Remote n.
Hypothesis listener_open : forall w, env_try_send w tx = SendOk.

Lemma one_route_heads v da d : shortest g a v da -> shortest g v n d -> D = (da + d)%N ->
  f_table (F v) !! get_endpoint to v = Single <$>
    (if decide (v = n) then Some (FwdLocal tx) else FwdRemote <$> f_next_hop (F v) !! n).
Proof.
  intros _ Hs HD. destruct (one_route v d Hs ltac:(lia)) as (route & kind & Hk & Hr & Hvia).
  rewrite (single_route g v (dbs v) (F v) (same_view v) _ route kind Hk Hr), Hvia. by destruct (decide (v = n)).
Qed.

Lemma unicast_arrives packet wire :
  p_from packet = a -> p_to packet = to -> wire_of_packet packet = Returns wire ->
  arrives F dest a packet n tx (if decide (a = n) then packet else packet_of_wire wire).
Proof. by apply (packet_arrives a n to tx D within_reach one_route_heads). Qed.

(** C2: with unique, symmetric cheapest paths nothing is lost: when every node published its
    table from the same advertisements, a packet a client hands to its node is delivered, once
    and to no one else, to the one listener of its address on any node within reach, over
    however many nodes lie between. The reverse-path check accepts it at every one of them. *)
Theorem unique_paths_deliver packet wire W :
  p_from packet = a -> p_to packet = to -> wire_of_packet packet = Returns wire ->
  exists got net W', net_send F dest a packet (mkNet W []) (inr tt) net /\
    rtc (net_step F dest) net (mkNet W' []) /\ delivered n tx (CmMessage got) W W' /\
    got = if decide (a = n) then packet else packet_of_wire wire.
Proof.
  intros Hfrom Hto Hwire. pose proof (unicast_arrives packet wire Hfrom Hto Hwire) as Har.
  destruct (arrives_delivered F dest _ _ _ _ _ W Har) as (net & W' & ? & ? & ?). by do 3 eexists.
Qed.
End delivery.
