(* ===== verification/Nearest.v ===== *)
(** An anycast address in a network: packets from anywhere reach the nearest listener, wherever it
    is. [forward_table.rs] chooses at every node anew; that the choices agree along the way is
    what is proved here, on top of the deliveries of [Delivery.v]. *)
From Stdlib Require Import Strings.String.
From S2P Require Import Prelude Types Messages World RouteTable Linkstate Spf SpfProofs LsDb.
From S2P Require Import LsDbProofs LsDbTheorems Fib FibProofs Network Delivery.

(** * One node *)
Section table.
Context `{Cd : Codec} `{E : !Env} `{!EnvLaws}.
Context (g : gmap NodeId (list Adjacency)) (v : NodeId) (d : LsDb) (fib : ForwardingTable).
Hypothesis force : in_force g v d fib.

(** The hop for a route: its listener, or the next hop to its node. *)
Definition hop_for (route : LsRoute) : option FibForwardTo :=
  match r_via route with
  | Local sender => Some (FwdLocal sender)
  | Remote n => FwdRemote <$> f_next_hop fib !! n
  end.

(** A route that is nearer than every route that leads elsewhere is the one that is used. *)
Lemma nearest_route e en route t :
  d_routes d !! e = Some en -> re_kind en = Anycast -> route ∈ re_routes en -> distance g v route t ->
  (forall other t', other ∈ re_routes en -> distance g v other t' -> (t' <= t)%N -> r_via other = r_via route) ->
  f_table fib !! e = Single <$> hop_for route.
Proof.
  intros He Hk Hin Ht Hleast. destruct force as (I & Hv & w & d' & Hg & Hb).
  pose proof (anycast_goes_to_nearest d w d' fib e en I Hb He Hk) as Hn. rewrite Hg, Hv in Hn.
  destruct (f_table fib !! e) as [fe|]; [|by destruct (Hn route t Hin Ht)].
  destruct Hn as (best & t' & h & -> & Hbest & Hh & Hd & Hmin). specialize (Hmin route t Hin Ht).
  pose proof (Hleast best t' Hbest Hd Hmin) as Hvia. revert Hh. unfold fib_forward, hop_for. rewrite Hvia.
  unfold build_fib in Hb. destruct (compute_spf _ d w) as [d1|]; [|done]. cbn [outcome_bind] in Hb.
  destruct (build_from_db _ w) as [f|] eqn:Hf; [|done]. injection Hb as <- <-.
  apply build_from_db_spec in Hf as (_ & _ & -> & _). simpl. destruct (r_via route) as [s|m]; [by intros [= <-]|].
  destruct (d_next_hop d1 !! m); [|done]. by intros [= <-].
Qed.
End table.

(** * The network *)
Section network.
Context `{Cd : Codec} `{E : !Env} `{!EnvLaws}.
Context (dest : ChanId -> option (NodeId * ConnectionId)).
Context (g : gmap NodeId (list Adjacency)) (dbs : NodeId -> LsDb) (F : NodeId -> ForwardingTable).
Hypothesis same_view : forall v, in_force g v (dbs v) (F v).
Hypothesis costs_positive : forall u v c, edge g u v c -> (0 < c)%N.
Hypothesis symmetric : forall u v c, edge g u v c -> edge g v u c.
Hypothesis no_ties : forall u n v1 c1 r1 v2 c2 r2,
  shortest g u n (c1 + r1) -> (c1 + r1 = c2 + r2)%N ->
  edge g u v1 c1 -> shortest g v1 n r1 -> edge g u v2 c2 -> shortest g v2 n r2 -> v1 = v2.
Hypothesis links_good : good_links dest dbs.

(** The listeners of the endpoint [e], with their costs; the nodes know of nothing else. *)
Context (e : EndpointId) (listener : NodeId -> ChanId -> Cost -> Prop).
Definition truthful (v : NodeId) (route : LsRoute) : Prop :=
  match r_via route with
  | Local sender => listener v sender (r_cost route)
  | Remote n => n <> v /\ exists sender, listener n sender (r_cost route)
  end.

(** The listener [tx] of the node [n] is strictly nearest to [a], counting its own cost, and every
    node knows of it. *)
Context (a n : NodeId) (tx : ChanId) (c : Cost) (D : N).
Hypothesis within_reach : shortest g a n D /\ (c + D < cost_max)%N.
Hypothesis nearest : forall n' tx' c' p,
  listener n' tx' c' -> path g a n' p -> n' = n /\ tx' = tx /\ c' = c \/ (c + D < c' + p)%N.
Hypothesis entries : forall v, exists en, d_routes (dbs v) !! e = Some en /\ re_kind en = Anycast /\
  (forall route, route ∈ re_routes en -> truthful v route) /\
  exists route, route ∈ re_routes en /\ r_cost route = c /\ r_via route = if decide (v = n) then Local tx else Remote n.
Hypothesis listener_open : forall w, env_try_send w tx = SendOk.

(** Seen from a node on the way, what is nearest to [a] is still nearest. *)
Lemma nearest_on_the_way v da d route t :
  path g a v da -> shortest g v n d -> D = (da + d)%N -> truthful v route -> distance g v route t ->
  (t <= c + d)%N -> r_via route = if decide (v = n) then Local tx else Remote n.
Proof.
  intros Ha Hs HD Htrue Hdist Hle. destruct within_reach as [_ Hmax]. revert Htrue Hdist. unfold truthful, distance.
  destruct (r_via route) as [sender|n'].
  - intros Hl ->. destruct (nearest v sender _ da Hl Ha) as [(-> & -> & _)|Hlt]; [by rewrite decide_True|]. exfalso. lia.
  - intros [Hne (sender & Hl)] (_ & p & [Hp _] & _ & ->).
    destruct (nearest n' sender _ _ Hl (path_app _ _ _ _ _ _ Ha Hp)) as [(-> & _ & _)|Hlt].
    + by rewrite decide_False by done.
    + exfalso. revert Hle. unfold cost_add, u16_saturating_add, cost_max, u16_max in *. nlia.
Qed.

Lemma anycast_heads v da d :
  shortest g a v da -> shortest g v n d -> D = (da + d)%N ->
  f_table (F v) !! e = Single <$> (if decide (v = n) then Some (FwdLocal tx) else FwdRemote <$> f_next_hop (F v) !! n).
Proof.
  intros Ha Hs HD. destruct within_reach as [_ Hmax]. destruct (entries v) as (en & He & Hk & Htrue & route & Hin & Hc & Hvia).
  rewrite (nearest_route g v (dbs v) (F v) (same_view v) e en route (c + d)%N He Hk Hin).
  - unfold hop_for. rewrite Hvia. by destruct (decide (v = n)).
  - unfold distance. rewrite Hvia. destruct (decide (v = n)) as [->|Hne].
    + rewrite Hc. assert (d = 0%N) as -> by (eapply shortest_eq; [exact Hs | apply shortest_self]). lia.
    + split; [done|]. exists d. split; [done|]. split; [lia|].
      rewrite Hc. unfold cost_add, u16_saturating_add, cost_max, u16_max in *. lia.
  - intros other t' Hother Ht' Hle. rewrite Hvia. eapply (nearest_on_the_way v da d other t'); try done; [apply Ha|by apply Htrue].
Qed.

(** C3: an anycast packet goes to the nearest listener: in a network with unique symmetric cheapest
    paths whose nodes published their tables from the same advertisements, a packet a client hands
    to its node is delivered, once and to no one else, to the listener whose own cost plus the cost
    of the path to its node is least, although every node on the way chooses for itself. *)
Theorem anycast_reaches_nearest packet wire W :
  p_from packet = a -> p_to packet = AddrEndpoint e -> wire_of_packet packet = Returns wire ->
  exists got net W', net_send F dest a packet (mkNet W []) (inr tt) net /\
    rtc (net_step F dest) net (mkNet W' []) /\ delivered n tx (CmMessage got) W W' /\
    got = if decide (a = n) then packet else packet_of_wire wire.
Proof.
  intros Hfrom Hto Hwire. destruct within_reach as [Hs Hmax]. assert (HD : (D < cost_max)%N) by nlia.
  pose proof (packet_arrives dest g dbs F same_view costs_positive symmetric no_ties links_good a n (AddrEndpoint e) tx D
    (conj Hs HD) anycast_heads listener_open packet wire Hfrom Hto Hwire) as Har.
  destruct (arrives_delivered F dest _ _ _ _ _ W Har) as (net & W' & ? & ? & ?). by do 3 eexists.
Qed.
End network.
