(* ===== verification/RoundTrip.v ===== *)
(** Remote procedure calls over a network ([src/handle.rs], [src/receivers],
    [forward_table.rs]): the request of a client finds the one listener of a service, the answer
    sent to the address the request names finds the client's helper, and the helper makes of its
    mailbox what [request] makes of it. *)
From S2P Require Import Prelude Types Messages World RouteTable Linkstate Spf SpfProofs LsDb.
From S2P Require Import LsDbProofs LsDbTheorems Fib FibProofs Handle Receivers Network Delivery.

Section sends.
Context `{Cd : Codec} `{E : !Env}.
Context (F : NodeId -> ForwardingTable) (dest : ChanId -> option (NodeId * ConnectionId)).

(** What a node does that hands a packet to its table. *)
Lemma net_send_does n packet W net :
  net_send F dest n packet (mkNet W []) (inr tt) net ->
  fib_send (F n) packet (W n) = Returns (inr tt, net_world net n).
Proof. inversion 1; subst. simpl. by rewrite set_world_eq. Qed.

(** [request] of a helper whose packet is sent: the first message of its mailbox is taken for
    the answer. *)
Lemma request_takes T n response to payload queue arrivals W net :
  net_send F dest n (request_packet (F n) response to payload) (mkNet W []) (inr tt) net ->
  request T (F n) response to payload queue arrivals (W n) =
    outcome_bind (request_answer T (head (queue ++ arrivals))) (fun r =>
      Returns (r, tail (queue ++ arrivals), net_world net n)).
Proof. intros Hs. unfold request, request_send. by rewrite (net_send_does _ _ _ _ Hs). Qed.
End sends.

Section round_trip.
Context `{Cd : Codec} `{E : !Env} `{!EnvLaws} `{!CodecLaws}.
Context (dest : ChanId -> option (NodeId * ConnectionId)).
Context (g : gmap NodeId (list Adjacency)).
Context (dbs : NodeId -> LsDb) (F : NodeId -> ForwardingTable).

(** The network, as in [Delivery.v]: the tables were published from the same advertisements,
    adjacencies cost something and are mutual, no two neighbours tie, and the links are good. *)
Hypothesis same_view : forall v, in_force g v (dbs v) (F v).
Hypothesis costs_positive : forall u v c, edge g u v c -> (0 < c)%N.
Hypothesis symmetric : forall u v c, edge g u v c -> edge g v u c.
Hypothesis no_ties : forall u n v1 c1 r1 v2 c2 r2,
  shortest g u n (c1 + r1) -> (c1 + r1 = c2 + r2)%N ->
  edge g u v1 c1 -> shortest g v1 n r1 -> edge g u v2 c2 -> shortest g v2 n r2 -> v1 = v2.
Hypothesis links_good : good_links dest dbs.

(** The client on [a] and the service on [b], within reach of each other. *)
Context (a b : NodeId) (D : N).
Hypothesis within_reach : shortest g a b D /\ (D < cost_max)%N.

(** The service has one listener, on [b], and every node that is no farther from [b] knows it. *)
Context (service : EndpointId) (srv : ChanId).
Hypothesis service_route : forall v d, shortest g v b d -> (d <= D)%N ->
  exists route kind, (kind = Unicast \/ kind = Node) /\
    d_routes (dbs v) !! service = Some (mkLsRouteEntry [route] kind) /\
    r_via route = if decide (v = b) then Local srv else Remote b.
Hypothesis service_open : forall w, env_try_send w srv = SendOk.

(** The helper's endpoint has one listener on [a], its channel; the other nodes that are no
    farther from [a] know the way to [a] itself. *)
Context (response : EndpointId) (cli : ChanId).
Hypothesis helper_route : forall v d, shortest g v a d -> (d <= D)%N ->
  exists route kind, (kind = Unicast \/ kind = Node) /\
    d_routes (dbs v) !! get_endpoint (AddrRemote response a) v = Some (mkLsRouteEntry [route] kind) /\
    r_via route = if decide (v = a) then Local cli else Remote a.
Hypothesis helper_open : forall w, env_try_send w cli = SendOk.

(** What a helper makes of an answer when others wait before it. *)
Definition answered (resp : Rider) (m : ClientMessage) (queue : list ClientMessage) (w : World)
    : Outcome ((AnyBusHandleError + Rider) * list ClientMessage * World) :=
  match queue with
  | [] => Returns (inr resp, [], w)
  | stale :: rest => outcome_bind (request_answer (type_of resp) (Some stale)) (fun r => Returns (r, rest ++ [m], w))
  end.

(** C11: a remote procedure call comes full circle, over any number of nodes: when every node
    published its table from the same advertisements and cheapest paths are unique and symmetric,
    the request of a client on [a] is delivered, once and to no one else, to the service's one
    listener on [b]; it reads the value that was sent and replies to the address the request
    names; the reply is delivered, once and to no one else, to the helper of the client; and
    [request], started with an empty mailbox, returns the value that was replied. A helper whose
    mailbox still holds an older message returns what that one says and leaves the answer. *)
Theorem rpc_round_trip W r resp :
  is_Some (encode r) -> is_Some (encode resp) ->
  let request_out := request_packet (F a) response service r in
  let answer := reply_packet (F b) (AddrRemote response a) resp in
  exists net1 W1 got rq net2 W2 got',
    net_send F dest a request_out (mkNet W []) (inr tt) net1 /\ rtc (net_step F dest) net1 (mkNet W1 []) /\
    delivered b srv (CmMessage got) W W1 /\
    rpc_request_of (type_of r) got = Returns (inr rq) /\ fst (take_payload rq) = Some r /\
    net_send F dest b answer (mkNet W1 []) (inr tt) net2 /\ rtc (net_step F dest) net2 (mkNet W2 []) /\
    rpc_reply (F b) rq resp (W1 b) = Returns (inr tt, net_world net2 b) /\
    delivered a cli (CmMessage got') W1 W2 /\
    forall queue, request (type_of resp) (F a) response service r queue [CmMessage got'] (W a) =
      answered resp (CmMessage got') queue (net_world net1 a).
Proof.
  intros [bs Hbs] [bs' Hbs'] request_out answer.
  pose proof (table_self g a _ _ (same_view a)) as Ha. pose proof (table_self g b _ _ (same_view b)) as Hb.
  assert (Hrev : shortest g b a D /\ (D < cost_max)%N).
  { split; [|apply within_reach]. exact (shortest_rev g symmetric _ _ _ (proj1 within_reach)). }
  assert (Hwire : forall to reply from rider bytes, encode rider = Some bytes ->
    wire_of_packet (mkPacket to reply from (PBusRider rider)) = Returns (mkWirePacket to reply from bytes)).
  { intros to reply from rider bytes He. unfold wire_of_packet, payload_bytes, encode_payload. simpl. by rewrite He. }
  pose proof (unicast_arrives dest g dbs F same_view costs_positive symmetric no_ties links_good a b
    (AddrEndpoint service) srv D within_reach service_route service_open request_out _ Ha eq_refl
    (Hwire _ _ _ _ _ Hbs)) as Hreq.
  pose proof (unicast_arrives dest g dbs F same_view costs_positive symmetric no_ties links_good b a
    (AddrRemote response a) cli D Hrev helper_route helper_open answer _ Hb eq_refl
    (Hwire _ _ _ _ _ Hbs')) as Hans.
  assert (Hans' : arrives F dest b (reply_packet (F b) (AddrRemote response (f_our_id (F a))) resp) a cli
    (if decide (b = a) then answer else packet_of_wire (mkWirePacket (AddrRemote response a) None (f_our_id (F b)) bs')))
    by by rewrite Ha.
  destruct (round_trip_arrives F dest a b W response service srv cli r resp _ _ Hreq Hans')
    as (net1 & W1 & rq & net2 & W2 & Hs1 & Hr1 & Hd1 & Hrq & Hval & Hreply & Hs2 & Hr2 & Hd2 & Hv).
  rewrite Ha in Hs2, Hreply. do 7 eexists. split_and!; try done.
  - rewrite Hreply, (net_send_does F dest _ _ _ _ Hs2). done.
  - intros queue. rewrite (request_takes F dest _ _ _ _ _ _ _ _ _ Hs1). destruct queue as [|m rest]; [|done].
    cbn [app head tail answered]. by rewrite Hv.
Qed.
End round_trip.
