(* ===== verification/ReversePath.v ===== *)
(** What the reverse-path check of [ForwardingTable::forward_packet] does to a unicast packet in
    a network whose cheapest paths may tie: the next hops of the nodes between decide one way of
    the packet, and it arrives exactly when every node on that way would itself go back the same
    way. *)
From S2P Require Import Prelude Types Messages World RouteTable Linkstate Spf SpfProofs LsDb.
From S2P Require Import LsDbProofs LsDbTheorems Fib FibProofs Handle Receivers Network Delivery.

Section reverse.
Context `{Cd : Codec} `{E : !Env} `{!EnvLaws}.
Context (dest : ChanId -> option (NodeId * ConnectionId)).
Context (g : gmap NodeId (list Adjacency)).
Context (dbs : NodeId -> LsDb) (F : NodeId -> ForwardingTable).

(** Every node published its table from the same advertisements, adjacencies cost something, a
    node has one link to a neighbour and it leads to the neighbour's link back. Paths may tie and
    may be cheaper one way than the other. *)
Hypothesis same_view : forall v, in_force g v (dbs v) (F v).
Hypothesis costs_positive : forall u v c, edge g u v c -> (0 < c)%N.
Hypothesis links_good : good_links dest dbs.

(** * Runs with one packet *)

(** Every run from [net] goes on to [fin], where nothing is on its way. *)
Definition ends_in (net fin : Net) : Prop :=
  net_wire fin = [] /\ rtc (net_step F dest) net fin /\
  forall net', rtc (net_step F dest) net net' -> rtc (net_step F dest) net' fin.

Lemma lone_step W n c p net' :
  net_step F dest (mkNet W [(n, c, p)]) net' ->
  let w := fib_forward_packet (F n) p c (W n) in
  net' = mkNet (set_world n w W) (omap (departure dest) (news (W n) w)).
Proof.
  inversion 1 as [n' c' p' W' pre post Heq]; subst.
  destruct pre as [|x pre]; [|by destruct pre]. simpl in *. by simplify_eq.
Qed.

Lemma ends_here W : ends_in (mkNet W []) (mkNet W []).
Proof.
  split; [done|]. split; [done|]. intros net' Hr. inversion Hr as [|x y z Hs]; subst; [done|].
  inversion Hs as [n c p W' pre post Heq]. by destruct pre.
Qed.

Lemma ends_step W n c p fin :
  let w := fib_forward_packet (F n) p c (W n) in
  ends_in (mkNet (set_world n w W) (omap (departure dest) (news (W n) w))) fin ->
  ends_in (mkNet W [(n, c, p)]) fin.
Proof.
  intros w (Hw & Hr & Hall). pose proof (net_forward F dest n c p W [] []) as Hs. simpl in Hs.
  assert (rtc (net_step F dest) (mkNet W [(n, c, p)]) fin) by by eapply rtc_l.
  split; [done|]. split; [done|]. intros net' Hr'. inversion Hr' as [|x y z Hs' Hr1]; subst; [done|].
  apply lone_step in Hs'. subst y. by apply Hall.
Qed.

(** * The way of a packet *)

Definition hop_peer (v n : NodeId) : option NodeId := l_peer_id <$> f_next_hop (F v) !! n.

(** The nodes after [v] on the way to [n], each the next hop of the one before. *)
Inductive way (n : NodeId) : NodeId -> list NodeId -> Prop :=
  | way_end : way n n []
  | way_hop v m ways : v <> n -> hop_peer v n = Some m -> way n m ways -> way n v (m :: ways).

(** Every node on it would go back to [a] the way the packet came. *)
Fixpoint goes_back (a v : NodeId) (ways : list NodeId) : bool :=
  match ways with
  | [] => true
  | m :: ways => bool_decide (hop_peer m a = Some v) && goes_back a m ways
  end.

Definition within (v n : NodeId) (d : N) : Prop := shortest g v n d /\ (d < cost_max)%N.

Lemma within_eq v n d d' : within v n d -> within v n d' -> d = d'.
Proof. intros [Hs _] [Hs' _]. by eapply shortest_eq. Qed.

(** A next hop is nearer. *)
Lemma next_hop_nearer v n m d :
  within v n d -> v <> n -> hop_peer v n = Some m ->
  exists link r, f_next_hop (F v) !! n = Some link /\ l_peer_id link = m /\
    d_links (dbs v) !! l_connection_id link = Some link /\ within m n r /\ (r < d)%N.
Proof.
  intros [Hs Hd] Hne Hm. destruct (table_hop g v _ _ (same_view v) n d Hs Hd) as (link & w & r & Hl & Hk & He & Hr & Heq); [done|].
  unfold hop_peer in Hm. rewrite Hl in Hm. injection Hm as <-. pose proof (costs_positive _ _ _ He).
  exists link, r. split_and!; try done; [split; [done|] |]; nlia.
Qed.

Lemma way_exists n : forall d v, within v n d -> exists ways, way n v ways.
Proof.
  intros d. induction d as [d IH] using (well_founded_induction N.lt_wf_0). intros v Hd.
  destruct (decide (v = n)) as [->|Hne]; [by exists []; constructor|].
  destruct (table_hop g v _ _ (same_view v) n d (proj1 Hd) (proj2 Hd)) as (link & w & r & Hl & _); [done|].
  assert (Hm : hop_peer v n = Some (l_peer_id link)) by (unfold hop_peer; by rewrite Hl).
  destruct (next_hop_nearer v n _ d Hd Hne Hm) as (_ & r' & _ & _ & _ & Hr & Hlt).
  destruct (IH r' Hlt _ Hr) as [ways Hw]. exists (l_peer_id link :: ways). by constructor.
Qed.

Lemma way_unique n v ways ways' : way n v ways -> way n v ways' -> ways = ways'.
Proof.
  intros Hw. revert ways'. induction Hw as [|v m ways Hne Hm _ IH]; intros ways' Hw'.
  - by inversion Hw'.
  - inversion Hw' as [|v' m' ws _ Hm' Hw1]; subst; [done|]. rewrite Hm in Hm'. injection Hm' as <-. f_equal. by apply IH.
Qed.

(** * The check *)

(** A packet that comes over a link is accepted exactly when the node at its end would send to
    the packet's sender over the same link. *)
Lemma accepted_back v link m c p :
  d_links (dbs v) !! l_connection_id link = Some link -> l_peer_id link = m ->
  dest (l_tx link) = Some (m, c) -> wp_from p <> m ->
  accepts_from (F m) p c = bool_decide (hop_peer m (wp_from p) = Some v).
Proof.
  intros Hl Hm Hd Hne. destruct (links_good _ _ _ Hl) as (_ & _ & c' & back & Hd' & Hb & Hpv).
  rewrite Hm in Hd', Hb. rewrite Hd in Hd'. injection Hd' as <-.
  pose proof (table_self g m _ _ (same_view m)) as Hid. unfold accepts_from, hop_peer. rewrite Hid, decide_False by done.
  destruct (f_next_hop (F m) !! wp_from p) as [lm|] eqn:Hlm; [|done]. simpl.
  destruct (hop_distance g m _ _ (same_view m) _ _ Hlm) as (_ & _ & _ & _ & _ & _ & Hlk & _).
  destruct (links_good _ _ _ Hlk) as (_ & Hone & _).
  pose proof (i_links _ (proj1 (same_view m)) _ _ Hb) as Hc. simpl in Hc.
  destruct (bool_decide_reflect (Some (l_peer_id lm) = Some v)) as [[= Heq]|Hneq].
  - rewrite (Hone _ _ Hb) in Hc by congruence. by apply N.eqb_eq.
  - apply N.eqb_neq. intros Heq. apply Hneq. rewrite Heq, Hb in Hlk. injection Hlk as <-. by rewrite Hpv.
Qed.

(** * What becomes of a packet *)
Context (a n : NodeId) (to : Address) (tx : ChanId) (D : N).
Hypothesis within_reach : within a n D.

(** The address has one route at every node that is no farther from [n]. *)
Hypothesis one_route : forall v d, shortest g v n d -> (d <= D)%N -> exists route kind, (kind = Unicast \/ kind = Node) /\
  d_routes (dbs v) !! get_endpoint to v = Some (mkLsRouteEntry [route] kind) /\
  r_via route = if decide (v = n) then Local tx else Remote n.
Hypothesis listener_open : forall w, env_try_send w tx = SendOk.

Lemma heads v d : shortest g v n d -> (d <= D)%N ->
  f_table (F v) !! get_endpoint to (f_our_id (F v)) = Single <$>
    (if decide (v = n) then Some (FwdLocal tx) else FwdRemote <$> f_next_hop (F v) !! n).
Proof.
  intros Hs Hd. destruct (one_route v d Hs Hd) as (route & kind & Hk & Hr & Hvia).
  rewrite (table_self g v _ _ (same_view v)), (single_route g v (dbs v) (F v) (same_view v) _ route kind Hk Hr), Hvia.
  by destruct (decide (v = n)).
Qed.

Lemma link_open v link w :
  d_links (dbs v) !! l_connection_id link = Some link -> env_try_send w (l_tx link) = SendOk.
Proof. intros Hl. by destruct (links_good _ _ _ Hl) as [? _]. Qed.

(** Nobody gets anything. *)
Definition nothing_new (W W' : NodeId -> World) : Prop := forall v tx, inbox tx (W' v) = inbox tx (W v).

Definition outcome_of (back : bool) (m : ClientMessage) (W W' : NodeId -> World) : Prop :=
  if back then delivered n tx m W W' else nothing_new W W'.

(** A packet that is not accepted. *)
Lemma ends_dropped m c p msg W :
  accepts_from (F m) p c = false ->
  exists W', ends_in (mkNet W [(m, c, p)]) (mkNet W' []) /\ outcome_of false msg W W'.
Proof.
  intros Hacc. exists (set_world m (W m) W). split.
  - apply ends_step. unfold fib_forward_packet. rewrite Hacc.
    replace (news (W m) (W m)) with (@nil Event) by (unfold news; by rewrite drop_all). apply ends_here.
  - intros v t. unfold set_world. by case_decide; subst.
Qed.

(** The packet is on a link from [v] to [m], on its way from [a] to [n]. *)
Lemma decided_on_the_way p m ways :
  way n m ways -> wp_from p = a -> wp_to p = to ->
  forall v link c r d W, within m n r -> within v n d -> (r < d)%N -> (d <= D)%N ->
    d_links (dbs v) !! l_connection_id link = Some link -> l_peer_id link = m ->
    dest (l_tx link) = Some (m, c) ->
    exists W', ends_in (mkNet W [(m, c, p)]) (mkNet W' []) /\
      outcome_of (goes_back a v (m :: ways)) (CmMessage (packet_of_wire p)) W W'.
Proof.
  intros Hway Hfrom Hto. induction Hway as [|m m' ways Hne Hhop Hway IH]; intros v link c r d W Hr Hd Hlt HD Hl Hpeer Hdest.
  all: match type of Hr with within ?x _ _ => assert (Hax : a <> x) by
    (intros <-; pose proof (within_eq _ _ _ _ Hr within_reach); lia);
    pose proof (accepted_back v link x c p Hl Hpeer Hdest ltac:(congruence)) as Hacc;
    pose proof (heads x r (proj1 Hr) ltac:(lia)) as Hh end.
  all: rewrite Hfrom in Hacc; cbn [goes_back]; destruct (bool_decide _) eqn:Hb in Hacc |- *; cbn [andb];
    [|by apply ends_dropped].
  - rewrite decide_True in Hh by done. exists (set_world n (log_event (EvClient tx (CmMessage (packet_of_wire p)) SendOk) (W n)) W).
    split; [|apply delivered_here]. apply ends_step.
    rewrite (forward_local F n c p tx (W n) Hacc) by (split; [by rewrite Hto|done]). rewrite news_log. apply ends_here.
  - destruct (next_hop_nearer m n m' r Hr Hne Hhop) as (out & r' & Hout & Hpm & Hlk & Hr' & Hlt').
    rewrite decide_False, Hout in Hh by done.
    destruct (links_good _ _ _ Hlk) as (Hok & _ & c' & back & Hd' & _).
    assert (Hbp : back_path (F m) a out = false).
    { apply bool_decide_eq_true in Hb. unfold back_path. unfold hop_peer in Hb.
      destruct (f_next_hop (F m) !! a) as [la|]; [|done]. injection Hb as ->. apply bool_decide_eq_false_2.
      intros ->. rewrite Hpm in Hd. pose proof (within_eq _ _ _ _ Hd Hr'). lia. }
    rewrite Hpm in Hd'.
    set (w := log_event (EvNode (l_tx out) (NmWirePacket p) SendOk) (W m)).
    destruct (IH m out c' r' r (set_world m w W) Hr' Hr Hlt' ltac:(lia) Hlk Hpm Hd') as (W' & Hends & Hout').
    exists W'. split.
    + apply ends_step. rewrite (forward_remote F m c p out (W m) Hacc); [|split; [by rewrite Hto|done]|by rewrite Hfrom].
      rewrite news_log, (departs dest out p m' c' Hd'). exact Hends.
    + cbn [goes_back] in Hout'. unfold outcome_of in *.
      destruct (_ && _); intros u t; rewrite (Hout' u t); unfold w; by rewrite inbox_node.
Qed.

(** C33: the reverse-path check decides whether a unicast packet arrives. When every node
    published its table from the same advertisements, the next hops lead from the sender's node
    [a] to the listener's node [n], however paths tie; the sender is told that its packet was
    sent, and every run of the network comes to the same end: the packet is delivered, once and
    to no one else, when every node on the way would itself go back to [a] through the node
    before it, and otherwise no listener anywhere gets anything. *)
Theorem reverse_paths_decide packet wire W :
  p_from packet = a -> p_to packet = to -> wire_of_packet packet = Returns wire ->
  exists ways net W', way n a ways /\
    net_send F dest a packet (mkNet W []) (inr tt) net /\ ends_in net (mkNet W' []) /\
    outcome_of (goes_back a a ways) (CmMessage (if decide (a = n) then packet else packet_of_wire wire)) W W'.
Proof.
  intros Hfrom Hto Hwire. destruct (way_exists n D a within_reach) as [ways Hway]. exists ways.
  pose proof (heads a D (proj1 within_reach) ltac:(lia)) as Hh. rewrite <- Hto in Hh.
  destruct (decide (a = n)) as [Han|Hne].
  - assert (ways = []) as -> by (by inversion Hway; subst).
    do 2 eexists. split; [done|].
    split; [apply net_sent; unfold fib_send; rewrite Hh; simpl; unfold try_send_client; by rewrite listener_open|].
    rewrite news_log. split; [apply ends_here|]. cbn [goes_back outcome_of]. rewrite <- Han. apply delivered_here.
  - destruct ways as [|m rest]; [by inversion Hway|].
    assert (hop_peer a n = Some m /\ way n m rest) as [Hhop Hway'] by (by inversion Hway).
    destruct (next_hop_nearer _ n m D within_reach Hne Hhop) as (link & r & Hl & Hpeer & Hlk & Hr & Hlt).
    rewrite Hl in Hh. destruct (links_good _ _ _ Hlk) as (Hok & _ & c & _ & Hd & _). rewrite Hpeer in Hd.
    set (w := log_event (EvNode (l_tx link) (NmWirePacket wire) SendOk) (W a)).
    pose proof Hwire as Hw. unfold wire_of_packet in Hw. destruct (payload_bytes _) as [bs|]; [|done]. injection Hw as Hw.
    destruct (decided_on_the_way wire m rest Hway' ltac:(by subst) ltac:(by subst) _ link c r D
      (set_world a w W) Hr within_reach Hlt ltac:(lia) Hlk Hpeer Hd) as (W' & Hends & Hout).
    exists (mkNet (set_world a w W) [(m, c, wire)]), W'. split; [done|]. split; [|split; [done|]].
    + pose proof (net_sent F dest a packet W [] (inr tt) w) as Hs. unfold w in Hs at 3.
      rewrite news_log, (departs dest _ _ _ _ Hd) in Hs. apply Hs. unfold fib_send. rewrite Hh, Hwire. simpl.
      unfold try_send_node. by rewrite Hok.
    + unfold outcome_of in *. destruct (goes_back _ _ _); intros u t; rewrite (Hout u t); unfold w; by rewrite inbox_node.
Qed.
End reverse.
