(* ===== verification/ClientProofs.v ===== *)
(** Clients of the bus: what a registration asks for, how a service works through its mailbox,
    and when a stream stops being woken. About [Handle.v] and [Receivers.v]. *)
From Stdlib Require Import Init.Byte Strings.String.
From S2P Require Import Prelude Types Messages World RouteTable Linkstate LsDb Fib Handle Receivers.

(** * The stages of a builder

    [built calls e c r b]: the calls in [calls], latest first, lead from [listener] to the builder
    [b], whose markers are those of the codes [e], [c] and [r]. *)
Inductive CastCode := CodeNoCast | CodeAnycast | CodeCast.
Inductive Call := CallRealm (r : Realm) | CallCost (c : Cost) | CallEndpoint (e : EndpointId)
  | CallAnycast | CallUnicast | CallBroadcast | CallRpc.

Definition ep_ty (set : bool) : Type := if set then EndpointSet else NoEndpointId.
Definition cast_ty (c : CastCode) : Type :=
  match c with CodeNoCast => NoCast | CodeAnycast => AnycastSet | CodeCast => CastSet end.
Definition rpc_ty (set : bool) : Type := if set then RpcSet else NoRpc.

Inductive built : list Call -> forall e c r, RegistrationBuilder (ep_ty e) (cast_ty c) (rpc_ty r) -> Prop :=
  | built_listener : built [] false CodeNoCast false listener
  | built_realm l e c r b realm : built l e c r b -> built (CallRealm realm :: l) e c r (with_realm realm b)
  | built_cost l e c r b cost : built l e c r b -> built (CallCost cost :: l) e c r (with_cost cost b)
  | built_endpoint l e c r b ep :
      built l e c r b -> built (CallEndpoint ep :: l) true c r (with_endpoint ep b)
  | built_anycast l e r b :
      built l e CodeNoCast r b -> built (CallAnycast :: l) e CodeAnycast r (anycast b)
  | built_unicast l e r b :
      built l e CodeNoCast r b -> built (CallUnicast :: l) e CodeCast r (unicast b)
  | built_broadcast l e b :
      built l e CodeNoCast false b -> built (CallBroadcast :: l) e CodeCast false (broadcast b)
  | built_anycast_rpc l e b :
      built l e CodeAnycast false b -> built (CallRpc :: l) e CodeAnycast true (anycast_rpc b)
  | built_rpc l e b : built l e CodeNoCast false b -> built (CallRpc :: l) e CodeNoCast true (rpc b).

(** What the latest call of each sort asked for. *)
Definition realm_called (c : Call) : option Realm := match c with CallRealm r => Some r | _ => None end.
Definition cost_called (c : Call) : option Cost := match c with CallCost c => Some c | _ => None end.
Definition endpoint_called (c : Call) : option EndpointId := match c with CallEndpoint e => Some e | _ => None end.
Definition kind_called (c : Call) : option RouteKind :=
  match c with CallAnycast => Some Anycast | CallUnicast => Some Unicast | CallBroadcast => Some Broadcast | _ => None end.
Definition latest {A} (f : Call -> option A) (l : list Call) : option A := head (omap f l).

Definition ep_of (e : bool) : ep_ty e -> option EndpointId :=
  match e return ep_ty e -> option EndpointId with
  | true => fun '(MkEndpointSet ep) => Some ep
  | false => fun _ => None
  end.
Definition kind_of (c : CastCode) : cast_ty c -> option RouteKind :=
  match c return cast_ty c -> option RouteKind with
  | CodeNoCast => fun _ => None
  | CodeAnycast => fun _ => Some Anycast
  | CodeCast => fun '(MkCastSet k) => Some k
  end.

Lemma built_fields l e c r b :
  built l e c r b ->
  ep_of e (b_endpoint_id b) = latest endpoint_called l /\ kind_of c (b_cast b) = latest kind_called l /\
  b_realm b = default Global (latest realm_called l) /\ b_cost b = default 0%N (latest cost_called l).
Proof.
  induction 1 as [|l e c r b x _ IH|l e c r b x _ IH|l e c r b x _ IH|l e r b _ IH|l e r b _ IH
    |l e b _ IH|l e b _ IH|l e b _ IH]; [done|..]; destruct IH as (He & Hk & Hr & Hc);
    split_and!; simpl in *; try done.
Qed.

Lemma built_cast l e c r b :
  built l e c r b -> match latest kind_called l with
    | None => c = CodeNoCast
    | Some Anycast => c = CodeAnycast
    | Some Broadcast => c = CodeCast /\ r = false
    | Some Unicast => c = CodeCast
    | _ => False
    end.
Proof.
  intros Hb. induction Hb; unfold latest in *; simpl; try done;
    change (list_omap _ _ kind_called l) with (omap kind_called l);
    destruct (head (omap kind_called l)) as [[]|]; try done; by destruct IHHb.
Qed.

#[export] Instance ep_ty_endpoint e : HasEndpoint (ep_ty e) :=
  match e return HasEndpoint (ep_ty e) with
  | true => EndpointSet_endpoint
  | false => NoEndpointId_endpoint
  end.

Lemma endpoint_or_called e (ep : ep_ty e) uuid : endpoint_or ep uuid = default uuid (ep_of e ep).
Proof. by destruct e, ep. Qed.

(** A builder never panics and asks for what its latest calls said, in whatever order they
    were made: the endpoint given, or else the uuid of the type; the kind of the cast; the realm,
    [Global] when none was given. The cost counts for anycast only. A registration made an RPC
    service without a cast is unicast, with the realm and the cost the calls gave ignored: it is
    always advertised in every realm, at no cost. *)
Theorem builder_asks_for l uuid tx e :
  let asked kind realm cost := mkRegistrationRequest (default uuid (latest endpoint_called l))
    (mkEndpointInfo kind realm cost) tx in
  let realm := default Global (latest realm_called l) in
  let cost := default 0%N (latest cost_called l) in
  (forall b : RegistrationBuilder (ep_ty e) AnycastSet NoRpc,
     built l e CodeAnycast false b -> register_anycast_set b uuid tx = asked Anycast realm cost) /\
  (forall b : RegistrationBuilder (ep_ty e) AnycastSet RpcSet,
     built l e CodeAnycast true b -> register_anycast_rpc_set b uuid tx = asked Anycast realm cost) /\
  (forall b : RegistrationBuilder (ep_ty e) CastSet NoRpc,
     built l e CodeCast false b -> exists kind, latest kind_called l = Some kind /\
       (kind = Unicast \/ kind = Broadcast) /\ register_cast_set b uuid tx = Returns (asked kind realm 0%N)) /\
  (forall b : RegistrationBuilder (ep_ty e) NoCast RpcSet,
     built l e CodeNoCast true b -> register_no_cast_rpc b uuid tx = asked Unicast Global 0%N).
Proof.
  cbv zeta. split_and!; intros b Hb;
    pose proof (built_fields _ _ _ _ _ Hb) as (He & Hk & Hr & Hc); pose proof (built_cast _ _ _ _ _ Hb) as Hcode;
    rewrite <- He, <- ?Hr, <- ?Hc, <- endpoint_or_called; try done.
  simpl in Hk. unfold register_cast_set. destruct (b_cast b) as [kind]. rewrite <- Hk in Hcode |- *.
  exists kind. split; [done|]. destruct kind; naive_solver.
Qed.

(** * Services *)
Section services.
Context `{Cd : Codec} `{E : !Env} {S : Type}.
Context (T : RustTy) (on_request : S -> option Rider -> Rider * S) (map : ForwardingTable).

(** What a mailbox has for a service, and what serving it one by one comes to. *)
Definition request_in (m : ClientMessage) : option RpcRequest :=
  match m with
  | CmMessage packet => match rpc_request_of T packet with Returns (inr rq) => Some rq | _ => None end
  | _ => None
  end.

Definition serve_one (st : S) (w : World) (rq : RpcRequest) : Outcome (S * World) :=
  let '(response, st) := on_request st (rq_payload rq) in
  outcome_bind (rpc_reply map rq response w) (fun '(_, w) => Returns (st, w)).

Fixpoint serve (rqs : list RpcRequest) (st : S) (w : World) : Outcome (S * World) :=
  match rqs with
  | [] => Returns (st, w)
  | rq :: rqs => outcome_bind (serve_one st w rq) (fun '(st, w) => serve rqs st w)
  end.

(** No payload is a value of another type of this process. *)
Definition readable (m : ClientMessage) : Prop :=
  match m with CmMessage packet => reveal T (p_payload packet) <> Panics | _ => True end.

Definition depot (c : Mailbox * S * World) : Turn * Mailbox * S :=
  bus_depot_turn T on_request map c.1.1 c.1.2 c.2.

(** The loop goes on. *)
Inductive depot_step : Mailbox * S * World -> Mailbox * S * World -> Prop :=
  | depot_served c w mb st : depot c = (Served w, mb, st) -> depot_step c (mb, st, w)
  | depot_spun c mb st : depot c = (Spun, mb, st) -> depot_step c (mb, st, c.2).

Definition skipped (m : ClientMessage) : bool :=
  match m with CmFailedRegistration _ _ | CmSuccessfulRegistration _ => true | _ => false end.

Lemma depot_skip m q closed st w :
  skipped m = true -> depot (mkMailbox (m :: q) closed, st, w) = depot (mkMailbox q closed, st, w).
Proof. by destruct m. Qed.

(** The outcome of working through a mailbox, reached in at most [n] turns. *)
Definition works_off (n : nat) (closed : bool) (c : Mailbox * S * World) (st' : S) (w' : World) : Prop :=
  exists k mb, k <= n /\ nsteps depot_step k c (mb, st', w') /\
    depot (mb, st', w') = (if closed then Spun else Parked, mkMailbox [] closed, st').

Lemma depot_step_ext c c' c1 : depot c = depot c' -> c.2 = c'.2 -> depot_step c' c1 -> depot_step c c1.
Proof. intros Hd Hw Hs. inversion Hs; subst; rewrite <- Hd in *; [by apply depot_served|]. rewrite <- Hw. by apply depot_spun. Qed.

Lemma depot_skip_run n m q closed st w st' w' :
  skipped m = true -> works_off n closed (mkMailbox q closed, st, w) st' w' ->
  works_off (Datatypes.S n) closed (mkMailbox (m :: q) closed, st, w) st' w'.
Proof.
  intros Hm (k & mb & Hk & Hn & Hd). destruct k as [|k].
  - inversion Hn; subst. exists 0, (mkMailbox (m :: q) closed). split_and!; [lia|constructor|].
    by rewrite depot_skip.
  - inversion Hn as [|? ? c1 ? H1 H2]; subst. exists (Datatypes.S k), mb. split_and!; [lia| |done].
    econstructor; [|exact H2]. eapply depot_step_ext; [by apply depot_skip|done|done].
Qed.

Lemma depot_shutdown q closed st w :
  depot (mkMailbox (CmShutdown :: q) closed, st, w) = (Spun, mkMailbox q closed, st).
Proof. done. Qed.

Lemma depot_empty closed st w :
  depot (mkMailbox [] closed, st, w) = (if closed then Spun else Parked, mkMailbox [] closed, st).
Proof. by destruct closed. Qed.

Lemma depot_message packet q closed st w :
  readable (CmMessage packet) ->
  match request_in (CmMessage packet) with
  | None => depot (mkMailbox (CmMessage packet :: q) closed, st, w) = (Spun, mkMailbox q closed, st)
  | Some rq => forall st' w', serve_one st w rq = Returns (st', w') ->
      depot (mkMailbox (CmMessage packet :: q) closed, st, w) = (Served w', mkMailbox q closed, st')
  end.
Proof.
  intros Hp. unfold depot, bus_depot_turn, recv_rpc, packet_recv, request_in. cbn -[reveal rpc_request_of rpc_reply].
  unfold readable in Hp.
  destruct (rpc_request_of T packet) as [[e|rq]|] eqn:Hrq; cbn -[reveal rpc_reply]; [done| |].
  - intros st' w' Hs. unfold serve_one in Hs. destruct (on_request st (rq_payload rq)) as [response st1].
    unfold rpc_reply in *. cbn -[send_to_address]. destruct (send_to_address _ _ _ _) as [[r w1]|]; [|done].
    by injection Hs as -> ->.
  - unfold rpc_request_of, reveal_or_error in Hrq. destruct (p_reply_to packet); [|done].
    by destruct (reveal T (p_payload packet)) as [[]|].
Qed.

(** C32: a service outlives bad requests and works through its mailbox: whatever waits in it, it
    serves the requests among it in order, each once, to where it asks the answer to go, in at
    most as many turns as messages; messages that are no requests of its type are dropped. With
    an empty mailbox it waits for more, but once the channel is closed it turns around forever
    without ever waiting or ending. *)
Theorem service_serves_in_order q closed st w st' w' :
  Forall readable q -> serve (omap request_in q) st w = Returns (st', w') ->
  exists k mb, k <= length q /\ nsteps depot_step k (mkMailbox q closed, st, w) (mb, st', w') /\
    depot (mb, st', w') = (if closed then Spun else Parked, mkMailbox [] closed, st') /\
    (closed = true -> depot_step (mkMailbox [] closed, st', w') (mkMailbox [] closed, st', w')).
Proof.
  intros Hq Hs. cut (works_off (length q) closed (mkMailbox q closed, st, w) st' w').
  { intros (k & mb & ? & ? & ?). exists k, mb. split_and!; try done. intros ->.
    apply depot_spun. apply depot_empty. }
  revert st w Hs. induction Hq as [|m q Hm Hq IH]; intros st w Hs.
  { injection Hs as -> ->. exists 0, (mkMailbox [] closed). split_and!; [done|constructor|apply depot_empty]. }
  assert (Hstep : forall st1 w1, depot_step (mkMailbox (m :: q) closed, st, w) (mkMailbox q closed, st1, w1) ->
    serve (omap request_in q) st1 w1 = Returns (st', w') ->
    works_off (length (m :: q)) closed (mkMailbox (m :: q) closed, st, w) st' w').
  { intros st1 w1 H1 Hs1. destruct (IH st1 w1 Hs1) as (k & mb & Hk & Hn & Hd).
    exists (Datatypes.S k), mb. split_and!; [simpl; lia|by econstructor|done]. }
  destruct m as [packet|ep reason|ep|].
  - pose proof (depot_message packet q closed st w Hm) as Hd. cbn [omap list_omap] in Hs.
    destruct (request_in (CmMessage packet)) as [rq|].
    + cbn [serve] in Hs. destruct (serve_one st w rq) as [[st1 w1]|] eqn:H1; [|done].
      eapply Hstep; [|exact Hs]. apply depot_served. by apply Hd.
    + eapply Hstep; [|exact Hs]. by apply (depot_spun _ _ _ Hd).
  - apply depot_skip_run; [done|]. exact (IH st w Hs).
  - apply depot_skip_run; [done|]. exact (IH st w Hs).
  - eapply Hstep; [|exact Hs]. by apply (depot_spun _ _ _ (depot_shutdown _ _ _ _)).
Qed.
End services.

(** * Streams *)
Section streams.
Context `{Cd : Codec} `{E : !Env}.

(** A message a receiver for [T] throws away. *)
Definition unwanted (T : RustTy) (m : ClientMessage) : Prop :=
  match m with
  | CmMessage packet => exists p, reveal T (p_payload packet) = Returns (inr p)
  | CmShutdown => False
  | _ => True
  end.

(** A stream answers [Pending] in two situations: nothing waits in its open channel, when the
    channel will wake it; or it threw away the message it was polled for, when nothing will until
    another one arrives: whatever waits behind that message is left there. *)
Theorem stream_pends_iff T mb :
  (receiver_poll_next T mb).1 = Returns Pending <->
  (mb_queue mb = [] /\ mb_closed mb = false) \/
  exists m q, mb_queue mb = m :: q /\ unwanted T m /\ (receiver_poll_next T mb).2 = set_queue q mb.
Proof.
  destruct mb as [[|m q] closed]; cbn -[reveal].
  - split; [destruct closed; naive_solver|]. intros [[_ ->]|(m & q & [=] & _)]. done.
  - transitivity (unwanted T m).
    + destruct m as [packet|ep reason|ep|]; cbn -[reveal]; [|done..].
      destruct (reveal T (p_payload packet)) as [[v|p]|]; simpl; naive_solver.
    + split.
      * intros Hm. right. exists m, q. by split_and!.
      * by intros [[[=] _]|(m' & q' & [= <- <-] & Hm & _)].
Qed.

(** A request takes the oldest message of its helper's channel for its answer, such as one that
    an earlier request did not wait for. *)
Lemma stale_answer_taken T fib response to payload stale q arrivals w w' v :
  request_send fib response to payload w = Returns (inr tt, w') ->
  reveal T (p_payload stale) = Returns (inl v) ->
  request T fib response to payload (CmMessage stale :: q) arrivals w = Returns (inr v, q ++ arrivals, w').
Proof. intros Hs Hr. unfold request. rewrite Hs. simpl. by rewrite Hr. Qed.
End streams.
