(* ===== verification/Quiescence.v ===== *)
(** Forwarding comes to rest: the reverse-path check of [forward_table.rs] makes every packet move
    away from its sender, so no packet, unicast or broadcast, goes around in circles. *)
From S2P Require Import Prelude Types Messages World RouteTable Linkstate Spf SpfProofs LsDb.
From S2P Require Import LsDbProofs LsDbTheorems Fib FibProofs Handle Receivers Network Delivery.

(** * Wires that come to rest

    A wire is a list of flights; a step replaces one of them by its children, in last place. *)
Section wires.
Context {A : Type} (child : A -> A -> Prop).

Inductive wire_step : list A -> list A -> Prop :=
  | wire_fires a pre post out :
      Forall (child a) out -> wire_step (pre ++ a :: post) (pre ++ post ++ out).

Definition at_rest (l : list A) : Prop := Acc (fun l' l => wire_step l l') l.
Definition spent (a : A) : Prop := Acc (fun a' a => child a a') a.

Lemma wire_step_remove pre a post l' :
  wire_step (pre ++ a :: post) l' ->
  (exists out, Forall (child a) out /\ l' = pre ++ post ++ out) \/
  (exists pre' post', l' = pre' ++ a :: post' /\ wire_step (pre ++ post) (pre' ++ post')).
Proof.
  intros Hs. inversion Hs as [b pre1 post1 out Hout Heq Hl]; subst l'.
  apply app_eq_inv in Heq as [(k & -> & Hk)|(k & -> & Hk)]; destruct k as [|x k]; simpl in Hk; injection Hk as -> ->.
  - left. exists out. by rewrite app_nil_r.
  - right. exists pre, (k ++ post1 ++ out). split; [by rewrite <- app_assoc|].
    rewrite !(app_assoc pre). by apply wire_fires.
  - left. exists out. by rewrite app_nil_r.
  - right. exists (pre1 ++ k), (post ++ out). rewrite <- !app_assoc. split; [done|].
    rewrite (app_assoc k). by apply wire_fires.
Qed.

Lemma at_rest_insert a : spent a -> forall pre post, at_rest (pre ++ post) -> at_rest (pre ++ a :: post).
Proof.
  induction 1 as [a _ IHa]. intros pre post Hrest. remember (pre ++ post) as l eqn:Hl.
  revert pre post Hl. induction Hrest as [l Hrest IHl]. intros pre post ->. constructor. intros l' Hs.
  apply wire_step_remove in Hs as [(out & Hout & ->)|(pre' & post' & -> & Hs)].
  - rewrite app_assoc. assert (Hacc : at_rest (pre ++ post)) by by constructor. clear Hrest IHl.
    revert Hacc. generalize (pre ++ post). induction Hout as [|b out Hb _ IH]; intros l Hacc.
    + by rewrite app_nil_r.
    + rewrite cons_middle, app_assoc. apply IH. apply IHa; [done|]. by rewrite app_nil_r.
  - eapply IHl; [exact Hs|done].
Qed.

Lemma at_rest_all l : Forall spent l -> at_rest l.
Proof.
  induction 1 as [|a l Ha _ IH].
  - constructor. intros l' Hs. inversion Hs as [? pre ? ? ? Heq]. by destruct pre.
  - by apply (at_rest_insert a Ha []).
Qed.
End wires.

(** * What forwarding puts on the wire *)
Section departures.
Context `{Cd : Codec} `{E : !Env}.

Lemma forward_departures (dest : ChanId -> option (NodeId * ConnectionId)) f p c w fl :
  fl ∈ omap (departure dest) (news w (fib_forward_packet f p c w)) ->
  accepts_from f p c = true /\ exists fe link m c', f_table f !! get_endpoint (wp_to p) (f_our_id f) = Some fe /\
    link ∈ remotes fe /\ dest (l_tx link) = Some (m, c') /\ fl = (m, c', p).
Proof.
  unfold fib_forward_packet. assert (Hnil : news w w = []) by (unfold news; by rewrite drop_all).
  destruct (accepts_from f p c); [|rewrite Hnil; by intros ?%elem_of_nil].
  destruct (f_table f !! _) as [fe|]; [|rewrite Hnil; by intros ?%elem_of_nil]. intros Hfl. split; [done|].
  destruct (forward_both f p w (locals fe) (remotes fe)) as (evs & Hboth & Hat).
  assert (Hnews : news w (deliver (remotes fe) p (tx_remote f)
    (deliver (locals fe) (packet_of_wire p) tx_local w)) = evs) by by apply news_app.
  assert (Hin : exists ev, ev ∈ evs /\ departure dest ev = Some fl).
  { apply list_elem_of_omap. rewrite <- Hnews.
    by destruct (locals fe), (remotes fe); [rewrite Hnil in *; by apply elem_of_nil in Hfl| |..]. }
  destruct Hin as (ev & Hev & Hdep). apply (list_elem_of_fmap_2 attempt) in Hev as Hatt.
  assert (Hm : attempt ev ∈ map attempt evs) by by apply list_elem_of_fmap_2.
  rewrite Hat, elem_of_app in Hm. unfold departure in Hdep.
  destruct ev as [tx m r|tx m r|tx r]; simpl in *; [|done..].
  destruct r; [|done..]. destruct m; simpl in *; try done.
  destruct Hm as [(tx' & [=] & _)%list_elem_of_fmap|(link & [= -> ->] & Hlink)%list_elem_of_fmap].
  apply elem_of_retain in Hlink as [_ Hlink]. destruct (dest (l_tx link)) as [[m c']|] eqn:Hd; [|done].
  injection Hdep as <-. by exists fe, link, m, c'.
Qed.
End departures.

(** * Networks *)
Section quiescence.
Context `{Cd : Codec} `{E : !Env} `{!EnvLaws}.
Context (dest : ChanId -> option (NodeId * ConnectionId)) (g : gmap NodeId (list Adjacency)).
Context (dbs : NodeId -> LsDb) (F : NodeId -> ForwardingTable).

Hypothesis same_view : forall v, in_force g v (dbs v) (F v).
Hypothesis costs_positive : forall u v c, edge g u v c -> (0 < c)%N.

(** The channel of a link leads, if anywhere, to its peer's link back. *)
Definition links_back : Prop := forall v c link m c', d_links (dbs v) !! c = Some link ->
  dest (l_tx link) = Some (m, c') ->
  exists back, d_links (dbs m) !! c' = Some back /\ l_peer_id back = v.
Hypothesis channels_meet : links_back.

(** What the arrival of a flight puts on the wire, in some world. *)
Definition spawns (fl fl' : flight) : Prop :=
  let '(n, c, p) := fl in
  exists w, fl' ∈ omap (departure dest) (news w (fib_forward_packet (F n) p c w)).

(** An accepted flight came from one step nearer to its sender. *)
Lemma spawns_away n c p m c' p' :
  spawns (n, c, p) (m, c', p') -> accepts_from (F m) p' c' = true ->
  p' = p /\ exists d w, shortest g n (wp_from p) d /\ (0 < w)%N /\
    shortest g m (wp_from p) (w + d) /\ (w + d < cost_max)%N.
Proof.
  intros [w Hsp] Hacc. apply forward_departures in Hsp as (_ & fe & link & m' & c1 & Hfe & Hin & Hd & [= <- <- ->]).
  split; [done|]. destruct (table_remotes g n _ _ (same_view n) _ _ _ Hfe Hin) as [x Hx].
  destruct (hop_distance g n _ _ (same_view n) _ _ Hx) as (_ & _ & _ & _ & _ & _ & Hlk & _).
  destruct (channels_meet _ _ _ _ _ Hlk Hd) as (back & Hback & Hpeer).
  unfold accepts_from in Hacc. destruct (decide _); [done|].
  destruct (f_next_hop (F m) !! wp_from p) as [lm|] eqn:Hlm; [|done]. apply N.eqb_eq in Hacc.
  destruct (hop_distance g m _ _ (same_view m) _ _ Hlm) as (d & w' & r & Hs & Hlt & _ & Hlml & He & Hr & ->).
  rewrite Hacc, Hback in Hlml. injection Hlml as <-. rewrite Hpeer in *.
  exists r, w'. split_and!; try done. by eapply costs_positive.
Qed.

Lemma accepted_spent k : forall n c p d,
  shortest g n (wp_from p) d -> (cost_max - d <= N.of_nat k)%N -> spent spawns (n, c, p).
Proof.
  induction k as [|k IH]; intros n c p d Hd Hk; constructor; intros [[m c'] p'] Hsp;
    destruct (accepts_from (F m) p' c') eqn:Hacc.
  2, 4: constructor; intros fl'' [w Hfl]; apply forward_departures in Hfl as [Hfl _]; congruence.
  all: destruct (spawns_away _ _ _ _ _ _ Hsp Hacc) as (-> & d0 & w & Hd0 & Hw & Hs & Hlt);
    rewrite (shortest_eq _ _ _ _ _ Hd Hd0) in *.
  - lia.
  - eapply IH; [exact Hs|]. lia.
Qed.

Lemma every_flight_spent fl : spent spawns fl.
Proof.
  constructor. intros [[m c'] p'] Hsp. destruct fl as [[n c] p].
  destruct (accepts_from (F m) p' c') eqn:Hacc.
  - destruct (spawns_away _ _ _ _ _ _ Hsp Hacc) as (-> & d & w & _ & _ & Hs & _).
    eapply (accepted_spent (N.to_nat cost_max)); [exact Hs|]. lia.
  - constructor. intros fl'' [w Hfl]. apply forward_departures in Hfl as [Hfl _]. congruence.
Qed.

(** Runs of the network are runs of its wire. *)
Lemma runs_end wire : at_rest spawns wire -> forall W, Acc (fun net' net => net_step F dest net net') (mkNet W wire).
Proof.
  intros Hrest. induction Hrest as [wire _ IH]. intros W. constructor. intros net' Hs.
  inversion Hs as [n c p W0 pre post]; subst. apply IH. apply wire_fires.
  apply Forall_forall. intros fl Hfl. by eexists.
Qed.

(** C1: forwarding terminates: when every node published its table from the same advertisements
    and every adjacency costs at least one, every run of the network from every configuration is
    finite, whatever packets are on the way, wherever they came from and whatever the channels
    take: no packet loops or multiplies without end, broadcast or not. *)
Theorem forwarding_terminates net : Acc (fun net' net => net_step F dest net net') net.
Proof. destruct net as [W wire]. apply runs_end, at_rest_all, Forall_forall. intros fl _. apply every_flight_spent. Qed.
End quiescence.
