(* ===== verification/Broadcast.v ===== *)
(** A broadcast address in a network: every listener within reach gets the packet, once. Every node
    hands a broadcast to the neighbours behind which there are listeners, and the reverse-path
    check of [forward_table.rs] keeps only the copies that come along the tree of cheapest paths
    to the sender. *)
From Stdlib Require Import Strings.String.
From S2P Require Import Prelude Types Messages World RouteTable Linkstate Spf SpfProofs LsDb.
From S2P Require Import LsDbProofs LsDbTheorems Fib FibProofs Network Delivery Quiescence.

(** * One node *)
Section node.
Context `{Cd : Codec} `{E : !Env} `{!EnvLaws}.

Definition heard_ev (p : Packet) (tx : ChanId) : Event := EvClient tx (CmMessage p) SendOk.
Definition passed_ev (p : WirePacket) (link : Link) : Event := EvNode (l_tx link) (NmWirePacket p) SendOk.

Definition chan_open (tx : ChanId) : Prop := forall w, env_try_send w tx = SendOk.

Lemma locals_log ls p : forall w, Forall chan_open ls ->
  w_log (foldl (fun w tx => tx_local w tx p) w ls) = w_log w ++ map (heard_ev p) ls.
Proof.
  induction ls as [|tx ls IH]; intros w Hopen; simpl; [by rewrite app_nil_r|].
  apply Forall_cons in Hopen as [Htx Hopen]. rewrite IH by done. unfold tx_local, try_send_client. rewrite Htx.
  simpl. by rewrite <- app_assoc.
Qed.

Lemma remotes_log f rs p : forall w, Forall (fun link => chan_open (l_tx link)) rs ->
  w_log (foldl (fun w link => tx_remote f w link p) w rs) =
  w_log w ++ map (passed_ev p) (retain (fun link => negb (back_path f (wp_from p) link)) rs).
Proof.
  induction rs as [|link rs IH]; intros w Hopen; simpl; [by rewrite app_nil_r|].
  apply Forall_cons in Hopen as [Htx Hopen]. rewrite IH by done. rewrite retain_cons. unfold tx_remote.
  destruct (back_path _ _ _); simpl; [done|]. unfold try_send_node. rewrite Htx. simpl. by rewrite <- app_assoc.
Qed.

(** The receivers of an entry: local listeners, remote hops. *)
Definition hear (f : ForwardingTable) (e : EndpointId) : list ChanId := default [] (locals <$> f_table f !! e).
Definition pass (f : ForwardingTable) (e : EndpointId) : list Link := default [] (remotes <$> f_table f !! e).

(** What a node does with a packet it accepts. *)
Lemma forward_log f p c w :
  let e := get_endpoint (wp_to p) (f_our_id f) in
  accepts_from f p c = true -> Forall chan_open (hear f e) -> Forall (fun link => chan_open (l_tx link)) (pass f e) ->
  w_log (fib_forward_packet f p c w) = w_log w ++ map (heard_ev (packet_of_wire p)) (hear f e) ++
    map (passed_ev p) (retain (fun link => negb (back_path f (wp_from p) link)) (pass f e)).
Proof.
  intros e Hacc. unfold fib_forward_packet, hear, pass. rewrite Hacc. fold e.
  destruct (f_table f !! e) as [fe|]; simpl; [|by rewrite app_nil_r]. intros Hl Hr.
  assert (Hboth : w_log (deliver (remotes fe) p (tx_remote f) (deliver (locals fe) (packet_of_wire p) tx_local w)) =
    w_log w ++ map (heard_ev (packet_of_wire p)) (locals fe) ++
      map (passed_ev p) (retain (fun link => negb (back_path f (wp_from p) link)) (remotes fe))).
  { rewrite !deliver_foldl, remotes_log, locals_log by done. by rewrite app_assoc. }
  destruct (locals fe), (remotes fe); exact Hboth.
Qed.

(** What a node does with a broadcast of its own. *)
Definition sent_ev (p : Packet) (wire : WirePacket) (h : FibForwardTo) : Event :=
  match h with FwdLocal tx => heard_ev p tx | FwdRemote link => passed_ev wire link end.

Lemma copies_log p wire hs : wire_of_packet p = Returns wire -> Forall (fun h => chan_open (hop_chan h)) hs ->
  forall w, exists w', foldm (send_copy p) w hs = Some w' /\ w_log w' = w_log w ++ map (sent_ev p wire) hs.
Proof.
  intros Hwire Hopen. induction Hopen as [|h hs Hh _ IH]; intros w; simpl; [exists w; by rewrite app_nil_r|].
  assert (exists w1, send_copy p w h = Some w1 /\ w_log w1 = w_log w ++ [sent_ev p wire h]) as (w1 & -> & Hw1).
  { destruct h as [tx|link]; simpl; rewrite ?Hwire; eexists; (split; [done|]);
      unfold try_send_client, try_send_node; unfold chan_open in Hh; simpl in Hh; by rewrite Hh. }
  destruct (IH w1) as (w' & -> & Hw'). exists w'. split; [done|]. by rewrite Hw', Hw1, <- app_assoc.
Qed.

Lemma send_log f p wire w hs :
  f_table f !! get_endpoint (p_to p) (f_our_id f) = Some (MultiCast hs) -> wire_of_packet p = Returns wire ->
  Forall (fun h => chan_open (hop_chan h)) hs ->
  exists w', fib_send f p w = Returns (inr tt, w') /\ w_log w' = w_log w ++ map (sent_ev p wire) hs.
Proof.
  intros Hf Hwire Hopen. destruct (copies_log p wire hs Hwire Hopen w) as (w' & Hw & Hl).
  exists w'. split; [|done]. unfold fib_send. by rewrite Hf, Hw.
Qed.

(** ** What listeners and the wire see of it *)
Lemma heard_inbox p tx ls : NoDup ls ->
  omap (client_message_to tx) (map (heard_ev p) ls) = if decide (tx ∈ ls) then [CmMessage p] else [].
Proof.
  induction 1 as [|tx' ls Hni _ IH]; [done|]. csimpl. unfold client_message_to at 1. csimpl.
  destruct (N.eqb_spec tx tx') as [<-|Hne].
  - rewrite IH, decide_False by done. by rewrite decide_True by left.
  - rewrite IH. do 2 case_decide; set_solver.
Qed.

Lemma passed_inbox p tx links : omap (client_message_to tx) (map (passed_ev p) links) = [].
Proof. by induction links. Qed.

Lemma sent_inbox p wire tx hs :
  omap (client_message_to tx) (map (sent_ev p wire) hs) = omap (client_message_to tx) (map (heard_ev p) (omap fwd_local hs)).
Proof. induction hs as [|[tx'|link] hs IH]; [done|..]; csimpl; [|done]. by rewrite IH. Qed.

Context (dest : ChanId -> option (NodeId * ConnectionId)).
Definition flights_over (p : WirePacket) (links : list Link) : list flight :=
  omap (fun link => (fun '(n, c) => (n, c, p)) <$> dest (l_tx link)) links.

Lemma heard_departs p ls : omap (departure dest) (map (heard_ev p) ls) = [].
Proof. by induction ls. Qed.

Lemma passed_departs p links : omap (departure dest) (map (passed_ev p) links) = flights_over p links.
Proof. induction links as [|link links IH]; [done|]. csimpl. unfold departure at 1. csimpl. by rewrite IH. Qed.

Lemma sent_departs p wire hs : omap (departure dest) (map (sent_ev p wire) hs) = flights_over wire (omap fwd_remote hs).
Proof. induction hs as [|[tx'|link] hs IH]; [done|..]; csimpl; [done|]. unfold departure at 1. csimpl. by rewrite IH. Qed.
End node.

(** * The tables *)
Section network.
Context `{Cd : Codec} `{E : !Env} `{!EnvLaws}.
Context (dest : ChanId -> option (NodeId * ConnectionId)).
Context (g : gmap NodeId (list Adjacency)) (dbs : NodeId -> LsDb) (F : NodeId -> ForwardingTable).
Hypothesis same_view : forall v, in_force g v (dbs v) (F v).
Hypothesis costs_positive : forall u v c, edge g u v c -> (0 < c)%N.
Hypothesis symmetric : forall u v c, edge g u v c -> edge g v u c.
Hypothesis no_ties : forall u n v1 c1 r1 v2 c2 r2,
  shortest g u n (c1 + r1) -> (c1 + r1 = c2 + r2)%N ->
  edge g u v1 c1 -> shortest g v1 n r1 -> edge g u v2 c2 -> shortest g v2 n r2 -> v1 = v2.
Hypothesis links_good : good_links dest dbs.

(** The listeners of the endpoint on each node, which every node knows of. *)
Context (e : EndpointId) (here : NodeId -> list ChanId).
Definition local_chans (routes : list LsRoute) : list ChanId :=
  omap (fun r => match r_via r with Local tx => Some tx | Remote _ => None end) routes.
Hypothesis entries : forall v, exists en, d_routes (dbs v) !! e = Some en /\ re_kind en = Broadcast /\
  local_chans (re_routes en) = here v /\
  forall n, (exists r, r ∈ re_routes en /\ r_via r = Remote n) <-> n <> v /\ here n <> [].
Hypothesis here_distinct : forall v, NoDup (here v).
Hypothesis here_open : forall v, Forall chan_open (here v).

Lemma locals_of_routes d routes w : omap fwd_local (broadcast_forwards d routes w) = local_chans routes.
Proof.
  rewrite broadcast_forwards_eq, omap_app.
  assert (forall ids, omap fwd_local (omap (fun n => FwdRemote <$> d_next_hop d !! n) ids) = []) as ->.
  { induction ids as [|n ids IH]; [done|]. csimpl. by destruct (d_next_hop d !! n). }
  rewrite app_nil_r. induction routes as [|r routes IH]; [done|]. unfold local_chans in *. csimpl. unfold local_sender at 1.
  destruct (r_via r); csimpl; by rewrite IH.
Qed.

(** What the table of a node says of the endpoint. *)
Lemma broadcast_table v :
  hear (F v) e = here v /\
  (forall link, link ∈ pass (F v) e <-> exists n, n <> v /\ here n <> [] /\ f_next_hop (F v) !! n = Some link) /\
  NoDup (l_peer_id <$> pass (F v) e) /\
  forall fe, f_table (F v) !! e = Some fe -> exists hs, fe = MultiCast hs.
Proof.
  destruct (table_fields g v _ _ (same_view v)) as (w & t & st & Hst & _ & _ & Hnh & Hnt & Ht).
  destruct (entries v) as (en & He & Hk & Hl & Hr). specialize (Ht e). rewrite He in Ht. unfold fib_entry_of in Ht. rewrite Hk in Ht.
  assert (Hhops : default [] (hops <$> f_table (F v) !! e) = broadcast_forwards t (re_routes en) w) by by rewrite Ht.
  assert (Hhear : hear (F v) e = omap fwd_local (broadcast_forwards t (re_routes en) w)).
  { rewrite <- Hhops. unfold hear. by destruct (f_table (F v) !! e). }
  assert (Hpass : pass (F v) e = omap fwd_remote (broadcast_forwards t (re_routes en) w)).
  { rewrite <- Hhops. unfold pass. by destruct (f_table (F v) !! e). }
  split_and!.
  - by rewrite Hhear, locals_of_routes.
  - intros link. rewrite Hpass, list_elem_of_omap. split.
    + intros ([tx|l] & Hin & Hl'); [done|]. injection Hl' as ->.
      apply elem_of_broadcast_remote in Hin as (n & (r & m & l0 & Hrr & Hv & Hm & <-)%elem_of_route_neighbours & Hn).
      assert (l0 = link) as ->.
      { rewrite Hnt in Hm, Hn. pose proof (spf_hop_fix _ _ _ _ _ _ Hst Hm) as Hfix. congruence. }
      exists m. destruct (proj1 (Hr m)) as [? ?]; [by exists r|]. rewrite Hnh, <- Hnt. done.
    + intros (n & Hne & Hn & Hlk). destruct (proj2 (Hr n) (conj Hne Hn)) as (r & Hin & Hv). exists (FwdRemote link).
      split; [|done]. rewrite Hnh, <- Hnt in Hlk. apply elem_of_broadcast_remote. exists (l_peer_id link).
      split; [apply elem_of_route_neighbours; by exists r, n, link|].
      rewrite Hnt in *. by apply (spf_hop_fix _ _ _ _ _ _ Hst Hlk).
  - unfold pass. rewrite Ht. destruct (broadcast_entry t (re_routes en) w) as [fe|] eqn:Hb; [|constructor].
    simpl. apply (remotes_broadcast t (re_routes en) w fe Hb). intros n link. rewrite Hnt. apply (spf_hop_fix _ _ _ _ _ _ Hst).
  - intros fe. rewrite Ht. unfold broadcast_entry. cbv zeta. destruct (_ ++ _); [done|]. intros [= <-]. by eexists.
Qed.

(** * The tree of cheapest paths to the sender *)
Context (a : NodeId).
Definition parent (m u : NodeId) : Prop := exists link, f_next_hop (F m) !! a = Some link /\ l_peer_id link = u.

Lemma parent_nearer m u : parent m u -> m <> a /\ exists d w,
  shortest g u a d /\ edge g m u w /\ shortest g m a (w + d) /\ (w + d < cost_max)%N.
Proof.
  intros (link & Hl & <-).
  destruct (hop_distance g m _ _ (same_view m) _ _ Hl) as (d & w & r & Hs & Hlt & Hne & _ & He & Hr & ->).
  split; [congruence|]. by exists r, w.
Qed.

Lemma parent_cycle m u : parent m u -> parent u m -> False.
Proof.
  intros (_ & d & w & Hu & He & Hm & _)%parent_nearer (_ & d' & w' & Hm' & He' & Hu' & _)%parent_nearer.
  pose proof (shortest_eq g _ _ _ _ Hm Hm'). pose proof (shortest_eq g _ _ _ _ Hu Hu').
  pose proof (costs_positive _ _ _ He). pose proof (costs_positive _ _ _ He'). lia.
Qed.

Lemma parent_one m u u' : parent m u -> parent m u' -> u = u'.
Proof. intros (l & Hl & <-) (l' & Hl' & <-). congruence. Qed.

(** A copy is accepted at the other end of a link exactly when that end is a child. *)
Lemma accepted_child u c link p :
  d_links (dbs u) !! c = Some link -> wp_from p = a ->
  exists c', dest (l_tx link) = Some (l_peer_id link, c') /\
    (accepts_from (F (l_peer_id link)) p c' = true <-> parent (l_peer_id link) u).
Proof.
  intros Hl Hfrom. destruct (links_good _ _ _ Hl) as (_ & _ & c' & back & Hd & Hback & Hpeer). exists c'. split; [done|].
  set (k := l_peer_id link) in *. unfold accepts_from. rewrite Hfrom, (table_self g k _ _ (same_view k)).
  pose proof (i_links _ (proj1 (same_view k)) _ _ Hback) as Hc. simpl in Hc. split.
  - destruct (decide (a = k)); [done|]. destruct (f_next_hop (F k) !! a) as [lk|] eqn:Hlk; [|done].
    intros Heq%N.eqb_eq. exists lk. split; [done|].
    destruct (hop_distance g k _ _ (same_view k) _ _ Hlk) as (_ & _ & _ & _ & _ & _ & Hlk' & _).
    rewrite Heq in Hlk'. congruence.
  - intros Hp. destruct (parent_nearer _ _ Hp) as [Hne _]. rewrite decide_False by congruence.
    destruct Hp as (lk & Hlk & Hlp). rewrite Hlk. apply N.eqb_eq.
    destruct (hop_distance g k _ _ (same_view k) _ _ Hlk) as (_ & _ & _ & _ & _ & _ & Hlk' & _).
    destruct (links_good _ _ _ Hback) as (_ & Hone & _). rewrite (Hone _ _ Hlk' ltac:(congruence)). done.
Qed.

(** On the way to a listener the next node is a child. *)
Lemma next_is_child v n d da link :
  shortest g v n d -> shortest g a v da -> shortest g a n (da + d) -> (da + d < cost_max)%N ->
  f_next_hop (F v) !! n = Some link ->
  parent (l_peer_id link) v /\ exists w r, shortest g (l_peer_id link) n r /\ shortest g a (l_peer_id link) (da + w) /\
    (0 < w)%N /\ d = (w + r)%N.
Proof.
  intros Hs Ha Hn Hmax Hl. set (m := l_peer_id link).
  destruct (hop_distance g v _ _ (same_view v) _ _ Hl) as (d' & w & r & Hs' & _ & _ & _ & He & Hr & ->).
  rewrite (shortest_eq g _ _ _ _ Hs Hs') in *. fold m in He, Hr. pose proof (costs_positive _ _ _ He) as Hw.
  pose proof (shortest_prefix g _ _ _ _ _ _ _ Ha He Hr Hn) as Ham. split; [|by exists w, r].
  assert (Hne : a <> m) by (intros ->; pose proof (shortest_eq g _ _ _ _ Ham (shortest_self g m)); lia).
  destruct (table_hop g m _ _ (same_view m) a (da + w)) as (lm & w1 & r1 & Hnh & _ & He1 & Hr1 & Heq1);
    [by apply (shortest_rev g symmetric)|lia|done|].
  exists lm. split; [done|]. apply (no_ties m a (l_peer_id lm) w1 r1 v w da); try done; [|lia| |].
  - rewrite <- Heq1. by apply (shortest_rev g symmetric).
  - by apply symmetric.
  - by apply (shortest_rev g symmetric).
Qed.

(** * A broadcast under way *)
Context (packet : Packet) (wire : WirePacket) (W : NodeId -> World).
Hypothesis packet_from : p_from packet = a.
Hypothesis packet_to : p_to packet = AddrEndpoint e.
Hypothesis packet_wire : wire_of_packet packet = Returns wire.

Lemma wire_fields : wp_from wire = a /\ wp_to wire = AddrEndpoint e.
Proof.
  revert packet_wire. unfold wire_of_packet. destruct (payload_bytes _) as [b|]; simpl; [|done]. intros [= <-]. simpl.
  by rewrite packet_from, packet_to.
Qed.

(** What the listeners of a node get. *)
Definition got (v : NodeId) : Packet := if decide (v = a) then packet else packet_of_wire wire.

Definition accepted_at (fl : flight) : bool := let '(m, c, p) := fl in accepts_from (F m) p c.
Definition under_way (net : Net) (m : NodeId) : Prop := exists c, (m, c, wire) ∈ net_wire net /\ accepted_at (m, c, wire) = true.

(** The nodes in [S] had the packet; each of their children that it is meant for has had it or is
    about to. *)
Record spread (S : gset NodeId) (net : Net) : Prop := {
  sp_start : a ∈ S;
  sp_inbox : forall v tx, inbox tx (net_world net v) =
    inbox tx (W v) ++ if decide (v ∈ S /\ tx ∈ here v) then [CmMessage (got v)] else [];
  sp_packet : forall m c p, (m, c, p) ∈ net_wire net -> p = wire;
  sp_new : forall m, under_way net m -> m ∉ S;
  sp_once : NoDup (map (fun fl : flight => fl.1.1) (retain accepted_at (net_wire net)));
  sp_parent : forall m, (m ∈ S /\ m <> a) \/ under_way net m -> exists u, parent m u /\ u ∈ S;
  sp_child : forall u n link, u ∈ S -> n <> u -> here n <> [] -> f_next_hop (F u) !! n = Some link ->
    parent (l_peer_id link) u -> l_peer_id link ∈ S \/ under_way net (l_peer_id link);
}.

(** The copies a node makes. *)
Lemma copies_spec u links fl :
  (forall link, link ∈ links -> link ∈ pass (F u) e) ->
  fl ∈ flights_over dest wire links <-> exists link c', link ∈ links /\ fl = (l_peer_id link, c', wire) /\
    dest (l_tx link) = Some (l_peer_id link, c') /\ (accepted_at fl = true <-> parent (l_peer_id link) u).
Proof.
  intros Hsub. unfold flights_over. rewrite list_elem_of_omap. split.
  - intros (link & Hin & Hfl). destruct (proj1 (proj1 (proj2 (broadcast_table u)) link) (Hsub link Hin)) as (n & _ & _ & Hn).
    destruct (hop_distance g u _ _ (same_view u) _ _ Hn) as (_ & _ & _ & _ & _ & _ & Hlk & _).
    destruct (accepted_child u _ link wire Hlk (proj1 wire_fields)) as (c' & Hd & Hacc).
    rewrite Hd in Hfl. injection Hfl as <-. by exists link, c'.
  - intros (link & c' & Hin & -> & Hd & _). exists link. split; [done|]. by rewrite Hd.
Qed.

Lemma copies_nodes u links :
  (forall link, link ∈ links -> link ∈ pass (F u) e) -> NoDup (l_peer_id <$> links) ->
  NoDup (map (fun fl : flight => fl.1.1) (flights_over dest wire links)).
Proof.
  intros Hsub Hnd. induction links as [|link links IH]; [constructor|]. apply NoDup_cons in Hnd as [Hni Hnd].
  assert (Hsub' : forall l, l ∈ links -> l ∈ pass (F u) e) by (intros l Hl; apply Hsub; by right).
  unfold flights_over. csimpl. destruct (dest (l_tx link)) as [[m c]|] eqn:Hd; [|by apply IH]. csimpl.
  apply NoDup_cons. split; [|by apply IH]. intros (fl & Heq & Hfl)%list_elem_of_fmap.
  apply (copies_spec u links fl Hsub') in Hfl as (l & c' & Hl & -> & _ & _). simpl in Heq.
  assert (m = l_peer_id link) as ->.
  { assert (Hin : (m, c, wire) ∈ flights_over dest wire [link]) by (unfold flights_over; csimpl; rewrite Hd; by left).
    apply (copies_spec u [link] _) in Hin as (l' & c1 & ->%list_elem_of_singleton & [= -> _] & _); [done|].
    intros l' ->%list_elem_of_singleton. apply Hsub. by left. }
  apply Hni. rewrite Heq. by apply list_elem_of_fmap_2.
Qed.

(** A packet that is not accepted is dropped. *)
Lemma drop_keeps S net (pre post : list flight) m c :
  spread S net -> net_wire net = pre ++ (m, c, wire) :: post -> accepts_from (F m) wire c = false ->
  spread S (mkNet (net_world net) (pre ++ post)).
Proof.
  intros I Hw Hacc. assert (Hsame : forall k, under_way (mkNet (net_world net) (pre ++ post)) k <-> under_way net k).
  { intros k. unfold under_way. rewrite Hw. cbn [net_wire]. split; intros (c' & Hin & Hk); exists c'; (split; [|done]).
    - set_solver.
    - apply elem_of_app in Hin as [Hin|[Heq|Hin]%elem_of_cons]; [set_solver| |set_solver].
      injection Heq as -> ->. simpl in Hk. congruence. }
  destruct I as [Is Ii Ip In Io Ipa Ic]. split; cbn [net_world net_wire]; try done.
  - intros k c' p Hin. apply (Ip k c'). rewrite Hw. set_solver.
  - intros k Hk%Hsame. by apply In.
  - rewrite Hw, retain_app, retain_cons in Io. unfold accepted_at at 2 in Io. rewrite Hacc in Io. by rewrite retain_app.
  - intros k Hk. apply Ipa. by rewrite <- Hsame.
  - intros u n link. rewrite Hsame. apply Ic.
Qed.

(** An accepted packet is heard by the listeners of the node and handed to its children. *)
Section accept.
Context (S : gset NodeId) (net : Net) (pre post : list flight) (m : NodeId) (c : ConnectionId).
Hypothesis inv : spread S net.
Hypothesis on_wire : net_wire net = pre ++ (m, c, wire) :: post.
Hypothesis accepted : accepts_from (F m) wire c = true.

Definition copies : list flight :=
  flights_over dest wire (retain (fun link => negb (back_path (F m) a link)) (pass (F m) e)).
Definition net_after (w' : World) : Net := mkNet (set_world m w' (net_world net)) (pre ++ post ++ copies).

Lemma was_under_way : under_way net m.
Proof. exists c. split; [rewrite on_wire; apply elem_of_app; right; by left | done]. Qed.

Lemma retained_pass link : link ∈ retain (fun link => negb (back_path (F m) a link)) (pass (F m) e) -> link ∈ pass (F m) e.
Proof. by intros [_ ?]%elem_of_retain. Qed.

Lemma m_fresh : (m ∉ S) /\ m <> a.
Proof.
  split; [exact (sp_new _ _ inv m was_under_way)|].
  destruct (sp_parent _ _ inv m (or_intror was_under_way)) as (u & Hp & _). apply (parent_nearer _ _ Hp).
Qed.

Lemma copies_accepted fl : fl ∈ copies -> accepted_at fl = true -> parent fl.1.1 m.
Proof. intros (link & c' & _ & -> & _ & Hacc)%(copies_spec m); [|exact retained_pass]. apply Hacc. Qed.

(** No child of [m] has had the packet or is about to. *)
Lemma children_fresh k : parent k m -> (k ∉ S) /\ ~ under_way net k.
Proof.
  intros Hp. assert (Hno : (k ∈ S) /\ k <> a \/ under_way net k -> False).
  { intros Hk. destruct (sp_parent _ _ inv k Hk) as (u & Hu & HS). rewrite (parent_one _ _ _ Hu Hp) in HS.
    by apply (proj1 m_fresh). }
  destruct (parent_nearer _ _ Hp) as [Hne _]. split; intros Hk; apply Hno; auto.
Qed.

Lemma once_parts :
  NoDup (map (fun fl : flight => fl.1.1) (retain accepted_at (pre ++ post))) /\
  m ∉ map (fun fl : flight => fl.1.1) (retain accepted_at (pre ++ post)).
Proof.
  pose proof (sp_once _ _ inv) as Ho. rewrite on_wire, retain_app, retain_cons in Ho.
  unfold accepted_at at 2 in Ho. rewrite accepted, map_app in Ho. cbn [map] in Ho.
  rewrite retain_app, map_app. apply NoDup_app in Ho as (H1 & H2 & [H3 H4]%NoDup_cons). split.
  - apply NoDup_app. split_and!; [done| |done]. intros k Hk Hk'. apply (H2 k Hk). by right.
  - rewrite elem_of_app. intros [Hk|Hk]; [apply (H2 _ Hk); by left | done].
Qed.

Lemma after_under_way w' k : under_way (net_after w') k -> (under_way net k /\ k <> m) \/ parent k m.
Proof.
  intros (c' & Hin & Hk). simpl in Hin. rewrite app_assoc in Hin. apply elem_of_app in Hin as [Hin|Hin].
  - left. split.
    + exists c'. split; [rewrite on_wire; set_solver | done].
    + intros ->. apply (proj2 once_parts). apply (list_elem_of_fmap_2' (fun fl : flight => fl.1.1) _ (m, c', wire)); [|done].
      by apply elem_of_retain.
  - right. exact (copies_accepted (k, c', wire) Hin Hk).
Qed.

Lemma before_under_way w' k : under_way net k -> k = m \/ under_way (net_after w') k.
Proof.
  intros (c' & Hin & Hk). rewrite on_wire in Hin. apply elem_of_app in Hin as [Hin|[Heq|Hin]%elem_of_cons].
  - right. exists c'. split; [simpl; set_solver | done].
  - left. by injection Heq.
  - right. exists c'. split; [simpl; set_solver | done].
Qed.

Lemma children_told w' n link :
  n <> m -> here n <> [] -> f_next_hop (F m) !! n = Some link -> parent (l_peer_id link) m ->
  under_way (net_after w') (l_peer_id link).
Proof.
  intros Hn Hh Hl Hp.
  assert (Hin : link ∈ retain (fun link => negb (back_path (F m) a link)) (pass (F m) e)).
  { apply elem_of_retain. split; [|apply (proj1 (proj2 (broadcast_table m))); by exists n].
    unfold back_path. destruct (f_next_hop (F m) !! a) as [fh|] eqn:Hf; [|done]. rewrite bool_decide_eq_false_2; [done|].
    intros Heq. apply (parent_cycle m (l_peer_id link)); [by exists fh | done]. }
  destruct (hop_distance g m _ _ (same_view m) _ _ Hl) as (_ & _ & _ & _ & _ & _ & Hlk & _).
  destruct (accepted_child m _ link wire Hlk (proj1 wire_fields)) as (c' & Hd & Hacc).
  exists c'. split; [|by apply Hacc]. simpl. rewrite app_assoc. apply elem_of_app. right.
  apply list_elem_of_omap. exists link. split; [done|]. by rewrite Hd.
Qed.

Lemma copies_once :
  NoDup (map (fun fl : flight => fl.1.1) (retain accepted_at (pre ++ post ++ copies))).
Proof.
  rewrite app_assoc, retain_app, map_app. apply NoDup_app. split; [apply once_parts|]. split.
  - intros k (fl & -> & Hfl)%list_elem_of_fmap (fl' & Heq & [Hacc' Hfl']%elem_of_retain)%list_elem_of_fmap.
    pose proof (copies_accepted fl' Hfl' Hacc') as Hp. rewrite <- Heq in Hp.
    apply (proj2 (children_fresh _ Hp)). apply elem_of_retain in Hfl as [Hacc Hfl].
    destruct fl as [[k c1] p]. assert (Hw : (k, c1, p) ∈ net_wire net) by (rewrite on_wire; set_solver).
    pose proof (sp_packet _ _ inv _ _ _ Hw) as ->. exists c1. done.
  - eapply sublist_NoDup; [|apply fmap_sublist, retain_sublist].
    apply (copies_nodes m); [exact retained_pass|]. eapply sublist_NoDup; [apply (broadcast_table m)|].
    apply fmap_sublist, retain_sublist.
Qed.

Lemma accept_keeps w' :
  w_log w' = w_log (net_world net m) ++ map (heard_ev (packet_of_wire wire)) (here m) ++
    map (passed_ev wire) (retain (fun link => negb (back_path (F m) a link)) (pass (F m) e)) ->
  spread ({[m]} ∪ S) (net_after w').
Proof.
  intros Hlog. destruct m_fresh as [HmS Hma]. split.
  - apply elem_of_union_r, (sp_start _ _ inv).
  - intros v tx. simpl. unfold set_world. destruct (decide (v = m)) as [->|Hv].
    + unfold inbox at 1. rewrite Hlog, !omap_app, heard_inbox, passed_inbox, app_nil_r by apply here_distinct.
      fold (inbox tx (net_world net m)). rewrite (sp_inbox _ _ inv), decide_False, app_nil_r by by intros [? _].
      f_equal. unfold got. rewrite (decide_False (P := m = a)) by done. do 2 case_decide; set_solver.
    + rewrite (sp_inbox _ _ inv). f_equal. do 2 case_decide; set_solver.
  - intros k c' p. simpl. rewrite app_assoc. intros [Hin|Hin]%elem_of_app.
    + apply (sp_packet _ _ inv k c'). rewrite on_wire. set_solver.
    + apply (copies_spec m) in Hin as (link & c1 & _ & [= _ _ ->] & _); [done | exact retained_pass].
  - intros k [[Hk Hne]|Hk]%after_under_way.
    + pose proof (sp_new _ _ inv k Hk). set_solver.
    + destruct (children_fresh k Hk) as [? _]. intros [->%elem_of_singleton|?]%elem_of_union; [|done].
      by apply (parent_cycle m m).
  - exact copies_once.
  - intros k [[Hin Hne]|[[Hk _]|Hk]%after_under_way].
    + apply elem_of_union in Hin as [->%elem_of_singleton|Hin].
      * destruct (sp_parent _ _ inv m (or_intror was_under_way)) as (u & Hp & HS). exists u. split; [done|set_solver].
      * destruct (sp_parent _ _ inv k (or_introl (conj Hin Hne))) as (u & Hp & HS). exists u. split; [done|set_solver].
    + destruct (sp_parent _ _ inv k (or_intror Hk)) as (u & Hp & HS). exists u. split; [done|set_solver].
    + exists m. split; [done|set_solver].
  - intros u n link [->%elem_of_singleton|Hu]%elem_of_union Hn Hh Hl Hp; [right; by apply (children_told _ n)|].
    destruct (sp_child _ _ inv u n link Hu Hn Hh Hl Hp) as [Hin|Hk]; [left; set_solver|].
    destruct (before_under_way w' _ Hk) as [->|?]; [left; set_solver | by right].
Qed.
End accept.

(** ** Steps, the start and the end *)
Lemma good_links_back : links_back dest dbs.
Proof.
  intros v c link m c' Hl Hd. destruct (links_good v c link Hl) as (_ & _ & c1 & back & Hd1 & Hb & Hp).
  rewrite Hd in Hd1. injection Hd1 as -> ->. by exists back.
Qed.

Lemma links_open v : Forall (fun link => chan_open (l_tx link)) (pass (F v) e).
Proof.
  apply Forall_forall. intros link (n & _ & _ & Hn)%(proj1 (proj2 (broadcast_table v))).
  destruct (hop_distance g v _ _ (same_view v) _ _ Hn) as (_ & _ & _ & _ & _ & _ & Hlk & _).
  by destruct (links_good _ _ _ Hlk).
Qed.

Lemma step_spreads S net net' : spread S net -> net_step F dest net net' -> exists S', spread S' net'.
Proof.
  intros I Hstep. destruct Hstep as [m c p Wn pre post]. assert (p = wire) as ->.
  { apply (sp_packet _ _ I m c). simpl. apply elem_of_app. right. by left. }
  set (net := mkNet Wn (pre ++ (m, c, wire) :: post)) in *. destruct wire_fields as [Hfrom Hto].
  destruct (accepts_from (F m) wire c) eqn:Hacc.
  - exists ({[m]} ∪ S). pose proof (proj1 (broadcast_table m)) as Hhear.
    pose proof (forward_log (F m) wire c (Wn m)) as Hlog. cbn zeta in Hlog.
    rewrite Hto, Hfrom in Hlog. simpl in Hlog. rewrite Hhear in Hlog. specialize (Hlog Hacc (here_open m) (links_open m)).
    rewrite (news_app _ _ _ Hlog), omap_app, heard_departs, passed_departs.
    by apply (accept_keeps S net pre post m c I eq_refl Hacc).
  - exists S. assert (Hw : fib_forward_packet (F m) wire c (Wn m) = Wn m) by (unfold fib_forward_packet; by rewrite Hacc).
    rewrite Hw. unfold news. rewrite drop_all. simpl. rewrite app_nil_r.
    pose proof (drop_keeps S net pre post m c I eq_refl Hacc) as [Is Ii Ip In Io Ipa Ic].
    split; try done. intros v tx. simpl. unfold set_world. destruct (decide (v = m)) as [->|]; apply Ii.
Qed.

Definition within (n : NodeId) : Prop := exists d, shortest g a n d /\ (d < cost_max)%N.

(** Somebody listens within reach. *)
Lemma broadcast_known : (exists n, here n <> [] /\ within n) ->
  exists hs, f_table (F a) !! e = Some (MultiCast hs) /\ omap fwd_local hs = here a /\ omap fwd_remote hs = pass (F a) e.
Proof.
  intros (n & Hn & D & Hs & HD). destruct (broadcast_table a) as (Hhear & Hpass & _ & Hmulti).
  destruct (f_table (F a) !! e) as [fe|] eqn:Hfe.
  - destruct (Hmulti fe eq_refl) as [hs ->]. exists hs. unfold hear, pass in *. rewrite Hfe in *. done.
  - exfalso. destruct (decide (n = a)) as [->|Hne].
    + apply Hn. rewrite <- Hhear. unfold hear. by rewrite Hfe.
    + destruct (table_hop g a _ _ (same_view a) n D Hs HD Hne) as (link & _ & _ & Hl & _).
      assert (Hin : link ∈ pass (F a) e) by (apply Hpass; by exists n).
      unfold pass in Hin. rewrite Hfe in Hin. by apply elem_of_nil in Hin.
Qed.

Lemma start_spreads hs w' :
  w_log w' = w_log (W a) ++ map (sent_ev packet wire) hs -> omap fwd_local hs = here a ->
  spread {[a]} (mkNet (set_world a w' W) (flights_over dest wire (pass (F a) e))).
Proof.
  intros Hlog Hhs. set (net := mkNet _ _).
  assert (Hchild : forall k, under_way net k -> parent k a).
  { intros k (c & Hin & Hk). apply (copies_spec a) in Hin as (link & c' & _ & [= -> ->] & _ & Hacc); [|done]. by apply Hacc. }
  split.
  - by apply elem_of_singleton.
  - intros v tx. simpl. unfold set_world. destruct (decide (v = a)) as [->|Hv].
    + unfold inbox at 1. rewrite Hlog, omap_app, sent_inbox, Hhs, heard_inbox by apply here_distinct.
      fold (inbox tx (W a)). f_equal. unfold got. rewrite (decide_True (P := a = a)) by done. do 2 case_decide; set_solver.
    + rewrite decide_False, app_nil_r by set_solver. done.
  - intros k c p Hin. apply (copies_spec a) in Hin as (link & c' & _ & [= _ _ ->] & _); done.
  - intros k Hk%Hchild ->%elem_of_singleton. by apply (parent_cycle a a).
  - eapply sublist_NoDup; [|apply fmap_sublist, retain_sublist]. apply (copies_nodes a); [done|]. apply (broadcast_table a).
  - intros k [[->%elem_of_singleton ?]|Hk%Hchild]; [done|]. exists a. split; [done|by apply elem_of_singleton].
  - intros u n link ->%elem_of_singleton Hn Hh Hl Hp. right.
    destruct (hop_distance g a _ _ (same_view a) _ _ Hl) as (_ & _ & _ & _ & _ & _ & Hlk & _).
    destruct (accepted_child a _ link wire Hlk (proj1 wire_fields)) as (c' & Hd & Hacc).
    exists c'. split; [|by apply Hacc]. apply list_elem_of_omap. exists link.
    split; [apply (broadcast_table a); by exists n | by rewrite Hd].
Qed.

(** When nothing is under way any more every listener within reach has the packet. *)
Lemma rest_spread S net n : spread S net -> net_wire net = [] -> here n <> [] ->
  forall d v da, v ∈ S -> shortest g a v da -> shortest g v n d -> shortest g a n (da + d) -> (da + d < cost_max)%N -> n ∈ S.
Proof.
  intros I Hwire Hn. induction d as [d IH] using (well_founded_induction N.lt_wf_0). intros v da Hv Ha Hs HD Hmax.
  destruct (decide (n = v)) as [->|Hne]; [done|].
  destruct (table_hop g v _ _ (same_view v) n d Hs ltac:(lia) Hne) as (link & _ & _ & Hl & _).
  destruct (next_is_child v n d da link Hs Ha HD Hmax Hl) as (Hp & w & r & Hr & Ham & Hw & ->).
  destruct (sp_child _ _ I v n link Hv Hne Hn Hl Hp) as [Hin|(c & Hin & _)].
  - apply (IH r ltac:(lia) (l_peer_id link) (da + w)%N Hin Ham Hr); rewrite <- N.add_assoc; done.
  - rewrite Hwire in Hin. by apply elem_of_nil in Hin.
Qed.

Lemma spread_within S net v : spread S net -> v ∈ S -> within v.
Proof.
  intros I Hv. destruct (decide (v = a)) as [->|Hne].
  - exists 0%N. split; [apply shortest_self | done].
  - destruct (sp_parent _ _ I v (or_introl (conj Hv Hne))) as (u & Hp & _).
    destruct (parent_nearer v u Hp) as (_ & d & w & _ & _ & Hs & Hlt). exists (w + d)%N.
    split; [by apply (shortest_rev g symmetric) | done].
Qed.

(** C4: a broadcast reaches everyone, once: in a network with unique symmetric cheapest paths whose
    nodes published their tables from the same advertisements, a packet that a client hands to its
    node is copied from node to node; the copying ends, in whatever order the copies arrive, and
    once nothing is under way any more every listener of the address on every node within reach
    has been given the packet exactly once, and nobody else anything. *)
Theorem broadcast_reaches_everyone :
  (exists n, here n <> [] /\ within n) ->
  exists net, net_send F dest a packet (mkNet W []) (inr tt) net /\
  Acc (fun net' net => net_step F dest net net') net /\
  forall net', rtc (net_step F dest) net net' -> net_wire net' = [] -> forall v tx,
    (tx ∈ here v -> within v -> inbox tx (net_world net' v) = inbox tx (W v) ++ [CmMessage (got v)]) /\
    (tx ∉ here v \/ ~ within v -> inbox tx (net_world net' v) = inbox tx (W v)).
Proof.
  intros Hsome. destruct (broadcast_known Hsome) as (hs & Hfe & Hlocal & Hremote).
  assert (Hopen : Forall (fun h => chan_open (hop_chan h)) hs).
  { apply Forall_forall. intros [tx|link] Hin; simpl.
    - apply (proj1 (Forall_forall _ _) (here_open a)). rewrite <- Hlocal. apply list_elem_of_omap. by exists (FwdLocal tx).
    - apply (proj1 (Forall_forall _ _) (links_open a)). rewrite <- Hremote. apply list_elem_of_omap. by exists (FwdRemote link). }
  assert (Hentry : f_table (F a) !! get_endpoint (p_to packet) (f_our_id (F a)) = Some (MultiCast hs)) by by rewrite packet_to.
  destruct (send_log (F a) packet wire (W a) hs Hentry packet_wire Hopen) as (w' & Hsend & Hlog).
  exists (mkNet (set_world a w' W) (flights_over dest wire (pass (F a) e))). split.
  { rewrite <- Hremote, <- sent_departs with (p := packet), <- (news_app _ _ _ Hlog). by apply (net_sent F dest a packet W []). }
  split.
  { apply (runs_end dest F), at_rest_all, Forall_forall. intros fl _.
    exact (every_flight_spent dest g dbs F same_view costs_positive good_links_back fl). }
  intros net' Hrun. assert (Hinv : exists S, spread S net').
  { assert (Hstart : exists S, spread S (mkNet (set_world a w' W) (flights_over dest wire (pass (F a) e))))
      by (eexists; exact (start_spreads hs w' Hlog Hlocal)).
    revert Hstart. clear Hsend Hlog. induction Hrun as [|net net1 net' Hs _ IH]; [done|]. intros [S I].
    apply IH. by eapply step_spreads. }
  destruct Hinv as [S I]. intros Hwire v tx. rewrite (sp_inbox _ _ I). split.
  - intros Htx (D & HD & Hmax). rewrite decide_True; [done|]. split; [|done].
    apply (rest_spread S net' v I Hwire) with (d := D) (v := a) (da := 0%N); try done.
    + intros Hno. rewrite Hno in Htx. by apply elem_of_nil in Htx.
    + apply (sp_start _ _ I).
    + apply shortest_self.
  - intros Hno. rewrite decide_False, app_nil_r; [done|]. intros [Hv Htx].
    destruct Hno as [Hno|Hno]; [done|]. apply Hno. by eapply spread_within.
Qed.
End network.
