(* ===== verification/Router.v ===== *)
(** [src/routing/router.rs]: the router task. It owns the link-state database,
    serves its mailbox and publishes a new forwarding table after every change. *)
From Stdlib Require Import Strings.String.
From S2P Require Import Prelude Types Messages World RouteTable Linkstate LsDb Fib.

(** * State *)
Record Router := mkRouter {
  r_anybus_id : NodeId;
  r_lsdb : LsDb;
  r_fib : ForwardingTable;
}.

Inductive State :=
  | Start
  | Listen
  | HandleBrokerMsg (m : RouterMsg)
  | RegisterEndpoint (r : RegistrationRequest)
  | RouteChange (notify : option RegistrationRequest)
  | Tick
  | Shutdown.

(** What ends the wait of [Listen]: the mailbox ([None] when it is closed) or the timer. *)
Inductive Wakeup :=
  | WakeMsg (m : option RouterMsg)
  | WakeTimer.

Section with_env.
Context `{Cd : Codec} `{E : !Env}.

Definition router_new (node_id : NodeId) (w : World) : Router * World :=
  let '(lsdb, w) := lsdb_new node_id w in
  (mkRouter node_id lsdb (fib_new node_id), w).

Definition set_lsdb (d : LsDb) (r : Router) : Router := mkRouter (r_anybus_id r) d (r_fib r).

(** [Listen]. *)
Definition listen (wake : Wakeup) : State :=
  match wake with
  | WakeMsg None => Shutdown
  | WakeMsg (Some msg) => HandleBrokerMsg msg
  | WakeTimer => Tick
  end.

(** [RouterMsg::SetAnycastCost]. *)
Definition handle_set_anycast_cost (endpoint_id : EndpointId) (sender : ChanId) (cost : N)
    (reply_tx : ChanId) (r : Router) (w : World) : State * Router * World :=
  let '(res, d) := lsdb_set_anycast_cost endpoint_id sender cost (r_lsdb r) in
  match res with
  | inr Unchanged => (Listen, set_lsdb d r, reply reply_tx (inr tt) w)
  | inr (Changed previous new advertise) =>
      let w := reply reply_tx (inr tt) w in
      let '(d, w) :=
        match advertise with
        | Some min_cost => update_endpoint_cost endpoint_id min_cost d w
        | None => (d, w)
        end in
      (RouteChange None, set_lsdb d r, w)
  | inl e => (Listen, set_lsdb d r, reply reply_tx (inl e) w)
  end.

(** [HandleBrokerMsg]. *)
Definition handle_broker_msg (m : RouterMsg) (r : Router) (w : World)
    : Outcome (State * Router * World) :=
  match m with
  | RmRegisterEndpoint request => Returns (RegisterEndpoint request, r, w)
  | RmDeadLink endpoint_id =>
      let '(d, w) := lsdb_remove_endpoint endpoint_id (r_lsdb r) w in
      Returns (RouteChange None, set_lsdb d r, w)
  | RmRegisterPeer peer_id connection_id peer_tx cost realms =>
      let link := mkLink peer_tx peer_id connection_id realms cost false false in
      let '(d, w) := add_peer link (r_lsdb r) w in
      Returns (RouteChange None, set_lsdb d r, w)
  | RmUnRegisterPeer connection_id =>
      outcome_bind (remove_peer connection_id (r_lsdb r) w) (fun '(d, w) =>
        Returns (RouteChange None, set_lsdb d r, w))
  | RmLsaInbound from lsa =>
      outcome_bind (handle_lsa lsa from (r_lsdb r) w) (fun '(d, w) =>
        Returns (RouteChange None, set_lsdb d r, w))
  | RmLsaAckInbound from key seq =>
      Returns (Listen, set_lsdb (handle_ack from key seq (r_lsdb r)) r, w)
  | RmSetAnycastCost endpoint_id sender cost reply_tx =>
      Returns (handle_set_anycast_cost endpoint_id sender cost reply_tx r w)
  | RmShutdown => Returns (Shutdown, r, w)
  end.

(** [RouteChange]: the new table is published before the listener is told. *)
Definition route_change (notify : option RegistrationRequest) (r : Router) (w : World)
    : Outcome (Router * World) :=
  outcome_bind (build_fib (r_lsdb r) w) (fun '(d, fib_table) =>
    let r := mkRouter (r_anybus_id r) d fib_table in
    match notify with
    | Some request =>
        Returns (r, (try_send_client (rr_sender request)
                       (CmSuccessfulRegistration (rr_endpoint_id request)) w).2)
    | None => Returns (r, w)
    end).

(** [State::next]. *)
Definition next (s : State) (wake : Wakeup) (r : Router) (w : World)
    : Outcome (option State * Router * World) :=
  match s with
  | Start => Returns (Some Listen, r, w)
  | Listen => Returns (Some (listen wake), r, w)
  | HandleBrokerMsg m =>
      outcome_bind (handle_broker_msg m r w) (fun '(s, r, w) => Returns (Some s, r, w))
  | RegisterEndpoint request =>
      let '(res, (d, w)) := lsdb_add_endpoint request (r_lsdb r) w in
      match res with
      | inr _ => Returns (Some (RouteChange (Some request)), set_lsdb d r, w)
      | inl _ => Returns (Some Listen, set_lsdb d r, w)
      end
  | Shutdown =>
      let '(d, w) := lsdb_shutdown (r_lsdb r) w in
      Returns (None, set_lsdb d r, w)
  | RouteChange notify =>
      outcome_bind (route_change notify r w) (fun '(r, w) => Returns (Some Listen, r, w))
  | Tick =>
      outcome_bind (tick (r_lsdb r) w) (fun '(rebuild, (d, w)) =>
        Returns (Some (if rebuild then RouteChange None else Listen), set_lsdb d r, w))
  end.

(** The loop of [Router::start] from a state other than [Listen] until it waits again or ends;
    only [Listen] looks at what wakes it. *)
Fixpoint settle (fuel : nat) (s : State) (r : Router) (w : World)
    : Outcome (option State * Router * World) :=
  match fuel with
  | O => Returns (Some s, r, w)
  | S fuel =>
      outcome_bind (next s WakeTimer r w) (fun '(o, r, w) =>
        match o with
        | None | Some Listen => Returns (o, r, w)
        | Some s => settle fuel s r w
        end)
  end.

(** One step of [Router::start], and the configurations it reaches. *)
Inductive router_step : (option State * Router * World) -> (option State * Router * World) -> Prop :=
  | router_step_next s wake r w c :
      next s wake r w = Returns c -> router_step (Some s, r, w) c.
End with_env.
