(* ===== verification/RouterProofs.v ===== *)
(** The router task as a whole: its reachable configurations, the invariant they
    share, and what follows for panics, for what leaves the node and for the
    forwarding table clients see. *)
From Stdlib Require Import Strings.String.
From S2P Require Import Prelude Types Messages World RouteTable Linkstate Spf SpfProofs LsDb.
From S2P Require Import LsDbProofs Advertise Fib FibProofs Router.

(** * Admissible inputs *)

(** A connection is registered once, and no endpoint is a multicast one: the counter
    of connections hands out fresh identifiers until it wraps, and nothing in the
    client interface asks for [Multicast]. *)
Definition msg_ok `{Codec} (d : LsDb) (m : RouterMsg) : Prop :=
  match m with
  | RmRegisterEndpoint rq => ei_kind (rr_endpoint_info rq) <> Multicast
  | RmRegisterPeer _ c _ _ _ => d_links d !! c = None
  | RmLsaInbound _ lsa => not_multicast lsa
  | _ => True
  end.

Definition wake_ok `{Codec} (d : LsDb) (wake : Wakeup) : Prop :=
  match wake with WakeMsg (Some m) => msg_ok d m | _ => True end.

(** The published table agrees with the database on neighbours and next hops. *)
Definition fib_fresh (r : Router) : Prop :=
  f_our_id (r_fib r) = d_self_id (r_lsdb r) /\
  f_links (r_fib r) = d_links (r_lsdb r) /\ f_next_hop (r_fib r) = d_next_hop (r_lsdb r).

Definition state_ok `{Codec} (s : State) (r : Router) : Prop :=
  match s with
  | Start | Listen | Tick | Shutdown => fib_fresh r
  | HandleBrokerMsg m => fib_fresh r /\ msg_ok (r_lsdb r) m
  | RegisterEndpoint rq => fib_fresh r /\ ei_kind (rr_endpoint_info rq) <> Multicast
  | RouteChange _ => True
  end.

Definition config_ok `{Codec} (c : option State * Router * World) : Prop :=
  match c with
  | (Some s, r, _) => lsdb_inv (r_lsdb r) /\ state_ok s r
  | (None, _, _) => True
  end.

Section router.
Context `{Cd : Codec} `{E : !Env} `{!EnvLaws}.

(** The configurations of [Router::start]. *)
Inductive reachable (node_id : NodeId) : option State * Router * World -> Prop :=
  | reachable_start w : reachable node_id (Some Start, (router_new node_id w).1, (router_new node_id w).2)
  | reachable_step s wake r w c :
      reachable node_id (Some s, r, w) -> wake_ok (r_lsdb r) wake ->
      next s wake r w = Returns c -> reachable node_id c.

(** Events over the links of the database before or after a step. *)
Definition confined (r r' : Router) (ev : Event) : Prop :=
  ev_fits (d_links (r_lsdb r)) ev \/ ev_fits (d_links (r_lsdb r')) ev.

Definition step_ok (r : Router) (w : World) (c : option State * Router * World) : Prop :=
  config_ok c /\ emits (confined r c.1.2) w c.2.

Lemma confined_well_behaved r r' w w' :
  emits (ev_fits (d_links (r_lsdb r))) w w' -> emits (confined r r') w w'.
Proof. apply emits_weaken. intros ev ?. by left. Qed.

(** A step that hands a new database to [RouteChange]. *)
Lemma step_ok_rebuild r w d' w' notify :
  lsdb_inv (r_lsdb r) -> well_behaved (r_lsdb r, w) (d', w') ->
  step_ok r w (Some (RouteChange notify), set_lsdb d' r, w').
Proof.
  intros I (HI & _ & _ & Hem). split; [split; [by apply HI | done]|]. by apply confined_well_behaved.
Qed.

(** A step that leaves the published table alone. *)
Lemma step_ok_listen r w d' w' :
  lsdb_inv (r_lsdb r) -> fib_fresh r -> well_behaved (r_lsdb r, w) (d', w') ->
  d_next_hop d' = d_next_hop (r_lsdb r) ->
  step_ok r w (Some Listen, set_lsdb d' r, w').
Proof.
  intros I (F1 & F2 & F3) (HI & Hs & Hl & Hem) Hn. simpl in *.
  split; [split; [by apply HI|]|by apply confined_well_behaved].
  split; [|split]; simpl; congruence.
Qed.

Lemma upd_set_anycast_ok e sender c tx r w :
  lsdb_inv (r_lsdb r) -> fib_fresh r ->
  let '(s, r', w') := handle_set_anycast_cost e sender c tx r w in step_ok r w (Some s, r', w').
Proof.
  intros I Hf. unfold handle_set_anycast_cost.
  pose proof (lsdb_set_anycast_cost_ok e sender c (r_lsdb r) w I) as Hd.
  assert (Hreply : forall d x, well_behaved (d, w) (d, reply tx x w)).
  { intros d x. split; [done|]. split; [done|]. split; [done|]. by apply emits_log. }
  assert (Hnh : d_next_hop (lsdb_set_anycast_cost e sender c (r_lsdb r)).2 = d_next_hop (r_lsdb r)).
  { unfold lsdb_set_anycast_cost. by destruct (set_anycast_cost _ _ _ _). }
  destruct (lsdb_set_anycast_cost _ _ _ _) as [res d]. simpl in *.
  destruct res as [err|[|previous new advertise]].
  - apply step_ok_listen; try done. etrans; [exact Hd | apply Hreply].
  - apply step_ok_listen; try done. etrans; [exact Hd | apply Hreply].
  - set (s := match advertise with Some _ => _ | None => _ end).
    assert (Hs : well_behaved (r_lsdb r, w) s).
    { etrans; [exact Hd|]. etrans; [apply (Hreply d (inr tt))|]. unfold s.
      destruct advertise; [apply update_endpoint_cost_ok | reflexivity]. }
    destruct s as [d' w']. by apply step_ok_rebuild.
Qed.

Lemma add_peer_step_ok link r w :
  lsdb_inv (r_lsdb r) -> d_links (r_lsdb r) !! l_connection_id link = None ->
  let s' := add_peer link (r_lsdb r) w in
  step_ok r w (Some (RouteChange None), set_lsdb s'.1 r, s'.2).
Proof.
  intros I Hn s'. destruct (add_peer_ok link (r_lsdb r) w I Hn) as (I' & _ & _ & Hem).
  split; [done|]. eapply emits_weaken; [|exact Hem]. intros ev Hev. by right.
Qed.

Lemma handle_broker_msg_ok m r w :
  lsdb_inv (r_lsdb r) -> fib_fresh r -> msg_ok (r_lsdb r) m ->
  exists s r' w', handle_broker_msg m r w = Returns (s, r', w') /\ step_ok r w (Some s, r', w').
Proof.
  intros I Hf Hm. destruct m as [rq|e|peer c tx cost realms|c|c lsa|c key seq|e sender c tx|]; simpl in *.
  - do 3 eexists. split; [done|]. split; [done | apply emits_refl].
  - pose proof (lsdb_remove_endpoint_ok e (r_lsdb r) w I) as Hs.
    destruct (lsdb_remove_endpoint _ _ _) as [d' w']. do 3 eexists. split; [done|]. by apply step_ok_rebuild.
  - set (link := mkLink _ _ _ _ _ _ _). pose proof (add_peer_step_ok link r w I Hm) as Hs.
    destruct (add_peer link _ w) as [d' w']. by do 3 eexists.
  - destruct (remove_peer_ok c (r_lsdb r) w I) as ([d' w'] & -> & I' & _ & _ & Hem).
    do 3 eexists. split; [done|]. split; [done|]. by apply confined_well_behaved.
  - destruct (handle_lsa_ok lsa c (r_lsdb r) w I Hm) as ([d' w'] & -> & Hs).
    do 3 eexists. split; [done|]. by apply step_ok_rebuild.
  - do 3 eexists. split; [done|]. apply step_ok_listen; try done; [apply handle_ack_ok|].
    unfold handle_ack. by destruct (_ !! _).
  - pose proof (upd_set_anycast_ok e sender c tx r w I Hf) as Hs.
    destruct (handle_set_anycast_cost _ _ _ _ _ _) as [[s r'] w']. by do 3 eexists.
  - do 3 eexists. split; [done|]. split; [done | apply emits_refl].
Qed.

Lemma route_change_ok notify r w :
  lsdb_inv (r_lsdb r) ->
  exists r' w', route_change notify r w = Returns (r', w') /\ step_ok r w (Some Listen, r', w').
Proof.
  intros I. unfold route_change. destruct (build_fib_ok (r_lsdb r) w I) as (d' & fib & -> & Hs & _ & Hb).
  apply build_from_db_spec in Hb as (Hid & Hlinks & Hnh & _).
  destruct Hs as (I' & Hself & Hl & Hem). simpl in *.
  set (r' := mkRouter _ d' fib).
  assert (Hok : config_ok (Some Listen, r', w)) by (split; [by apply I' | done]).
  destruct notify as [rq|]; do 2 eexists; (split; [done|]); (split; [done|]).
  - simpl. apply emits_client. intros ?. by left.
  - apply emits_refl.
Qed.

(** A tick that does not ask for a rebuild did not touch the next hops. *)
Lemma tick_false_next_hop d w d' w' :
  tick d w = Returns (false, (d', w')) -> d_next_hop d' = d_next_hop d.
Proof.
  unfold tick. simpl. set (w1 := mkWorld _ _). set (d1 := set_last_tick _ d).
  set (res := if N.ltb _ _ then _ else _). intros Ht.
  assert (exists d2 w2, res = Returns (d2, w2) /\ d' = d2 /\ d_rebuild_requested d2 = None)
    as (d2 & w2 & Hres & -> & Hnone).
  { destruct res as [[d2 w2]|]; [|done]. simpl in Ht.
    destruct (d_rebuild_requested d2) eqn:Hr; [done|]. injection Ht as <- <-. by exists d2, w2. }
  unfold res in Hres. destruct (N.ltb _ _); [|by injection Hres as <- _].
  unfold refresh_and_purge_lsas in Hres. cbn [read_clock] in Hres.
  set (to_flood := map _ _) in Hres. set (d3 := set_db _ d1) in Hres. set (w3 := mkWorld _ _) in Hres.
  assert (Hfr : frame d3 (foldl (fun s lsa => flood_all_neighbors lsa None s.1 s.2) (d3, w3) to_flood).1).
  { apply (foldl_invariant (fun s => frame d3 s.1)); [|reflexivity]. intros [d4 w4] lsa _ Hs.
    etrans; [exact Hs|]. cbn [fst snd]. destruct (flood_all_neighbors lsa None d4 w4) as [d5 w5] eqn:Hf.
    apply flood_spec in Hf as [Hf _]. exact Hf. }
  destruct (foldl _ _ to_flood) as [d4 w4]. simpl in Hfr.
  assert (Hn4 : d_next_hop d4 = d_next_hop d) by (by rewrite Hfr).
  unfold purge_stale_lsas in Hres. destruct (peek_stale _ _ _) as [[k|] w5].
  - destruct (compute_spf _ _ _) as [d6|]; [|done]. cbn [outcome_bind] in Hres.
    destruct (request_rebuild d6 w5) as [d7 w7] eqn:Hrb.
    destruct (request_rebuild_spec _ _ _ _ Hrb) as (_ & [i Hi] & _).
    cbn [outcome_bind read_clock] in Hres. injection Hres as <- _. simpl in Hnone. congruence.
  - cbn [outcome_bind read_clock] in Hres. by injection Hres as <- _.
Qed.

Lemma next_ok s wake r w :
  config_ok (Some s, r, w) -> wake_ok (r_lsdb r) wake ->
  exists c, next s wake r w = Returns c /\ step_ok r w c.
Proof.
  intros [I Hs] Hwake. destruct s as [| |m|rq|notify| |]; simpl in Hs.
  - eexists. split; [done|]. split; [done | apply emits_refl].
  - eexists. split; [done|]. split; [|apply emits_refl]. split; [done|].
    destruct wake as [[m|]|]; simpl; done.
  - destruct Hs as [Hf Hm]. destruct (handle_broker_msg_ok m r w I Hf Hm) as (s & r' & w' & Hh & Hok).
    simpl. rewrite Hh. by eexists.
  - destruct Hs as [Hf Hk]. simpl.
    pose proof (lsdb_add_endpoint_ok rq (r_lsdb r) w Hk I) as Hd.
    destruct (lsdb_add_endpoint rq (r_lsdb r) w) as [[u|u] [d' w']] eqn:Ha; simpl in Hd.
    + eexists. split; [done|]. apply step_ok_listen; try done. unfold lsdb_add_endpoint in Ha.
      destruct (add_endpoint _ _ _ _) as [[e|eff] t]; [|done]. by injection Ha as _ <- _.
    + eexists. split; [done|]. by apply step_ok_rebuild.
  - destruct (route_change_ok notify r w I) as (r' & w' & Hr & Hok). simpl. rewrite Hr. by eexists.
  - simpl. destruct (tick_ok (r_lsdb r) w I) as (b & [d' w'] & Ht & Hd). rewrite Ht.
    eexists. split; [done|]. destruct b; [by apply step_ok_rebuild|].
    apply step_ok_listen; try done. by eapply tick_false_next_hop.
  - simpl. pose proof (lsdb_shutdown_emits (r_lsdb r) w) as Hem.
    destruct (lsdb_shutdown _ _) as [d' w']. eexists. split; [done|]. split; [done|].
    by apply confined_well_behaved.
Qed.

Lemma reachable_ok node_id c : reachable node_id c -> config_ok c.
Proof.
  induction 1 as [w|s wake r w c _ IH Hwake Hnext].
  - pose proof (lsdb_new_inv node_id w) as I. unfold router_new.
    destruct (lsdb_new node_id w) as [d w'] eqn:Hd. simpl in *. split; [done|].
    unfold lsdb_new in Hd. simpl in Hd. by injection Hd as <- _.
  - destruct (next_ok s wake r w IH Hwake) as (c' & Hc & Hok & _).
    rewrite Hnext in Hc. by injection Hc as <-.
Qed.

Lemma apply_add_routes eff d w : d_routes (apply_add eff d w).1 = d_routes d.
Proof.
  assert (Hrb : forall d w, d_routes (request_rebuild d w).1 = d_routes d).
  { intros d0 w0. destruct (request_rebuild d0 w0) as [d1 w1] eqn:Hr.
    by apply request_rebuild_spec in Hr as (-> & _). }
  destruct eff as [e info|e c|e| |]; cbn [apply_add read_clock]; try apply Hrb;
    [|apply update_endpoint_cost_routes].
  set (lsa := mkLsa _ _ _ _). set (w1 := mkWorld _ _).
  destruct (flood_all_neighbors lsa (Some 0%N) d w1) as [d2 w2] eqn:Hf.
  apply flood_spec in Hf as [Hfr _]. simpl. by rewrite Hfr.
Qed.

(** The entry the table gets for a listener that just registered. *)
Lemma registered_entry d w en rs sender c realm kind :
  re_kind en = kind -> kind = Unicast \/ kind = Anycast \/ kind = Broadcast ->
  re_routes en = rs ++ [mkLsRoute (Local sender) c realm kind] -> (kind = Unicast -> rs = []) ->
  exists fe, fib_entry_of d en w = Returns (Some fe) /\
    (kind = Unicast -> fe = Single (FwdLocal sender)) /\
    (kind = Broadcast -> FwdLocal sender ∈ hops fe).
Proof.
  intros Hk Hkind Hr Hu. unfold fib_entry_of. set (route := mkLsRoute _ _ _ _) in Hr.
  assert (Hin : route ∈ re_routes en) by (rewrite Hr; apply elem_of_app; right; by left).
  rewrite Hk. destruct Hkind as [-> | [-> | ->]].
  - rewrite Hr, (Hu eq_refl). exists (Single (FwdLocal sender)). done.
  - destruct (anycast_entry d (re_routes en)) as [fe|] eqn:Ha; [by exists fe|].
    rewrite anycast_entry_None in Ha. by specialize (Ha route Hin).
  - assert (FwdLocal sender ∈ broadcast_forwards d (re_routes en) w) as Hb.
    { apply elem_of_broadcast_local. by exists route. }
    unfold broadcast_forwards in Hb. destruct (broadcast_entry d _ w) as [fe|]; simpl in Hb.
    + by exists fe.
    + by apply elem_of_nil in Hb.
Qed.

(** * Properties *)

(** The router task never panics: in every reachable configuration, whatever message or
    timer comes next (connections being registered under fresh identifiers and no endpoint
    being of kind [Multicast]), the handler of the current state returns. *)
Theorem router_never_panics node_id s r w wake :
  reachable node_id (Some s, r, w) -> wake_ok (r_lsdb r) wake ->
  exists c, next s wake r w = Returns c.
Proof.
  intros Hr Hw. destruct (next_ok s wake r w (reachable_ok _ _ Hr) Hw) as (c & Hc & _). by exists c.
Qed.

(** C18: realm confinement: everything a step of the router sends to a neighbour is an
    advertisement or an acknowledgement over one of its links, and an advertisement mentions
    only realms that link carries, and at least one. *)
Theorem lsas_stay_in_realms node_id s r w wake o r' w' ev :
  reachable node_id (Some s, r, w) -> wake_ok (r_lsdb r) wake ->
  next s wake r w = Returns (o, r', w') -> ev ∈ drop (length (w_log w)) (w_log w') ->
  ev_fits (d_links (r_lsdb r)) ev \/ ev_fits (d_links (r_lsdb r')) ev.
Proof.
  intros Hr Hw Hn Hev. destruct (next_ok s wake r w (reachable_ok _ _ Hr) Hw) as (c & Hc & _ & Hem).
  rewrite Hn in Hc. injection Hc as <-. destruct Hem as [_ (evs & Hl & HF)]. simpl in Hl.
  rewrite Hl, drop_app_length in Hev. rewrite Forall_forall in HF. by apply HF.
Qed.

(** Whenever the router waits for its next message, the forwarding table that clients and
    connections use is the database's view of the neighbourhood: same node, same links, and
    every next hop is a link that is still registered. *)
Theorem published_table_live node_id r w :
  reachable node_id (Some Listen, r, w) ->
  f_our_id (r_fib r) = d_self_id (r_lsdb r) /\ f_links (r_fib r) = d_links (r_lsdb r) /\
  forall n link, f_next_hop (r_fib r) !! n = Some link ->
    f_links (r_fib r) !! l_connection_id link = Some link.
Proof.
  intros Hr. destruct (reachable_ok _ _ Hr) as [I (Hid & Hl & Hn)]. split; [done|]. split; [done|].
  intros n link. rewrite Hn, Hl. apply (i_hops _ I).
Qed.

(** C17: the node keeps its promise to the network: after every handler, every endpoint with a
    local listener is advertised by a live record of this node, under its kind, and for unicast
    and anycast endpoints at the least cost among the listeners (the clock readings of a tick
    being less than forty seconds apart). *)
Theorem listeners_stay_advertised s wake r w s' r' w' :
  config_ok (Some s, r, w) -> (s = Tick -> prompt (r_lsdb r) w) ->
  advertised (r_lsdb r) -> next s wake r w = Returns (Some s', r', w') ->
  advertised (r_lsdb r').
Proof.
  intros [I Hs] Hp Had. pose proof (proj1 (i_routes _ I)) as Hwf.
  destruct s as [| |m|rq|notify| |]; simpl.
  - by intros [= _ <- _].
  - by intros [= _ <- _].
  - destruct m as [rq|e|peer c tx cost realms|c|c lsa|c key seq|e sender c tx|]; simpl.
    + by intros [= _ <- _].
    + pose proof (lsdb_remove_endpoint_adv e (r_lsdb r) w Hwf Had) as H1.
      destruct (lsdb_remove_endpoint _ _ _). by intros [= _ <- _].
    + set (link := mkLink _ _ _ _ _ _ _). pose proof (add_peer_adv link (r_lsdb r) w Had) as H1.
      destruct (add_peer _ _ _). by intros [= _ <- _].
    + destruct (remove_peer c (r_lsdb r) w) as [[d1 w1]|] eqn:Hx; [|done].
      intros [= _ <- _]. by eapply remove_peer_adv.
    + destruct (handle_lsa lsa c (r_lsdb r) w) as [[d1 w1]|] eqn:Hx; [|done].
      intros [= _ <- _]. by eapply handle_lsa_adv.
    + intros [= _ <- _]. unfold handle_ack. destruct (_ !! _); [|done]. by apply (advertised_ext (r_lsdb r)).
    + unfold handle_set_anycast_cost. destruct (lsdb_set_anycast_cost e sender c (r_lsdb r)) as [res d] eqn:Hx.
      pose proof (fun w => lsdb_set_anycast_cost_adv _ _ _ _ _ _ w Hx Had) as Hd.
      destruct res as [err|[|p n [m|]]]; try (by intros [= _ <- _]; apply (Hd w)).
      specialize (Hd (reply tx (inr tt) w)).
      destruct (update_endpoint_cost _ _ _ _). by intros [= _ <- _].
    + by intros [= _ <- _].
  - pose proof (lsdb_add_endpoint_adv rq (r_lsdb r) w Hwf Had) as H1.
    destruct (lsdb_add_endpoint _ _ _) as [[u|u] [d w1]]; by intros [= _ <- _].
  - unfold route_change, build_fib.
    destruct (compute_spf _ (r_lsdb r) w) as [d|] eqn:Hx; [|done]. cbn [outcome_bind].
    destruct (build_from_db _ w) as [fib|]; [|done]. cbn [outcome_bind].
    assert (advertised (set_rebuild None d)) as Hd.
    { apply keeps_adv_spf in Hx. apply (advertised_ext d); [done..|]. by apply Hx. }
    by destruct notify; intros [= _ <- _].
  - destruct (tick (r_lsdb r) w) as [[b [d w1]]|] eqn:Hx; [|done]. cbn [outcome_bind].
    intros [= _ <- _]. apply tick_adv in Hx; auto.
  - by destruct (lsdb_shutdown _ _).
Qed.

(** A registration is announced to the listener only when it is in force: the table
    published by the [RouteChange] that follows has an entry for the endpoint, which for a
    unicast endpoint is exactly the new listener and for a broadcast one includes it, and the
    success message is sent after that. *)
Theorem registration_is_published rq wake wake' r w r1 w1 o r2 w2 :
  let kind := ei_kind (rr_endpoint_info rq) in
  kind = Unicast \/ kind = Anycast \/ kind = Broadcast ->
  next (RegisterEndpoint rq) wake r w = Returns (Some (RouteChange (Some rq)), r1, w1) ->
  next (RouteChange (Some rq)) wake' r1 w1 = Returns (o, r2, w2) ->
  o = Some Listen /\
  (exists fe, f_table (r_fib r2) !! rr_endpoint_id rq = Some fe /\
     (kind = Unicast -> fe = Single (FwdLocal (rr_sender rq))) /\
     (kind = Broadcast -> FwdLocal (rr_sender rq) ∈ hops fe)) /\
  exists res, w_log w2 =
    w_log w1 ++ [EvClient (rr_sender rq) (CmSuccessfulRegistration (rr_endpoint_id rq)) res].
Proof.
  intros kind Hkind. unfold next at 1, lsdb_add_endpoint.
  destruct (add_endpoint _ _ _ _) as [[err|eff] t] eqn:Hadd; [done|].
  pose proof (apply_add_routes eff (set_routes t (r_lsdb r)) w) as Hroutes.
  destruct (apply_add eff _ w) as [d1 w1'] eqn:Hap. intros [= <- <-]. simpl in Hroutes.
  destruct (add_endpoint_routed _ _ _ _ _ _ Hkind Hadd) as (en & rs & Hl & Hk & Hr & Hu).
  unfold next, route_change, build_fib. simpl.
  destruct (compute_spf (d_self_id d1) d1 w1') as [d2|] eqn:Hspf; [|done]. cbn [outcome_bind].
  assert (Hr2 : d_routes d2 = t).
  { revert Hspf. unfold compute_spf. destruct (spf_run _ _ _); [|done..]. by intros [= <-]. }
  destruct (build_from_db (set_rebuild None d2) w1') as [fib|] eqn:Hb; [|done]. cbn [outcome_bind].
  apply build_from_db_spec in Hb as (_ & _ & _ & Ht). intros [= <- <- <-]. split; [done|]. split.
  - simpl. rewrite Ht. simpl. rewrite Hr2, Hl.
    destruct (registered_entry (set_rebuild None d2) w1' en rs (rr_sender rq)
      (ei_cost (rr_endpoint_info rq)) (ei_realm (rr_endpoint_info rq)) kind)
      as (fe & -> & ? & ?); try done. by exists fe.
  - unfold try_send_client. by destruct (env_try_send w1' (rr_sender rq)); eexists.
Qed.
End router.
