(* ===== verification/Registration.v ===== *)
(** A registration from end to end: [src/handle.rs] asks, [src/routing/router.rs] answers, and
    the forwarding table that is then in force sends to the new listener. *)
From Stdlib Require Import Strings.String.
From S2P Require Import Prelude Types Messages World RouteTable Linkstate Spf LsDb.
From S2P Require Import LsDbProofs Fib FibProofs Router RouterProofs Handle.

(** * The router comes back to its mailbox *)
Section router.
Context `{Cd : Codec} `{E : !Env} `{!EnvLaws}.

(** Steps left before the router waits or ends. *)
Definition steps_left (s : State) : nat :=
  match s with
  | HandleBrokerMsg _ => 2
  | RegisterEndpoint _ | Tick => 1
  | Start | Listen | RouteChange _ | Shutdown => 0
  end.

Definition rests (o : option State) : Prop := o = None \/ o = Some Listen.

(** States on the way to the end of the task. *)
Definition stopping (s : State) : Prop := s = Shutdown \/ s = HandleBrokerMsg RmShutdown.

(** The task ends from [Shutdown] only, and nothing but the message leads there. *)
Lemma next_stops s r w o r' w' :
  s <> Listen -> next s WakeTimer r w = Returns (o, r', w') ->
  (o = None <-> s = Shutdown) /\ (forall s', o = Some s' -> stopping s' <-> s = HandleBrokerMsg RmShutdown).
Proof.
  unfold stopping. intros Hs. destruct s as [| |m|rq|notify| |]; simpl; [|done|..].
  - intros [= <- _ _]. split; [done|]. intros s' [= <-]. split; [intros [|] | intros]; done.
  - destruct m as [rq|e|peer c tx cost realms|c|c lsa|c key seq|e sender c tx|]; cbn [handle_broker_msg].
    3: set (link := mkLink _ _ _ _ _ _ _).
    all: repeat match goal with
         | |- context [lsdb_remove_endpoint ?e ?d ?w] => destruct (lsdb_remove_endpoint e d w)
         | |- context [add_peer ?l ?d ?w] => destruct (add_peer l d w)
         | |- context [remove_peer ?c ?d ?w] => destruct (remove_peer c d w) as [[]|]
         | |- context [handle_lsa ?l ?c ?d ?w] => destruct (handle_lsa l c d w) as [[]|]
         end; cbn [outcome_bind]; try done.
    all: try (intros [= <- _ _]; split; [done|]; intros s' [= <-]; split; [intros [|] | intros]; by auto).
    unfold handle_set_anycast_cost.
    destruct (lsdb_set_anycast_cost _ _ _ _) as [[err|[|p n [c'|]]] d]; cbn [outcome_bind].
    3: destruct (update_endpoint_cost _ _ _ _).
    all: intros [= <- _ _]; split; [done|]; intros s' [= <-]; split; [intros [|] | intros]; done.
  - destruct (lsdb_add_endpoint _ _ _) as [[u|u] [d w0]]; intros [= <- _ _]; (split; [done|]);
      intros s' [= <-]; (split; [intros [|] | intros]); done.
  - destruct (route_change _ _ _) as [[]|]; [|done]. intros [= <- _ _]. split; [done|].
    intros s' [= <-]. split; [intros [|] | intros]; done.
  - destruct (tick _ _) as [[b [d w0]]|]; [|done]. intros [= <- _ _]. split; [done|].
    intros s' [= <-]. split; [intros [|] | intros]; by destruct b.
  - destruct (lsdb_shutdown _ _). intros [= <- _ _]. done.
Qed.

(** Every step but [Listen] rests or is followed by one that is nearer to resting. *)
Lemma next_nearer s wake r w o r' w' :
  s <> Listen -> next s wake r w = Returns (o, r', w') ->
  rests o \/ exists s', o = Some s' /\ s' <> Listen /\ steps_left s' < steps_left s.
Proof.
  unfold rests. intros Hs. destruct s as [| |m|rq|notify| |]; simpl; [intros [= <- _ _]; auto|done|..].
  - destruct m as [rq|e|peer c tx cost realms|c|c lsa|c key seq|e sender c tx|]; simpl.
    all: try (intros [= <- _ _]; right; eexists; split; [done|]; split; [done | simpl; lia]).
    + destruct (lsdb_remove_endpoint _ _ _). intros [= <- _ _]. right. eexists. split; [done|].
      split; [done | simpl; lia].
    + destruct (add_peer _ _ _). intros [= <- _ _]. right. eexists. split; [done|].
      split; [done | simpl; lia].
    + destruct (remove_peer _ _ _) as [[]|]; [|done]. intros [= <- _ _]. right. eexists.
      split; [done|]. split; [done | simpl; lia].
    + destruct (handle_lsa _ _ _ _) as [[]|]; [|done]. intros [= <- _ _]. right. eexists.
      split; [done|]. split; [done | simpl; lia].
    + intros [= <- _ _]. auto.
    + unfold handle_set_anycast_cost.
      destruct (lsdb_set_anycast_cost _ _ _ _) as [[err|[|p n [c'|]]] d]; simpl.
      1,2: intros [= <- _ _]; auto.
      * destruct (update_endpoint_cost _ _ _ _). intros [= <- _ _]. right. eexists.
        split; [done|]. split; [done | simpl; lia].
      * intros [= <- _ _]. right. eexists. split; [done|]. split; [done | simpl; lia].
  - destruct (lsdb_add_endpoint _ _ _) as [[u|u] [d w0]]; intros [= <- _ _]; [by auto|].
    right. eexists. split; [done|]. split; [done | simpl; lia].
  - destruct (route_change _ _ _) as [[]|]; [|done]. intros [= <- _ _]. auto.
  - destruct (tick _ _) as [[[] [d w0]]|]; [| |done]; intros [= <- _ _]; [|by auto].
    right. eexists. split; [done|]. split; [done | simpl; lia].
  - destruct (lsdb_shutdown _ _). intros [= <- _ _]. auto.
Qed.

Lemma settle_rests node_id fuel : forall s r w,
  s <> Listen -> steps_left s < fuel -> reachable node_id (Some s, r, w) ->
  exists o r' w', settle fuel s r w = Returns (o, r', w') /\ reachable node_id (o, r', w') /\
    rests o /\ (o = None <-> stopping s).
Proof.
  induction fuel as [|fuel IH]; intros s r w Hs Hd Hr; [lia|]. cbn [settle].
  destruct (next_ok s WakeTimer r w (reachable_ok _ _ Hr) I) as ([[o r1] w1] & Hn & _).
  pose proof (reachable_step _ s WakeTimer _ _ _ Hr I Hn) as Hr1. rewrite Hn. cbn [outcome_bind].
  destruct (next_stops s r w o r1 w1 Hs Hn) as [Hend Hstop].
  destruct (next_nearer s WakeTimer r w o r1 w1 Hs Hn) as [[-> | ->]|(s' & -> & Hs' & Hlt)].
  - do 3 eexists. split; [done|]. split; [done|]. split; [by left|]. split; [|done].
    intros _. left. by apply Hend.
  - do 3 eexists. split; [done|]. split; [done|]. split; [by right|]. split; [done|].
    intros [->| ->]; [by apply Hend | by destruct (proj2 (Hstop _ eq_refl) eq_refl)].
  - destruct (IH s' r1 w1 Hs' ltac:(lia) Hr1) as (o & r' & w' & Hset & Hr' & Ho & Hst).
    exists o, r', w'. split; [by destruct s'|]. split; [done|]. split; [done|].
    rewrite Hst, (Hstop _ eq_refl). split; [by right|].
    intros [Hx|Hx]; [|done]. by apply Hend in Hx.
Qed.

(** * Who hears of a registration *)

Definition is_node (ev : Event) : Prop := match ev with EvNode _ _ _ => True | _ => False end.

(** What is said to clients, accepted by their channels or not. *)
Definition told (ev : Event) : option (ChanId * ClientMessage) :=
  match ev with EvClient tx m _ => Some (tx, m) | _ => None end.

Definition said_since (w w' : World) : list (ChanId * ClientMessage) :=
  omap told (drop (length (w_log w)) (w_log w')).

Lemma flood_to_nodes lsa inc d w : emits is_node w (flood_all_neighbors lsa inc d w).2.
Proof.
  unfold flood_all_neighbors. apply (foldl_invariant (fun s => emits is_node w s.2)); [|reflexivity].
  intros [d' w'] [c link] _ Hem. unfold flood_link. destruct (flood_skips _ _ _ _); [done|].
  etrans; [exact Hem|]. unfold send_tracked, send_lsa. cbn [fst snd]. destruct (link_view link lsa) as [lsa'|]; [|reflexivity].
  pose proof (emits_node is_node (l_tx link) (NmLsa lsa') w' (fun _ => I)) as Hs. cbn [fst snd].
  by destruct (try_send_node _ _ _) as [[]].
Qed.

Lemma rebuild_says_nothing P d w : emits P w (request_rebuild d w).2.
Proof.
  destruct (request_rebuild d w) as [d' w'] eqn:Hr.
  apply request_rebuild_spec in Hr as (_ & _ & HP). apply HP.
Qed.

Lemma cost_tells_nodes e c d w : emits is_node w (update_endpoint_cost e c d w).2.
Proof.
  unfold update_endpoint_cost. destruct (d_db d !! _) as [record|]; [|done].
  destruct (lsa_body (rec_lsa record)); [done|]. destruct (N.eqb _ _); [done|]. cbn [read_clock].
  match goal with |- context [flood_all_neighbors ?x _ ?d0 _] => set (lsa := x); set (d1 := d0) end.
  set (w1 := mkWorld _ _).
  etrans; [apply (emits_read is_node w) | fold w1]. pose proof (flood_to_nodes lsa None d1 w1) as Hf.
  destruct (flood_all_neighbors _ _ _ _) as [d2 w2]. etrans; [exact Hf|]. apply rebuild_says_nothing.
Qed.

Lemma add_tells_nodes eff d w : emits is_node w (apply_add eff d w).2.
Proof.
  destruct eff as [e info|e c|e| |]; cbn [apply_add read_clock]; try apply rebuild_says_nothing.
  - set (lsa := mkLsa _ _ _ _). set (w1 := mkWorld _ _).
    etrans; [apply (emits_read is_node w) | fold w1]. pose proof (flood_to_nodes lsa (Some 0%N) d w1) as Hf.
    by destruct (flood_all_neighbors _ _ _ _).
  - apply cost_tells_nodes.
Qed.

Lemma said_after_nodes w w1 tx m :
  emits is_node w w1 -> said_since w (try_send_client tx m w1).2 = [(tx, m)].
Proof.
  intros [_ (evs & Hl & HF)]. unfold said_since.
  assert (exists res, w_log (try_send_client tx m w1).2 = w_log w ++ evs ++ [EvClient tx m res]) as [res ->].
  { unfold try_send_client. destruct (env_try_send w1 tx); eexists; simpl; by rewrite Hl, <- app_assoc. }
  rewrite drop_app_length, omap_app. clear Hl.
  induction HF as [|ev evs Hev _ IH]; [done|]. by destruct ev.
Qed.
End router.

(** * Who may register *)

(** The endpoint is new, or of the same kind and, if unicast, without a provider anywhere. *)
Definition can_register (t : RouteTable) (rq : RegistrationRequest) : Prop :=
  match t !! rr_endpoint_id rq with
  | None => True
  | Some en =>
      re_kind en = ei_kind (rr_endpoint_info rq) /\
      (ei_kind (rr_endpoint_info rq) = Unicast -> re_routes en = [])
  end.

Definition registrable (kind : RouteKind) : Prop := kind = Unicast \/ kind = Anycast \/ kind = Broadcast.

Lemma add_endpoint_decides t rq r t' :
  registrable (ei_kind (rr_endpoint_info rq)) ->
  add_endpoint t (rr_endpoint_id rq) (rr_endpoint_info rq) (rr_sender rq) = (r, t') ->
  match r with inl _ => ~ can_register t rq /\ t' = t | inr _ => can_register t rq end.
Proof.
  intros Hk. unfold add_endpoint, can_register.
  set (e := rr_endpoint_id rq). set (kind := ei_kind (rr_endpoint_info rq)) in *.
  destruct (entry_or_insert_cases t e kind) as [[Hl Hi]|[Hl ->]]; rewrite Hl.
  - rewrite Hi. set (en := entry_or_insert t e kind). case_decide as Hen; [|by intros [= <- <-]; split; [intros []|]].
    destruct Hk as [Hk | [Hk | Hk]]; rewrite Hk.
    + destruct (re_routes en) eqn:Hr; intros [= <- <-]; [by split; [congruence|]|].
      split; [|done]. intros [_ Hu]. by specialize (Hu eq_refl).
    + intros Ha. assert (exists eff, r = inr eff) as [eff ->].
      { repeat case_match; injection Ha as <- _; by eexists. }
      by split; [congruence|].
    + intros [= <- _]. by split; [congruence|].
  - cbn [re_kind re_routes min_local_cost]. rewrite decide_True by done. intros Ha.
    assert (exists eff, r = inr eff) as [eff ->]; [|done].
    destruct Hk as [Hk | [Hk | Hk]]; rewrite Hk in Ha; injection Ha as <- _; by eexists.
Qed.

Section end_to_end.
Context `{Cd : Codec} `{E : !Env} `{!EnvLaws}.

(** A local entry passes a packet on to its listener. *)
Lemma local_entry_sends fib p tx w :
  f_table fib !! get_endpoint (p_to p) (f_our_id fib) = Some (Single (FwdLocal tx)) ->
  env_try_send w tx = SendOk ->
  fib_send fib p w = Returns (inr tt, log_event (EvClient tx (CmMessage p) SendOk) w).
Proof. intros Hl Ht. unfold fib_send, try_send_client. by rewrite Hl, Ht. Qed.

(** What [RouteChange] does for a listener whose route is in the table. *)
Lemma route_change_publishes rq r w r' w' rs en :
  registrable (ei_kind (rr_endpoint_info rq)) ->
  d_routes (r_lsdb r) !! rr_endpoint_id rq = Some en -> re_kind en = ei_kind (rr_endpoint_info rq) ->
  re_routes en = rs ++ [mkLsRoute (Local (rr_sender rq)) (ei_cost (rr_endpoint_info rq))
    (ei_realm (rr_endpoint_info rq)) (ei_kind (rr_endpoint_info rq))] ->
  (ei_kind (rr_endpoint_info rq) = Unicast -> rs = []) ->
  route_change (Some rq) r w = Returns (r', w') ->
  w' = (try_send_client (rr_sender rq) (CmSuccessfulRegistration (rr_endpoint_id rq)) w).2 /\
  exists fe, f_table (r_fib r') !! rr_endpoint_id rq = Some fe /\
    (ei_kind (rr_endpoint_info rq) = Unicast -> fe = Single (FwdLocal (rr_sender rq))) /\
    (ei_kind (rr_endpoint_info rq) = Broadcast -> FwdLocal (rr_sender rq) ∈ hops fe).
Proof.
  intros Hkind Hl Hk Hr Hu. unfold route_change, build_fib.
  destruct (compute_spf _ (r_lsdb r) w) as [d2|] eqn:Hspf; [|done]. cbn [outcome_bind].
  assert (Hr2 : d_routes d2 = d_routes (r_lsdb r)).
  { revert Hspf. unfold compute_spf. destruct (spf_run _ _ _); [|done..]. by intros [= <-]. }
  destruct (build_from_db (set_rebuild None d2) w) as [fib|] eqn:Hb; [|done]. cbn [outcome_bind].
  apply build_from_db_spec in Hb as (_ & _ & _ & Ht). intros [= <- <-]. split; [done|].
  simpl. rewrite Ht. simpl. rewrite Hr2, Hl.
  destruct (registered_entry (set_rebuild None d2) w en rs (rr_sender rq)
    (ei_cost (rr_endpoint_info rq)) (ei_realm (rr_endpoint_info rq)) _ Hk Hkind Hr Hu)
    as (fe & -> & ? & ?). by exists fe.
Qed.

(** ** What the router does not survive *)

(** The message introduces an endpoint of kind [Multicast]: it asks to register one, or advertises
    one of another node, and nothing of that name is known. *)
Definition brings_multicast (d : LsDb) (wake : Wakeup) : Prop :=
  match wake with
  | WakeMsg (Some (RmRegisterEndpoint rq)) =>
      ei_kind (rr_endpoint_info rq) = Multicast /\ d_routes d !! rr_endpoint_id rq = None
  | WakeMsg (Some (RmLsaInbound _ lsa)) =>
      ~ not_multicast lsa /\ lsa_dead lsa = false /\ key_origin (lsa_key lsa) <> d_self_id d /\
      d_db d !! lsa_key lsa = None /\ d_routes d !! key_endpoint (lsa_key lsa) = None
  | _ => False
  end.

Lemma route_change_multicast notify r w e en :
  d_routes (r_lsdb r) !! e = Some en -> re_kind en = Multicast -> route_change notify r w = Panics.
Proof.
  intros He Hk. unfold route_change, build_fib.
  destruct (compute_spf _ (r_lsdb r) w) as [d|] eqn:Hspf; [|done]. cbn [outcome_bind].
  assert (Hr : d_routes d = d_routes (r_lsdb r))
    by (revert Hspf; unfold compute_spf; destruct (spf_run _ _ _); by intros [= <-]).
  rewrite (build_from_db_multicast (set_rebuild None d) w e en); [done|by rewrite <- Hr in He|done].
Qed.

Lemma registers_multicast rq d w :
  ei_kind (rr_endpoint_info rq) = Multicast -> d_routes d !! rr_endpoint_id rq = None ->
  exists d' w' en, lsdb_add_endpoint rq d w = (inr tt, (d', w')) /\
    d_routes d' !! rr_endpoint_id rq = Some en /\ re_kind en = Multicast.
Proof.
  intros Hk Hn. unfold lsdb_add_endpoint, add_endpoint, entry_or_insert. rewrite Hn, Hk, decide_True by done. cbn [re_routes existsb].
  set (en := push_route _ _). set (t := <[_ := en]> _). cbn [apply_add read_clock].
  destruct (flood_all_neighbors _ _ (set_routes t d) _) as [d1 w1] eqn:Hf. apply flood_spec in Hf as [Hf _].
  do 2 eexists. exists en. split; [done|]. split; [|done].
  assert (Hr : d_routes d1 = t) by by rewrite Hf. simpl. rewrite Hr. apply lookup_insert_eq.
Qed.

Lemma hears_multicast lsa c d w :
  ~ not_multicast lsa -> lsa_dead lsa = false -> key_origin (lsa_key lsa) <> d_self_id d ->
  d_db d !! lsa_key lsa = None -> d_routes d !! key_endpoint (lsa_key lsa) = None ->
  exists d' w' en, handle_lsa lsa c d w = Returns (d', w') /\
    d_routes d' !! key_endpoint (lsa_key lsa) = Some en /\ re_kind en = Multicast.
Proof.
  intros Hm Hlive Ho Hnew Hn. unfold not_multicast in Hm. unfold handle_lsa. rewrite decide_False, Hlive by done.
  unfold upsert_lsa, advertised_info. rewrite Hnew. destruct (lsa_body lsa) as [adjs|info]; [by destruct Hm|].
  assert (Hk : ei_kind info = Multicast) by (destruct (decide (ei_kind info = Multicast)); [done|by destruct Hm]).
  cbn [read_clock is_router]. destruct (request_rebuild _ _) as [d1 w1] eqn:H1. apply request_rebuild_spec in H1 as (H1 & _).
  assert (Hr1 : d_routes d1 = d_routes d) by by rewrite H1.
  unfold add_remote_endpoint, entry_or_insert. rewrite Hr1, Hn, Hk, decide_True by done. cbn [re_routes find_update forallb].
  rewrite decide_False by by intros [? _]. cbn [snd]. set (en := push_route _ _). set (t := <[_ := en]> _).
  destruct (flood_all_neighbors _ _ (set_routes t d1) w1) as [d2 w2] eqn:Hf. apply flood_spec in Hf as [Hf _].
  exists d2, w2, en. split; [done|]. split; [|done].
  assert (Hr : d_routes d2 = t) by by rewrite Hf. rewrite Hr. apply lookup_insert_eq.
Qed.

(** C16: the router neither panics nor gets stuck, but for [todo!()]: from every reachable
    configuration that waits, whatever message or timer comes next, a connection being registered
    under a fresh identifier and no message naming the kind [Multicast], at most three steps bring
    it back to waiting, in a reachable configuration again, unless it is told to shut down or its
    mailbox is closed: then, and only then, the task ends. A message that introduces an endpoint
    of kind [Multicast], as any neighbour may send one, makes it panic. *)
Theorem router_comes_back node_id r w wake :
  reachable node_id (Some Listen, r, w) ->
  (wake_ok (r_lsdb r) wake ->
   exists o r' w', settle 3 (listen wake) r w = Returns (o, r', w') /\
    reachable node_id (o, r', w') /\ (o = None \/ o = Some Listen) /\
    (o = None <-> wake = WakeMsg None \/ wake = WakeMsg (Some RmShutdown))) /\
  (brings_multicast (r_lsdb r) wake -> settle 3 (listen wake) r w = Panics).
Proof.
  intros Hr. split.
  - intros Hw. pose proof (reachable_step _ Listen wake _ _ _ Hr Hw eq_refl) as H1.
    destruct (settle_rests node_id 3 (listen wake) r w) as (o & r' & w' & Hset & Hr' & Ho & Hst).
    + by destruct wake as [[]|].
    + destruct wake as [[]|]; simpl; lia.
    + exact H1.
    + exists o, r', w'. split; [done|]. split; [done|]. split; [done|]. rewrite Hst. unfold stopping.
      destruct wake as [[m|]|]; simpl; split; intros [Hx|Hx]; try done; auto; right; congruence.
  - intros Hb. destruct wake as [[[rq| | | |c lsa| | |]|]|]; try done; cbn [listen settle next handle_broker_msg].
    + destruct Hb as [Hk Hn]. destruct (registers_multicast rq (r_lsdb r) w Hk Hn) as (d' & w' & en & Hres & Hen & Hken).
      cbn [outcome_bind settle next]. rewrite Hres. cbn [outcome_bind next].
      by rewrite (route_change_multicast _ (set_lsdb d' r) w' _ en Hen Hken).
    + destruct Hb as (Hm & Hlive & Ho & Hnew & Hn).
      destruct (hears_multicast lsa c (r_lsdb r) w Hm Hlive Ho Hnew Hn) as (d' & w' & en & Hres & Hen & Hken).
      rewrite Hres. cbn [outcome_bind next]. by rewrite (route_change_multicast _ (set_lsdb d' r) w' _ en Hen Hken).
Qed.

(** C20: a registration comes to its end: from every reachable configuration that waits, three
    steps bring the router back to waiting, and in between the new listener, and no one else, is
    told something, once. The call that asked returns [Ok] exactly when the endpoint was new, or
    of the same kind and, if unicast, provided by no one, here or elsewhere; the table in force
    then leads to the listener: to it alone for a unicast endpoint, so that the next packet for
    it arrives, and to it among others for a broadcast one. Otherwise the call fails with
    [RegistrationFailed] and the router is as it was. *)
Theorem registration_end_to_end node_id r w rq :
  let kind := ei_kind (rr_endpoint_info rq) in
  let tx := rr_sender rq in
  registrable kind -> reachable node_id (Some Listen, r, w) ->
  exists r' w' answer,
    settle 3 (listen (WakeMsg (Some (RmRegisterEndpoint rq)))) r w = Returns (Some Listen, r', w') /\
    reachable node_id (Some Listen, r', w') /\
    said_since w w' = [(tx, answer)] /\
    match (register_with rq (mkMeeting true (Some answer))).1 with
    | inr _ =>
        can_register (d_routes (r_lsdb r)) rq /\
        exists fe, f_table (r_fib r') !! rr_endpoint_id rq = Some fe /\
          (kind = Unicast -> forall p w0,
             get_endpoint (p_to p) (f_our_id (r_fib r')) = rr_endpoint_id rq ->
             env_try_send w0 tx = SendOk ->
             fib_send (r_fib r') p w0 = Returns (inr tt, log_event (EvClient tx (CmMessage p) SendOk) w0)) /\
          (kind = Broadcast -> FwdLocal tx ∈ hops fe)
    | inl err =>
        ~ can_register (d_routes (r_lsdb r)) rq /\
        err = ReRegistrationFailed EmptyString /\ r' = r
    end.
Proof.
  intros kind tx Hkind Hr.
  assert (Hnm : kind <> Multicast) by (intros Hm; destruct Hkind as [Hk | [Hk | Hk]]; unfold kind in *; congruence).
  pose proof (reachable_step _ Listen (WakeMsg (Some (RmRegisterEndpoint rq))) _ _ _ Hr Hnm eq_refl) as H1.
  destruct (settle_rests node_id 3 (HandleBrokerMsg (RmRegisterEndpoint rq)) r w ltac:(done) ltac:(simpl; lia) H1) as (o & r' & w' & Hset & Hr' & _).
  clear H1. cbn [listen] in *. revert Hset. cbn [settle next handle_broker_msg outcome_bind].
  unfold lsdb_add_endpoint.
  destruct (add_endpoint (d_routes (r_lsdb r)) (rr_endpoint_id rq) (rr_endpoint_info rq) (rr_sender rq))
    as [[err|eff] t] eqn:Hadd; pose proof (add_endpoint_decides _ _ _ _ Hkind Hadd) as Hcan.
  - destruct Hcan as [Hcan ->]. intros [= <- <- <-]. do 3 eexists. split; [done|]. split; [done|].
    split; [apply said_after_nodes; reflexivity|]. simpl. split; [done|]. split; [done|].
    by destruct r as [? [] ?].
  - pose proof (apply_add_routes eff (set_routes t (r_lsdb r)) w) as Hroutes.
    pose proof (add_tells_nodes eff (set_routes t (r_lsdb r)) w) as Hsaid.
    destruct (apply_add eff _ w) as [d1 w1]. cbn [outcome_bind fst snd] in *.
    destruct (add_endpoint_routed _ _ _ _ _ _ Hkind Hadd) as (en & rs & Hl & Hk & Hre & Hu).
    cbn [next]. destruct (route_change (Some rq) (set_lsdb d1 r) w1) as [[r2 w2]|] eqn:Hrc; [|done].
    assert (Hl1 : d_routes (r_lsdb (set_lsdb d1 r)) !! rr_endpoint_id rq = Some en)
      by (simpl; rewrite Hroutes; exact Hl).
    destruct (route_change_publishes rq (set_lsdb d1 r) w1 r2 w2 rs en Hkind Hl1 Hk Hre Hu Hrc)
      as (-> & fe & Hfe & Huni & Hbr).
    cbn [outcome_bind]. intros [= <- <- <-]. do 3 eexists. split; [done|]. split; [done|].
    split; [by apply said_after_nodes|]. simpl. split; [done|]. exists fe. split; [done|].
    split; [|done]. intros Hk' p w0 Hp Ht. apply local_entry_sends; [|done]. rewrite Hp, Hfe. by rewrite Huni.
Qed.
End end_to_end.
