(* ===== verification/Peer.v ===== *)
(** [src/peers/common.rs]: the heartbeat that watches a connection for silence, and the
    [Peer] that ties a connection to the router. *)
From S2P Require Import Prelude Types Messages World.

(** * Heartbeat *)
Record Heartbeat := mkHeartbeat {
  hb_interval : Duration;
  hb_timeout : Duration;
  hb_last_rx : Instant;
  hb_last_ping : option Instant;
  hb_outstanding : option N;
  hb_next_token : N;
}.

Definition heartbeat_new (now : Instant) (interval timeout : Duration) : Heartbeat :=
  mkHeartbeat interval timeout now None None 1.

Definition on_rx (now : Instant) (hb : Heartbeat) : Heartbeat :=
  mkHeartbeat (hb_interval hb) (hb_timeout hb) now None None (hb_next_token hb).

Definition note_resume (now : Instant) (hb : Heartbeat) : Heartbeat := on_rx now hb.

(** When the next poke is due. *)
Definition poke_at (hb : Heartbeat) : Instant :=
  match hb_last_ping hb with
  | Some sent => (sent + hb_interval hb)%N
  | None => (hb_last_rx hb + hb_interval hb)%N
  end.

Definition next_deadline (hb : Heartbeat) : Instant :=
  N.min (poke_at hb) (hb_last_rx hb + hb_timeout hb).

Definition timed_out (hb : Heartbeat) (now : Instant) : bool :=
  N.leb (hb_timeout hb) (saturating_duration_since now (hb_last_rx hb)).

Definition ping_due (hb : Heartbeat) (now : Instant) : bool := N.leb (poke_at hb) now.

Definition take_ping_token (now : Instant) (hb : Heartbeat) : N * Heartbeat :=
  let token := hb_next_token hb in
  (token, mkHeartbeat (hb_interval hb) (hb_timeout hb) (hb_last_rx hb) (Some now) (Some token)
            (u64_wrapping_add token 1)).

(** * Peer *)
Record PacketByteCounts := mkCounts { pc_bytes : N; pc_packets : N }.
Record PeerStats := mkStats { st_tx : PacketByteCounts; st_rx : PacketByteCounts }.

Definition counts_default : PacketByteCounts := mkCounts 0 0.
Definition stats_default : PeerStats := mkStats counts_default counts_default.

Section peer.
Context `{Cd : Codec}.

(** [usize] counters on a 64-bit target. *)
Definition record (packet : WirePacket) (c : PacketByteCounts) : PacketByteCounts :=
  mkCounts (u64_wrapping_add (pc_bytes c) (N.of_nat (length (wp_payload packet))))
           (u64_wrapping_add (pc_packets c) 1).

(** [rx_open] is false once [rx_node] was closed. *)
Record Peer := mkPeer {
  pe_peer_id : NodeId;
  pe_our_id : NodeId;
  pe_realm : Realm;
  pe_connection_id : ConnectionId;
  pe_cost : Cost;
  pe_stats : PeerStats;
  pe_realms : RealmList;
  pe_rx_open : bool;
}.

(** What a peer does to the rest of the node, through its [Handle]. *)
Inductive PeerOut :=
  | SendBroker (m : RouterMsg)
  | ForwardPacket (p : WirePacket) (c : ConnectionId).

Definition register_peer (peer_id our_id : NodeId) (realm : Realm) (connection_id : ConnectionId)
    (cost : Cost) (realms : RealmList) (peer_tx : ChanId) : Peer * list PeerOut :=
  (mkPeer peer_id our_id realm connection_id cost stats_default realms true,
   [SendBroker (RmRegisterPeer peer_id connection_id peer_tx cost realms)]).

Definition set_stats (s : PeerStats) (p : Peer) : Peer :=
  mkPeer (pe_peer_id p) (pe_our_id p) (pe_realm p) (pe_connection_id p) (pe_cost p) s
         (pe_realms p) (pe_rx_open p).

Definition peer_close (p : Peer) : Peer :=
  mkPeer (pe_peer_id p) (pe_our_id p) (pe_realm p) (pe_connection_id p) (pe_cost p) (pe_stats p)
         (pe_realms p) false.

(** [Peer::recv], given what the channel yields. *)
Definition peer_recv (received : option NodeMessage) (p : Peer) : option NodeMessage * Peer :=
  match received with
  | Some (NmWirePacket packet) =>
      (received, set_stats (mkStats (record packet (st_tx (pe_stats p))) (st_rx (pe_stats p))) p)
  | _ => (received, p)
  end.

Definition unregister (p : Peer) : Peer * list PeerOut :=
  (peer_close p, [SendBroker (RmUnRegisterPeer (pe_connection_id p))]).

Definition peer_forward_packet (packet : WirePacket) (connection_id : ConnectionId) (p : Peer)
    : Peer * list PeerOut :=
  (set_stats (mkStats (st_tx (pe_stats p)) (record packet (st_rx (pe_stats p)))) p,
   [ForwardPacket packet connection_id]).

Definition handle_node_message (m : NodeMessage) (p : Peer) : Peer * list PeerOut :=
  match m with
  | NmWirePacket packet => peer_forward_packet packet (pe_connection_id p) p
  | NmLsa lsa => (p, [SendBroker (RmLsaInbound (pe_connection_id p) lsa)])
  | NmLsaAck key seq => (p, [SendBroker (RmLsaAckInbound (pe_connection_id p) key seq)])
  end.
End peer.

(** * Lemmas *)
Section heartbeat.
Implicit Types (hb : Heartbeat) (now : Instant).

Lemma timed_out_spec hb now :
  (0 < hb_timeout hb)%N ->
  timed_out hb now = true <-> (hb_last_rx hb + hb_timeout hb <= now)%N.
Proof.
  intros Hpos. unfold timed_out, saturating_duration_since. rewrite N.leb_le. tlia.
Qed.

Lemma on_rx_timed_out hb now : (0 < hb_timeout hb)%N -> timed_out (on_rx now hb) now = false.
Proof.
  intros Hpos. apply not_true_iff_false. rewrite timed_out_spec by done. simpl. tlia.
Qed.

Lemma next_deadline_le_timeout hb : (next_deadline hb <= hb_last_rx hb + hb_timeout hb)%N.
Proof. unfold next_deadline. tlia. Qed.

(** At its deadline a heartbeat always has something to do. *)
Lemma deadline_acts hb now :
  (0 < hb_timeout hb)%N -> (next_deadline hb <= now)%N ->
  timed_out hb now = true \/ ping_due hb now = true.
Proof.
  intros Hpos. unfold next_deadline. rewrite timed_out_spec by done. unfold ping_due. rewrite N.leb_le.
  tlia.
Qed.

(** After a ping the deadline moves on, unless the silence limit is what is due. *)
Lemma ping_moves_deadline hb now :
  (0 < hb_interval hb)%N -> (now < hb_last_rx hb + hb_timeout hb)%N ->
  (now < next_deadline (take_ping_token now hb).2)%N.
Proof. intros Hpos Hlt. unfold next_deadline, poke_at. simpl. tlia. Qed.
End heartbeat.

(** * Traffic *)
Section traffic.
Context `{Cd : Codec}.

(** Traffic of a registered session: packets and advertisements under its connection. *)
Definition traffic (c : ConnectionId) (o : PeerOut) : Prop :=
  match o with
  | ForwardPacket _ c' | SendBroker (RmLsaInbound c' _) | SendBroker (RmLsaAckInbound c' _ _) => c' = c
  | SendBroker _ => False
  end.

Lemma handle_node_message_traffic m p :
  let '(p', outs) := handle_node_message m p in
  pe_peer_id p' = pe_peer_id p /\ pe_connection_id p' = pe_connection_id p /\
  Forall (traffic (pe_connection_id p)) outs.
Proof. destruct m; simpl; by repeat constructor. Qed.
End traffic.
