(* ===== verification/Flooding.v ===== *)
(** Flooding between nodes: every node runs its router ([src/routing/router.rs], [db.rs]), and what
    it hands to the channel of a link arrives, in any order, as a message of the connection at the
    other end ([src/peers/common.rs]). *)
From Stdlib Require Import Strings.String.
From S2P Require Import Prelude Types Messages World RouteTable Linkstate Spf SpfProofs LsDb.
From S2P Require Import LsDbProofs LsDbTheorems Convergence Fib FibProofs Router RouterProofs Peer.
From S2P Require Import Handle Receivers Network Delivery Registration.

(** * One node: an advertisement of an endpoint arrives *)
Section node.
Context `{Cd : Codec} `{E : !Env} `{!EnvLaws}.

(** The channels of the links take what they are given. *)
Definition open_links (links : gmap ConnectionId Link) : Prop :=
  forall c link w, links !! c = Some link -> env_try_send w (l_tx link) = SendOk.

(** A live advertisement of an endpoint that is registered with a kind clients can ask for. *)
Definition endpoint_lsa_ok (lsa : Lsa) : Prop :=
  is_router (lsa_body lsa) = false /\ lsa_dead lsa = false /\ not_multicast lsa.

(** It is stored when it is another node's and news. *)
Definition accepts_lsa (lsa : Lsa) (d : LsDb) : bool :=
  bool_decide (key_origin (lsa_key lsa) <> d_self_id d) && stores lsa d.

Definition sent_ok (ev : Event) : Prop :=
  match ev with EvNode _ _ r => r = SendOk | _ => False end.

Definition offer (target : ChanId * Lsa) : Event := EvNode target.1 (NmLsa target.2) SendOk.

Lemma offers_of evs l :
  map sent_lsa evs = map Some l -> Forall sent_ok evs -> evs = map offer l.
Proof.
  revert l. induction evs as [|ev evs IH]; intros [|[tx v] l]; try done. simpl. intros [= Hev Hevs] HF.
  apply Forall_cons in HF as [Hok HF]. f_equal; [|by apply IH].
  destruct ev as [tx0 [] r| |]; simpl in *; try done. by simplify_eq.
Qed.

Lemma flood_sent_ok lsa inc d w :
  open_links (d_links d) -> emits sent_ok w (flood_all_neighbors lsa inc d w).2.
Proof.
  intros Hopen. unfold flood_all_neighbors.
  apply (foldl_invariant (fun s => emits sent_ok w s.2)); [|reflexivity].
  intros [d' w'] [c link] Hin%elem_of_iter_map Hem. unfold flood_link.
  destruct (flood_skips _ _ _ _); [done|]. etrans; [exact Hem|].
  unfold send_tracked, send_lsa, try_send_node. cbn [fst snd].
  destruct (link_view link lsa) as [lsa'|]; [|reflexivity].
  rewrite (Hopen c link w' Hin). simpl. by apply emits_log.
Qed.

Lemma flood_log lsa inc d w :
  open_links (d_links d) ->
  w_log (flood_all_neighbors lsa inc d w).2 =
  w_log w ++ map offer (omap (flood_target d lsa inc) (env_iter_map w (d_links d))).
Proof.
  intros Hopen. destruct (flood_sent_ok lsa inc d w Hopen) as [_ (evs' & Hl' & HF)].
  destruct (flood_fold_exact d lsa inc (env_iter_map w (d_links d)) (d, w)) as (evs & Hl & Hm); [reflexivity|].
  unfold flood_all_neighbors in *. rewrite Hl in Hl'. simpl in *. apply app_inv_head in Hl' as ->.
  rewrite Hl. by rewrite (offers_of _ _ Hm HF).
Qed.

(** The acknowledgement of an advertisement that came over [c], and the offers of an advertisement
    to everyone it is meant for. *)
Definition acks (lsa : Lsa) (c : ConnectionId) (d : LsDb) (ev : Event) : Prop :=
  exists link, d_links d !! c = Some link /\
    ev = EvNode (l_tx link) (NmLsaAck (lsa_key lsa) (lsa_seq lsa)) SendOk.

Definition offers (lsa : Lsa) (inc : option ConnectionId) (d : LsDb) (ev : Event) : Prop :=
  exists c link target, d_links d !! c = Some link /\
    flood_target d lsa inc (c, link) = Some target /\ ev = offer target.

Lemma ack_log lsa c d w :
  open_links (d_links d) ->
  exists evs, w_log (send_ack c (lsa_key lsa) (lsa_seq lsa) d w) = w_log w ++ evs /\
    forall ev, ev ∈ evs <-> acks lsa c d ev.
Proof.
  intros Hopen. unfold send_ack, acks. destruct (d_links d !! c) as [link|] eqn:Hl.
  - unfold send_lsa_ack, try_send_node. rewrite (Hopen c link w Hl). eexists. split; [done|]. intros ev.
    rewrite list_elem_of_singleton. split; [intros ->; by exists link | by intros (? & [= <-] & ?)].
  - exists []. split; [by rewrite app_nil_r|]. intros ev. split; [by intros ?%elem_of_nil | by intros (? & ? & _)].
Qed.

Lemma offers_log lsa inc d w :
  open_links (d_links d) ->
  exists evs, w_log (flood_all_neighbors lsa inc d w).2 = w_log w ++ evs /\ forall ev, ev ∈ evs <-> offers lsa inc d ev.
Proof.
  intros Hopen. rewrite (flood_log lsa inc d w Hopen). eexists. split; [done|]. intros ev.
  rewrite list_elem_of_fmap. split.
  - intros (target & -> & ([c link] & Hin & Htgt)%list_elem_of_omap).
    apply elem_of_iter_map in Hin. by exists c, link, target.
  - intros (c & link & target & Hl & Htgt & ->). exists target. split; [done|].
    apply list_elem_of_omap. exists (c, link). split; [by apply elem_of_iter_map | done].
Qed.

(** Who is offered an advertisement depends on the links and the next hops alone. *)
Lemma offers_same lsa inc d d' ev :
  d_links d' = d_links d -> d_next_hop d' = d_next_hop d -> offers lsa inc d' ev <-> offers lsa inc d ev.
Proof. intros Hl Hn. unfold offers, flood_target, flood_skips. by rewrite Hl, Hn. Qed.

Lemma rebuild_log d w : w_log (request_rebuild d w).2 = w_log w.
Proof. unfold request_rebuild. by destruct (d_rebuild_requested d). Qed.

(** What a node says on receiving an advertisement: its acknowledgement and, if it stores it, an
    offer to everyone the advertisement is meant for. *)
Definition says (lsa : Lsa) (c : ConnectionId) (d : LsDb) (ev : Event) : Prop :=
  acks lsa c d ev \/ (accepts_lsa lsa d = true /\ offers lsa (Some c) d ev).

Definition lsa_info (lsa : Lsa) (d : LsDb) : EndpointInfo := advertised_info lsa (d_cost d).

(** The database after an advertisement arrived. *)
Record heard_lsa (lsa : Lsa) (d d' : LsDb) : Prop := {
  he_self : d_self_id d' = d_self_id d;
  he_links : d_links d' = d_links d;
  he_db : exists now, d_db d' =
    if accepts_lsa lsa d then <[lsa_key lsa := mkLsaRecord lsa now]> (d_db d) else d_db d;
  he_routes : d_routes d' = if accepts_lsa lsa d
    then (add_remote_endpoint (d_routes d) (key_endpoint (lsa_key lsa)) (key_origin (lsa_key lsa))
            (lsa_info lsa d)).2
    else d_routes d;
}.

(** One that is the node's own, or no news, is acknowledged and otherwise ignored. *)
Lemma handle_lsa_ignored lsa c d w :
  lsa_dead lsa = false -> accepts_lsa lsa d = false ->
  handle_lsa lsa c d w = Returns (d, send_ack c (lsa_key lsa) (lsa_seq lsa) d w).
Proof.
  intros Hlive Hacc. unfold handle_lsa. case_decide as Ho; [done|]. rewrite Hlive. unfold accepts_lsa in Hacc.
  rewrite bool_decide_eq_true_2 in Hacc by done. simpl in Hacc. unfold upsert_lsa.
  change (match d_db d !! lsa_key lsa with Some _ => _ | None => _ end) with (stores lsa d).
  by rewrite Hacc.
Qed.

(** One that is news is stored and passed on; after a router's, distances are computed anew. *)
Lemma handle_lsa_stored lsa c d w :
  lsa_dead lsa = false -> accepts_lsa lsa d = true ->
  exists d1 w1, handle_lsa lsa c d w =
      (let '(d2, w2) := flood_all_neighbors lsa (Some c) d1 w1 in
       if is_router (lsa_body lsa) then outcome_bind (compute_spf (d_self_id d2) d2 w2) (fun d3 => Returns (d3, w2))
       else Returns (d2, w2)) /\
    w_log w1 = w_log (send_ack c (lsa_key lsa) (lsa_seq lsa) d w) /\
    d_next_hop d1 = d_next_hop d /\ heard_lsa lsa d d1.
Proof.
  intros Hlive Hacc. pose proof Hacc as [Ho%bool_decide_eq_true Hst]%andb_true_iff.
  unfold handle_lsa. rewrite decide_False, Hlive by done. unfold upsert_lsa.
  change (match d_db d !! lsa_key lsa with Some _ => _ | None => _ end) with (stores lsa d).
  rewrite Hst. cbn [read_clock]. set (d1 := set_db _ d). set (w1 := mkWorld _ _).
  pose proof (rebuild_log d1 w1) as Hw2. destruct (request_rebuild d1 w1) as [d2 w2] eqn:H2.
  apply request_rebuild_spec in H2 as (H2 & _).
  assert (Hinfo : advertised_info lsa (d_cost d2) = lsa_info lsa d).
  { unfold lsa_info, advertised_info. rewrite H2. by destruct (lsa_body lsa). }
  rewrite Hinfo. set (t := (add_remote_endpoint _ _ _ _).2). set (d3 := set_routes t d2).
  exists d3, w2. split; [done|]. split; [exact Hw2|].
  assert (Hf : d_self_id d2 = d_self_id d /\ d_links d2 = d_links d /\ d_db d2 = d_db d1 /\
    d_routes d2 = d_routes d /\ d_next_hop d2 = d_next_hop d) by (rewrite H2; done).
  destruct Hf as (Hs2 & Hk2 & Hd2 & Hr2 & Hn2). split; [done|]. split; rewrite ?Hacc; [done|done| |].
  - simpl. rewrite Hd2. by eexists.
  - simpl. unfold t. by rewrite Hr2.
Qed.

Lemma heard_frame lsa d d1 d2 :
  heard_lsa lsa d d1 -> d_self_id d2 = d_self_id d1 -> d_links d2 = d_links d1 -> d_db d2 = d_db d1 ->
  d_routes d2 = d_routes d1 -> heard_lsa lsa d d2.
Proof. intros [H1 H2 [now H3] H4] Hs Hl Hd Hr. split; [congruence|congruence|exists now; congruence|congruence]. Qed.

Lemma handle_lsa_says lsa c d w :
  lsdb_inv d -> lsa_dead lsa = false -> not_multicast lsa -> open_links (d_links d) ->
  exists d' w' evs, handle_lsa lsa c d w = Returns (d', w') /\ w_log w' = w_log w ++ evs /\
    heard_lsa lsa d d' /\ (forall ev, ev ∈ evs <-> says lsa c d ev).
Proof.
  intros I Hlive Hnm Hopen. destruct (ack_log lsa c d w Hopen) as (acked & Hack & Hacks).
  destruct (accepts_lsa lsa d) eqn:Hacc.
  - destruct (handle_lsa_stored lsa c d w Hlive Hacc) as (d1 & w1 & Hres & Hw1 & Hn1 & Hh).
    destruct (handle_lsa_ok lsa c d w I Hnm) as (s' & Hret & _). rewrite Hres in Hret |- *. clear Hres.
    destruct (offers_log lsa (Some c) d1 w1) as (offered & Hlog & Hoffers); [by rewrite (he_links _ _ _ Hh)|].
    destruct (flood_all_neighbors lsa (Some c) d1 w1) as [d2 w2] eqn:H2. apply flood_spec in H2 as [H2 _].
    assert (Hh2 : heard_lsa lsa d d2) by (eapply heard_frame; [exact Hh|rewrite H2; done..]).
    assert (Hd3 : exists d3, s' = (d3, w2) /\ heard_lsa lsa d d3).
    { destruct (is_router (lsa_body lsa)); [|by injection Hret as <-; exists d2].
      destruct (compute_spf (d_self_id d2) d2 w2) as [d3|] eqn:Hspf; [|done]. injection Hret as <-. exists d3.
      split; [done|]. destruct (compute_spf_run _ _ _ Hspf) as (st & _ & ->). by eapply heard_frame. }
    destruct Hd3 as (d3 & -> & Hh3). exists d3, w2, (acked ++ offered). split; [exact Hret|].
    split; [simpl in Hlog; by rewrite Hlog, Hw1, Hack, <- app_assoc|]. split; [done|].
    intros ev. rewrite elem_of_app, Hacks, Hoffers, (offers_same _ _ _ _ _ (he_links _ _ _ Hh) Hn1).
    unfold says. by rewrite Hacc; naive_solver.
  - rewrite handle_lsa_ignored by done. exists d, (send_ack c (lsa_key lsa) (lsa_seq lsa) d w), acked.
    split; [done|]. split; [done|]. split; [split; rewrite ?Hacc; try done; by exists 0%N|].
    intros ev. rewrite Hacks. unfold says. rewrite Hacc. naive_solver.
Qed.

(** * One node: the router's turn *)

(** The table in force was built from what the database holds. *)
Definition published (r : Router) : Prop := exists w t, build_fib (r_lsdb r) w = Returns (t, r_fib r).

(** A router that waits with everything in order. *)
Definition settled (r : Router) : Prop := lsdb_inv (r_lsdb r) /\ fib_fresh r /\ published r.

Lemma build_fib_fields d w t fib :
  build_fib d w = Returns (t, fib) ->
  d_db t = d_db d /\ d_links t = d_links d /\ d_self_id t = d_self_id d /\ d_routes t = d_routes d.
Proof.
  unfold build_fib, compute_spf. destruct (spf_run _ _ _); [|done..]. cbn [outcome_bind].
  destruct (build_from_db _ _); [|done]. by intros [= <- _].
Qed.

Lemma route_change_settles r w :
  lsdb_inv (r_lsdb r) ->
  exists r', route_change None r w = Returns (r', w) /\ settled r' /\
    d_self_id (r_lsdb r') = d_self_id (r_lsdb r) /\ d_links (r_lsdb r') = d_links (r_lsdb r) /\
    d_db (r_lsdb r') = d_db (r_lsdb r) /\ d_routes (r_lsdb r') = d_routes (r_lsdb r).
Proof.
  intros I. unfold route_change. destruct (build_fib_ok (r_lsdb r) w I) as (t & fib & Hb & Hwb & _ & Hfib).
  destruct (build_fib_fields _ _ _ _ Hb) as (Hdb & Hl & Hs & Hr). rewrite Hb. cbn [outcome_bind].
  eexists. split; [done|]. simpl. split_and!; try done. split; [by apply Hwb|]. split.
  - apply build_from_db_spec in Hfib as (H1 & H2 & H3 & _). done.
  - exists w. eapply build_fib_ext; [..|exact Hb]; done.
Qed.

(** A router takes in an advertisement and waits again. *)
Lemma lsa_inbound_settles lsa c r w :
  lsa_dead lsa = false -> not_multicast lsa -> open_links (d_links (r_lsdb r)) -> settled r ->
  exists r' w' evs, settle 3 (HandleBrokerMsg (RmLsaInbound c lsa)) r w = Returns (Some Listen, r', w') /\
    w_log w' = w_log w ++ evs /\ settled r' /\ heard_lsa lsa (r_lsdb r) (r_lsdb r') /\
    (forall ev, ev ∈ evs <-> says lsa c (r_lsdb r) ev).
Proof.
  intros Hlive Hnm Hopen (I & _ & _).
  destruct (handle_lsa_says lsa c (r_lsdb r) w I Hlive Hnm Hopen) as (d' & w' & evs & Hres & Hlog & Hh & Hsays).
  destruct (handle_lsa_ok lsa c (r_lsdb r) w I Hnm) as (s & Hs & I' & _).
  rewrite Hres in Hs. injection Hs as <-. simpl in I'.
  destruct (route_change_settles (set_lsdb d' r) w' (I' I)) as (r' & Hrc & Hset & Hself & Hl & Hdb & Hr).
  exists r', w', evs. cbn [settle next handle_broker_msg]. rewrite Hres. cbn [outcome_bind next].
  rewrite Hrc. cbn [outcome_bind]. split_and!; try done.
  destruct Hh as [H1 H2 H3 H4]. simpl in *. split; congruence || by rewrite Hdb.
Qed.

(** An acknowledgement changes nothing but the list of what is owed. *)
Lemma ack_inbound_settles key seq c r w :
  settled r -> exists r', settle 3 (HandleBrokerMsg (RmLsaAckInbound c key seq)) r w = Returns (Some Listen, r', w) /\
    settled r' /\ r_fib r' = r_fib r /\
    d_self_id (r_lsdb r') = d_self_id (r_lsdb r) /\ d_links (r_lsdb r') = d_links (r_lsdb r) /\
    d_db (r_lsdb r') = d_db (r_lsdb r) /\ d_routes (r_lsdb r') = d_routes (r_lsdb r).
Proof.
  intros (I & Hf & Hp). eexists. split; [cbn [settle next handle_broker_msg outcome_bind]; done|].
  pose proof (handle_ack_ok c key seq (r_lsdb r) w) as (I' & _). simpl in I'.
  assert (Hfields : exists m, handle_ack c key seq (r_lsdb r) = set_pending_tx m (r_lsdb r)).
  { unfold handle_ack. destruct (_ !! _); [by eexists|]. exists (d_pending_tx (r_lsdb r)). by destruct (r_lsdb r). }
  destruct Hfields as [m Hm]. simpl. rewrite Hm in *. split_and!; try done.
  split; [by apply I'|]. split; [done|]. destruct Hp as (w0 & t & Hb). exists w0.
  eapply build_fib_ext; [..|exact Hb]; done.
Qed.
End node.

(** * Several nodes *)

Section network.
Context `{Cd : Codec} `{E : !Env} `{!EnvLaws}.
(** A message under way to a node, on its connection. *)
Definition signal : Type := NodeId * ConnectionId * NodeMessage.

Record LsNet := mkLsNet {
  ln_routers : NodeId -> Router;
  ln_worlds : NodeId -> World;
  ln_wire : list signal;
}.

Definition set_router (n : NodeId) (r : Router) (R : NodeId -> Router) : NodeId -> Router :=
  fun m => if decide (m = n) then r else R m.

(** Where the channels of connections lead: the node at the other end and the connection there. *)
Context (dest : ChanId -> option (NodeId * ConnectionId)).

Definition signal_of (ev : Event) : option signal :=
  match delivered_node ev with
  | Some (tx, m) => (fun '(n, c) => (n, c, m)) <$> dest tx
  | None => None
  end.

(** A message arrives: the peer of the connection tells the router, and the router serves it. *)
Inductive ls_step : LsNet -> LsNet -> Prop :=
  | ls_deliver n c m p rm R W pre post r' w' :
      pe_connection_id p = c -> (handle_node_message m p).2 = [SendBroker rm] ->
      settle 3 (HandleBrokerMsg rm) (R n) (W n) = Returns (Some Listen, r', w') ->
      ls_step (mkLsNet R W (pre ++ (n, c, m) :: post))
        (mkLsNet (set_router n r' R) (set_world n w' W) (pre ++ post ++ omap signal_of (news (W n) w'))).

(** What a node holds. *)
Definition holds (net : LsNet) (v : NodeId) (k : LsaKey) : option Lsa := held (r_lsdb (ln_routers net v)) k.
Definition at_least (net : LsNet) (v : NodeId) (k : LsaKey) (s : N) : Prop :=
  exists lsa, holds net v k = Some lsa /\ (s <= lsa_seq lsa)%N.

(** ** The topology

    Links come in pairs, their channels take what they are given; the routers agree on the graph
    [g] of router advertisements. *)
Context (links : NodeId -> gmap ConnectionId Link) (g : gmap NodeId (list Adjacency)).
Hypothesis links_open : forall v, open_links (links v).
Hypothesis links_meet : forall v c link, links v !! c = Some link -> exists c' back,
  dest (l_tx link) = Some (l_peer_id link, c') /\ links (l_peer_id link) !! c' = Some back /\
  l_peer_id back = v /\ dest (l_tx back) = Some (v, c).
Hypothesis costs_positive : forall u v c, edge g u v c -> (0 < c)%N.

Definition router_view (d : LsDb) : Prop :=
  (forall k lsa adjs, held d k = Some lsa -> lsa_body lsa = Messages.Router adjs -> k = router_key (key_origin k)) /\
  forall n, held_adjacencies d n = g !! n.

(** Advertisements of endpoints do not touch the view of the topology. *)
Lemma view_edit d d' k :
  k <> router_key (key_origin k) -> (forall x, x <> k -> held d' x = held d x) ->
  (forall a, held d' k = Some a -> is_router (lsa_body a) = false) -> router_view d -> router_view d'.
Proof.
  intros Hk Hsame Hbody [Hrk Hg]. split.
  - intros x a adjs Ha Hr. destruct (decide (x = k)) as [->|Hx].
    + apply Hbody in Ha. by rewrite Hr in Ha.
    + rewrite Hsame in Ha by done. by eapply Hrk.
  - intros n. rewrite <- Hg. unfold held_adjacencies. rewrite Hsame; [done|]. intros Hn. apply Hk. by rewrite <- Hn.
Qed.

Record node_ok (v : NodeId) (r : Router) : Prop := {
  no_settled : settled r;
  no_self : d_self_id (r_lsdb r) = v;
  no_links : d_links (r_lsdb r) = links v;
  no_view : router_view (r_lsdb r);
}.

(** ** What next hops say about distances *)

Definition nearer (u v o : NodeId) : Prop :=
  exists d r, shortest g v o d /\ shortest g u o r /\ (r < d)%N.

Lemma node_in_force v r : node_ok v r -> in_force g v (r_lsdb r) (r_fib r).
Proof.
  intros [(I & _ & w & t & Hb) Hself _ [Hrk Hg]]. split; [done|]. split; [done|]. exists w, t.
  split; [|done]. apply map_eq. intros n. by rewrite router_nodes_held.
Qed.

(** A next hop is nearer to its destination. *)
Lemma hop_nearer v r o link :
  node_ok v r -> d_next_hop (r_lsdb r) !! o = Some link -> nearer (l_peer_id link) v o.
Proof.
  intros Hv Hhop. destruct (no_settled _ _ Hv) as (_ & (_ & _ & Hn) & _). rewrite <- Hn in Hhop.
  destruct (hop_distance g v _ _ (node_in_force v r Hv) _ _ Hhop) as (d & w & rest & Hs & _ & _ & _ & He & Hr & ->).
  exists (w + rest)%N, rest. split_and!; try done. pose proof (costs_positive _ _ _ He). lia.
Qed.

(** Within reach there is a next hop, over a link. *)
Lemma hop_exists v r o d :
  node_ok v r -> shortest g v o d -> (d < cost_max)%N -> o <> v ->
  exists link c w rest, links v !! c = Some link /\ edge g v (l_peer_id link) w /\
    shortest g (l_peer_id link) o rest /\ d = (w + rest)%N.
Proof.
  intros Hv Hs Hd Hne.
  destruct (table_hop g v _ _ (node_in_force v r Hv) o d Hs Hd Hne) as (link & w & rest & _ & Hl & He & Hr & Heq).
  rewrite (no_links _ _ Hv) in Hl. by exists link, (l_connection_id link), w, rest.
Qed.

(** Nobody is nearer to a node than the node itself. *)
Lemma self_nearest u o : ~ nearer u o o.
Proof.
  intros (d & r & Hd & _ & Hlt). pose proof (proj2 Hd 0%N (path_nil _ _)). lia.
Qed.

(** ** What is offered, on the wire *)

Lemma offers_arrive n r lsa inc ev s :
  node_ok n r -> (forall c link, links n !! c = Some link -> link_view link lsa = Some lsa) ->
  offers lsa inc (r_lsdb r) ev -> signal_of ev = Some s ->
  exists c link c' back, links n !! c = Some link /\ dest (l_tx link) = Some (l_peer_id link, c') /\
    s = (l_peer_id link, c', NmLsa lsa) /\ links (l_peer_id link) !! c' = Some back /\ l_peer_id back = n.
Proof.
  intros Hn Hcarried (c & link & [tx v] & Hlk & Htgt & ->) Hs. rewrite (no_links _ _ Hn) in Hlk.
  destruct (links_meet _ _ _ Hlk) as (c' & back & Hd & Hb & Hp & _). unfold signal_of in Hs. simpl in Hs.
  apply flood_target_spec in Htgt as (-> & Hv & _). rewrite (Hcarried _ _ Hlk) in Hv.
  injection Hv as <-. rewrite Hd in Hs. injection Hs as <-. by exists c, link, c', back.
Qed.

(** A link over which an advertisement is not offered leads to its originator, to where it came
    from, or nearer to the originator. *)
Lemma offered n r lsa inc c link :
  node_ok n r -> links n !! c = Some link -> link_view link lsa = Some lsa -> inc <> Some c ->
  l_peer_id link <> key_origin (lsa_key lsa) -> ~ nearer (l_peer_id link) n (key_origin (lsa_key lsa)) ->
  exists c' ev, dest (l_tx link) = Some (l_peer_id link, c') /\ offers lsa inc (r_lsdb r) ev /\
    signal_of ev = Some (l_peer_id link, c', NmLsa lsa).
Proof.
  intros Hn Hlk Hv Hc Hpeer Hnear. destruct (links_meet _ _ _ Hlk) as (c' & back & Hd & _).
  exists c', (offer (l_tx link, lsa)). split; [done|]. split; [|unfold signal_of; simpl; by rewrite Hd].
  exists c, link, (l_tx link, lsa). rewrite (no_links _ _ Hn). split_and!; try done.
  apply flood_target_spec. split_and!; try done.
  intros Hhop. destruct (d_next_hop _ !! _) as [hop|] eqn:Hnh; [|done]. injection Hhop as Hhop.
  apply Hnear. rewrite <- Hhop. by eapply hop_nearer.
Qed.

(** ** Advertisements

    Those that flood: advertisements of endpoints that every link carries; a node gives one
    sequence number to one content. *)
Context (genuine : Lsa -> Prop) (tracked : LsaKey -> Prop).
Hypothesis genuine_ok : forall lsa, genuine lsa ->
  endpoint_lsa_ok lsa /\ lsa_key lsa <> router_key (key_origin (lsa_key lsa)) /\ tracked (lsa_key lsa).
Hypothesis genuine_carried : forall lsa v c link,
  genuine lsa -> links v !! c = Some link -> link_view link lsa = Some lsa.
Hypothesis genuine_unique : forall a b,
  genuine a -> genuine b -> lsa_key a = lsa_key b -> lsa_seq a = lsa_seq b -> a = b.

Definition sound_signal (net : LsNet) (s : signal) : Prop :=
  let '(n, c, m) := s in
  match m with
  | NmLsa lsa => genuine lsa /\ at_least net (key_origin (lsa_key lsa)) (lsa_key lsa) (lsa_seq lsa) /\
      exists back, links n !! c = Some back /\ at_least net (l_peer_id back) (lsa_key lsa) (lsa_seq lsa)
  | NmLsaAck _ _ => is_Some (links n !! c)
  | NmWirePacket _ => False
  end.

(** What a node holds its neighbour holds too, or is about to hear, unless the neighbour is the
    originator or nearer to it. *)
Definition told_or_coming (net : LsNet) (link : Link) (k : LsaKey) (s : N) : Prop :=
  at_least net (l_peer_id link) k s \/
  exists c lsa, dest (l_tx link) = Some (l_peer_id link, c) /\
    (l_peer_id link, c, NmLsa lsa) ∈ ln_wire net /\ lsa_key lsa = k /\ (s <= lsa_seq lsa)%N.

Record flood_inv (net : LsNet) : Prop := {
  fi_node : forall v, node_ok v (ln_routers net v);
  fi_wire : forall s, s ∈ ln_wire net -> sound_signal net s;
  fi_held : forall v k lsa, tracked k -> holds net v k = Some lsa ->
    genuine lsa /\ at_least net (key_origin k) k (lsa_seq lsa);
  fi_edge : forall v c link k lsa, links v !! c = Some link -> tracked k -> holds net v k = Some lsa ->
    l_peer_id link <> key_origin k -> ~ nearer (l_peer_id link) v (key_origin k) ->
    told_or_coming net link k (lsa_seq lsa);
}.

(** ** One delivery *)

Lemma heard_holds lsa d d' k :
  heard_lsa lsa d d' ->
  held d' k = if accepts_lsa lsa d && bool_decide (k = lsa_key lsa) then Some lsa else held d k.
Proof.
  intros [_ _ [now Hdb] _]. unfold held. rewrite Hdb. destruct (accepts_lsa lsa d); [|done]. simpl.
  case_bool_decide as Hk; [subst k; by rewrite lookup_insert_eq | by rewrite lookup_insert_ne].
Qed.

(** A node keeps what it holds or replaces it by something newer. *)
Lemma heard_grows lsa d d' k a :
  heard_lsa lsa d d' -> held d k = Some a -> exists b, held d' k = Some b /\ (lsa_seq a <= lsa_seq b)%N.
Proof.
  intros Hh Ha. rewrite (heard_holds _ _ _ k Hh).
  destruct (accepts_lsa lsa d) eqn:Hacc; simpl; [|by exists a]. case_bool_decide as Hk; [subst k|by exists a].
  exists lsa. split; [done|]. apply andb_true_iff in Hacc as [_ Hst]. unfold stores, held in *.
  destruct (d_db d !! lsa_key lsa) as [r|]; [|done]. injection Ha as <-. apply N.ltb_lt in Hst. lia.
Qed.

(** After hearing an advertisement of another node a node holds it, or something newer. *)
Lemma heard_then_held lsa d d' :
  heard_lsa lsa d d' -> key_origin (lsa_key lsa) <> d_self_id d ->
  exists b, held d' (lsa_key lsa) = Some b /\ (lsa_seq lsa <= lsa_seq b)%N.
Proof.
  intros Hh Ho. rewrite (heard_holds _ _ _ _ Hh), bool_decide_eq_true_2, andb_true_r by done.
  destruct (accepts_lsa lsa d) eqn:Hacc; [by exists lsa|]. unfold accepts_lsa in Hacc.
  rewrite bool_decide_eq_true_2 in Hacc by done. simpl in Hacc. unfold stores, held in *.
  destruct (d_db d !! lsa_key lsa) as [r|]; [|done]. exists (rec_lsa r). split; [done|]. by apply N.ltb_ge in Hacc.
Qed.

Lemma heard_view lsa d d' :
  heard_lsa lsa d d' -> is_router (lsa_body lsa) = false ->
  lsa_key lsa <> router_key (key_origin (lsa_key lsa)) -> router_view d -> router_view d'.
Proof.
  intros Hh Hb Hk [Hrk Hg]. split.
  - intros k a adjs Ha Hadj. rewrite (heard_holds _ _ _ k Hh) in Ha.
    destruct (accepts_lsa lsa d && _); [|by eapply Hrk]. injection Ha as <-. by rewrite Hadj in Hb.
  - intros n. rewrite <- Hg. unfold held_adjacencies. rewrite (heard_holds _ _ _ _ Hh).
    destruct (accepts_lsa lsa d); [|done]. simpl. case_bool_decide as Hn; [|done]. by rewrite <- Hn in Hk.
Qed.

Lemma node_ok_after v r r' :
  node_ok v r -> settled r' -> d_self_id (r_lsdb r') = d_self_id (r_lsdb r) ->
  d_links (r_lsdb r') = d_links (r_lsdb r) -> router_view (r_lsdb r') -> node_ok v r'.
Proof. intros [_ Hs Hl _] Hset Hs' Hl' Hv. split; congruence || done. Qed.

Lemma at_least_le net v k s s' : at_least net v k s -> (s' <= s)%N -> at_least net v k s'.
Proof. intros (lsa & Hl & Hs) Hle. exists lsa. split; [done | lia]. Qed.

(** The nodes after [n] heard [lsa]; [sent] is what went on the wire. *)
Definition after (net : LsNet) (n : NodeId) (r' : Router) (w' : World) (wire : list signal) : LsNet :=
  mkLsNet (set_router n r' (ln_routers net)) (set_world n w' (ln_worlds net)) wire.

Lemma after_holds net n r' w' wire v k :
  holds (after net n r' w' wire) v k = if decide (v = n) then held (r_lsdb r') k else holds net v k.
Proof. unfold holds, after, set_router. simpl. by destruct (decide (v = n)). Qed.

Lemma after_grows net n r' w' wire lsa v k s :
  heard_lsa lsa (r_lsdb (ln_routers net n)) (r_lsdb r') ->
  at_least net v k s -> at_least (after net n r' w' wire) v k s.
Proof.
  intros Hh (a & Ha & Hs). unfold at_least. rewrite after_holds. destruct (decide (v = n)) as [->|]; [|by exists a].
  destruct (heard_grows _ _ _ _ _ Hh Ha) as (b & Hb & Hle). exists b. split; [done | lia].
Qed.

Lemma after_keeps net n r' w' wire lsa v k a :
  heard_lsa lsa (r_lsdb (ln_routers net n)) (r_lsdb r') ->
  holds (after net n r' w' wire) v k = Some a ->
  holds net v k = Some a \/
  (v = n /\ k = lsa_key lsa /\ a = lsa /\ accepts_lsa lsa (r_lsdb (ln_routers net n)) = true).
Proof.
  intros Hh. rewrite after_holds. destruct (decide (v = n)) as [->|]; [|by left].
  rewrite (heard_holds _ _ _ _ Hh). destruct (accepts_lsa _ _) eqn:Hacc; [|by left]. simpl.
  case_bool_decide as Hk; [|by left]. intros [= <-]. by right.
Qed.

(** Who heard an advertisement of another node holds it, or a later one. *)
Lemma after_got net n r' w' wire lsa :
  flood_inv net -> at_least net (key_origin (lsa_key lsa)) (lsa_key lsa) (lsa_seq lsa) ->
  heard_lsa lsa (r_lsdb (ln_routers net n)) (r_lsdb r') ->
  at_least (after net n r' w' wire) n (lsa_key lsa) (lsa_seq lsa).
Proof.
  intros I Horig Hh. destruct (decide (key_origin (lsa_key lsa) = n)) as [<-|Hne]; [by eapply after_grows|].
  destruct (heard_then_held _ _ _ Hh) as (b & Hb & Hle); [by rewrite (no_self _ _ (fi_node _ I n))|].
  exists b. by rewrite after_holds, decide_True.
Qed.

Lemma after_nodes net n r' w' wire lsa :
  flood_inv net -> genuine lsa -> settled r' -> heard_lsa lsa (r_lsdb (ln_routers net n)) (r_lsdb r') ->
  forall v, node_ok v (ln_routers (after net n r' w' wire) v).
Proof.
  intros I Hgen Hset Hh v. destruct (genuine_ok _ Hgen) as ((Hbody & _) & Hkey & _).
  unfold after, set_router. simpl. destruct (decide (v = n)) as [->|]; [|apply (fi_node _ I)].
  pose proof (fi_node _ I n) as Hn. eapply node_ok_after; [done|done|apply Hh|apply Hh|].
  by eapply heard_view; [| | |apply Hn].
Qed.

(** What a flooding node puts on the wire. *)
Lemma said_signals net n c lsa (evs : list Event) s :
  flood_inv net -> genuine lsa -> (forall ev, ev ∈ evs <-> says lsa c (r_lsdb (ln_routers net n)) ev) ->
  s ∈ omap signal_of evs ->
  (exists m c' key seq, s = (m, c', NmLsaAck key seq) /\ is_Some (links m !! c')) \/
  (accepts_lsa lsa (r_lsdb (ln_routers net n)) = true /\ exists m c' back,
     s = (m, c', NmLsa lsa) /\ links m !! c' = Some back /\ l_peer_id back = n).
Proof.
  intros I Hgen Hevs (ev & Hev%Hevs & Hs)%list_elem_of_omap. destruct Hev as [(link & Hlk & ->)|(Hacc & Hoff)].
  - left. rewrite (no_links _ _ (fi_node _ I n)) in Hlk. destruct (links_meet _ _ _ Hlk) as (c' & back & Hd & Hb & _).
    unfold signal_of in Hs. simpl in Hs. rewrite Hd in Hs. injection Hs as <-.
    exists (l_peer_id link), c', (lsa_key lsa), (lsa_seq lsa). by rewrite Hb.
  - right. split; [done|]. destruct (offers_arrive n _ lsa (Some c) ev s (fi_node _ I n)) as (c2 & link & c' & back & Hlk & _ & -> & ?);
      [intros ? ?; by apply genuine_carried|done|done|]. by exists (l_peer_id link), c', back.
Qed.

Lemma said_to net n c lsa (evs : list Event) c2 link :
  flood_inv net -> genuine lsa -> (forall ev, ev ∈ evs <-> says lsa c (r_lsdb (ln_routers net n)) ev) ->
  accepts_lsa lsa (r_lsdb (ln_routers net n)) = true -> links n !! c2 = Some link -> c2 <> c ->
  l_peer_id link <> key_origin (lsa_key lsa) -> ~ nearer (l_peer_id link) n (key_origin (lsa_key lsa)) ->
  exists c', dest (l_tx link) = Some (l_peer_id link, c') /\ (l_peer_id link, c', NmLsa lsa) ∈ omap signal_of evs.
Proof.
  intros I Hgen Hevs Hacc Hlk Hc Hpeer Hnear.
  destruct (offered n _ lsa (Some c) c2 link (fi_node _ I n) Hlk) as (c' & ev & Hd & Hoff & Hs);
    [by eapply genuine_carried|congruence|done|done|].
  exists c'. split; [done|]. apply list_elem_of_omap. exists ev. split; [|done]. apply Hevs. by right.
Qed.

Lemma deliver_lsa_inv net (pre post : list signal) n c lsa r' w' (evs : list Event) :
  flood_inv net -> ln_wire net = pre ++ (n, c, NmLsa lsa) :: post ->
  settled r' -> heard_lsa lsa (r_lsdb (ln_routers net n)) (r_lsdb r') ->
  (forall ev, ev ∈ evs <-> says lsa c (r_lsdb (ln_routers net n)) ev) ->
  flood_inv (after net n r' w' (pre ++ post ++ omap signal_of evs)).
Proof.
  intros I Hwire Hset Hh Hevs. set (net' := after _ _ _ _ _).
  assert (Hgrow : forall v k s, at_least net v k s -> at_least net' v k s) by (intros; by eapply after_grows).
  destruct (fi_wire _ I (n, c, NmLsa lsa)) as (Hgen & Horig & back & Hback & Hfrom).
  { rewrite Hwire. apply elem_of_app. right. by left. }
  destruct (genuine_ok _ Hgen) as (_ & _ & Htr).
  pose proof (after_got net n r' w' (pre ++ post ++ omap signal_of evs) lsa I Horig Hh) as Hgot. fold net' in Hgot.
  pose proof (after_keeps net n r' w' (pre ++ post ++ omap signal_of evs) lsa) as Hkeep. fold net' in Hkeep.
  split; [by eapply after_nodes|..].
  - intros s Hs. simpl in Hs. rewrite app_assoc in Hs. apply elem_of_app in Hs as [Hs|Hs].
    + assert (Hold : sound_signal net s).
      { apply (fi_wire _ I). rewrite Hwire. set_solver. }
      destruct s as [[m c'] [wire|a|key seq]]; try done. destruct Hold as (Ha & Ho & b & Hb & Hl).
      split; [done|]. split; [by apply Hgrow|]. exists b. split; [done | by apply Hgrow].
    + destruct (said_signals _ _ _ _ _ _ I Hgen Hevs Hs) as [(m & c' & key & seq & -> & Hb)|(_ & m & c' & back' & -> & Hb & Hp)];
        [done|]. split; [done|]. split; [by apply Hgrow|]. exists back'. split; [done|]. by rewrite Hp.
  - intros v k a Hk Ha. destruct (Hkeep _ _ _ Hh Ha) as [Hold|(-> & -> & -> & _)].
    + destruct (fi_held _ I v k a Hk Hold) as [? ?]. split; [done | by apply Hgrow].
    + split; [done | by apply Hgrow].
  - intros v c2 link k a Hlk Hk Ha Hpeer Hnear. destruct (Hkeep _ _ _ Hh Ha) as [Hold|(-> & -> & -> & Hacc)].
    + destruct (fi_edge _ I v c2 link k a Hlk Hk Hold Hpeer Hnear) as [Hl|(c' & b & Hd & Hin & Hkb & Hs)];
        [left; by apply Hgrow|]. rewrite Hwire in Hin.
      apply elem_of_app in Hin as [Hin|[Hin|Hin]%elem_of_cons].
      * right. exists c', b. split_and!; try done. simpl. set_solver.
      * injection Hin as Hn Hc Hb. subst b. left. rewrite Hn, <- Hkb. by eapply at_least_le.
      * right. exists c', b. split_and!; try done. simpl. set_solver.
    + destruct (decide (c2 = c)) as [->|Hc].
      * left. rewrite Hlk in Hback. injection Hback as <-. by apply Hgrow.
      * right. destruct (said_to _ _ _ _ _ _ _ I Hgen Hevs Hacc Hlk Hc Hpeer Hnear) as (c' & Hd & Hin).
        exists c', lsa. split_and!; try done. simpl. set_solver.
Qed.

Lemma deliver_ack_inv net (pre post : list signal) n c key seq r' w' :
  flood_inv net -> ln_wire net = pre ++ (n, c, NmLsaAck key seq) :: post -> node_ok n r' ->
  d_db (r_lsdb r') = d_db (r_lsdb (ln_routers net n)) ->
  flood_inv (after net n r' w' (pre ++ post)).
Proof.
  intros I Hwire Hr Hdb. set (net' := after _ _ _ _ _).
  assert (Hsame : forall v k, holds net' v k = holds net v k).
  { intros v k. unfold net'. rewrite after_holds. destruct (decide (v = n)) as [->|]; [|done].
    unfold holds, held. by rewrite Hdb. }
  assert (Hal : forall v k s, at_least net v k s <-> at_least net' v k s).
  { intros v k s. unfold at_least. by setoid_rewrite Hsame. }
  assert (Hsub : forall s, s ∈ pre ++ post -> s ∈ ln_wire net) by (intros s; rewrite Hwire; set_solver).
  split.
  - intros v. unfold net', after, set_router. simpl. destruct (decide (v = n)) as [->|]; [done | apply (fi_node _ I)].
  - intros s Hs. pose proof (fi_wire _ I s (Hsub s Hs)) as Hsound. destruct s as [[m c'] [wire|a|k s0]]; try done.
    destruct Hsound as (Hg & Ho & b & Hb & Hl). split; [done|]. split; [by apply Hal|]. exists b.
    split; [done | by apply Hal].
  - intros v k a Hk Ha. rewrite Hsame in Ha. destruct (fi_held _ I v k a Hk Ha) as [? ?].
    split; [done | by apply Hal].
  - intros v c2 link k a Hlk Hk Ha Hpeer Hnear. rewrite Hsame in Ha.
    destruct (fi_edge _ I v c2 link k a Hlk Hk Ha Hpeer Hnear) as [Hl|(c' & b & Hd & Hin & Hkb & Hs)];
      [left; by apply Hal|]. right. exists c', b. split_and!; try done. rewrite Hwire in Hin. simpl.
    apply elem_of_app in Hin as [Hin|[Hin|Hin]%elem_of_cons]; [set_solver|done|set_solver].
Qed.

(** What arrives at a node, and what the node becomes. *)
Lemma delivery net (pre post : list signal) n c m :
  flood_inv net -> ln_wire net = pre ++ (n, c, m) :: post ->
  (exists lsa, m = NmLsa lsa /\ genuine lsa /\ exists r' w' evs,
     settle 3 (HandleBrokerMsg (RmLsaInbound c lsa)) (ln_routers net n) (ln_worlds net n) =
       Returns (Some Listen, r', w') /\ news (ln_worlds net n) w' = evs /\ settled r' /\
     heard_lsa lsa (r_lsdb (ln_routers net n)) (r_lsdb r') /\
     forall ev, ev ∈ evs <-> says lsa c (r_lsdb (ln_routers net n)) ev) \/
  (exists key seq, m = NmLsaAck key seq /\ exists r',
     settle 3 (HandleBrokerMsg (RmLsaAckInbound c key seq)) (ln_routers net n) (ln_worlds net n) =
       Returns (Some Listen, r', ln_worlds net n) /\ node_ok n r' /\
     d_db (r_lsdb r') = d_db (r_lsdb (ln_routers net n)) /\
     d_routes (r_lsdb r') = d_routes (r_lsdb (ln_routers net n))).
Proof.
  intros I Hwire. pose proof (fi_node _ I n) as Hn.
  assert (Hs : sound_signal net (n, c, m)).
  { apply (fi_wire _ I). rewrite Hwire. apply elem_of_app. right. by left. }
  destruct m as [wire|lsa|key seq]; simpl in Hs; [done| |].
  - left. exists lsa. destruct Hs as [Hgen _]. split; [done|]. split; [done|].
    destruct (genuine_ok _ Hgen) as ((_ & Hlive & Hnm) & _).
    destruct (lsa_inbound_settles lsa c (ln_routers net n) (ln_worlds net n) Hlive Hnm) as
      (r' & w' & evs & Hset & Hlog & Hr & Hh & Hevs).
    + rewrite (no_links _ _ Hn). apply links_open.
    + apply Hn.
    + exists r', w', evs. split_and!; try done. by apply news_app.
  - right. exists key, seq. split; [done|].
    destruct (ack_inbound_settles key seq c (ln_routers net n) (ln_worlds net n) (no_settled _ _ Hn)) as
      (r' & Hset & Hr & _ & Hself & Hl & Hdb & Hro).
    exists r'. split_and!; try done. eapply node_ok_after; try done.
    destruct (no_view _ _ Hn) as [Hrk Hg]. split; unfold held_adjacencies, held in *; by rewrite Hdb.
Qed.

(** The step that delivers a given message, and what every step is. *)
Lemma step_inv net net' :
  flood_inv net -> ls_step net net' -> exists (pre post : list signal) n c m,
  ln_wire net = pre ++ (n, c, m) :: post /\
  ((exists lsa r' w' evs, m = NmLsa lsa /\ genuine lsa /\ settled r' /\
      heard_lsa lsa (r_lsdb (ln_routers net n)) (r_lsdb r') /\
      (forall ev, ev ∈ evs <-> says lsa c (r_lsdb (ln_routers net n)) ev) /\
      net' = after net n r' w' (pre ++ post ++ omap signal_of evs)) \/
   (exists key seq r' w', m = NmLsaAck key seq /\ node_ok n r' /\
      d_db (r_lsdb r') = d_db (r_lsdb (ln_routers net n)) /\
      d_routes (r_lsdb r') = d_routes (r_lsdb (ln_routers net n)) /\ net' = after net n r' w' (pre ++ post))).
Proof.
  intros I Hstep. destruct Hstep as [n c m p rm R W pre post r' w' Hp Hrm Hset].
  exists pre, post, n, c, m. split; [done|].
  destruct (delivery _ pre post n c m I eq_refl) as
    [(lsa & -> & Hgen & r1 & w1 & evs & Hset1 & Hnews & Hr & Hh & Hevs)|(key & seq & -> & r1 & Hset1 & Hr & Hdb & Hro)];
    simpl in Hrm; injection Hrm as <-; rewrite Hp in Hset; cbn [ln_routers ln_worlds] in *; rewrite Hset1 in Hset;
    injection Hset as <- <-; [left|right].
  - exists lsa, r1, w1, evs. split_and!; try done. unfold after. cbn [ln_routers ln_worlds]. by rewrite Hnews.
  - exists key, seq, r1, (W n). split_and!; try done. unfold after, news. cbn [ln_routers ln_worlds].
    by rewrite drop_all, app_nil_r.
Qed.

Lemma step_keeps_inv net net' : flood_inv net -> ls_step net net' -> flood_inv net'.
Proof.
  intros I Hstep. destruct (step_inv _ _ I Hstep) as (pre & post & n & c & m & Hwire &
    [(lsa & r' & w' & evs & -> & _ & Hr & Hh & Hevs & ->)|(key & seq & r' & w' & -> & Hr & Hdb & _ & ->)]).
  - by eapply deliver_lsa_inv.
  - by eapply deliver_ack_inv.
Qed.

(** Whatever is under way can arrive: nobody panics. *)
Lemma delivery_possible net : flood_inv net -> ln_wire net <> [] -> exists net', ls_step net net'.
Proof.
  intros I Hne. destruct net as [R W wire]. destruct wire as [|[[n c] m] post]; [done|]. clear Hne.
  set (p := mkPeer n n Global c 0%N stats_default ∅ true).
  destruct (delivery _ [] post n c m I eq_refl) as
    [(lsa & -> & _ & r1 & w1 & evs & Hset & _)|(key & seq & -> & r1 & Hset & _)]; cbn [ln_routers ln_worlds] in Hset;
    eexists; (eapply (ls_deliver n c _ p _ R W [] post); [done | reflexivity | exact Hset]).
Qed.

(** ** At rest *)

Definition no_lsa_coming (net : LsNet) : Prop := forall n c lsa, (n, c, NmLsa lsa) ∉ ln_wire net.

Lemma nearer_not v u o d r : shortest g u o d -> shortest g v o r -> (d <= r)%N -> ~ nearer v u o.
Proof.
  intros [Hd Hdm] [Hr Hrm] Hle (d' & r' & [Hd' Hdm'] & [Hr' Hrm'] & Hlt).
  specialize (Hdm _ Hd'). specialize (Hdm' _ Hd). specialize (Hrm _ Hr'). specialize (Hrm' _ Hr). lia.
Qed.

(** An adjacency a node advertises is over one of its links. *)
Lemma edge_at u r x w : node_ok u r -> edge g u x w -> exists c link, links u !! c = Some link /\ l_peer_id link = x.
Proof.
  intros [(I & _) Hself Hl [_ Hg]] (adjs & a & Hn & Ha & <- & _). rewrite <- Hg in Hn. unfold held_adjacencies, held in Hn.
  destruct (d_db (r_lsdb r) !! router_key u) as [record|] eqn:Hrec; [|done]. simpl in Hn.
  destruct (lsa_body (rec_lsa record)) as [adjs'|] eqn:Hbody; [|done]. injection Hn as ->.
  destruct (i_db _ I _ _ Hrec) as [_ Hok]. destruct (Hok (eq_sym Hself) adjs Hbody) as [_ Hback].
  destruct (Hback a Ha) as (link & Hlk & Hp). rewrite Hl in Hlk. by eexists _, link.
Qed.

(** What the originator holds is what a node holds that holds something newer still. *)
Lemma held_genuine net v k own a :
  flood_inv net -> tracked k -> holds net (key_origin k) k = Some own -> holds net v k = Some a ->
  (lsa_seq own <= lsa_seq a)%N -> a = own.
Proof.
  intros I Hk Hown Ha Hle. destruct (fi_held _ I v k a Hk Ha) as [Hga (o & Ho & Hlo)].
  rewrite Hown in Ho. injection Ho as <-. destruct (fi_held _ I _ k own Hk Hown) as [Hgo _].
  assert (Hkey : forall v' x, holds net v' k = Some x -> lsa_key x = k).
  { intros v' x Hx. unfold holds, held in Hx. destruct (d_db _ !! k) as [r|] eqn:Hdb; [|done].
    injection Hx as <-. by destruct (i_db _ (proj1 (no_settled _ _ (fi_node _ I v'))) k r Hdb). }
  apply genuine_unique; [done|done| |lia]. by rewrite (Hkey _ _ Ha), (Hkey _ _ Hown).
Qed.

(** When nothing is coming any more, every node from which a path leads to an originator holds what
    the originator holds. *)
Lemma rest_agrees net k own : forall d v,
  flood_inv net -> no_lsa_coming net -> tracked k -> holds net (key_origin k) k = Some own ->
  path g v (key_origin k) d -> holds net v k = Some own.
Proof.
  intros d. induction d as [d IH] using (well_founded_induction N.lt_wf_0). intros v I Hrest Hk Hown Hp.
  destruct (path_first _ _ _ _ Hp) as [[-> _]|(u & w & r & He & Hr & ->)]; [done|].
  pose proof (costs_positive _ _ _ He) as Hw.
  destruct (edge_at _ _ _ _ (fi_node _ I v) He) as (c & link & Hlk & <-).
  assert (Hu : holds net (l_peer_id link) k = Some own) by (apply (IH r); done || lia).
  destruct (links_meet _ _ _ Hlk) as (c' & back & _ & Hback & Hpeer & _).
  destruct (decide (v = key_origin k)) as [->|Hne]; [done|].
  destruct (decide (holds net v k = Some own)) as [|Hno]; [done|exfalso].
  assert (Hn : ~ nearer v (l_peer_id link) (key_origin k)).
  { intros (d' & r' & [_ Hmin] & [Hr' _] & Hlt). specialize (Hmin r Hr). apply Hno, (IH r'); done || lia. }
  destruct (fi_edge _ I _ _ back k own Hback Hk Hu) as [(a & Ha & Hle)|(c1 & b & _ & Hin & _)];
    rewrite ?Hpeer in *; [done|done| |by destruct (Hrest _ _ _ Hin)].
  apply Hno. rewrite Ha. f_equal. by eapply held_genuine.
Qed.

(** ** Flooding ends *)
Context (nodes : list NodeId) (keys : list LsaKey).
Hypothesis keys_known : forall lsa, genuine lsa -> lsa_key lsa ∈ keys.
Hypothesis nodes_known : forall v c link, links v !! c = Some link -> l_peer_id link ∈ nodes.

Definition have (net : LsNet) (v : NodeId) (k : LsaKey) : nat :=
  match holds net v k with Some lsa => S (N.to_nat (lsa_seq lsa)) | None => 0 end.
(** How far a node is behind the originator. *)
Definition behind (net : LsNet) (vk : NodeId * LsaKey) : nat :=
  have net (key_origin vk.2) vk.2 - have net vk.1 vk.2.
Definition total_behind (net : LsNet) : nat := sum_list_with (behind net) (list_prod nodes keys).

Definition is_lsa (s : signal) : bool := match s.2 with NmLsa _ => true | _ => false end.
Definition lsas_coming (net : LsNet) : nat := length (List.filter is_lsa (ln_wire net)).

(** Who stores an advertisement is less behind; nobody is more. *)
Lemma stored_progress net n c lsa r' w' wire back :
  flood_inv net -> genuine lsa -> at_least net (key_origin (lsa_key lsa)) (lsa_key lsa) (lsa_seq lsa) ->
  links n !! c = Some back -> heard_lsa lsa (r_lsdb (ln_routers net n)) (r_lsdb r') ->
  accepts_lsa lsa (r_lsdb (ln_routers net n)) = true ->
  total_behind (after net n r' w' wire) < total_behind net.
Proof.
  intros I Hgen (own & Hown & Hle) Hback Hh Hacc. set (net' := after _ _ _ _ _).
  pose proof Hacc as [Ho%bool_decide_eq_true Hst]%andb_true_iff. rewrite (no_self _ _ (fi_node _ I n)) in Ho.
  assert (Hgrow : forall v k, have net v k <= have net' v k).
  { intros v k. unfold have, net'. rewrite after_holds. destruct (decide (v = n)) as [->|]; [|done].
    unfold holds. destruct (held (r_lsdb (ln_routers net n)) k) as [a|] eqn:Ha; [|lia].
    destruct (heard_grows _ _ _ _ _ Hh Ha) as (b & -> & ?). lia. }
  assert (Hown' : forall k, have net' (key_origin k) k = have net (key_origin k) k).
  { intros k. unfold have, net'. rewrite after_holds. destruct (decide (key_origin k = n)) as [Hk|]; [|done].
    rewrite (heard_holds _ _ _ _ Hh), Hacc. simpl. rewrite bool_decide_eq_false_2 by congruence. by rewrite Hk. }
  apply (sum_with_lt _ _ _ (n, lsa_key lsa)).
  - intros [v k]. unfold behind. simpl. rewrite Hown'. specialize (Hgrow v k). lia.
  - apply list_elem_of_In, in_prod; apply list_elem_of_In; [|by apply keys_known].
    destruct (links_meet _ _ _ Hback) as (c' & b & _ & Hb & Hp & _). rewrite <- Hp. by eapply nodes_known.
  - unfold behind. simpl. rewrite Hown'.
    assert (Hnow : have net' n (lsa_key lsa) = S (N.to_nat (lsa_seq lsa))).
    { unfold have, net'. rewrite after_holds, decide_True by done.
      by rewrite (heard_holds _ _ _ _ Hh), Hacc, bool_decide_eq_true_2. }
    assert (Hwas : have net n (lsa_key lsa) < S (N.to_nat (lsa_seq lsa))).
    { unfold have, holds. unfold stores, held in *. destruct (d_db _ !! lsa_key lsa) as [r|]; simpl; [|lia].
      apply N.ltb_lt in Hst. lia. }
    unfold have at 1 3. rewrite Hown. lia.
Qed.

Lemma hearing_progress net (pre post : list signal) n c lsa r' w' (evs : list Event) :
  flood_inv net -> ln_wire net = pre ++ (n, c, NmLsa lsa) :: post ->
  heard_lsa lsa (r_lsdb (ln_routers net n)) (r_lsdb r') ->
  (forall ev, ev ∈ evs <-> says lsa c (r_lsdb (ln_routers net n)) ev) ->
  let net' := after net n r' w' (pre ++ post ++ omap signal_of evs) in
  total_behind net' < total_behind net \/
  total_behind net' = total_behind net /\ lsas_coming net' < lsas_coming net.
Proof.
  intros I Hwire Hh Hevs. set (sigs := omap signal_of evs). intros net'.
  destruct (fi_wire _ I (n, c, NmLsa lsa)) as (Hgen & Horig & back & Hback & _).
  { rewrite Hwire. apply elem_of_app. right. by left. }
  destruct (accepts_lsa lsa (r_lsdb (ln_routers net n))) eqn:Hacc; [left; by eapply stored_progress|right].
  assert (Hsame : forall v k, have net' v k = have net v k).
  { intros v k. unfold have, net'. rewrite after_holds. destruct (decide (v = n)) as [->|]; [|done].
    by rewrite (heard_holds _ _ _ _ Hh), Hacc. }
  split.
  { apply Nat.le_antisymm; apply sum_with_le; intros [v k]; unfold behind; by rewrite !Hsame. }
  assert (Hnone : List.filter is_lsa sigs = []).
  { destruct (List.filter is_lsa sigs) as [|s l] eqn:Hf; [done|]. exfalso.
    assert (Hs : s ∈ List.filter is_lsa sigs) by (rewrite Hf; by left).
    apply list_elem_of_In, List.filter_In in Hs as [Hs Hi]. apply list_elem_of_In in Hs.
    destruct (said_signals _ _ _ _ _ _ I Hgen Hevs Hs) as [(m & c' & key & seq & -> & _)|(Ha & _)]; [done | congruence]. }
  unfold lsas_coming, net', after. cbn [ln_wire].
  rewrite Hwire, !List.filter_app, Hnone, !length_app. simpl. lia.
Qed.

Lemma step_progress net net' :
  flood_inv net -> ls_step net net' ->
  total_behind net' < total_behind net \/
  total_behind net' = total_behind net /\ (lsas_coming net' < lsas_coming net \/
    lsas_coming net' = lsas_coming net /\ length (ln_wire net') < length (ln_wire net)).
Proof.
  intros I Hstep. destruct (step_inv _ _ I Hstep) as (pre & post & n & c & m & Hwire &
    [(lsa & r' & w' & evs & -> & _ & Hr & Hh & Hevs & ->)|(key & seq & r' & w' & -> & Hr & Hdb & _ & ->)]).
  - destruct (hearing_progress _ _ _ _ _ _ r' w' _ I Hwire Hh Hevs) as [Hlt|[Heq Hlt]]; [by left|].
    right. split; [done | by left].
  - right. set (net' := after _ _ _ _ _). assert (Hsame : forall v k, have net' v k = have net v k).
    { intros v k. unfold have, net'. rewrite after_holds. destruct (decide (v = n)) as [->|]; [|done].
      unfold holds, held. by rewrite Hdb. }
    split; [apply Nat.le_antisymm; apply sum_with_le; intros [v k]; unfold behind; by rewrite !Hsame|].
    right. unfold lsas_coming, net', after. cbn [ln_wire].
    rewrite Hwire, !List.filter_app, !length_app. simpl. lia.
Qed.

(** Every run is finite. *)
Lemma flooding_acc net : flood_inv net -> Acc (fun net' net => ls_step net net') net.
Proof.
  apply (runs_end_by_counts _ _ total_behind lsas_coming (fun net => length (ln_wire net))).
  - exact step_keeps_inv.
  - exact step_progress.
Qed.

(** C10: advertisements of endpoints reach everyone: in a network whose routers agree on the graph,
    with paired links that take what they are given, flooding never panics and never goes on
    forever, whatever the order in which messages arrive, and when nothing is under way any more
    every node from which a path leads to an originator, however long, holds exactly what the
    originator holds. *)
Theorem flooding_reaches_everyone net :
  flood_inv net ->
  Acc (fun net' net => ls_step net net') net /\
  forall net', rtc ls_step net net' ->
    (ln_wire net' <> [] -> exists net'', ls_step net' net'') /\
    (ln_wire net' = [] -> forall k own v d, tracked k -> holds net' (key_origin k) k = Some own ->
       path g v (key_origin k) d -> holds net' v k = Some own).
Proof.
  intros I. split; [by apply flooding_acc|]. intros net' Hrun.
  pose proof (runs_keep _ _ _ _ step_keeps_inv I Hrun) as I'.
  split; [by apply delivery_possible|]. intros Hwire k own v d Hk Hown Hp.
  eapply (rest_agrees net' k own); try done. intros n c lsa. rewrite Hwire. apply not_elem_of_nil.
Qed.
End network.
