(* ===== verification/Reach.v ===== *)
(** From a registration to a delivery: a listener registers at one node, the node floods its
    advertisement, every node takes it in and publishes a new table, and a packet sent anywhere
    finds the listener. Everything from [src/handle.rs] to [forward_table.rs], at every node. *)
From Stdlib Require Import Strings.String.
From S2P Require Import Prelude Types Messages World RouteTable Linkstate Spf SpfProofs LsDb.
From S2P Require Import LsDbProofs LsDbTheorems Convergence Fib FibProofs Router RouterProofs Peer.
From S2P Require Import Handle Receivers Network Delivery Registration Flooding.

(** * One node: a new unicast listener *)
Section node.
Context `{Cd : Codec} `{E : !Env} `{!EnvLaws}.

Definition new_lsa (o : NodeId) (rq : RegistrationRequest) : Lsa :=
  mkLsa (mkLsaKey o (endpoint_uuid (rr_endpoint_id rq))) 0 false (Endpoint (rr_endpoint_info rq)).

Definition local_route (rq : RegistrationRequest) : LsRoute :=
  mkLsRoute (Local (rr_sender rq)) (ei_cost (rr_endpoint_info rq)) (ei_realm (rr_endpoint_info rq)) Unicast.
Definition remote_route (o : NodeId) (rq : RegistrationRequest) : LsRoute :=
  mkLsRoute (Remote o) (ei_cost (rr_endpoint_info rq)) (ei_realm (rr_endpoint_info rq)) Unicast.

Lemma add_endpoint_new t rq :
  ei_kind (rr_endpoint_info rq) = Unicast -> t !! rr_endpoint_id rq = None ->
  add_endpoint t (rr_endpoint_id rq) (rr_endpoint_info rq) (rr_sender rq) =
  (inr (AddLsa (rr_endpoint_id rq) (rr_endpoint_info rq)),
   <[rr_endpoint_id rq := mkLsRouteEntry [local_route rq] Unicast]> t).
Proof.
  intros Hk Ht. unfold add_endpoint, entry_or_insert. rewrite Hk, Ht. cbn [re_kind re_routes].
  rewrite decide_True by done. by rewrite insert_insert_eq.
Qed.

Lemma add_remote_new t o rq :
  ei_kind (rr_endpoint_info rq) = Unicast -> t !! rr_endpoint_id rq = None ->
  (add_remote_endpoint t (rr_endpoint_id rq) o (rr_endpoint_info rq)).2 !! rr_endpoint_id rq =
  Some (mkLsRouteEntry [remote_route o rq] Unicast).
Proof. apply add_remote_fresh. Qed.

(** [RouteChange] with somebody to tell is [RouteChange] and telling. *)
Lemma route_change_tell rq r w r' :
  route_change None r w = Returns (r', w) ->
  route_change (Some rq) r w =
  Returns (r', (try_send_client (rr_sender rq) (CmSuccessfulRegistration (rr_endpoint_id rq)) w).2).
Proof. unfold route_change. destruct (build_fib _ _) as [[d fib]|]; [|done]. simpl. by intros [= <-]. Qed.

(** What the node of the listener says: the new advertisement, over every link it is meant for. *)
Lemma register_settles rq r w :
  let d := r_lsdb r in
  let lsa := new_lsa (d_self_id d) rq in
  ei_kind (rr_endpoint_info rq) = Unicast -> d_routes d !! rr_endpoint_id rq = None ->
  open_links (d_links d) -> settled r ->
  exists r' w' evs ev, settle 3 (HandleBrokerMsg (RmRegisterEndpoint rq)) r w = Returns (Some Listen, r', w') /\
    settled r' /\ d_self_id (r_lsdb r') = d_self_id d /\ d_links (r_lsdb r') = d_links d /\
    (exists now, d_db (r_lsdb r') = <[lsa_key lsa := mkLsaRecord lsa now]> (d_db d)) /\
    d_routes (r_lsdb r') = <[rr_endpoint_id rq := mkLsRouteEntry [local_route rq] Unicast]> (d_routes d) /\
    w_log w' = w_log w ++ evs ++ [ev] /\ (exists m res, ev = EvClient (rr_sender rq) m res) /\
    (forall ev, ev ∈ evs <-> offers lsa (Some 0%N) d ev).
Proof.
  intros d lsa Hk Ht Hopen (I & _ & _). cbn [settle next handle_broker_msg outcome_bind].
  unfold lsdb_add_endpoint. fold d. rewrite (add_endpoint_new _ _ Hk Ht).
  set (t := <[rr_endpoint_id rq := _]> _). set (d0 := set_routes t d).
  pose proof (lsdb_add_endpoint_ok rq d w ltac:(by rewrite Hk) I) as [I1 _]. revert I1.
  unfold lsdb_add_endpoint. rewrite (add_endpoint_new _ _ Hk Ht). fold t d0. intros I1.
  cbn [apply_add read_clock] in *. set (w1 := mkWorld _ _) in *.
  change (mkLsa (endpoint_key d0 _) 0 false _) with lsa in *.
  destruct (offers_log lsa (Some 0%N) d0 w1 Hopen) as (evs & Hlog & Hoffers).
  destruct (flood_all_neighbors lsa (Some 0%N) d0 w1) as [d1 w2] eqn:Hf. apply flood_spec in Hf as [Hf _].
  set (d2 := set_db _ d1) in *. cbn [outcome_bind].
  destruct (route_change_settles (set_lsdb d2 r) w2 (I1 I)) as (r' & Hrc & Hset & Hself & Hl & Hdb & Hr).
  cbn [next]. rewrite (route_change_tell rq _ _ _ Hrc). cbn [outcome_bind].
  assert (Hd1 : d_self_id d1 = d_self_id d /\ d_links d1 = d_links d /\ d_db d1 = d_db d /\ d_routes d1 = t)
    by (rewrite Hf; done).
  destruct Hd1 as (H1 & H2 & H3 & H4). unfold d2 in Hself, Hl, Hdb, Hr. simpl in Hself, Hl, Hdb, Hr.
  rewrite H3 in Hdb. change (endpoint_key d0 _) with (lsa_key lsa) in Hdb.
  assert (exists res, w_log (try_send_client (rr_sender rq) (CmSuccessfulRegistration (rr_endpoint_id rq)) w2).2 =
    w_log w2 ++ [EvClient (rr_sender rq) (CmSuccessfulRegistration (rr_endpoint_id rq)) res]) as [res Hcl].
  { unfold try_send_client. destruct (env_try_send _ _); by eexists. }
  exists r'. eexists. exists evs. eexists. split; [done|]. split; [done|]. split; [congruence|]. split; [congruence|].
  split; [by eexists|]. split; [by rewrite Hr, H4|].
  split; [rewrite Hcl; simpl in Hlog; rewrite Hlog, <- app_assoc; done|]. split; [by do 2 eexists|].
  intros ev. rewrite Hoffers. by apply offers_same.
Qed.
End node.

(** * The network *)
Section network.
Context `{Cd : Codec} `{E : !Env} `{!EnvLaws}.
Context (dest : ChanId -> option (NodeId * ConnectionId)).
Context (links : NodeId -> gmap ConnectionId Link) (g : gmap NodeId (list Adjacency)).
Hypothesis links_open : forall v, open_links (links v).
Hypothesis links_meet : forall v c link, links v !! c = Some link -> exists c' back,
  dest (l_tx link) = Some (l_peer_id link, c') /\ links (l_peer_id link) !! c' = Some back /\
  l_peer_id back = v /\ dest (l_tx back) = Some (v, c).
Hypothesis links_single : forall v c link c' link',
  links v !! c = Some link -> links v !! c' = Some link' -> l_peer_id link' = l_peer_id link -> link' = link.
Hypothesis costs_positive : forall u v c, edge g u v c -> (0 < c)%N.
Hypothesis symmetric : forall u v c, edge g u v c -> edge g v u c.
Hypothesis no_ties : forall u n v1 c1 r1 v2 c2 r2,
  shortest g u n (c1 + r1) -> (c1 + r1 = c2 + r2)%N ->
  edge g u v1 c1 -> shortest g v1 n r1 -> edge g u v2 c2 -> shortest g v2 n r2 -> v1 = v2.
Context (nodes : list NodeId).
Hypothesis nodes_known : forall v c link, links v !! c = Some link -> l_peer_id link ∈ nodes.

(** A listener registers at the node [o]; nobody has heard of its endpoint. *)
Context (o : NodeId) (rq : RegistrationRequest).
Let e : EndpointId := rr_endpoint_id rq.
Let lsa : Lsa := new_lsa o rq.
Hypothesis kind_unicast : ei_kind (rr_endpoint_info rq) = Unicast.
Hypothesis not_router : lsa_key lsa <> router_key o.
Hypothesis carried_everywhere : forall v c link, links v !! c = Some link -> link_view link lsa = Some lsa.
Hypothesis no_link_zero : links o !! 0%N = None.
Hypothesis listener_open : forall w, env_try_send w (rr_sender rq) = SendOk.

Definition unheard (r : Router) : Prop :=
  d_routes (r_lsdb r) !! e = None /\ held (r_lsdb r) (lsa_key lsa) = None.

(** The router of [o] serves the registration; what it sends is under way. *)
Definition registers (R : NodeId -> Router) (W : NodeId -> World) (net : LsNet) : Prop :=
  exists r' w', settle 3 (HandleBrokerMsg (RmRegisterEndpoint rq)) (R o) (W o) = Returns (Some Listen, r', w') /\
    net = mkLsNet (set_router o r' R) (set_world o w' W) (omap (signal_of dest) (news (W o) w')).

Lemma lsa_endpoint : key_endpoint (lsa_key lsa) = e.
Proof. unfold e, lsa. simpl. by destruct (rr_endpoint_id rq). Qed.

Let is_new (a : Lsa) : Prop := a = lsa.
Let is_key (k : LsaKey) : Prop := k = lsa_key lsa.
Let inv : LsNet -> Prop := flood_inv dest links g is_new is_key.

Lemma new_ok : forall a, is_new a ->
  endpoint_lsa_ok a /\ lsa_key a <> router_key (key_origin (lsa_key a)) /\ is_key (lsa_key a).
Proof.
  intros a ->. split; [|done]. split; [done|]. split; [done|].
  unfold not_multicast, lsa, new_lsa. simpl. by rewrite kind_unicast.
Qed.

Lemma new_carried : forall a v c link, is_new a -> links v !! c = Some link -> link_view link a = Some a.
Proof. intros a v c link ->. apply carried_everywhere. Qed.

Lemma new_unique : forall a b, is_new a -> is_new b -> lsa_key a = lsa_key b -> lsa_seq a = lsa_seq b -> a = b.
Proof. by intros a b -> ->. Qed.

(** What each node knows of the endpoint. *)
Definition routes_follow (net : LsNet) : Prop := forall v,
  d_routes (r_lsdb (ln_routers net v)) !! e =
  if decide (v = o) then Some (mkLsRouteEntry [local_route rq] Unicast)
  else match holds net v (lsa_key lsa) with
       | Some _ => Some (mkLsRouteEntry [remote_route o rq] Unicast)
       | None => None
       end.

Lemma heard_new d d' :
  heard_lsa lsa d d' -> accepts_lsa lsa d = true ->
  (held d (lsa_key lsa) = None -> d_routes d !! e = None) ->
  d_routes d' !! e = Some (mkLsRouteEntry [remote_route o rq] Unicast) /\ d_self_id d <> o.
Proof.
  intros [_ _ _ Hr] Hacc Hnone. rewrite Hacc in Hr. apply andb_true_iff in Hacc as [Ho%bool_decide_eq_true Hst].
  split; [|simpl in Ho; congruence]. rewrite Hr.
  rewrite lsa_endpoint. change (lsa_info lsa d) with (rr_endpoint_info rq). apply add_remote_new; [done|]. apply Hnone.
  unfold stores, held in *. destruct (d_db d !! lsa_key lsa) as [x|]; [|done]. apply N.ltb_lt in Hst. simpl in Hst. lia.
Qed.

Lemma step_routes net net' : inv net -> routes_follow net -> ls_step dest net net' -> routes_follow net'.
Proof.
  intros I HR Hstep.
  destruct (step_inv dest links g links_open is_new is_key new_ok _ _ I Hstep) as (pre & post & n & c & m & Hwire &
    [(a & r' & w' & evs & -> & -> & Hr & Hh & _ & ->)|(key & seq & r' & w' & -> & Hr & Hdb & Hro & ->)]);
    intros v; rewrite after_holds; unfold after, set_router; cbn [ln_routers]; specialize (HR v) as HRv;
    (destruct (decide (v = n)) as [->|]; [|done]).
  - assert (Hself : d_self_id (r_lsdb (ln_routers net n)) = n) by apply (fi_node _ _ _ _ _ _ I n).
    rewrite (heard_holds _ _ _ _ Hh), bool_decide_eq_true_2, andb_true_r by done.
    destruct (accepts_lsa lsa (r_lsdb (ln_routers net n))) eqn:Hacc.
    + assert (Hno : n <> o).
      { apply andb_true_iff in Hacc as [Ho%bool_decide_eq_true _]. simpl in Ho. congruence. }
      rewrite decide_False in * by done.
      destruct (heard_new _ _ Hh Hacc) as [Hnew _]; [|done]. unfold holds in HRv. intros Hnone. by rewrite Hnone in HRv.
    + destruct Hh as [_ _ _ Hro]. rewrite Hacc in Hro. by rewrite Hro.
  - rewrite Hro, HRv. unfold holds, held. by rewrite Hdb.
Qed.

Lemma runs_routes net net' : inv net -> routes_follow net -> rtc (ls_step dest) net net' -> inv net' /\ routes_follow net'.
Proof.
  intros I HR Hrun. induction Hrun as [|net net1 net' Hs _ IH]; [done|]. apply IH.
  - exact (step_keeps_inv dest links g links_open links_meet costs_positive is_new is_key new_ok new_carried new_unique
      net net1 I Hs).
  - by eapply step_routes.
Qed.

(** The network when the registration was served: what every node holds, and what is under way. *)
Definition entered (R : NodeId -> Router) (v : NodeId) (k : LsaKey) : option Lsa :=
  if decide (v = o /\ k = lsa_key lsa) then Some lsa else held (r_lsdb (R v)) k.

Lemma registered R W :
  (forall v, node_ok links g v (R v)) -> (forall v, unheard (R v)) ->
  exists net, registers R W net /\ (forall v, node_ok links g v (ln_routers net v)) /\
    (forall v k, holds net v k = entered R v k) /\
    (forall v, d_routes (r_lsdb (ln_routers net v)) =
       if decide (v = o) then <[e := mkLsRouteEntry [local_route rq] Unicast]> (d_routes (r_lsdb (R v)))
       else d_routes (r_lsdb (R v))) /\
    (forall s, s ∈ ln_wire net <-> exists ev, offers lsa (Some 0%N) (r_lsdb (R o)) ev /\ signal_of dest ev = Some s).
Proof.
  intros Hok Hun. pose proof (Hok o) as [Hset Hself Hl Hview]. destruct (Hun o) as [Ht Hnone].
  pose proof (register_settles rq (R o) (W o)) as Hreg. cbn zeta in Hreg. rewrite Hself in Hreg.
  change (new_lsa o rq) with lsa in Hreg.
  destruct Hreg as (r' & w' & evs & ev & Hres & Hr' & Hs' & Hl' & (now & Hdb) & Hro &
    Hlog & (m & res & Hev) & Hevs); [done|done|rewrite Hl; apply links_open|done|].
  eexists. split; [exists r', w'; done|]. rewrite (news_app _ _ _ Hlog). set (net := mkLsNet _ _ _).
  assert (Hheld : forall k, held (r_lsdb r') k = entered R o k).
  { intros k. unfold held, entered. rewrite Hdb. destruct (decide (k = lsa_key lsa)) as [->|Hk].
    - by rewrite lookup_insert_eq, decide_True.
    - rewrite lookup_insert_ne, decide_False by (congruence || by intros [_ ?]). done. }
  assert (Hat : forall v, ln_routers net v = if decide (v = o) then r' else R v) by done.
  split_and!.
  - intros v. rewrite Hat. destruct (decide (v = o)) as [->|]; [|done].
    eapply node_ok_after; [done|done|congruence|congruence|].
    apply (view_edit g (r_lsdb (R o)) _ (lsa_key lsa)); [done| | |done].
    + intros x Hx. rewrite Hheld. unfold entered. rewrite decide_False by by intros [_ ?]. done.
    + intros a. rewrite Hheld. unfold entered. rewrite decide_True by done. by intros [= <-].
  - intros v k. unfold holds. rewrite Hat. destruct (decide (v = o)) as [->|Hv]; [done|].
    unfold entered. by rewrite decide_False by by intros [? _].
  - intros v. rewrite Hat. destruct (decide (v = o)) as [->|]; [exact Hro | done].
  - intros s. cbn [net ln_wire]. rewrite list_elem_of_omap. split.
    + intros (x & [Hx|Hx%list_elem_of_singleton]%elem_of_app & Hs); [|by subst]. exists x. by rewrite <- Hevs.
    + intros (x & Hx & Hs). exists x. split; [|done]. apply elem_of_app. left. by apply Hevs.
Qed.

Lemma registered_inv R W :
  (forall v, node_ok links g v (R v)) -> (forall v, unheard (R v)) ->
  exists net, registers R W net /\ inv net /\ routes_follow net /\ holds net o (lsa_key lsa) = Some lsa.
Proof.
  intros Hok Hun. destruct (registered R W Hok Hun) as (net & Hreg & Hnodes & Hheld & Hroutes & Hwire).
  exists net. split; [done|].
  assert (Hhas : forall v a, holds net v (lsa_key lsa) = Some a -> v = o /\ a = lsa).
  { intros v a. rewrite Hheld. unfold entered. case_decide as Hv; [destruct Hv as [-> _]; intros; split; congruence|].
    destruct (Hun v) as [_ ->]. done. }
  assert (Hmine : holds net o (lsa_key lsa) = Some lsa) by (rewrite Hheld; unfold entered; by rewrite decide_True).
  assert (Hown : at_least net o (lsa_key lsa) (lsa_seq lsa)) by (by exists lsa).
  split; [split; [done|..]|split].
  - intros s (ev & Hoff & Hs)%Hwire.
    destruct (offers_arrive dest links g links_meet o _ lsa _ ev s (Hok o) (carried_everywhere o) Hoff Hs)
      as (c & link & c' & back & _ & _ & -> & Hb & Hp).
    split; [done|]. split; [done|]. exists back. split; [done|]. by rewrite Hp.
  - intros v k a -> Ha. destruct (Hhas _ _ Ha) as [-> ->]. by split.
  - intros v c link k a Hlk -> Ha Hpeer Hnear. destruct (Hhas _ _ Ha) as [-> ->]. right.
    destruct (offered dest links g links_meet costs_positive o _ lsa (Some 0%N) c link (Hok o) Hlk) as
      (c' & ev & Hd & Hoff & Hs); [by eapply carried_everywhere| |done|done|].
    { intros [= <-]. by pose proof (eq_trans (eq_sym Hlk) no_link_zero). }
    exists c', lsa. split_and!; try done. apply Hwire. by exists ev.
  - intros v. rewrite Hroutes, Hheld. unfold entered. destruct (Hun v) as [Hr Hnh].
    destruct (decide (v = o)) as [->|Hv]; [apply lookup_insert_eq|]. by rewrite decide_False, Hnh by by intros [? _].
  - done.
Qed.

(** What else the nodes hold stays as it was, and the routes of other endpoints. *)
Definition others_kept (R : NodeId -> Router) (net : LsNet) : Prop := forall v,
  (forall k, k <> lsa_key lsa -> holds net v k = held (r_lsdb (R v)) k) /\
  (forall e', e' <> e -> d_routes (r_lsdb (ln_routers net v)) !! e' = d_routes (r_lsdb (R v)) !! e').

Lemma registered_others R W net :
  (forall v, node_ok links g v (R v)) -> (forall v, unheard (R v)) -> registers R W net -> others_kept R net.
Proof.
  intros Hok Hun (r & w & Hres & ->). destruct (registered R W Hok Hun) as (net & (r' & w' & Hres' & ->) & _ & Hheld & Hroutes & _).
  rewrite Hres in Hres'. injection Hres' as <- <-. intros v. split.
  - intros k Hk. rewrite Hheld. unfold entered. by rewrite decide_False by by intros [_ ?].
  - intros e' He. rewrite Hroutes. destruct (decide (v = o)); [|done]. by rewrite lookup_insert_ne.
Qed.

Lemma step_others R net net' : inv net -> others_kept R net -> ls_step dest net net' -> others_kept R net'.
Proof.
  intros I HO Hstep.
  destruct (step_inv dest links g links_open is_new is_key new_ok _ _ I Hstep) as (pre & post & n & c & m & Hwire &
    [(a & r' & w' & evs & -> & -> & Hr & Hh & _ & ->)|(key & seq & r' & w' & -> & Hr & Hdb & Hro & ->)]);
    intros v; destruct (HO v) as [HK HE]; (split; [intros k Hk; rewrite after_holds|intros e' He; unfold after, set_router; cbn [ln_routers]]);
    destruct (decide (v = n)) as [->|]; auto.
  - rewrite (heard_holds _ _ _ _ Hh), bool_decide_eq_false_2, andb_false_r by done. by apply HK.
  - rewrite (he_routes _ _ _ Hh). destruct (accepts_lsa _ _); [|by apply HE].
    rewrite add_remote_other; [by apply HE|]. intros Heq. apply He. rewrite Heq. apply lsa_endpoint.
  - unfold held. rewrite Hdb. by apply HK.
  - rewrite Hro. by apply HE.
Qed.

Lemma runs_others R net net' : inv net -> others_kept R net -> rtc (ls_step dest) net net' -> others_kept R net'.
Proof.
  intros I HO Hrun. induction Hrun as [|net net1 net' Hs _ IH]; [done|]. apply IH.
  - exact (step_keeps_inv dest links g links_open links_meet costs_positive is_new is_key new_ok new_carried new_unique
      net net1 I Hs).
  - by eapply step_others.
Qed.

(** Once nothing is under way, the node of every packet's sender and all on the way have a route. *)
Lemma rest_routes net : inv net -> routes_follow net -> holds net o (lsa_key lsa) = Some lsa -> ln_wire net = [] ->
  forall v d, path g v o d -> exists route kind, (kind = Unicast \/ kind = Node) /\
    d_routes (r_lsdb (ln_routers net v)) !! e = Some (mkLsRouteEntry [route] kind) /\
    r_via route = if decide (v = o) then Local (rr_sender rq) else Remote o.
Proof.
  intros I HR Hown Hwire v d Hp. rewrite HR. destruct (decide (v = o)) as [->|Hv].
  { exists (local_route rq), Unicast. split; [by left | done]. }
  assert (Hrest : no_lsa_coming net) by (intros n c a; rewrite Hwire; apply not_elem_of_nil).
  rewrite (rest_agrees dest links g links_meet costs_positive is_new is_key new_unique net (lsa_key lsa) lsa d v
    I Hrest eq_refl Hown Hp).
  exists (remote_route o rq), Unicast. split; [by left | done].
Qed.

Lemma net_good_links net : inv net -> good_links dest (fun v => r_lsdb (ln_routers net v)).
Proof.
  intros I v c link. rewrite !(no_links _ _ _ _ (fi_node _ _ _ _ _ _ I _)). intros Hl.
  split; [intros w; by eapply links_open|]. split; [by intros c' link'; apply (links_single v c)|].
  destruct (links_meet _ _ _ Hl) as (c' & back & Hd & Hb & Hp & _). by exists c', back.
Qed.

(** An advertisement goes back to nobody: the originator holds what it advertised. *)
Lemma own_kept net net' :
  inv net -> holds net o (lsa_key lsa) = Some lsa -> rtc (ls_step dest) net net' ->
  holds net' o (lsa_key lsa) = Some lsa.
Proof.
  intros I Hown Hrun. induction Hrun as [|net net1 net' Hs _ IH]; [done|]. apply IH.
  { exact (step_keeps_inv dest links g links_open links_meet costs_positive is_new is_key new_ok new_carried new_unique
      net net1 I Hs). }
  destruct (step_inv dest links g links_open is_new is_key new_ok _ _ I Hs) as (pre & post & n & c & m & _ &
    [(a & r' & w' & evs & _ & -> & _ & Hh & _ & ->)|(key & seq & r' & w' & _ & _ & Hdb & _ & ->)]);
    rewrite after_holds; (destruct (decide (o = n)) as [<-|]; [|done]).
  - rewrite (heard_holds _ _ _ _ Hh), bool_decide_eq_true_2, andb_true_r by done. by destruct (accepts_lsa _ _).
  - unfold held. by rewrite Hdb.
Qed.

(** Every run of the network ends. *)
Lemma registration_acc net : inv net -> Acc (fun net' net => ls_step dest net net') net.
Proof.
  intros I. apply (flooding_acc dest links g links_open links_meet costs_positive is_new is_key new_ok new_carried
    new_unique nodes [lsa_key lsa]); try done.
  intros a ->. by left.
Qed.

(** C7: a registration reaches everyone: when a listener registers at one node, the router serves
    the registration, flooding its advertisement never panics and ends whatever the order in
    which messages arrive, and once nothing is under way any more a packet that any client on any
    node within reach sends to the endpoint is delivered to that listener, once and to no one
    else. The endpoint is a unicast one nobody has heard of and its listener takes what it is
    given; the nodes agree on a topology with unique symmetric cheapest paths over open, paired
    links that carry the realm of the endpoint, and the node of the listener has no link with
    connection identifier 0. *)
Theorem registration_reaches_everyone R W :
  (forall v, node_ok links g v (R v)) -> (forall v, unheard (R v)) ->
  exists net, registers R W net /\ Acc (fun net' net => ls_step dest net net') net /\
  forall net', rtc (ls_step dest) net net' ->
    (ln_wire net' <> [] -> exists net'', ls_step dest net' net'') /\
    (ln_wire net' = [] -> forall a D packet wire W0,
       shortest g a o D -> (D < cost_max)%N ->
       p_from packet = a -> p_to packet = AddrEndpoint e -> wire_of_packet packet = Returns wire ->
       let F := fun v => r_fib (ln_routers net' v) in
       exists sent W', net_send F dest a packet (mkNet W0 []) (inr tt) sent /\
         rtc (net_step F dest) sent (mkNet W' []) /\
         delivered o (rr_sender rq) (CmMessage (if decide (a = o) then packet else packet_of_wire wire)) W0 W').
Proof.
  intros Hok Hun. destruct (registered_inv R W Hok Hun) as (net & Hreg & I & HR & Hown).
  exists net. split; [done|]. split; [by apply registration_acc|].
  intros net' Hrun. destruct (runs_routes _ _ I HR Hrun) as [I' HR']. split.
  { by apply (delivery_possible dest links g links_open is_new is_key new_ok). }
  intros Hwire a D packet wire W0 Hs HD Hfrom Hto Hw F.
  assert (Har : arrives F dest a packet o (rr_sender rq) (if decide (a = o) then packet else packet_of_wire wire)).
  { apply (unicast_arrives dest g (fun v => r_lsdb (ln_routers net' v)) F) with (to := AddrEndpoint e) (D := D); try done.
    - intros v. apply (node_in_force links g). apply (fi_node _ _ _ _ _ _ I').
    - by apply net_good_links.
    - intros v d Hsv _. apply (rest_routes net' I' HR' (own_kept _ _ I Hown Hrun) Hwire v d (proj1 Hsv)). }
  destruct (arrives_delivered F dest _ _ _ _ _ W0 Har) as (sent & W' & ? & ? & ?). by exists sent, W'.
Qed.
End network.
