(* ===== verification/NewPeer.v ===== *)
(** One node gets a neighbour: [add_peer] of [src/routing/linkstate/db.rs] as the router runs it
    ([src/routing/router.rs]): the node's advertisement grows by an adjacency, is flooded, and the
    newcomer is sent everything that is held. *)
From S2P Require Import Prelude Types Messages World RouteTable Linkstate Spf SpfProofs LsDb.
From S2P Require Import LsDbProofs LsDbTheorems Convergence Fib FibProofs Router RouterProofs Peer.
From S2P Require Import Handle Receivers Network Delivery Registration Flooding.

Section node.
Context `{Cd : Codec} `{E : !Env} `{!EnvLaws}.

(** The offer of an advertisement over a link, restricted to its realms. *)
Definition offer_over (link : Link) (record : LsaRecord) : option Event :=
  (fun view => offer (l_tx link, view)) <$> link_view link (rec_lsa record).

Lemma send_tracked_log link lsa d w :
  (forall w, env_try_send w (l_tx link) = SendOk) ->
  w_log (send_tracked link lsa (d, w)).2 =
  w_log w ++ option_list ((fun view => offer (l_tx link, view)) <$> link_view link lsa).
Proof.
  intros Hopen. unfold send_tracked, send_lsa, try_send_node. destruct (link_view link lsa); simpl; [|by rewrite app_nil_r].
  by rewrite Hopen.
Qed.

Lemma flood_peer_log c link d w :
  d_links d !! c = Some link -> (forall w, env_try_send w (l_tx link) = SendOk) ->
  exists evs, w_log (flood_peer c d w).2 = w_log w ++ evs /\
    forall ev, ev ∈ evs <-> exists k record, d_db d !! k = Some record /\ offer_over link record = Some ev.
Proof.
  intros Hl Hopen. exists (omap (offer_over link) (env_iter_map w (d_db d)).*2). split.
  - unfold flood_peer. rewrite Hl. generalize ((env_iter_map w (d_db d)).*2). intros l. clear Hl. revert d w.
    induction l as [|x l IH]; intros d w; cbn [foldl omap list_omap]; [by rewrite app_nil_r|].
    destruct (send_tracked link (rec_lsa x) (d, w)) as [d' w'] eqn:Hs. rewrite IH.
    pose proof (send_tracked_log link (rec_lsa x) d w Hopen) as Hlog. rewrite Hs in Hlog. cbn [snd] in Hlog.
    rewrite Hlog, <- app_assoc. f_equal. unfold offer_over at 2. cbn [omap list_omap]. by destruct (link_view link (rec_lsa x)).
  - intros ev. rewrite list_elem_of_omap. split.
    + intros (record & ([k x] & -> & Hin)%list_elem_of_fmap & Hev). exists k, x. by apply elem_of_iter_map in Hin.
    + intros (k & record & Hk & Hev). exists record. split; [|done]. apply list_elem_of_fmap. exists (k, record).
      split; [done | by apply elem_of_iter_map].
Qed.

Definition new_adjacency (link : Link) : Adjacency :=
  mkAdjacency (l_connection_id link) (l_peer_id link) (l_cost link) (l_realms link).

(** The router's own advertisement once it has the neighbour. *)
Definition grown_lsa (link : Link) (lsa : Lsa) (adjs : list Adjacency) : Lsa :=
  mkLsa (lsa_key lsa) (seq_next (lsa_seq lsa)) (lsa_dead lsa) (Messages.Router (adjs ++ [new_adjacency link])).

(** The database after [add_peer], and what it says. *)
Record has_peer (link : Link) (lsa : Lsa) (adjs : list Adjacency) (d d' : LsDb) (evs : list Event) : Prop := {
  hp_self : d_self_id d' = d_self_id d;
  hp_links : d_links d' = <[l_connection_id link := link]> (d_links d);
  hp_routes : d_routes d' = d_routes d;
  hp_held : forall k, held d' k =
    if decide (k = router_key (d_self_id d)) then Some (grown_lsa link lsa adjs) else held d k;
  hp_says : forall ev, ev ∈ evs <->
    offers (grown_lsa link lsa adjs) (Some (l_connection_id link)) (set_links (d_links d') d) ev \/
    exists k a, held d' k = Some a /\ (fun view => offer (l_tx link, view)) <$> link_view link a = Some ev;
}.

Lemma add_peer_says link lsa adjs d w :
  open_links (<[l_connection_id link := link]> (d_links d)) ->
  held d (router_key (d_self_id d)) = Some lsa -> lsa_body lsa = Messages.Router adjs ->
  exists d' w' evs, add_peer link d w = (d', w') /\ w_log w' = w_log w ++ evs /\ has_peer link lsa adjs d d' evs.
Proof.
  intros Hopen Hown Hbody. unfold held in Hown.
  destruct (d_db d !! router_key (d_self_id d)) as [record|] eqn:Hrec; [|done]. injection Hown as Hlsa.
  unfold add_peer, add_adjacency. rewrite Hrec, Hlsa, Hbody. cbn [read_clock].
  set (record' := bump _ _ _). set (w1 := mkWorld _ _).
  set (d1 := set_links _ _). pose proof (rebuild_log d1 w1) as Hw2.
  destruct (request_rebuild d1 w1) as [d2 w2] eqn:H2. apply request_rebuild_spec in H2 as (H2 & _).
  assert (Hf2 : d_self_id d2 = d_self_id d /\ d_links d2 = <[l_connection_id link := link]> (d_links d) /\
    d_db d2 = <[router_key (d_self_id d) := record']> (d_db d) /\ d_routes d2 = d_routes d /\
    d_next_hop d2 = d_next_hop d) by (rewrite H2; done).
  destruct Hf2 as (Hs2 & Hl2 & Hd2 & Hr2 & Hn2).
  destruct (offers_log (rec_lsa record') (Some (l_connection_id link)) d2 w2) as (evs1 & Hlog1 & Hev1); [by rewrite Hl2|].
  destruct (flood_all_neighbors _ _ d2 w2) as [d3 w3] eqn:H3. apply flood_spec in H3 as [H3 _].
  assert (Hf3 : d_links d3 = d_links d2 /\ d_db d3 = d_db d2) by (rewrite H3; done). destruct Hf3 as (Hl3 & Hd3).
  assert (Hmine : (<[l_connection_id link := link]> (d_links d)) !! l_connection_id link = Some link)
    by apply lookup_insert_eq.
  destruct (flood_peer_log (l_connection_id link) link d3 w3) as (evs2 & Hlog2 & Hev2);
    [by rewrite Hl3, Hl2 | by intros w'; apply (Hopen _ _ w' Hmine)|].
  destruct (flood_peer _ d3 w3) as [d4 w4] eqn:H4. apply flood_peer_spec in H4 as [H4 _]. cbn [snd] in *.
  assert (Hf4 : d_self_id d4 = d_self_id d2 /\ d_links d4 = d_links d2 /\ d_db d4 = d_db d2 /\ d_routes d4 = d_routes d2)
    by (rewrite H4, H3; done). destruct Hf4 as (Hs4 & Hl4 & Hd4 & Hr4).
  assert (Hgrown : rec_lsa record' = grown_lsa link lsa adjs) by (unfold record', bump, grown_lsa; by rewrite Hlsa).
  exists d4, w4, (evs1 ++ evs2). split; [done|]. split; [by rewrite Hlog2, Hlog1, Hw2, <- app_assoc|].
  split; [congruence|congruence|congruence| |].
  - intros k. unfold held. rewrite Hd4, Hd2. case_decide as Hk.
    + subst k. rewrite lookup_insert_eq. cbn [fmap option_fmap option_map]. by rewrite Hgrown.
    + by rewrite lookup_insert_ne.
  - intros ev. rewrite elem_of_app, Hev1, Hev2, Hgrown. f_equiv.
    + apply offers_same; simpl; congruence.
    + unfold offer_over, held. rewrite Hd4, Hd3. split.
      * intros (k & x & Hk & Hx). exists k, (rec_lsa x). by rewrite Hk.
      * intros (k & a & Hk & Ha). destruct (d_db d2 !! k) as [x|] eqn:Hx; [|done]. injection Hk as <-. by exists k, x.
Qed.

(** The router takes the neighbour in and waits again. *)
Lemma register_peer_settles peer c tx cost realms lsa adjs r w :
  let link := mkLink tx peer c realms cost false false in
  let d := r_lsdb r in
  settled r -> d_links d !! c = None -> open_links (<[c := link]> (d_links d)) ->
  held d (router_key (d_self_id d)) = Some lsa -> lsa_body lsa = Messages.Router adjs ->
  exists r' w' evs, settle 3 (HandleBrokerMsg (RmRegisterPeer peer c tx cost realms)) r w = Returns (Some Listen, r', w') /\
    w_log w' = w_log w ++ evs /\ settled r' /\ has_peer link lsa adjs d (r_lsdb r') evs.
Proof.
  intros link d (I & _ & _) Hnone Hopen Hown Hbody.
  destruct (add_peer_says link lsa adjs d w Hopen Hown Hbody) as (d' & w' & evs & Hres & Hlog & Hp).
  pose proof (add_peer_ok link d w I Hnone) as Hok. cbn zeta in Hok. rewrite Hres in Hok. destruct Hok as (I' & _).
  destruct (route_change_settles (set_lsdb d' r) w' I') as (r' & Hrc & Hset & Hself & Hl & Hdb & Hr).
  exists r', w', evs. cbn [settle next handle_broker_msg]. fold link d. rewrite Hres. cbn [outcome_bind next].
  rewrite Hrc. cbn [outcome_bind]. split; [done|]. split; [done|]. split; [done|].
  destruct Hp as [H1 H2 H3 H4 H5]. simpl in Hself, Hl, Hdb, Hr. split; [congruence|congruence|congruence| |].
  - intros k. rewrite <- H4. unfold held. by rewrite Hdb.
  - intros ev. rewrite H5, Hl. unfold held. by rewrite Hdb.
Qed.
End node.
