(* ===== verification/Bridge.v ===== *)
(** Two networks and one link between them: what a node that knows only part of the other side's
    router advertisements computes with Dijkstra's algorithm ([src/routing/linkstate/db.rs]) is
    still a step towards the bridge. Paths of the joined graph in normal form. *)
From S2P Require Import Prelude Types Messages World RouteTable Linkstate Spf SpfProofs LsDb.

(** [u] is closer to [o] than [v] is: every path from [v] is beaten by one from [u]. *)
Definition closer (g : gmap NodeId (list Adjacency)) (u v o : NodeId) : Prop :=
  forall d, path g v o d -> exists r, path g u o r /\ (r < d)%N.

(** Cheapest paths between two nodes start with the same step. *)
Definition unique_steps (g : gmap NodeId (list Adjacency)) : Prop := forall u n v1 c1 r1 v2 c2 r2,
  shortest g u n (c1 + r1) -> (c1 + r1 = c2 + r2)%N ->
  edge g u v1 c1 -> shortest g v1 n r1 -> edge g u v2 c2 -> shortest g v2 n r2 -> v1 = v2.

Lemma path_edge g u v w : edge g u v w -> path g u v w.
Proof. intros He. rewrite <- (N.add_0_l w). eapply path_snoc; [constructor | done]. Qed.

Lemma path_mono (g g' : gmap NodeId (list Adjacency)) u v c :
  (forall x y w, edge g x y w -> edge g' x y w) -> path g u v c -> path g' u v c.
Proof. intros Hsub. induction 1 as [|u x v c w _ IH He]; [constructor|]. eapply path_snoc; [done | by apply Hsub]. Qed.

(** * The joined graph *)
Section bridge.
(** The two sides, their graphs, the node at each end of the bridge, and the adjacency it adds. *)
Context (side : bool -> NodeId -> Prop) (gs : bool -> gmap NodeId (list Adjacency)).
Context (tip : bool -> NodeId) (adj : bool -> Adjacency) (joined : gmap NodeId (list Adjacency)).
Hypothesis apart : forall s u, side s u -> side (negb s) u -> False.
Hypothesis inside : forall s u x w, edge (gs s) u x w -> side s u /\ side s x.
Hypothesis tip_side : forall s, side s (tip s).
Hypothesis adj_peer : forall s, adj_peer_id (adj s) = tip (negb s).
Hypothesis joined_lookup : forall s u, side s u ->
  joined !! u = if decide (u = tip s) then (fun adjs => adjs ++ [adj s]) <$> gs s !! u else gs s !! u.
Hypothesis joined_dom : forall u, is_Some (joined !! u) -> exists s, side s u.
Hypothesis tip_known : forall s, is_Some (gs s !! tip s).

(** The bridge, from side [s]. *)
Definition crosses (s : bool) (u x : NodeId) (w : Cost) : Prop :=
  u = tip s /\ x = tip (negb s) /\ w = adj_cost (adj s).

Lemma joined_edge u x w : edge joined u x w <-> exists s, edge (gs s) u x w \/ crosses s u x w.
Proof.
  split.
  - intros (adjs & a & Hn & Ha & <- & <-). destruct (joined_dom u) as [s Hs]; [by eexists|].
    exists s. rewrite (joined_lookup s u Hs) in Hn. case_decide as Ht; [|left; by exists adjs, a].
    destruct (gs s !! u) as [adjs'|] eqn:Hg; [|done]. injection Hn as <-.
    apply elem_of_app in Ha as [Ha|Ha%list_elem_of_singleton]; [left; by exists adjs', a|].
    subst a. right. split; [done|]. by rewrite adj_peer.
  - intros (s & [He|(-> & -> & ->)]).
    + destruct (inside _ _ _ _ He) as [Hu _]. destruct He as (adjs & a & Hn & Ha & Hp & Hc).
      unfold edge. setoid_rewrite (joined_lookup s u Hu). rewrite Hn. case_decide.
      * exists (adjs ++ [adj s]), a. split_and!; try done. apply elem_of_app. by left.
      * by exists adjs, a.
    + destruct (tip_known s) as [adjs Hn]. unfold edge. setoid_rewrite (joined_lookup s (tip s) (tip_side s)).
      rewrite Hn, decide_True by done. exists (adjs ++ [adj s]), (adj s). rewrite adj_peer. split_and!; try done.
      apply elem_of_app. right. by left.
Qed.

(** Staying on a side, or crossing once. *)
Definition stays (g : gmap NodeId (list Adjacency)) (s : bool) (u x : NodeId) (c : N) : Prop :=
  path (gs s) u x c /\ path g u x c.

Definition crosses_once (g : gmap NodeId (list Adjacency)) (s : bool) (u x : NodeId) (c1 c2 : N) : Prop :=
  stays g s u (tip s) c1 /\ edge g (tip s) (tip (negb s)) (adj_cost (adj s)) /\ stays g (negb s) (tip (negb s)) x c2.

Lemma stays_nil g s u : stays g s u u 0.
Proof. split; constructor. Qed.

Lemma stays_snoc g s u x v c w : stays g s u x c -> edge g x v w -> edge (gs s) x v w -> stays g s u v (c + w).
Proof. intros [H1 H2] He Hs. split; by eapply path_snoc. Qed.

(** Every path has a normal form that is no longer. *)
Lemma normal_path g s u x c :
  (forall y z w, edge g y z w -> edge joined y z w) -> path g u x c -> side s u ->
  (side s x /\ exists c', stays g s u x c' /\ (c' <= c)%N) \/
  (side (negb s) x /\ exists c1 c2, crosses_once g s u x c1 c2 /\ (c1 + adj_cost (adj s) + c2 <= c)%N).
Proof.
  intros Hsub Hp Hu. induction Hp as [u|u y x c w Hp IH He].
  { left. split; [done|]. exists 0%N. split; [apply stays_nil | lia]. }
  destruct (proj1 (joined_edge _ _ _) (Hsub _ _ _ He)) as (s' & Hs').
  destruct (IH Hu) as [(Hy & c' & Hst & Hle)|(Hy & c1 & c2 & (H1 & Hb & H2) & Hle)].
  - assert (s' = s) as ->.
    { destruct (decide (s' = s)) as [|Hne]; [done|]. exfalso. apply (apart s y Hy).
      assert (s' = negb s) as -> by (by destruct s, s'). destruct Hs' as [Hg|[-> _]]; [by apply (inside _ _ _ _ Hg) | done]. }
    destruct Hs' as [Hg|(-> & -> & ->)].
    + left. split; [by apply (inside _ _ _ _ Hg)|]. exists (c' + w)%N. split; [by eapply stays_snoc | lia].
    + right. split; [apply tip_side|]. exists c', 0%N. split; [|lia].
      split; [done|]. split; [done|]. apply stays_nil.
  - assert (s' = negb s) as ->.
    { destruct (decide (s' = negb s)) as [|Hne]; [done|]. exfalso. apply (apart s y); [|done].
      assert (s' = s) as -> by (by destruct s, s'). destruct Hs' as [Hg|[-> _]]; [by apply (inside _ _ _ _ Hg) | done]. }
    destruct Hs' as [Hg|(-> & -> & ->)].
    + right. split; [by apply (inside _ _ _ _ Hg)|]. exists c1, (c2 + w)%N. split; [|lia].
      split; [done|]. split; [done|]. by eapply stays_snoc.
    + left. rewrite negb_involutive. split; [apply tip_side|]. exists c1. split; [done | lia].
Qed.

(** ** A node that knows its own side and part of the other *)
Record partial (s : bool) (view : gmap NodeId (list Adjacency)) : Prop := {
  pa_sound : forall u x w, edge view u x w -> edge joined u x w;
  pa_own : forall u x w, edge (gs s) u x w -> edge view u x w;
}.

Lemma own_path s view u x c : partial s view -> path (gs s) u x c -> path view u x c.
Proof. intros P. apply path_mono. apply (pa_own _ _ P). Qed.

Lemma side_path s u x c : path (gs s) u x c -> path joined u x c.
Proof. apply path_mono. intros y z w He. apply joined_edge. exists s. by left. Qed.

Lemma crossing_path s u x c1 c2 :
  path (gs s) u (tip s) c1 -> path (gs (negb s)) (tip (negb s)) x c2 -> path joined u x (c1 + (adj_cost (adj s) + c2)).
Proof.
  intros H1 H2. eapply path_app; [by apply side_path in H1|]. eapply path_cons; [|by apply side_path in H2].
  apply joined_edge. exists s. by right.
Qed.

(** Its next hops are closer to their destinations, in the joined graph. *)
Lemma partial_closer s view v l o w r :
  partial s view -> side s v -> edge view v l w -> (0 < w)%N ->
  shortest view v o (w + r) -> shortest view l o r -> closer joined l v o.
Proof.
  intros P Hv He Hw [_ Hmin] [Hr _] D HD.
  destruct (normal_path joined s v o D (fun _ _ _ H => H) HD Hv) as [(Ho & D' & [HD' _] & Hle)|(Ho & D1 & D2 & (H1 & _ & H2) & Hle)].
  - apply (own_path _ _ _ _ _ P) in HD'. specialize (Hmin _ HD'). exists r.
    split; [by eapply path_mono; [apply (pa_sound _ _ P)|] | lia].
  - destruct (proj1 (joined_edge _ _ _) (pa_sound _ _ P _ _ _ He)) as (s' & Hs').
    assert (s' = s) as ->.
    { destruct (decide (s' = s)) as [|Hne]; [done|]. exfalso. apply (apart s v Hv).
      assert (s' = negb s) as -> by (by destruct s, s'). destruct Hs' as [Hg|[-> _]]; [by apply (inside _ _ _ _ Hg) | done]. }
    destruct Hs' as [Hg|(-> & -> & ->)].
    + destruct (normal_path view s l o r (pa_sound _ _ P) Hr) as [(Ho' & _)|(_ & r1 & r2 & (Hr1 & Hb & Hr2) & Hle')];
        [by apply (inside _ _ _ _ Hg)|by destruct (apart s o)|].
      exists (r1 + (adj_cost (adj s) + D2))%N. split; [apply crossing_path; [apply Hr1 | apply H2]|].
      assert (Hlong : path view v o (D1 + (adj_cost (adj s) + r2))).
      { eapply path_app; [eapply own_path; [done | apply H1]|]. eapply path_cons; [done | apply Hr2]. }
      specialize (Hmin _ Hlong). lia.
    + exists D2. split; [eapply side_path, H2 | lia].
Qed.
(** ** Unique cheapest paths stay unique *)
Hypothesis costs_positive : forall s u x w, edge (gs s) u x w -> (0 < w)%N.
Hypothesis toll_positive : forall s, (0 < adj_cost (adj s))%N.

Lemma side_other s s' u : side s u -> s' <> s -> side s' u -> False.
Proof. intros Hu Hne Hu'. apply (apart s u Hu). replace (negb s) with s'; [done|]. by destruct s, s'. Qed.

(** A cheapest path between nodes of a side stays there. *)
Lemma shortest_side s u n d : side s u -> side s n -> shortest joined u n d -> shortest (gs s) u n d.
Proof.
  intros Hu Hn [Hp Hmin].
  destruct (normal_path joined s u n d (fun _ _ _ H => H) Hp Hu) as [(_ & d' & [Hd' _] & Hle)|(Hn' & _)]; [|by destruct (apart s n)].
  assert (d' = d) as -> by (specialize (Hmin _ (side_path _ _ _ _ Hd')); lia).
  split; [done|]. intros c Hc. apply Hmin. by eapply side_path.
Qed.

(** A cheapest path to the other side is a cheapest path to the tip, the bridge, and a cheapest path. *)
Lemma shortest_cross s u n d : side s u -> side (negb s) n -> shortest joined u n d ->
  exists d1 d2, shortest (gs s) u (tip s) d1 /\ shortest (gs (negb s)) (tip (negb s)) n d2 /\ d = (d1 + (adj_cost (adj s) + d2))%N.
Proof.
  intros Hu Hn [Hp Hmin].
  destruct (normal_path joined s u n d (fun _ _ _ H => H) Hp Hu) as [(Hn' & _)|(_ & d1 & d2 & ([H1 _] & _ & [H2 _]) & Hle)];
    [by destruct (apart s n)|].
  pose proof (Hmin _ (crossing_path s u n d1 d2 H1 H2)) as Hd. exists d1, d2. split_and!; [split| split |lia]; try done.
  - intros c Hc. specialize (Hmin _ (crossing_path s u n c d2 Hc H2)). lia.
  - intros c Hc. specialize (Hmin _ (crossing_path s u n d1 c H1 Hc)). lia.
Qed.

(** The first step of a cheapest path within a side does not cross, and that of one to the other
    side crosses only at the tip. *)
Lemma first_step s u n v c r :
  side s u -> edge joined u v c -> shortest joined u n (c + r) -> shortest joined v n r ->
  (side s n -> edge (gs s) u v c) /\ (side (negb s) n -> u = tip s -> v = tip (negb s)).
Proof.
  intros Hu He [Hp Hmin] Hr. destruct (proj1 (joined_edge _ _ _) He) as (s' & Hs').
  destruct (decide (s' = s)) as [->|Hne].
  2: { exfalso. destruct Hs' as [Hg|[-> _]]; [|by apply (side_other s s' (tip s'))].
       by apply (side_other s s' u Hu Hne), (inside _ _ _ _ Hg). }
  destruct Hs' as [Hg|(-> & -> & ->)]; split; try done.
  - intros Hn ->. exfalso. pose proof (proj2 (inside _ _ _ _ Hg)) as Hv. pose proof (costs_positive _ _ _ _ Hg) as Hc.
    destruct (shortest_cross s v n r Hv Hn Hr) as (d1 & d2 & H1 & H2 & ->).
    pose proof (Hmin _ (crossing_path s (tip s) n 0%N d2 (path_nil _ _) (proj1 H2))). lia.
  - intros Hn. exfalso. pose proof (tip_side (negb s)) as Ht. pose proof Hn as Hn'. rewrite <- (negb_involutive s) in Hn'.
    destruct (shortest_cross (negb s) _ n r Ht Hn' Hr) as (d1 & d2 & H1 & H2 & ->). rewrite negb_involutive in H2.
    pose proof (Hmin _ (side_path _ _ _ _ (proj1 H2))) as Hd. pose proof (toll_positive s). lia.
Qed.

Lemma joined_unique_steps : (forall s, unique_steps (gs s)) -> unique_steps joined.
Proof.
  intros Huniq u n v1 c1 r1 v2 c2 r2 Hs Heq He1 Hr1 He2 Hr2.
  assert (Hu : exists s, side s u).
  { destruct (proj1 (joined_edge _ _ _) He1) as (s & [Hg|[-> _]]); exists s; [by apply (inside _ _ _ _ Hg) | done]. }
  assert (Hn : exists s, side s n).
  { destruct Hu as [s Hu]. destruct (normal_path joined s u n _ (fun _ _ _ H => H) (proj1 Hs) Hu) as [[? _]|[? _]]; by eexists. }
  destruct Hu as [s Hu], Hn as [s' Hn]. pose proof Hs as Hs2. rewrite Heq in Hs2.
  destruct (first_step s u n v1 c1 r1 Hu He1 Hs Hr1) as [Hin1 Hout1].
  destruct (first_step s u n v2 c2 r2 Hu He2 Hs2 Hr2) as [Hin2 Hout2].
  destruct (decide (s' = s)) as [->|Hne].
  - specialize (Hin1 Hn). specialize (Hin2 Hn).
    apply (Huniq s u n v1 c1 r1 v2 c2 r2); try done; apply shortest_side; try done; [apply (inside _ _ _ _ Hin1) | apply (inside _ _ _ _ Hin2)].
  - assert (Hn' : side (negb s) n) by (replace (negb s) with s'; [done | by destruct s, s']).
    destruct (decide (u = tip s)) as [Ht|Ht]; [by rewrite Hout1, Hout2|].
    assert (Hstep : forall v c, edge joined u v c -> edge (gs s) u v c).
    { intros v c He. destruct (proj1 (joined_edge _ _ _) He) as (t & [Hg|[-> _]]).
      - destruct (decide (t = s)) as [->|Hts]; [done|]. exfalso. by apply (side_other s t u Hu Hts), (inside _ _ _ _ Hg).
      - destruct (decide (t = s)) as [->|Hts]; [done|]. exfalso. by apply (side_other s t (tip t)). }
    apply Hstep in He1, He2.
    destruct (shortest_cross s u n _ Hu Hn' Hs) as (d1 & d2 & H1 & H2 & Hd).
    destruct (shortest_cross s v1 n _ (proj2 (inside _ _ _ _ He1)) Hn' Hr1) as (a1 & b1 & Ha1 & Hb1 & ->).
    destruct (shortest_cross s v2 n _ (proj2 (inside _ _ _ _ He2)) Hn' Hr2) as (a2 & b2 & Ha2 & Hb2 & ->).
    assert (Hb : b1 = d2 /\ b2 = d2).
    { pose proof (proj2 Hb1 _ (proj1 H2)). pose proof (proj2 H2 _ (proj1 Hb1)).
      pose proof (proj2 Hb2 _ (proj1 H2)). pose proof (proj2 H2 _ (proj1 Hb2)). lia. }
    destruct Hb as [-> ->]. apply (Huniq s u (tip s) v1 c1 a1 v2 c2 a2); try done; [|lia].
    by replace (c1 + a1)%N with d1 by lia.
Qed.

Lemma joined_symmetric :
  adj_cost (adj true) = adj_cost (adj false) ->
  (forall s u x w, edge (gs s) u x w -> edge (gs s) x u w) -> forall u x w, edge joined u x w -> edge joined x u w.
Proof.
  intros Htoll Hsym u x w (s & [He|(-> & -> & ->)])%joined_edge; apply joined_edge; [exists s; left; by apply Hsym|].
  exists (negb s). right. split; [done|]. rewrite negb_involutive. split; [done|]. by destruct s.
Qed.
End bridge.
