(* ===== verification/Join.v ===== *)
(** Two networks at rest become one: a node of each gets the other as a neighbour
    ([src/peers/common.rs]), both tell what they know ([add_peer] of [db.rs]), the advertisements
    flood through the other network, whose nodes compute their distances anew with every one of
    them. What is known before, between and after. *)
From S2P Require Import Prelude Types Messages World RouteTable Linkstate Spf SpfProofs LsDb.
From S2P Require Import LsDbProofs LsDbTheorems Convergence Fib FibProofs Router RouterProofs Peer.
From S2P Require Import Handle Receivers Network Delivery Registration Flooding NewPeer Bridge.

(** * A network at rest *)

Definition lsa_adjacencies (a : option Lsa) : option (list Adjacency) :=
  match a with
  | Some lsa => match lsa_body lsa with Messages.Router adjs => Some adjs | Endpoint _ => None end
  | None => None
  end.

(** Nobody else advertises the endpoint. *)
Definition only_key (base : gmap LsaKey Lsa) (k : LsaKey) : Prop :=
  forall k', is_Some (base !! k') -> key_endpoint k' = key_endpoint k -> k' = k.

Definition unicast_lsa (a : Lsa) (info : EndpointInfo) : Prop :=
  lsa_body a = Endpoint info /\ ei_kind info = Unicast.

Definition route_from (o : NodeId) (info : EndpointInfo) : LsRouteEntry :=
  mkLsRouteEntry [mkLsRoute (Remote o) (ei_cost info) (ei_realm info) Unicast] Unicast.

(** The routes of a node: none that nobody advertises, and those of the unicast endpoints that one
    node advertises. *)
Record routed (base : gmap LsaKey Lsa) (v : NodeId) (t : RouteTable) : Prop := {
  rt_none : forall e, (forall k, is_Some (base !! k) -> key_endpoint k <> e) -> t !! e = None;
  rt_unicast : forall k a info, base !! k = Some a -> unicast_lsa a info -> only_key base k ->
    if decide (key_origin k = v)
    then exists tx, t !! key_endpoint k =
           Some (mkLsRouteEntry [mkLsRoute (Local tx) (ei_cost info) (ei_realm info) Unicast] Unicast)
    else t !! key_endpoint k = Some (route_from (key_origin k) info);
}.

Section network.
Context `{Cd : Codec} `{E : !Env} `{!EnvLaws}.

(** A router that waits with everything in order, as the node [v] with these links. *)
Record waiting (links : NodeId -> gmap ConnectionId Link) (v : NodeId) (r : Router) : Prop := {
  wt_settled : settled r;
  wt_self : d_self_id (r_lsdb r) = v;
  wt_links : d_links (r_lsdb r) = links v;
}.

(** An advertisement that is in order. *)
Record good_lsa (nodes : list NodeId) (k : LsaKey) (a : Lsa) : Prop := {
  gl_key : lsa_key a = k;
  gl_origin : key_origin k ∈ nodes;
  gl_live : lsa_dead a = false;
  gl_kind : not_multicast a;
  gl_router : is_router (lsa_body a) = true -> k = router_key (key_origin k);
}.

(** The nodes of a connected network hold the same advertisements [base], those of its routers make
    up the graph [g], and their tables follow. *)
Record Network (nodes : list NodeId) (links : NodeId -> gmap ConnectionId Link) (g : gmap NodeId (list Adjacency))
    (base : gmap LsaKey Lsa) (R : NodeId -> Router) : Prop := {
  nw_waiting : forall v, v ∈ nodes -> waiting links v (R v);
  nw_held : forall v k, v ∈ nodes -> held (r_lsdb (R v)) k = base !! k;
  nw_lsa : forall k a, base !! k = Some a -> good_lsa nodes k a;
  nw_graph : forall n, g !! n = lsa_adjacencies (base !! router_key n);
  nw_known : forall v, v ∈ nodes -> is_Some (g !! v);
  nw_peers : forall v c link, v ∈ nodes -> links v !! c = Some link -> l_peer_id link ∈ nodes;
  nw_connected : forall u v, u ∈ nodes -> v ∈ nodes -> exists c, path g u v c;
  nw_costs : forall u v w, edge g u v w -> (0 < w)%N;
  nw_routed : forall v, v ∈ nodes -> routed base v (d_routes (r_lsdb (R v)));
}.

(** What a node of a network sees of the topology. *)
Lemma held_router_keys nodes (m : LsaKey -> option Lsa) :
  (forall k a, m k = Some a -> good_lsa nodes k a) ->
  forall k a adjs, m k = Some a -> lsa_body a = Messages.Router adjs -> k = router_key (key_origin k).
Proof. intros Hgood k a adjs Ha Hb. apply (gl_router _ _ _ (Hgood k a Ha)). by rewrite Hb. Qed.

Lemma waiting_node_ok nodes links g (base : gmap LsaKey Lsa) v r :
  waiting links v r -> (forall k, held (r_lsdb r) k = base !! k) ->
  (forall k a, base !! k = Some a -> good_lsa nodes k a) ->
  (forall n, g !! n = lsa_adjacencies (base !! router_key n)) -> node_ok links g v r.
Proof.
  intros [Hset Hself Hl] Hheld Hgood Hg. split; [done|done|done|]. split.
  - intros k a adjs. rewrite Hheld. by eapply (held_router_keys nodes (fun k => base !! k)).
  - intros n. rewrite Hg. unfold held_adjacencies, lsa_adjacencies. by rewrite Hheld.
Qed.

(** The nodes of a network are as the other theorems about networks want them. *)
Lemma network_node_ok nodes links g base R v :
  Network nodes links g base R -> v ∈ nodes -> node_ok links g v (R v).
Proof.
  intros N Hv. eapply waiting_node_ok; [by apply (nw_waiting _ _ _ _ _ N)|intros k; by apply (nw_held _ _ _ _ _ N)| |].
  - apply (nw_lsa _ _ _ _ _ N).
  - apply (nw_graph _ _ _ _ _ N).
Qed.

(** An adjacency a node advertises is over one of its links. *)
Lemma edge_link nodes links g base R u x w :
  Network nodes links g base R -> edge g u x w ->
  u ∈ nodes /\ exists c link, links u !! c = Some link /\ l_peer_id link = x.
Proof.
  intros N (adjs & a & Hn & Ha & <- & _). rewrite (nw_graph _ _ _ _ _ N) in Hn. unfold lsa_adjacencies in Hn.
  destruct (base !! router_key u) as [lsa|] eqn:Hb; [|done].
  destruct (lsa_body lsa) as [adjs'|] eqn:Hbody; [|done]. injection Hn as ->.
  pose proof (gl_origin _ _ _ (nw_lsa _ _ _ _ _ N _ _ Hb)) as Hu. simpl in Hu. split; [done|].
  destruct (nw_waiting _ _ _ _ _ N u Hu) as [(I & _) Hself Hl].
  rewrite <- (nw_held _ _ _ _ _ N u _ Hu) in Hb. unfold held in Hb.
  destruct (d_db (r_lsdb (R u)) !! router_key u) as [record|] eqn:Hrec; [|done]. injection Hb as <-.
  destruct (i_db _ I _ _ Hrec) as [_ Hok]. destruct (Hok (eq_sym Hself) adjs Hbody) as [_ Hback].
  destruct (Hback a Ha) as (link & Hlk & Hp). rewrite Hl in Hlk. by eexists _, link.
Qed.

Lemma edge_inside nodes links g base R u x w :
  Network nodes links g base R -> edge g u x w -> u ∈ nodes /\ x ∈ nodes.
Proof.
  intros N He. destruct (edge_link _ _ _ _ _ _ _ _ N He) as (Hu & c & link & Hlk & <-). split; [done|].
  by eapply (nw_peers _ _ _ _ _ N).
Qed.
End network.

(** * Two networks and a link between them *)

(** Who meets whom, over which connections: at the end of side [s], the node, its connection, and
    the channel, cost and realms of its link. *)
Record Meeting := mkMeeting {
  tip : bool -> NodeId;
  conn : bool -> ConnectionId;
  chan : bool -> ChanId;
  toll : bool -> Cost;
  zone : bool -> RealmList;
}.

Section data.
Context (m : Meeting) (nodes : bool -> list NodeId) (gs : bool -> gmap NodeId (list Adjacency)).
Context (base : bool -> gmap LsaKey Lsa) (links : NodeId -> gmap ConnectionId Link).
Local Abbreviation tip := (tip m).

(** The link at the tip of side [s], to the tip of the other side. *)
Definition bridge (s : bool) : Link :=
  mkLink (chan m s) (tip (negb s)) (conn m s) (zone m s) (toll m s) false false.

Definition tip_at (v : NodeId) : option bool :=
  if decide (v = tip true) then Some true else if decide (v = tip false) then Some false else None.

Definition joined_links (v : NodeId) : gmap ConnectionId Link :=
  match tip_at v with Some s => <[conn m s := bridge s]> (links v) | None => links v end.

Definition joined_graph : gmap NodeId (list Adjacency) :=
  let grow s := alter (fun adjs => adjs ++ [new_adjacency (bridge s)]) (tip s) in
  grow true (grow false (gs true ∪ gs false)).

(** The tips advertise the bridge. *)
Definition grow_lsa (s : bool) (a : Lsa) : Lsa :=
  match lsa_body a with Messages.Router adjs => grown_lsa (bridge s) a adjs | Endpoint _ => a end.

Definition joined_base : gmap LsaKey Lsa :=
  let grow s := alter (grow_lsa s) (router_key (tip s)) in
  grow true (grow false (base true ∪ base false)).

Hypothesis apart : forall v, v ∈ nodes true -> v ∈ nodes false -> False.
Hypothesis tip_in : forall s, tip s ∈ nodes s.
Hypothesis base_good : forall s k a, base s !! k = Some a -> good_lsa (nodes s) k a.
Hypothesis graph_is : forall s n, gs s !! n = lsa_adjacencies (base s !! router_key n).

Lemma sides_apart s v : v ∈ nodes s -> v ∈ nodes (negb s) -> False.
Proof. destruct s; intros H1 H2; by apply (apart v). Qed.

Lemma side_unique s s' v : v ∈ nodes s -> v ∈ nodes s' -> s' = s.
Proof. intros H1 H2. destruct (decide (s' = s)) as [|Hne]; [done|]. exfalso. apply (sides_apart s v H1). by destruct s, s'. Qed.

Lemma tips_differ : tip true <> tip false.
Proof. intros Heq. apply (apart (tip true)); [apply tip_in | rewrite Heq; apply tip_in]. Qed.

Lemma tip_at_spec s v : v ∈ nodes s -> tip_at v = if decide (v = tip s) then Some s else None.
Proof.
  intros Hv. unfold tip_at. destruct s.
  - destruct (decide (v = tip true)); [done|]. rewrite decide_False; [done|]. intros ->.
    apply (apart (tip false)); [done | apply tip_in].
  - rewrite (decide_False (P := v = tip true)); [done|]. intros ->. apply (apart (tip true)); [apply tip_in | done].
Qed.

Lemma base_other s s' k : key_origin k ∈ nodes s -> s' <> s -> base s' !! k = None.
Proof.
  intros Hk Hs. destruct (base s' !! k) as [a|] eqn:Ha; [|done]. destruct Hs.
  eapply side_unique; [exact Hk|]. by apply (gl_origin _ _ _ (base_good _ _ _ Ha)).
Qed.

Lemma base_union s k : key_origin k ∈ nodes s -> (base true ∪ base false) !! k = base s !! k.
Proof.
  intros Hk. rewrite lookup_union. destruct s.
  - rewrite (base_other true false) by done. apply (right_id_L None _).
  - rewrite (base_other false true) by done. apply (left_id_L None _).
Qed.

(** What is advertised in the end by the nodes of a side. *)
Lemma joined_base_lookup s k :
  key_origin k ∈ nodes s ->
  joined_base !! k = if decide (k = router_key (tip s)) then grow_lsa s <$> base s !! k else base s !! k.
Proof.
  intros Hk. unfold joined_base. rewrite <- (base_union s k Hk).
  assert (Hother : router_key (tip (negb s)) <> k).
  { intros <-. apply (sides_apart s (tip (negb s))); [done | apply tip_in]. }
  case_decide as Ht.
  - subst k. destruct s; simpl in *.
    + by rewrite lookup_alter_eq, lookup_alter_ne.
    + by rewrite lookup_alter_ne, lookup_alter_eq.
  - destruct s; simpl in *; by rewrite !lookup_alter_ne.
Qed.

Lemma joined_base_side k : is_Some (joined_base !! k) -> exists s, key_origin k ∈ nodes s.
Proof.
  unfold joined_base. intros Hk. repeat rewrite lookup_alter_is_Some in Hk. rewrite lookup_union_is_Some in Hk.
  destruct Hk as [[a Ha]|[a Ha]]; eexists; apply (gl_origin _ _ _ (base_good _ _ _ Ha)).
Qed.
Lemma grow_lsa_same s a : lsa_key (grow_lsa s a) = lsa_key a /\ lsa_dead (grow_lsa s a) = lsa_dead a /\
  is_router (lsa_body (grow_lsa s a)) = is_router (lsa_body a) /\ (not_multicast a -> not_multicast (grow_lsa s a)).
Proof. unfold grow_lsa. destruct (lsa_body a) eqn:Hb; [|by rewrite Hb]. by split_and!. Qed.

Lemma good_lsa_mono l l' k a : (forall v, v ∈ l -> v ∈ l') -> good_lsa l k a -> good_lsa l' k a.
Proof. intros Hsub [H1 H2 H3 H4 H5]. split; auto. Qed.

Lemma joined_base_good k a : joined_base !! k = Some a -> good_lsa (nodes true ++ nodes false) k a.
Proof.
  intros Ha. destruct (joined_base_side k) as [s Hs]; [by eexists|]. rewrite (joined_base_lookup s k Hs) in Ha.
  assert (Hb : exists b, base s !! k = Some b /\ (a = b \/ a = grow_lsa s b)).
  { case_decide; [|by exists a; split; [|left]]. destruct (base s !! k) as [b|]; [|done]. injection Ha as <-.
    exists b. split; [done | by right]. }
  destruct Hb as (b & Hb & Hab). apply base_good in Hb.
  apply (good_lsa_mono _ (nodes true ++ nodes false)) in Hb; [|intros v Hv; apply elem_of_app; destruct s; auto].
  destruct Hab as [->| ->]; [done|]. destruct Hb as [H1 H2 H3 H4 H5].
  destruct (grow_lsa_same s b) as (E1 & E2 & E3 & E4). split; [congruence|done|congruence|auto|by rewrite E3].
Qed.

(** A key that is not at a tip means what it meant before. *)
Lemma joined_base_endpoint s k a info :
  key_origin k ∈ nodes s -> joined_base !! k = Some a -> lsa_body a = Endpoint info -> base s !! k = Some a.
Proof.
  intros Hk. rewrite (joined_base_lookup s k Hk). case_decide; [|done]. intros Ha Hb.
  destruct (base s !! k) as [b|]; [|done]. injection Ha as <-. unfold grow_lsa in *. by destruct (lsa_body b).
Qed.

Lemma joined_base_is_Some k s : is_Some (base s !! k) -> is_Some (joined_base !! k).
Proof.
  intros [a Ha]. rewrite (joined_base_lookup s k); [|apply (gl_origin _ _ _ (base_good _ _ _ Ha))].
  rewrite Ha. case_decide; by eexists.
Qed.

(** ** The graph *)
Lemma graph_side s n : is_Some (gs s !! n) -> n ∈ nodes s.
Proof.
  rewrite graph_is. unfold lsa_adjacencies. destruct (base s !! router_key n) as [a|] eqn:Ha; [|by intros [??]].
  intros _. apply (gl_origin _ _ _ (base_good _ _ _ Ha)).
Qed.

Lemma graph_union s n : n ∈ nodes s -> (gs true ∪ gs false) !! n = gs s !! n.
Proof.
  intros Hn. assert (Hother : forall s', s' <> s -> gs s' !! n = None).
  { intros s' Hne. destruct (gs s' !! n) eqn:Hg; [|done]. destruct Hne. eapply side_unique; [exact Hn|].
    apply graph_side. by eexists. }
  rewrite lookup_union. destruct s.
  - rewrite (Hother false) by done. apply (right_id_L None _).
  - rewrite (Hother true) by done. apply (left_id_L None _).
Qed.

Lemma joined_graph_lookup s n :
  n ∈ nodes s -> joined_graph !! n =
    if decide (n = tip s) then (fun adjs => adjs ++ [new_adjacency (bridge s)]) <$> gs s !! n else gs s !! n.
Proof.
  intros Hn. unfold joined_graph. rewrite <- (graph_union s n Hn).
  assert (Hother : tip (negb s) <> n) by (intros <-; apply (sides_apart s (tip (negb s))); [done | apply tip_in]).
  case_decide as Ht.
  - subst n. destruct s; simpl in *.
    + by rewrite lookup_alter_eq, lookup_alter_ne.
    + by rewrite lookup_alter_ne, lookup_alter_eq.
  - destruct s; simpl in *; by rewrite !lookup_alter_ne.
Qed.

Lemma joined_graph_side n : is_Some (joined_graph !! n) -> exists s, n ∈ nodes s.
Proof.
  unfold joined_graph. intros Hn. repeat rewrite lookup_alter_is_Some in Hn. rewrite lookup_union_is_Some in Hn.
  destruct Hn as [Hn|Hn]; eexists; by apply graph_side.
Qed.

Lemma joined_graph_on s n : n ∈ nodes s -> joined_graph !! n = lsa_adjacencies (joined_base !! router_key n).
Proof.
  intros Hs. rewrite (joined_graph_lookup s n Hs), (joined_base_lookup s (router_key n) Hs), (graph_is s).
  destruct (decide (n = tip s)) as [->|Hn].
  - rewrite decide_True by done. destruct (base s !! router_key (tip s)) as [a|]; [|done].
    simpl. unfold grow_lsa. destruct (lsa_body a) eqn:Hb; simpl; [done | by rewrite Hb].
  - rewrite decide_False; [done|]. intros [= Heq _]. by destruct Hn.
Qed.

Lemma joined_graph_is n : joined_graph !! n = lsa_adjacencies (joined_base !! router_key n).
Proof.
  destruct (joined_graph !! n) as [adjs|] eqn:Hg.
  - destruct (joined_graph_side n) as [s Hs]; [by eexists|]. rewrite <- Hg. by apply (joined_graph_on s).
  - destruct (joined_base !! router_key n) as [a|] eqn:Hb; [|done].
    destruct (joined_base_side (router_key n)) as [s Hs]; [by eexists|]. rewrite <- Hg, <- Hb. by apply (joined_graph_on s).
Qed.
End data.
