(* ===== verification/Joining.v ===== *)
(** Two networks at rest become one, continued: whatever the order in which the advertisements
    arrive, no router panics, the messages come to an end, and then the nodes of both networks form
    one network at rest. *)
From Stdlib Require Import Strings.String.
From S2P Require Import Prelude Types Messages World RouteTable Linkstate Spf SpfProofs LsDb.
From S2P Require Import LsDbProofs LsDbTheorems Convergence Fib FibProofs Router RouterProofs Peer.
From S2P Require Import Handle Receivers Network Delivery Registration Flooding NewPeer Bridge Join.

(** The two networks and the meeting of their tips. *)
Record can_join `{Cd : Codec} `{E : !Env} (dest : ChanId -> option (NodeId * ConnectionId)) (m : Meeting)
    (nodes : bool -> list NodeId) (gs : bool -> gmap NodeId (list Adjacency)) (base : bool -> gmap LsaKey Lsa)
    (links : NodeId -> gmap ConnectionId Link) (R : NodeId -> Router) : Prop := {
  cj_apart : forall v, v ∈ nodes true -> v ∈ nodes false -> False;
  cj_networks : forall s, Network (nodes s) links (gs s) (base s) R;
  cj_tips : forall s, tip m s ∈ nodes s;
  cj_free : forall s, links (tip m s) !! conn m s = None;
  cj_toll : forall s, (0 < toll m s)%N;
  cj_seq : forall s a, base s !! router_key (tip m s) = Some a -> (lsa_seq a < seq_next (lsa_seq a))%N;
  cj_open : forall s v, v ∈ nodes s -> open_links (joined_links m links v);
  cj_meet : forall s v c link, v ∈ nodes s -> joined_links m links v !! c = Some link -> exists c' back,
    dest (l_tx link) = Some (l_peer_id link, c') /\ joined_links m links (l_peer_id link) !! c' = Some back /\
    l_peer_id back = v /\ dest (l_tx back) = Some (v, c);
  cj_carried : forall s v c link k a, v ∈ nodes s -> joined_links m links v !! c = Some link ->
    joined_base m base !! k = Some a -> link_view link a = Some a;
}.

Section joining.
Context `{Cd : Codec} `{E : !Env} `{!EnvLaws}.
Context (dest : ChanId -> option (NodeId * ConnectionId)) (m : Meeting).
Context (nodes : bool -> list NodeId) (gs : bool -> gmap NodeId (list Adjacency)) (base : bool -> gmap LsaKey Lsa).
Context (links : NodeId -> gmap ConnectionId Link) (R : NodeId -> Router).
Hypothesis J : can_join dest m nodes gs base links R.
Local Abbreviation tip := (tip m).
Local Abbreviation jlinks := (joined_links m links).
Local Abbreviation jgraph := (joined_graph m gs).
Local Abbreviation jbase := (joined_base m base).

Let apart := cj_apart _ _ _ _ _ _ _ J.
Let nets := cj_networks _ _ _ _ _ _ _ J.
Let tips := cj_tips _ _ _ _ _ _ _ J.
Let good s := nw_lsa _ _ _ _ _ (nets s).
Let graph_is s := nw_graph _ _ _ _ _ (nets s).

(** ** The joined data, as the lemmas about it want them *)
Lemma jbase_lookup s k : key_origin k ∈ nodes s ->
  jbase !! k = if decide (k = router_key (tip s)) then grow_lsa m s <$> base s !! k else base s !! k.
Proof. exact (joined_base_lookup m nodes base apart tips good s k). Qed.

Lemma jbase_good k a : jbase !! k = Some a -> good_lsa (nodes true ++ nodes false) k a.
Proof. exact (joined_base_good m nodes base apart tips good k a). Qed.

Lemma jbase_side k : is_Some (jbase !! k) -> exists s, key_origin k ∈ nodes s.
Proof. exact (joined_base_side m nodes base good k). Qed.

Lemma jgraph_lookup s n : n ∈ nodes s ->
  jgraph !! n = if decide (n = tip s) then (fun adjs => adjs ++ [new_adjacency (bridge m s)]) <$> gs s !! n else gs s !! n.
Proof. exact (joined_graph_lookup m nodes gs base apart tips good graph_is s n). Qed.

Lemma jgraph_side n : is_Some (jgraph !! n) -> exists s, n ∈ nodes s.
Proof. exact (joined_graph_side m nodes gs base good graph_is n). Qed.

Lemma jlinks_lookup s v : v ∈ nodes s ->
  jlinks v = if decide (v = tip s) then <[conn m s := bridge m s]> (links v) else links v.
Proof.
  intros Hv. unfold joined_links. rewrite (tip_at_spec m nodes apart tips s v Hv). by destruct (decide (v = tip s)).
Qed.

Lemma side_edge s u x w : edge (gs s) u x w -> u ∈ nodes s /\ x ∈ nodes s.
Proof. exact (edge_inside _ _ _ _ _ u x w (nets s)). Qed.

Lemma tip_adjacencies s : exists a adjs,
  base s !! router_key (tip s) = Some a /\ lsa_body a = Messages.Router adjs /\ gs s !! tip s = Some adjs.
Proof.
  destruct (nw_known _ _ _ _ _ (nets s) _ (tips s)) as [adjs Hg]. pose proof Hg as Hg'.
  rewrite graph_is in Hg'. unfold lsa_adjacencies in Hg'. destruct (base s !! router_key (tip s)) as [a|]; [|done].
  exists a, adjs. split; [done|]. split; [|done]. by destruct (lsa_body a); simplify_eq.
Qed.

Lemma jgraph_edge u x w : edge jgraph u x w <->
  exists s, edge (gs s) u x w \/ crosses tip (fun s => new_adjacency (bridge m s)) s u x w.
Proof.
  apply (joined_edge (fun s v => v ∈ nodes s)); [exact side_edge|exact tips|done|exact jgraph_lookup|exact jgraph_side|].
  intros s. apply (nw_known _ _ _ _ _ (nets s) _ (tips s)).
Qed.

Lemma jgraph_costs u x w : edge jgraph u x w -> (0 < w)%N.
Proof.
  intros (s & [He|(_ & _ & ->)])%jgraph_edge; [by apply (nw_costs _ _ _ _ _ (nets s) u x)|].
  apply (cj_toll _ _ _ _ _ _ _ J).
Qed.

(** ** On the way *)

(** What a message under way may be. *)
Definition sound_signal (net : LsNet) (s : signal) : Prop :=
  let '(n, c, msg) := s in
  (exists side, n ∈ nodes side) /\
  match msg with
  | NmLsa a => jbase !! lsa_key a = Some a /\
      exists back, jlinks n !! c = Some back /\ holds net (l_peer_id back) (lsa_key a) = Some a
  | NmLsaAck _ _ => True
  | NmWirePacket _ => False
  end.

(** The neighbour knows it, is about to hear it, originated it or is closer to where it is from. *)
Definition told (net : LsNet) (v : NodeId) (link : Link) (k : LsaKey) (a : Lsa) : Prop :=
  l_peer_id link = key_origin k \/ closer jgraph (l_peer_id link) v (key_origin k) \/
  holds net (l_peer_id link) k = Some a \/
  exists c, dest (l_tx link) = Some (l_peer_id link, c) /\ (l_peer_id link, c, NmLsa a) ∈ ln_wire net.

(** The routes to the endpoints that one node advertises follow what a node holds. *)
Definition routes_ahead (net : LsNet) (v : NodeId) : Prop :=
  let t := d_routes (r_lsdb (ln_routers net v)) in
  (forall e, (forall k, is_Some (jbase !! k) -> key_endpoint k <> e) -> t !! e = None) /\
  forall k a info, jbase !! k = Some a -> unicast_lsa a info -> only_key jbase k ->
    t !! key_endpoint k =
    if decide (key_origin k = v) then d_routes (r_lsdb (R v)) !! key_endpoint k
    else match holds net v k with Some _ => Some (route_from (key_origin k) info) | None => None end.

Record join_inv (net : LsNet) : Prop := {
  ji_waiting : forall s v, v ∈ nodes s -> waiting jlinks v (ln_routers net v);
  ji_held : forall s v k, v ∈ nodes s -> holds net v k = jbase !! k \/ holds net v k = base s !! k;
  ji_own : forall s v k, v ∈ nodes s -> key_origin k = v -> holds net v k = jbase !! k;
  ji_wire : forall s, s ∈ ln_wire net -> sound_signal net s;
  ji_told : forall s v c link k a, v ∈ nodes s -> jlinks v !! c = Some link ->
    holds net v k = Some a -> jbase !! k = Some a -> told net v link k a;
  ji_routes : forall s v, v ∈ nodes s -> routes_ahead net v;
}.

(** *** What the nodes see of the topology meanwhile *)
Lemma known_keys net s v k a adjs :
  join_inv net -> v ∈ nodes s -> holds net v k = Some a -> lsa_body a = Messages.Router adjs -> k = router_key (key_origin k).
Proof.
  intros I Hv Ha Hb. assert (Hr : is_router (lsa_body a) = true) by by rewrite Hb.
  destruct (ji_held _ I s v k Hv) as [Heq|Heq]; rewrite Ha in Heq; symmetry in Heq.
  - by apply (gl_router _ _ _ (jbase_good _ _ Heq)).
  - by apply (gl_router _ _ _ (good _ _ _ Heq)).
Qed.

Lemma seen net s v w n :
  join_inv net -> v ∈ nodes s ->
  router_nodes (r_lsdb (ln_routers net v)) w !! n = jgraph !! n \/
  router_nodes (r_lsdb (ln_routers net v)) w !! n = gs s !! n.
Proof.
  intros I Hv. rewrite router_nodes_held by (intros k a adjs; apply (known_keys net s v k a adjs I Hv)).
  change (held_adjacencies _ n) with (lsa_adjacencies (holds net v (router_key n))).
  destruct (ji_held _ I s v (router_key n) Hv) as [-> | ->]; [left|right; by rewrite graph_is].
  symmetry. apply (joined_graph_is m nodes gs base apart tips good graph_is).
Qed.

Lemma partial_view net s v w :
  join_inv net -> v ∈ nodes s -> partial gs jgraph s (router_nodes (r_lsdb (ln_routers net v)) w).
Proof.
  intros I Hv. split.
  - intros u x c (adjs & a & Hn & Ha). destruct (seen net s v w u I Hv) as [Heq|Heq]; rewrite Hn in Heq.
    + by exists adjs, a.
    + apply jgraph_edge. exists s. left. by exists adjs, a.
  - intros u x c He. pose proof (proj1 (side_edge _ _ _ _ He)) as Hu. destruct He as (adjs & a & Hn & Ha & Hpc).
    destruct (seen net s v w u I Hv) as [Heq|Heq]; [|exists adjs, a; by rewrite Heq].
    rewrite (jgraph_lookup s u Hu), Hn in Heq. case_decide; [|by exists adjs, a].
    exists (adjs ++ [new_adjacency (bridge m s)]), a. split; [done|]. split; [|done]. apply elem_of_app. by left.
Qed.

Lemma partial_hop_closer s v r o link :
  v ∈ nodes s -> settled r -> d_self_id (r_lsdb r) = v ->
  (forall w, partial gs jgraph s (router_nodes (r_lsdb r) w)) -> d_next_hop (r_lsdb r) !! o = Some link ->
  closer jgraph (l_peer_id link) v o.
Proof.
  intros Hv (Inv & (_ & _ & Hn) & w & t & Hb) Hself Hpart Hhop. rewrite <- Hn in Hhop.
  assert (Hf : in_force (router_nodes (r_lsdb r) w) v (r_lsdb r) (r_fib r)) by (split; [done|]; split; [done|]; by exists w, t).
  destruct (hop_distance _ _ _ _ Hf _ _ Hhop) as (d & c & x & Hs & _ & _ & _ & He & Hr & ->).
  apply (partial_closer (fun s v => v ∈ nodes s) gs tip (fun s => new_adjacency (bridge m s)) jgraph
    (sides_apart nodes apart) side_edge tips (fun _ => eq_refl) jgraph_lookup jgraph_side
    (fun s => nw_known _ _ _ _ _ (nets s) _ (tips s)) s _ v _ o c x (Hpart w) Hv He); [|done|done].
  by eapply jgraph_costs, (pa_sound _ _ _ _ (Hpart w)).
Qed.

Lemma hop_closer net s v o link :
  join_inv net -> v ∈ nodes s -> d_next_hop (r_lsdb (ln_routers net v)) !! o = Some link ->
  closer jgraph (l_peer_id link) v o.
Proof.
  intros I Hv. destruct (ji_waiting _ I s v Hv) as [Hset Hself _].
  apply (partial_hop_closer s v _ o link Hv Hset Hself). intros w. by apply partial_view.
Qed.

(** A node of a network that has heard nothing yet. *)
Lemma own_view s v w : v ∈ nodes s -> partial gs jgraph s (router_nodes (r_lsdb (R v)) w).
Proof.
  intros Hv. assert (Hn : router_nodes (r_lsdb (R v)) w = gs s).
  { apply map_eq. intros n. pose proof (network_node_ok _ _ _ _ _ v (nets s) Hv) as [_ _ _ [Hrk Hg]].
    by rewrite router_nodes_held. }
  rewrite Hn. split; [|done]. intros u x c He. apply jgraph_edge. exists s. by left.
Qed.

(** *** What is offered *)
Lemma jlinks_peer s n c link : n ∈ nodes s -> jlinks n !! c = Some link -> exists s', l_peer_id link ∈ nodes s'.
Proof.
  intros Hn. rewrite (jlinks_lookup s n Hn). case_decide as Ht.
  - intros [[_ <-]|[_ Hl]]%lookup_insert_Some; [exists (negb s); apply tips|].
    exists s. by apply (nw_peers _ _ _ _ _ (nets s) n c).
  - intros Hl. exists s. by apply (nw_peers _ _ _ _ _ (nets s) n c).
Qed.

(** The signal of an offer: the link it goes over, and the link it comes in by. *)
Lemma signal_offer s n c link a :
  n ∈ nodes s -> jlinks n !! c = Some link -> exists s' c' back,
  dest (l_tx link) = Some (l_peer_id link, c') /\
  signal_of dest (offer (l_tx link, a)) = Some (l_peer_id link, c', NmLsa a) /\
  l_peer_id link ∈ nodes s' /\ jlinks (l_peer_id link) !! c' = Some back /\ l_peer_id back = n.
Proof.
  intros Hn Hl. destruct (jlinks_peer s n c link Hn Hl) as [s' Hs'].
  destruct (cj_meet _ _ _ _ _ _ _ J s n c link Hn Hl) as (c' & back & Hd & Hb & Hp & _).
  exists s', c', back. split; [done|]. split; [|done]. unfold signal_of. simpl. by rewrite Hd.
Qed.

Lemma offer_lands s n d a inc ev sig :
  n ∈ nodes s -> d_links d = jlinks n -> jbase !! lsa_key a = Some a -> offers a inc d ev -> signal_of dest ev = Some sig ->
  exists s' p c back, sig = (p, c, NmLsa a) /\ p ∈ nodes s' /\ jlinks p !! c = Some back /\ l_peer_id back = n.
Proof.
  intros Hn Hl Ha (c & link & [t v] & Hlk & Htgt & ->) Hsig. rewrite Hl in Hlk.
  apply flood_target_spec in Htgt as (-> & Hv & _).
  rewrite (cj_carried _ _ _ _ _ _ _ J s n c link _ _ Hn Hlk Ha) in Hv. injection Hv as <-.
  destruct (signal_offer s n c link a Hn Hlk) as (s' & c' & back & _ & Hsig' & Hp & Hb & Hpb).
  rewrite Hsig' in Hsig. injection Hsig as <-. by exists s', (l_peer_id link), c', back.
Qed.

Lemma offered_or_known s n d a inc c link :
  n ∈ nodes s -> d_links d = jlinks n -> jbase !! lsa_key a = Some a ->
  (forall o l, d_next_hop d !! o = Some l -> closer jgraph (l_peer_id l) n o) ->
  jlinks n !! c = Some link -> inc <> Some c ->
  l_peer_id link = key_origin (lsa_key a) \/ closer jgraph (l_peer_id link) n (key_origin (lsa_key a)) \/
  exists c' ev, dest (l_tx link) = Some (l_peer_id link, c') /\ offers a inc d ev /\
    signal_of dest ev = Some (l_peer_id link, c', NmLsa a).
Proof.
  intros Hn Hl Ha Hhops Hlk Hc. destruct (decide (l_peer_id link = key_origin (lsa_key a))) as [|Ho]; [by left|].
  destruct (decide (l_peer_id <$> d_next_hop d !! key_origin (lsa_key a) = Some (l_peer_id link))) as [Hh|Hh].
  - right. left. destruct (d_next_hop d !! key_origin (lsa_key a)) as [l|] eqn:Hx; [|done]. injection Hh as <-. by apply Hhops.
  - right. right. destruct (signal_offer s n c link a Hn Hlk) as (s' & c' & back & Hd & Hsig & _).
    exists c', (offer (l_tx link, a)). split; [done|]. split; [|done]. exists c, link, (l_tx link, a).
    rewrite Hl. split_and!; try done. apply flood_target_spec. split_and!; try done.
    by apply (cj_carried _ _ _ _ _ _ _ J s n c link (lsa_key a)).
Qed.

(** *** An advertisement arrives *)
Lemma accepts_iff net s n a :
  join_inv net -> n ∈ nodes s -> jbase !! lsa_key a = Some a ->
  accepts_lsa a (r_lsdb (ln_routers net n)) = true <-> holds net n (lsa_key a) <> Some a.
Proof.
  intros I Hn Ha. unfold accepts_lsa. rewrite (wt_self _ _ _ (ji_waiting _ I s n Hn)), andb_true_iff, bool_decide_eq_true.
  destruct (ji_held _ I s n (lsa_key a) Hn) as [Hh|Hh].
  { rewrite Hh, Ha. split; [|done]. intros [_ Hst]. exfalso. unfold holds, held in Hh. unfold stores in Hst.
    rewrite Ha in Hh. destruct (d_db _ !! lsa_key a) as [r|]; [|done]. injection Hh as Hh. rewrite Hh in Hst. apply N.ltb_lt in Hst. lia. }
  destruct (decide (key_origin (lsa_key a) = n)) as [Ho|Ho].
  { pose proof (ji_own _ I s n (lsa_key a) Hn Ho) as Hown. rewrite Hown, Ha. naive_solver. }
  unfold holds, held in *. unfold stores. destruct (d_db _ !! lsa_key a) as [r|] eqn:Hr; simpl in *; [|naive_solver].
  destruct (jbase_side (lsa_key a)) as [s' Hs']; [by eexists|].
  assert (s' = s) as ->.
  { eapply (side_unique nodes apart); [|exact Hs']. by apply (gl_origin _ _ _ (good _ _ _ (eq_sym Hh))). }
  rewrite (jbase_lookup s _ Hs'), <- Hh in Ha. case_decide as Ht; [|by injection Ha as ->; rewrite N.ltb_irrefl; naive_solver].
  rewrite Ht in Hh. pose proof (cj_seq _ _ _ _ _ _ _ J s _ (eq_sym Hh)) as Hseq.
  destruct (tip_adjacencies s) as (b & adjs & Hb & Hbody & _). rewrite Hb in Hh. injection Hh as Hrb.
  simpl in Ha. rewrite Hrb in *. unfold grow_lsa in Ha. rewrite Hbody in Ha. injection Ha as <-. simpl.
  rewrite (proj2 (N.ltb_lt _ _) Hseq). split; [|done]. intros _ Heq. injection Heq as Heq.
  apply (f_equal lsa_seq) in Heq. simpl in Heq. lia.
Qed.
Lemma after_hearing net s n a r' w' (wire : list signal) v k :
  join_inv net -> n ∈ nodes s -> jbase !! lsa_key a = Some a ->
  heard_lsa a (r_lsdb (ln_routers net n)) (r_lsdb r') ->
  holds (after net n r' w' wire) v k = if decide (v = n /\ k = lsa_key a) then Some a else holds net v k.
Proof.
  intros I Hn Ha Hh. rewrite after_holds. destruct (decide (v = n)) as [->|Hv].
  - rewrite (heard_holds _ _ _ k Hh). pose proof (accepts_iff net s n a I Hn Ha) as Hacc.
    change (held (r_lsdb (ln_routers net n)) k) with (holds net n k).
    destruct (decide (k = lsa_key a)) as [->|Hk].
    + rewrite (bool_decide_eq_true_2 (lsa_key a = _)), andb_true_r, decide_True by done.
      destruct (accepts_lsa a _); [done|]. destruct (decide (holds net n (lsa_key a) = Some a)) as [|Hne]; [done|].
      apply Hacc in Hne. done.
    + rewrite (bool_decide_eq_false_2 (k = _)), andb_false_r, decide_False by naive_solver. done.
  - by rewrite decide_False by naive_solver.
Qed.

Lemma heard_routes net s n a r' w' (wire : list signal) :
  join_inv net -> n ∈ nodes s -> jbase !! lsa_key a = Some a ->
  heard_lsa a (r_lsdb (ln_routers net n)) (r_lsdb r') -> routes_ahead (after net n r' w' wire) n.
Proof.
  intros I Hn Ha Hh. pose proof (after_hearing net s n a r' w' wire n) as Hafter.
  destruct (ji_routes _ I s n Hn) as [Hnone Huni]. unfold routes_ahead.
  assert (Hr : d_routes (r_lsdb (ln_routers (after net n r' w' wire) n)) = d_routes (r_lsdb r')).
  { unfold after, set_router. simpl. by rewrite decide_True. }
  rewrite Hr, (he_routes _ _ _ Hh). destruct (accepts_lsa a (r_lsdb (ln_routers net n))) eqn:Hacc.
  - pose proof Hacc as Hnews. apply (accepts_iff net s n a I Hn Ha) in Hnews. split.
    + intros e He. rewrite add_remote_other; [by apply Hnone|]. intros ->. apply (He (lsa_key a)); [by eexists | done].
    + intros k b info Hb Hu Honly. rewrite Hafter by done. destruct (decide (k = lsa_key a)) as [->|Hk].
      * assert (b = a) as -> by congruence. rewrite (decide_True (P := n = n /\ _)) by done.
        specialize (Huni _ _ _ Hb Hu Honly). apply andb_true_iff in Hacc as [Ho%bool_decide_eq_true _].
        rewrite (wt_self _ _ _ (ji_waiting _ I s n Hn)) in Ho. rewrite decide_False in Huni |- * by done.
        assert (Hfresh : holds net n (lsa_key a) = None).
        { destruct (ji_held _ I s n (lsa_key a) Hn) as [Hx|Hx]; [by rewrite Hx, Ha in Hnews|].
          destruct (base s !! lsa_key a) as [x|] eqn:Hbs; [|done].
          pose proof (joined_base_endpoint m nodes base apart tips good s (lsa_key a) a info
            (gl_origin _ _ _ (good _ _ _ Hbs)) Ha (proj1 Hu)) as Hsame. destruct Hnews. by rewrite Hx, <- Hbs. }
        rewrite Hfresh in Huni. unfold lsa_info, advertised_info. rewrite (proj1 Hu).
        by apply add_remote_fresh; [apply Hu|].
      * rewrite add_remote_other; [rewrite (decide_False (P := n = n /\ _)) by (by intros [_ ?]); by eapply Huni|].
        intros Heq. apply Hk. symmetry. apply Honly; [by eexists | done].
  - split; [done|]. intros k b info Hb Hu Honly. rewrite (Huni k b info Hb Hu Honly), Hafter by done.
    destruct (decide (n = n /\ k = lsa_key a)) as [[_ ->]|]; [|done].
    destruct (decide (holds net n (lsa_key a) = Some a)) as [->|Hne]; [done|].
    apply (accepts_iff net s n a I Hn Ha) in Hne. congruence.
Qed.
(** What a node said, on the wire. *)
Lemma said_sound net s n c a (evs : list Event) sig :
  join_inv net -> n ∈ nodes s -> jbase !! lsa_key a = Some a -> is_Some (jlinks n !! c) ->
  (forall ev, ev ∈ evs <-> says a c (r_lsdb (ln_routers net n)) ev) -> sig ∈ omap (signal_of dest) evs ->
  exists s' p c', p ∈ nodes s' /\
  ((exists key seq, sig = (p, c', NmLsaAck key seq)) \/
   (accepts_lsa a (r_lsdb (ln_routers net n)) = true /\ sig = (p, c', NmLsa a) /\
    exists back, jlinks p !! c' = Some back /\ l_peer_id back = n)).
Proof.
  intros I Hn Ha [link Hc] Hevs (ev & Hev%Hevs & Hs)%list_elem_of_omap.
  pose proof (wt_links _ _ _ (ji_waiting _ I s n Hn)) as Hl. destruct Hev as [(link' & Hlk & ->)|(Hacc & Hoff)].
  - rewrite Hl, Hc in Hlk. injection Hlk as <-.
    destruct (signal_offer s n c link a Hn Hc) as (s' & c' & back & Hd & _ & Hp & _). exists s', (l_peer_id link), c'.
    split; [done|]. left. unfold signal_of in Hs. simpl in Hs. rewrite Hd in Hs. injection Hs as <-. by do 2 eexists.
  - destruct (offer_lands s n _ a (Some c) ev sig Hn Hl Ha Hoff Hs) as (s' & p & c' & back & -> & Hp & Hb & Hpb).
    exists s', p, c'. split; [done|]. right. split; [done|]. split; [done|]. by exists back.
Qed.

(** Whoever was told stays told when a message is taken off the wire by its receiver. *)
Lemma told_after net s n c a r' w' (pre post : list signal) more v link k b :
  join_inv net -> n ∈ nodes s -> jbase !! lsa_key a = Some a ->
  heard_lsa a (r_lsdb (ln_routers net n)) (r_lsdb r') -> ln_wire net = pre ++ (n, c, NmLsa a) :: post ->
  jbase !! k = Some b ->
  told net v link k b -> told (after net n r' w' (pre ++ post ++ more)) v link k b.
Proof.
  intros I Hn Ha Hh Hwire Hb. pose proof (after_hearing net s n a r' w' (pre ++ post ++ more)) as Hafter.
  intros [Ho|[Hc|[Hk|(c' & Hd & Hin)]]]; [by left|by right; left|right; right..].
  - left. rewrite Hafter by done. case_decide as Hv; [|done]. destruct Hv as [_ ->]. congruence.
  - rewrite Hwire in Hin. apply elem_of_app in Hin as [Hin|[Hin|Hin]%elem_of_cons].
    + right. exists c'. split; [done|]. simpl. set_solver.
    + injection Hin as Hp _ Hab. left. rewrite Hafter by done. subst b. rewrite decide_True; [done|]. split; [done|].
      symmetry. by apply (gl_key _ _ _ (jbase_good _ _ Hb)).
    + right. exists c'. split; [done|]. simpl. set_solver.
Qed.

Lemma deliver_lsa_join net s (pre post : list signal) n c a r' w' (evs : list Event) :
  join_inv net -> n ∈ nodes s -> ln_wire net = pre ++ (n, c, NmLsa a) :: post -> settled r' ->
  heard_lsa a (r_lsdb (ln_routers net n)) (r_lsdb r') ->
  (forall ev, ev ∈ evs <-> says a c (r_lsdb (ln_routers net n)) ev) ->
  join_inv (after net n r' w' (pre ++ post ++ omap (signal_of dest) evs)).
Proof.
  intros I Hn Hwire Hset Hh Hevs. set (wire' := pre ++ post ++ _). set (net' := after _ _ _ _ _).
  destruct (ji_wire _ I (n, c, NmLsa a)) as (_ & Ha & back & Hback & Hfrom).
  { rewrite Hwire. apply elem_of_app. right. by left. }
  assert (Hafter : forall v k, holds net' v k = if decide (v = n /\ k = lsa_key a) then Some a else holds net v k)
    by (intros v k; by apply (after_hearing net s)).
  assert (Hgrow : forall v k b, holds net v k = Some b -> jbase !! k = Some b -> holds net' v k = Some b).
  { intros v k b Hv Hb. rewrite Hafter. case_decide as Hk; [|done]. destruct Hk as [_ ->]. congruence. }
  pose proof (ji_waiting _ I s n Hn) as Hwait. split.
  - intros s' v Hv. unfold net', after, set_router. cbn [ln_routers]. destruct (decide (v = n)) as [->|]; [|by apply (ji_waiting _ I s')].
    split; [done|rewrite (he_self _ _ _ Hh); apply Hwait|rewrite (he_links _ _ _ Hh); apply Hwait].
  - intros s' v k Hv. rewrite Hafter. case_decide as Hk; [destruct Hk as [_ ->]; by left | by apply (ji_held _ I)].
  - intros s' v k Hv Ho. rewrite Hafter. case_decide as Hk; [by destruct Hk as [_ ->] | by apply (ji_own _ I s')].
  - intros sig Hs. cbn [net' after ln_wire] in Hs. unfold wire' in Hs. rewrite app_assoc in Hs. apply elem_of_app in Hs as [Hs|Hs].
    + assert (Hold : sound_signal net sig) by (apply (ji_wire _ I); rewrite Hwire; set_solver).
      destruct sig as [[p c'] [wire|b|key seq]]; try done. destruct Hold as (Hp & Hb & back' & Hl & Hbf).
      split; [done|]. split; [done|]. exists back'. split; [done | by apply Hgrow].
    + destruct (said_sound net s n c a evs sig I Hn Ha) as (s' & p & c' & Hp & [(key & seq & ->)|(Hacc & -> & back' & Hb & Hpb)]);
        [by eexists|done|done|by split; [exists s'|]|].
      split; [by exists s'|]. split; [done|]. exists back'. split; [done|]. rewrite Hpb, Hafter. by rewrite decide_True.
  - intros s' v c2 link k b Hv Hlk Hk Hb. rewrite Hafter in Hk. case_decide as Hvk.
    + destruct Hvk as [-> ->]. assert (b = a) as -> by congruence.
      destruct (decide (holds net n (lsa_key a) = Some a)) as [Hhad|Hnews].
      { eapply told_after; [exact I|exact Hn|exact Ha|exact Hh|exact Hwire|exact Ha|].
        by apply (ji_told _ I s' n c2). }
      apply (accepts_iff net s n a I Hn Ha) in Hnews. destruct (decide (c2 = c)) as [->|Hc].
      { right. right. left. rewrite Hback in Hlk. injection Hlk as <-. by apply Hgrow. }
      destruct (offered_or_known s n (r_lsdb (ln_routers net n)) a (Some c) c2 link Hn (wt_links _ _ _ Hwait) Ha) as
        [Ho|[Hcl|(c' & ev & Hd & Hoff & Hsig)]];
        [intros o l; by apply (hop_closer net s)|done|congruence|by left|by right; left|].
      right. right. right. exists c'. split; [done|]. cbn [net' after ln_wire]. unfold wire'. rewrite !elem_of_app. right. right.
      apply list_elem_of_omap. exists ev. split; [|done]. apply Hevs. by right.
    + eapply told_after; [exact I|exact Hn|exact Ha|exact Hh|exact Hwire|exact Hb|]. by apply (ji_told _ I s' v c2).
  - intros s' v Hv. destruct (decide (v = n)) as [->|Hvn]; [by apply (heard_routes net s n a)|].
    destruct (ji_routes _ I s' v Hv) as [Hnone Huni]. unfold routes_ahead, net', after, set_router. cbn [ln_routers].
    rewrite decide_False by done. split; [done|]. intros k b info Hb Hu Honly. rewrite (Huni k b info Hb Hu Honly).
    unfold holds. cbn [ln_routers]. unfold set_router. by rewrite (decide_False (P := v = n)).
Qed.
(** *** An acknowledgement arrives *)
Lemma deliver_ack_join net s (pre post : list signal) n c key seq r' w' :
  join_inv net -> n ∈ nodes s -> ln_wire net = pre ++ (n, c, NmLsaAck key seq) :: post -> settled r' ->
  d_self_id (r_lsdb r') = d_self_id (r_lsdb (ln_routers net n)) ->
  d_links (r_lsdb r') = d_links (r_lsdb (ln_routers net n)) ->
  d_db (r_lsdb r') = d_db (r_lsdb (ln_routers net n)) ->
  d_routes (r_lsdb r') = d_routes (r_lsdb (ln_routers net n)) ->
  join_inv (after net n r' w' (pre ++ post)).
Proof.
  intros I Hn Hwire Hset Hself Hl Hdb Hro. set (net' := after _ _ _ _ _).
  assert (Hsame : forall v k, holds net' v k = holds net v k).
  { intros v k. unfold net'. rewrite after_holds. destruct (decide (v = n)) as [->|]; [|done]. unfold holds, held. by rewrite Hdb. }
  assert (Hroutes : forall v, d_routes (r_lsdb (ln_routers net' v)) = d_routes (r_lsdb (ln_routers net v))).
  { intros v. unfold net', after, set_router. cbn [ln_routers]. by destruct (decide (v = n)) as [->|]. }
  pose proof (ji_waiting _ I s n Hn) as Hwait. split.
  - intros s' v Hv. unfold net', after, set_router. cbn [ln_routers].
    destruct (decide (v = n)) as [->|]; [|by apply (ji_waiting _ I s')].
    split; [done|rewrite Hself; apply Hwait|rewrite Hl; apply Hwait].
  - intros s' v k Hv. rewrite Hsame. by apply (ji_held _ I).
  - intros s' v k Hv. rewrite Hsame. by apply (ji_own _ I s').
  - intros sig Hs. assert (Hold : sound_signal net sig).
    { apply (ji_wire _ I). rewrite Hwire. cbn [net' after ln_wire] in Hs. set_solver. }
    destruct sig as [[p c'] [wire|b|k x]]; try done. destruct Hold as (Hp & Hb & back' & Hlk & Hbf).
    split; [done|]. split; [done|]. exists back'. by rewrite Hsame.
  - intros s' v c2 link k b Hv Hlk. rewrite Hsame. intros Hk Hb.
    destruct (ji_told _ I s' v c2 link k b Hv Hlk Hk Hb) as [Ho|[Hc|[Ht|(c' & Hd & Hin)]]];
      [by left|by right; left|by right; right; left; rewrite Hsame|].
    right. right. right. exists c'. split; [done|]. rewrite Hwire in Hin. cbn [net' after ln_wire]. set_solver.
  - intros s' v Hv. destruct (ji_routes _ I s' v Hv) as [Hnone Huni]. unfold routes_ahead.
    rewrite Hroutes. split; [done|]. intros k b info Hb Hu Honly. rewrite Hsame. by apply (Huni k b info).
Qed.

(** *** Steps *)

(** What arrives at a node, and what the node becomes. *)
Lemma join_delivery net (pre post : list signal) n c msg :
  join_inv net -> ln_wire net = pre ++ (n, c, msg) :: post -> exists s, n ∈ nodes s /\
  ((exists a r' w' evs, msg = NmLsa a /\ jbase !! lsa_key a = Some a /\
     settle 3 (HandleBrokerMsg (RmLsaInbound c a)) (ln_routers net n) (ln_worlds net n) = Returns (Some Listen, r', w') /\
     news (ln_worlds net n) w' = evs /\ settled r' /\ heard_lsa a (r_lsdb (ln_routers net n)) (r_lsdb r') /\
     forall ev, ev ∈ evs <-> says a c (r_lsdb (ln_routers net n)) ev) \/
   (exists key seq r', msg = NmLsaAck key seq /\
     settle 3 (HandleBrokerMsg (RmLsaAckInbound c key seq)) (ln_routers net n) (ln_worlds net n) =
       Returns (Some Listen, r', ln_worlds net n) /\ settled r' /\
     d_self_id (r_lsdb r') = d_self_id (r_lsdb (ln_routers net n)) /\
     d_links (r_lsdb r') = d_links (r_lsdb (ln_routers net n)) /\
     d_db (r_lsdb r') = d_db (r_lsdb (ln_routers net n)) /\
     d_routes (r_lsdb r') = d_routes (r_lsdb (ln_routers net n)))).
Proof.
  intros I Hwire. destruct (ji_wire _ I (n, c, msg)) as [[s Hn] Hmsg].
  { rewrite Hwire. apply elem_of_app. right. by left. }
  exists s. split; [done|]. destruct (ji_waiting _ I s n Hn) as [Hset Hself Hl]. destruct msg as [wire|a|key seq]; [done| |].
  - left. destruct Hmsg as (Ha & _). destruct (jbase_good _ _ Ha) as [_ _ Hlive Hnm _].
    destruct (lsa_inbound_settles a c (ln_routers net n) (ln_worlds net n) Hlive Hnm) as
      (r' & w' & evs & Hres & Hlog & Hr & Hh & Hevs); [rewrite Hl; by apply (cj_open _ _ _ _ _ _ _ J s)|done|].
    exists a, r', w', evs. split_and!; try done. by apply news_app.
  - right. destruct (ack_inbound_settles key seq c (ln_routers net n) (ln_worlds net n) Hset) as
      (r' & Hres & Hr & _ & ?). by exists key, seq, r'.
Qed.

Lemma join_step net net' :
  join_inv net -> ls_step dest net net' -> exists (pre post : list signal) n c msg s,
  ln_wire net = pre ++ (n, c, msg) :: post /\ n ∈ nodes s /\ join_inv net' /\
  ((exists a r' w' evs, msg = NmLsa a /\ jbase !! lsa_key a = Some a /\
      heard_lsa a (r_lsdb (ln_routers net n)) (r_lsdb r') /\
      (forall ev, ev ∈ evs <-> says a c (r_lsdb (ln_routers net n)) ev) /\
      net' = after net n r' w' (pre ++ post ++ omap (signal_of dest) evs)) \/
   (exists key seq r' w', msg = NmLsaAck key seq /\ d_db (r_lsdb r') = d_db (r_lsdb (ln_routers net n)) /\
      net' = after net n r' w' (pre ++ post))).
Proof.
  intros I Hstep. destruct Hstep as [n c msg p rm R0 W0 pre post r' w' Hp Hrm Hset].
  destruct (join_delivery _ pre post n c msg I eq_refl) as (s & Hn &
    [(a & r1 & w1 & evs & -> & Ha & Hset1 & Hnews & Hr & Hh & Hevs)|
     (key & seq & r1 & -> & Hset1 & Hr & Hself & Hl & Hdb & Hro)]);
    exists pre, post, n, c; eexists; exists s; (split; [reflexivity|]); (split; [exact Hn|]);
    simpl in Hrm; injection Hrm as <-; rewrite Hp in Hset; cbn [ln_routers ln_worlds] in *; rewrite Hset1 in Hset;
    injection Hset as <- <-.
  - rewrite Hnews. split; [by eapply (deliver_lsa_join (mkLsNet R0 W0 _) s pre post)|]. left. by exists a, r1, w1, evs.
  - unfold news. rewrite drop_all. cbn [omap list_omap]. rewrite app_nil_r.
    split; [by eapply (deliver_ack_join (mkLsNet R0 W0 _) s pre post)|]. right. by exists key, seq, r1, (W0 n).
Qed.

(** Whatever is under way can arrive: nobody panics. *)
Lemma join_progress net : join_inv net -> ln_wire net <> [] -> exists net', ls_step dest net net'.
Proof.
  intros I Hne. destruct net as [R0 W0 wire]. destruct wire as [|[[n c] msg] post]; [done|]. clear Hne.
  set (p := mkPeer n n Global c 0%N stats_default ∅ true).
  destruct (join_delivery _ [] post n c msg I eq_refl) as (s & _ &
    [(a & r1 & w1 & evs & -> & _ & Hset & _)|(key & seq & r1 & -> & Hset & _)]); cbn [ln_routers ln_worlds] in Hset;
    eexists; (eapply (ls_deliver dest n c _ p _ R0 W0 [] post); [done | reflexivity | exact Hset]).
Qed.
(** *** The messages come to an end *)
Definition everyone : list NodeId := nodes true ++ nodes false.

Lemma everyone_sides v : v ∈ everyone <-> exists s, v ∈ nodes s.
Proof.
  unfold everyone. rewrite elem_of_app. split; [intros [?|?]; by eexists|]. intros [[] Hv]; [by left | by right].
Qed.

(** What is still to be learnt. *)
Definition lacks (net : LsNet) (vk : NodeId * LsaKey) : nat :=
  if decide (holds net vk.1 vk.2 = jbase !! vk.2) then 0 else 1.
Definition total_lacking (net : LsNet) : nat := sum_list_with (lacks net) (list_prod everyone (map_to_list jbase).*1).

Lemma hearing_lacks net s n a r' w' (wire : list signal) :
  join_inv net -> n ∈ nodes s -> jbase !! lsa_key a = Some a ->
  heard_lsa a (r_lsdb (ln_routers net n)) (r_lsdb r') ->
  let net' := after net n r' w' wire in
  if accepts_lsa a (r_lsdb (ln_routers net n)) then total_lacking net' < total_lacking net
  else total_lacking net' = total_lacking net.
Proof.
  intros I Hn Ha Hh net'. pose proof (after_hearing net s n a r' w' wire) as Hafter. fold net' in Hafter.
  assert (Hle : forall vk, lacks net' vk <= lacks net vk).
  { intros [v k]. unfold lacks. cbn [fst snd]. rewrite Hafter by done. destruct (decide (v = n /\ k = lsa_key a)) as [[_ ->]|].
    - rewrite Ha. rewrite decide_True by done. lia.
    - done. }
  pose proof (accepts_iff net s n a I Hn Ha) as Hacc. destruct (accepts_lsa a _).
  - apply (sum_with_lt _ _ _ (n, lsa_key a)); [done| |].
    + apply list_elem_of_In, in_prod; apply list_elem_of_In; [apply everyone_sides; by exists s|].
      apply list_elem_of_fmap. exists (lsa_key a, a). split; [done|]. by apply elem_of_map_to_list.
    + unfold lacks. cbn [fst snd]. rewrite Hafter, Ha by done.
      rewrite (decide_True (P := n = n /\ _)), (decide_True (P := Some a = Some a)) by done.
      rewrite decide_False; [lia | by apply Hacc].
  - assert (Hhad : holds net n (lsa_key a) = Some a).
    { destruct (decide (holds net n (lsa_key a) = Some a)) as [|Hne]; [done|]. apply Hacc in Hne. done. }
    unfold total_lacking. apply Nat.le_antisymm; apply sum_with_le; [exact Hle|]. intros [v k]. unfold lacks. cbn [fst snd].
    rewrite Hafter by done. destruct (decide (v = n /\ k = lsa_key a)) as [[-> ->]|]; [by rewrite Hhad | done].
Qed.

Lemma join_counts net net' :
  join_inv net -> ls_step dest net net' ->
  total_lacking net' < total_lacking net \/
  total_lacking net' = total_lacking net /\ (lsas_coming net' < lsas_coming net \/
    lsas_coming net' = lsas_coming net /\ length (ln_wire net') < length (ln_wire net)).
Proof.
  intros I Hstep. destruct (join_step _ _ I Hstep) as (pre & post & n & c & msg & s & Hwire & Hn & _ &
    [(a & r' & w' & evs & -> & Ha & Hh & Hevs & ->)|(key & seq & r' & w' & -> & Hdb & ->)]).
  - pose proof (hearing_lacks net s n a r' w' (pre ++ post ++ omap (signal_of dest) evs) I Hn Ha Hh) as Hlack.
    destruct (accepts_lsa a _) eqn:Hacc; [by left|]. right. split; [exact Hlack|]. left.
    destruct (ji_wire _ I (n, c, NmLsa a)) as (_ & _ & back & Hback & _).
    { rewrite Hwire. apply elem_of_app. right. by left. }
    assert (Hnone : List.filter is_lsa (omap (signal_of dest) evs) = []).
    { destruct (List.filter is_lsa _) as [|x l] eqn:Hf; [done|]. exfalso.
      assert (Hx : x ∈ List.filter is_lsa (omap (signal_of dest) evs)) by (rewrite Hf; by left).
      apply list_elem_of_In, List.filter_In in Hx as [Hx Hi]. apply list_elem_of_In in Hx.
      destruct (said_sound net s n c a evs x I Hn Ha) as (s' & p & c' & _ & [(key & seq & ->)|(Ht & _)]);
        [by eexists|done|done|done|congruence]. }
    unfold lsas_coming, after. cbn [ln_wire]. rewrite Hwire, !List.filter_app, Hnone, !length_app. simpl. lia.
  - right. set (net' := after _ _ _ _ _). assert (Hsame : forall v k, holds net' v k = holds net v k).
    { intros v k. unfold net'. rewrite after_holds. destruct (decide (v = n)) as [->|]; [|done].
      unfold holds, held. by rewrite Hdb. }
    split; [apply Nat.le_antisymm; apply sum_with_le; intros [v k]; unfold lacks; by rewrite Hsame|].
    right. unfold lsas_coming, net', after. cbn [ln_wire].
    rewrite Hwire, !List.filter_app, !length_app. simpl. lia.
Qed.

Lemma join_keeps net net' : join_inv net -> ls_step dest net net' -> join_inv net'.
Proof. intros I Hs. by destruct (join_step _ _ I Hs) as (? & ? & ? & ? & ? & ? & ? & ? & ? & _). Qed.

Lemma joining_ends net : join_inv net -> Acc (fun net' net => ls_step dest net net') net.
Proof.
  apply (runs_end_by_counts _ _ total_lacking lsas_coming (fun net => length (ln_wire net))).
  - exact join_keeps.
  - exact join_counts.
Qed.

(** *** At rest *)
Lemma jgraph_edge_link net u x w :
  join_inv net -> edge jgraph u x w -> exists s c link, u ∈ nodes s /\ jlinks u !! c = Some link /\ l_peer_id link = x.
Proof.
  intros I He. destruct (proj1 (jgraph_edge u x w) He) as (s & [Hg|(-> & -> & _)]).
  - destruct (edge_link _ _ _ _ _ _ _ _ (nets s) Hg) as (Hu & c & link & Hlk & Hp). exists s, c, link. split; [done|].
    split; [|done]. rewrite (jlinks_lookup s u Hu). case_decide as Ht; [|done]. subst u.
    rewrite lookup_insert_ne; [done|]. intros <-. by rewrite (cj_free _ _ _ _ _ _ _ J s) in Hlk.
  - exists s, (conn m s), (bridge m s). split; [apply tips|]. split; [|done].
    rewrite (jlinks_lookup s _ (tips s)), decide_True by done. apply lookup_insert_eq.
Qed.

Lemma jgraph_connected u v : u ∈ everyone -> v ∈ everyone -> exists c, path jgraph u v c.
Proof.
  intros [s Hu]%everyone_sides [s' Hv]%everyone_sides.
  assert (Hside : forall s x y, x ∈ nodes s -> y ∈ nodes s -> exists c, path jgraph x y c).
  { intros t x y Hx Hy. destruct (nw_connected _ _ _ _ _ (nets t) x y Hx Hy) as [c Hc]. exists c.
    eapply path_mono; [|exact Hc]. intros a b w He. apply jgraph_edge. exists t. by left. }
  destruct (decide (s' = s)) as [->|Hne]; [by apply (Hside s)|]. assert (s' = negb s) as -> by (by destruct s, s').
  destruct (Hside s u (tip s) Hu (tips s)) as [c1 H1]. destruct (Hside _ (tip (negb s)) v (tips _) Hv) as [c2 H2].
  exists (c1 + (toll m s + c2))%N. eapply path_app; [exact H1|]. eapply path_cons; [|exact H2].
  apply jgraph_edge. exists s. by right.
Qed.

(** Once nothing is under way everyone holds what is advertised. *)
Lemma rest_holds net k a : join_inv net -> ln_wire net = [] -> jbase !! k = Some a ->
  forall d v, path jgraph v (key_origin k) d -> v ∈ everyone -> holds net v k = Some a.
Proof.
  intros I Hwire Ha d. induction d as [d IH] using (well_founded_induction N.lt_wf_0). intros v Hp Hv.
  apply everyone_sides in Hv as [s Hv]. destruct (path_first _ _ _ _ Hp) as [[Ho _]|(x & w & r & He & Hr & ->)].
  { rewrite (ji_own _ I s v k Hv); [done | by symmetry]. }
  pose proof (jgraph_costs _ _ _ He) as Hw.
  destruct (jgraph_edge_link net v x w I He) as (s1 & c & link & _ & Hlk & <-).
  destruct (jlinks_peer s v c link Hv Hlk) as [s' Hx].
  assert (Hpeer : holds net (l_peer_id link) k = Some a) by (apply (IH r); [lia|done|apply everyone_sides; by exists s']).
  destruct (cj_meet _ _ _ _ _ _ _ J s v c link Hv Hlk) as (c' & back & _ & Hback & Hpb & _).
  destruct (ji_told _ I s' _ c' back k a Hx Hback Hpeer Ha) as [Ho|[Hc|[Hh|(c2 & _ & Hin)]]].
  - rewrite Hpb in Ho. rewrite (ji_own _ I s v k Hv); done.
  - rewrite Hpb in Hc. destruct (Hc r Hr) as (r' & Hr' & Hlt). apply (IH r'); [lia|done|apply everyone_sides; by exists s].
  - by rewrite Hpb in Hh.
  - rewrite Hwire in Hin. by apply elem_of_nil in Hin.
Qed.

Lemma rest_everything net v k : join_inv net -> ln_wire net = [] -> v ∈ everyone -> holds net v k = jbase !! k.
Proof.
  intros I Hwire Hv. destruct (jbase !! k) as [a|] eqn:Ha.
  - destruct (jbase_side k) as [s Hs]; [by eexists|].
    destruct (jgraph_connected v (key_origin k) Hv) as [d Hd]; [apply everyone_sides; by exists s|].
    by apply (rest_holds net k a I Hwire Ha d).
  - apply everyone_sides in Hv as [s Hv]. destruct (ji_held _ I s v k Hv) as [->|Hh]; [done|]. rewrite Hh.
    destruct (base s !! k) as [b|] eqn:Hb; [|done].
    destruct (joined_base_is_Some m nodes base apart tips good k s) as [x Hx]; [by eexists|]. congruence.
Qed.
End joining.
