(* ===== verification/Networks.v ===== *)
(** Networks that come together: two of them whose tips meet become one, a router that has just
    started is one by itself, and a network is what the theorems about nodes that agree ask for. *)
From Stdlib Require Import Strings.String.
From S2P Require Import Prelude Types Messages World RouteTable Linkstate Spf SpfProofs LsDb.
From S2P Require Import LsDbProofs LsDbTheorems Convergence Fib FibProofs Router RouterProofs Peer.
From S2P Require Import Handle Receivers Network Delivery Registration Flooding NewPeer Bridge Join Joining.

Section meeting.
Context `{Cd : Codec} `{E : !Env} `{!EnvLaws}.
Context (dest : ChanId -> option (NodeId * ConnectionId)) (m : Meeting).
Context (nodes : bool -> list NodeId) (gs : bool -> gmap NodeId (list Adjacency)) (base : bool -> gmap LsaKey Lsa).
Context (links : NodeId -> gmap ConnectionId Link) (R : NodeId -> Router) (W : NodeId -> World).
Hypothesis J : can_join dest m nodes gs base links R.
Local Abbreviation tip := (tip m).
Local Abbreviation jlinks := (joined_links m links).
Local Abbreviation jgraph := (joined_graph m gs).
Local Abbreviation jbase := (joined_base m base).

Let apart := cj_apart _ _ _ _ _ _ _ J.
Let nets := cj_networks _ _ _ _ _ _ _ J.
Let tips := cj_tips _ _ _ _ _ _ _ J.
Let good s := nw_lsa _ _ _ _ _ (nets s).
Let graph_is s := nw_graph _ _ _ _ _ (nets s).

Definition peer_msg (s : bool) : RouterMsg :=
  RmRegisterPeer (tip (negb s)) (conn m s) (chan m s) (toll m s) (zone m s).

(** The routers of both tips were told of their new peer; what they said is under way. *)
Definition meets (net : LsNet) : Prop :=
  exists (r : bool -> Router) (w : bool -> World),
    (forall s, settle 3 (HandleBrokerMsg (peer_msg s)) (R (tip s)) (W (tip s)) = Returns (Some Listen, r s, w s)) /\
    net = mkLsNet (fun v => match tip_at m v with Some s => r s | None => R v end)
      (fun v => match tip_at m v with Some s => w s | None => W v end)
      (omap (signal_of dest) (news (W (tip true)) (w true)) ++ omap (signal_of dest) (news (W (tip false)) (w false))).

(** What a side holds right after the meeting. *)
Definition just_met (s : bool) (v : NodeId) (k : LsaKey) : option Lsa :=
  if decide (v = tip s /\ k = router_key (tip s)) then jbase !! k else base s !! k.

(** The router of a tip after the meeting, and what it said: its advertisement to the neighbours it
    had, everything it holds to the new one. *)
Record met (s : bool) (r : Router) (w : World) (evs : list Event) : Prop := {
  mt_settles : settle 3 (HandleBrokerMsg (peer_msg s)) (R (tip s)) (W (tip s)) = Returns (Some Listen, r, w);
  mt_news : news (W (tip s)) w = evs;
  mt_waiting : waiting jlinks (tip s) r;
  mt_routes : d_routes (r_lsdb r) = d_routes (r_lsdb (R (tip s)));
  mt_held : forall k, held (r_lsdb r) k = just_met s (tip s) k;
  mt_says : forall ev, ev ∈ evs <->
    (exists a, jbase !! router_key (tip s) = Some a /\
       offers a (Some (conn m s)) (set_links (jlinks (tip s)) (r_lsdb (R (tip s)))) ev) \/
    (exists k a, just_met s (tip s) k = Some a /\
       (fun view => offer (chan m s, view)) <$> link_view (bridge m s) a = Some ev);
}.

Lemma tip_meets s : exists r w evs, met s r w evs.
Proof.
  destruct (nw_waiting _ _ _ _ _ (nets s) _ (tips s)) as [Hset Hself Hl].
  destruct (tip_adjacencies dest m nodes gs base links R J s) as (a & adjs & Ha & Hbody & _).
  pose proof (jlinks_lookup dest m nodes gs base links R J s (tip s) (tips s)) as Hjl. rewrite decide_True in Hjl by done.
  destruct (register_peer_settles (tip (negb s)) (conn m s) (chan m s) (toll m s) (zone m s) a adjs
    (R (tip s)) (W (tip s)) Hset) as (r & w & evs & Hres & Hlog & Hr & Hp).
  - rewrite Hl. apply (cj_free _ _ _ _ _ _ _ J).
  - rewrite Hl. change (open_links (<[conn m s := bridge m s]> (links (tip s)))). rewrite <- Hjl.
    by apply (cj_open _ _ _ _ _ _ _ J s).
  - by rewrite Hself, (nw_held _ _ _ _ _ (nets s)).
  - done.
  - assert (Hgrown : jbase !! router_key (tip s) = Some (grown_lsa (bridge m s) a adjs)).
    { rewrite (jbase_lookup dest m nodes gs base links R J s) by apply tips. rewrite decide_True, Ha by done.
      simpl. unfold grow_lsa. by rewrite Hbody. }
    assert (Hheld : forall k, held (r_lsdb r) k = just_met s (tip s) k).
    { intros k. rewrite (hp_held _ _ _ _ _ _ Hp), Hself. unfold just_met. destruct (decide (k = router_key (tip s))) as [->|Hk].
      - by rewrite decide_True.
      - rewrite decide_False by by intros [_ ?]. by apply (nw_held _ _ _ _ _ (nets s)). }
    assert (Hlinks : d_links (r_lsdb r) = jlinks (tip s)) by (rewrite (hp_links _ _ _ _ _ _ Hp), Hl, Hjl; done).
    exists r, w, evs. split; [exact Hres|by apply news_app| |apply (hp_routes _ _ _ _ _ _ Hp)|done|].
    { split; [done|by rewrite (hp_self _ _ _ _ _ _ Hp)|done]. }
    intros ev. rewrite (hp_says _ _ _ _ _ _ Hp), Hlinks. f_equiv.
    + split; [intros Hoff; by eexists|]. intros (b & Hb & Hoff). rewrite Hgrown in Hb. by injection Hb as <-.
    + by setoid_rewrite Hheld.
Qed.

(** What a side holds is advertised still, unless it is the old advertisement of its tip. *)
Lemma just_met_joined s v k a :
  v ∈ nodes s -> just_met s v k = Some a -> jbase !! k = Some a \/ (k = router_key (tip s) /\ v <> tip s).
Proof.
  intros Hv. unfold just_met. case_decide as Hk; [by left|]. intros Ha.
  destruct (decide (k = router_key (tip s))) as [->|Hne]; [right; split; [done | naive_solver]|left].
  rewrite (jbase_lookup dest m nodes gs base links R J s) by apply (gl_origin _ _ _ (good _ _ _ Ha)).
  by rewrite decide_False.
Qed.

Lemma just_met_new s v k a :
  v ∈ nodes s -> just_met s v k = Some a -> jbase !! k = Some a ->
  (v = tip s /\ k = router_key (tip s)) \/ k <> router_key (tip s).
Proof.
  intros Hv Hk Ha. destruct (decide (k = router_key (tip s))) as [->|]; [|by right].
  destruct (decide (v = tip s)) as [->|Hvt]; [by left|]. exfalso.
  unfold just_met in Hk. rewrite decide_False in Hk by by intros [? _].
  pose proof (cj_seq _ _ _ _ _ _ _ J s a Hk) as Hseq.
  rewrite (jbase_lookup dest m nodes gs base links R J s) in Ha by apply tips. rewrite decide_True, Hk in Ha by done.
  destruct (tip_adjacencies dest m nodes gs base links R J s) as (b & adjs & Hb & Hbody & _).
  rewrite Hk in Hb. injection Hb as <-. simpl in Ha. unfold grow_lsa in Ha. rewrite Hbody in Ha.
  injection Ha as Ha. apply (f_equal lsa_seq) in Ha. simpl in Ha. lia.
Qed.

(** What is under way then. *)
Lemma first_signals s r w evs sig :
  met s r w evs -> sig ∈ omap (signal_of dest) evs ->
  exists s' p c a back, sig = (p, c, NmLsa a) /\ p ∈ nodes s' /\ jlinks p !! c = Some back /\ l_peer_id back = tip s /\
    jbase !! lsa_key a = Some a /\ just_met s (tip s) (lsa_key a) = Some a.
Proof.
  intros M (ev & Hev%(mt_says _ _ _ _ M) & Hsig)%list_elem_of_omap. destruct Hev as [(a & Ha & Hoff)|(k & a & Hk & Hev)].
  - pose proof (gl_key _ _ _ (jbase_good dest m nodes gs base links R J _ _ Ha)) as Hkey.
    destruct (offer_lands dest m nodes gs base links R J s (tip s) (set_links (jlinks (tip s)) (r_lsdb (R (tip s)))) a
      (Some (conn m s)) ev sig) as (s' & p & c & back & -> & Hp & Hb & Hpb); [apply tips|done|by rewrite Hkey|done|done|].
    exists s', p, c, a, back. split_and!; try done; rewrite Hkey; [done|]. unfold just_met. by rewrite decide_True.
  - assert (Hja : jbase !! k = Some a) by (destruct (just_met_joined s _ k a (tips s) Hk) as [?|[_ ?]]; done).
    pose proof (gl_key _ _ _ (jbase_good dest m nodes gs base links R J _ _ Hja)) as Hkey.
    assert (Hbridge : jlinks (tip s) !! conn m s = Some (bridge m s)).
    { rewrite (jlinks_lookup dest m nodes gs base links R J s) by apply tips. rewrite decide_True by done. apply lookup_insert_eq. }
    rewrite (cj_carried _ _ _ _ _ _ _ J s _ _ _ _ _ (tips s) Hbridge Hja) in Hev. injection Hev as <-.
    destruct (signal_offer dest m nodes gs base links R J s (tip s) (conn m s) (bridge m s) a (tips s) Hbridge) as
      (s' & c & back & _ & Hsig' & Hp & Hb & Hpb). change (l_tx (bridge m s)) with (chan m s) in Hsig'.
    rewrite Hsig' in Hsig. injection Hsig as <-. exists s', (tip (negb s)), c, a, back. by rewrite Hkey.
Qed.
(** Whom a tip told about its new adjacency. *)
Lemma tip_told s r w evs c link a :
  met s r w evs -> jlinks (tip s) !! c = Some link -> jbase !! router_key (tip s) = Some a -> c <> conn m s ->
  l_peer_id link = tip s \/ closer jgraph (l_peer_id link) (tip s) (tip s) \/
  exists c', dest (l_tx link) = Some (l_peer_id link, c') /\ (l_peer_id link, c', NmLsa a) ∈ omap (signal_of dest) evs.
Proof.
  intros M Hlk Ha Hc. pose proof (gl_key _ _ _ (jbase_good dest m nodes gs base links R J _ _ Ha)) as Hkey.
  destruct (nw_waiting _ _ _ _ _ (nets s) _ (tips s)) as [Hset Hself _].
  destruct (offered_or_known dest m nodes gs base links R J s (tip s) (set_links (jlinks (tip s)) (r_lsdb (R (tip s)))) a
    (Some (conn m s)) c link (tips s) eq_refl) as [Ho|[Hcl|(c' & ev & Hd & Hoff & Hsig)]].
  - by rewrite Hkey.
  - intros o l Hl. eapply (partial_hop_closer dest m nodes gs base links R J s _ _ o l (tips s) Hset Hself); [|exact Hl].
    intros w'. apply (own_view dest m nodes gs base links R J s _ w' (tips s)).
  - done.
  - congruence.
  - left. by rewrite Ho, Hkey.
  - right. left. by rewrite Hkey in Hcl.
  - right. right. exists c'. split; [done|]. apply list_elem_of_omap. exists ev. split; [|done].
    apply (mt_says _ _ _ _ M). left. by exists a.
Qed.

(** Everything a tip holds is on its way over the bridge. *)
Lemma bridge_told s r w evs k a :
  met s r w evs -> just_met s (tip s) k = Some a -> jbase !! k = Some a ->
  exists c, dest (chan m s) = Some (tip (negb s), c) /\ (tip (negb s), c, NmLsa a) ∈ omap (signal_of dest) evs.
Proof.
  intros M Hk Ha. assert (Hbridge : jlinks (tip s) !! conn m s = Some (bridge m s)).
  { rewrite (jlinks_lookup dest m nodes gs base links R J s) by apply tips. rewrite decide_True by done. apply lookup_insert_eq. }
  destruct (signal_offer dest m nodes gs base links R J s (tip s) (conn m s) (bridge m s) a (tips s) Hbridge) as
    (s' & c & back & Hd & Hsig & _). exists c. split; [exact Hd|]. apply list_elem_of_omap.
  exists (offer (chan m s, a)). split; [|exact Hsig]. apply (mt_says _ _ _ _ M). right. exists k, a. split; [done|].
  by rewrite (cj_carried _ _ _ _ _ _ _ J s _ _ _ _ _ (tips s) Hbridge Ha).
Qed.

(** The routes of a node that has heard nothing yet. *)
Lemma routes_before s v t :
  v ∈ nodes s -> t = d_routes (r_lsdb (R v)) ->
  (forall e, (forall k, is_Some (jbase !! k) -> key_endpoint k <> e) -> t !! e = None) /\
  forall k a info, jbase !! k = Some a -> unicast_lsa a info -> only_key jbase k ->
    t !! key_endpoint k =
    if decide (key_origin k = v) then d_routes (r_lsdb (R v)) !! key_endpoint k
    else match just_met s v k with Some _ => Some (route_from (key_origin k) info) | None => None end.
Proof.
  intros Hv ->. destruct (nw_routed _ _ _ _ _ (nets s) v Hv) as [Hnone Huni].
  assert (Hkeep : forall k, is_Some (base s !! k) -> is_Some (jbase !! k))
    by (intros k; apply (joined_base_is_Some m nodes base apart tips good)).
  split; [intros e He; apply Hnone; intros k Hk; by apply He, Hkeep|]. intros k a info Ha Hu Honly.
  destruct (decide (key_origin k = v)) as [|Hov]; [done|].
  destruct (jbase_side dest m nodes gs base links R J k) as [s' Hs']; [by eexists|].
  pose proof (joined_base_endpoint m nodes base apart tips good s' k a info Hs' Ha (proj1 Hu)) as Hbase.
  assert (Hmet : just_met s v k = base s !! k).
  { unfold just_met. case_decide as Hk; [|done]. destruct Hk as [-> ->]. by destruct Hov. }
  rewrite Hmet. destruct (decide (s' = s)) as [->|Hne].
  - rewrite Hbase. specialize (Huni k a info Hbase Hu). rewrite decide_False in Huni by done. apply Huni.
    intros k' Hk'. by apply Honly, Hkeep.
  - rewrite (base_other nodes base apart good s' s k Hs') by done. apply Hnone. intros k' Hk' Heq.
    rewrite (Honly k' (Hkeep _ Hk') Heq), (base_other nodes base apart good s' s k Hs') in Hk' by done. by destruct Hk'.
Qed.

(** The network right after the meeting. *)
Record started (r : bool -> Router) (w : bool -> World) (evs : bool -> list Event) (net : LsNet) : Prop := {
  sd_met : forall s, met s (r s) (w s) (evs s);
  sd_at : forall s v, v ∈ nodes s -> ln_routers net v = if decide (v = tip s) then r s else R v;
  sd_held : forall s v k, v ∈ nodes s -> holds net v k = just_met s v k;
  sd_wire : forall sig, sig ∈ ln_wire net <-> exists s, sig ∈ omap (signal_of dest) (evs s);
}.

Lemma meeting_happens : exists net, meets net.
Proof.
  destruct (tip_meets true) as (rt & wt & et & Mt), (tip_meets false) as (rf & wf & ef & Mf).
  eexists. exists (fun s : bool => if s then rt else rf), (fun s : bool => if s then wt else wf).
  split; [|reflexivity]. intros []; [apply Mt | apply Mf].
Qed.

Lemma meeting_starts net : meets net -> exists r w evs, started r w evs net.
Proof.
  intros (r & w & Hres & ->). set (net := mkLsNet _ _ _).
  assert (M : forall s, met s (r s) (w s) (news (W (tip s)) (w s))).
  { intros s. destruct (tip_meets s) as (r1 & w1 & evs1 & M1). pose proof (mt_settles _ _ _ _ M1) as Heq. rewrite (Hres s) in Heq.
    injection Heq as -> ->. by rewrite (mt_news _ _ _ _ M1). }
  exists r, w, (fun s => news (W (tip s)) (w s)).
  assert (Hat : forall s v, v ∈ nodes s -> ln_routers net v = if decide (v = tip s) then r s else R v).
  { intros s v Hv. cbn [net ln_routers]. rewrite (tip_at_spec m nodes apart tips s v Hv). by destruct (decide (v = tip s)). }
  split; [done|done| |].
  - intros s v k Hv. unfold holds. rewrite (Hat s v Hv). destruct (decide (v = tip s)) as [->|Hne]; [apply (mt_held _ _ _ _ (M s))|].
    unfold just_met. rewrite decide_False by by intros [? _]. by apply (nw_held _ _ _ _ _ (nets s)).
  - intros sig. cbn [net ln_wire]. rewrite elem_of_app. split; [intros [Hs|Hs]; by eexists|]. intros [[] Hs]; [by left | by right].
Qed.

(** What a node holds its neighbours hold, or are about to hear. *)
Lemma started_told r w evs net s v c link k a :
  started r w evs net -> v ∈ nodes s -> jlinks v !! c = Some link -> holds net v k = Some a -> jbase !! k = Some a ->
  told dest m gs net v link k a.
Proof.
  intros S Hv Hlk Hk Ha. rewrite (sd_held _ _ _ _ S s v k Hv) in Hk. pose proof (sd_met _ _ _ _ S s) as M. unfold told.
  destruct (decide (v = tip s /\ c = conn m s)) as [[-> ->]|Hvc].
  { assert (link = bridge m s) as ->.
    { rewrite (jlinks_lookup dest m nodes gs base links R J s _ Hv), decide_True in Hlk by done.
      rewrite lookup_insert_eq in Hlk. by injection Hlk. }
    destruct (bridge_told s _ _ _ k a M Hk Ha) as (c' & Hd & Hin). right. right. right. exists c'. split; [done|].
    apply (sd_wire _ _ _ _ S). by exists s. }
  assert (Hp : l_peer_id link ∈ nodes s).
  { rewrite (jlinks_lookup dest m nodes gs base links R J s v Hv) in Hlk. apply (nw_peers _ _ _ _ _ (nets s) v c link Hv).
    case_decide; [|done]. rewrite lookup_insert_ne in Hlk; [done|]. intros <-. by apply Hvc. }
  destruct (just_met_new s v k a Hv Hk Ha) as [[-> ->]|Hkey].
  - destruct (tip_told s _ _ _ c link a M Hlk Ha) as [Ho|[Hc|(c' & Hd & Hin)]];
      [naive_solver|by left|by right; left|]. right. right. right. exists c'. split; [done|].
    apply (sd_wire _ _ _ _ S). by exists s.
  - right. right. left. rewrite (sd_held _ _ _ _ S s _ k Hp). unfold just_met in *.
    rewrite decide_False in Hk by by intros [_ ?]. by rewrite decide_False by by intros [_ ?].
Qed.

Lemma meeting_inv net : meets net -> join_inv dest m nodes gs base links R net.
Proof.
  intros Hmeets. destruct (meeting_starts net Hmeets) as (r & w & evs & S).
  pose proof (sd_at _ _ _ _ S) as Hat. pose proof (sd_held _ _ _ _ S) as Hheld. pose proof (sd_met _ _ _ _ S) as M. split.
  - intros s v Hv. rewrite (Hat s v Hv). destruct (decide (v = tip s)) as [->|Hne]; [apply (mt_waiting _ _ _ _ (M s))|].
    destruct (nw_waiting _ _ _ _ _ (nets s) v Hv) as [Hset Hself Hl]. split; [done|done|].
    rewrite Hl, (jlinks_lookup dest m nodes gs base links R J s v Hv). by rewrite decide_False.
  - intros s v k Hv. rewrite (Hheld s v k Hv). unfold just_met. case_decide; [by left | by right].
  - intros s v k Hv Ho. rewrite (Hheld s v k Hv). unfold just_met. case_decide as Hk; [done|].
    rewrite (jbase_lookup dest m nodes gs base links R J s k) by by rewrite Ho.
    rewrite decide_False; [done|]. intros ->. apply Hk. by split.
  - intros sig [s Hs]%(sd_wire _ _ _ _ S).
    destruct (first_signals s _ _ _ _ (M s) Hs) as (s' & p & c & a & back & -> & Hp & Hb & Hpb & Ha & Hk).
    split; [by exists s'|]. split; [done|]. exists back. split; [done|]. by rewrite Hpb, (Hheld s _ _ (tips s)).
  - intros s v c link k a. by apply (started_told r w evs).
  - intros s v Hv. destruct (routes_before s v (d_routes (r_lsdb (ln_routers net v))) Hv) as [Hnone Huni].
    { rewrite (Hat s v Hv). destruct (decide (v = tip s)) as [->|]; [apply (mt_routes _ _ _ _ (M s)) | done]. }
    split; [done|]. intros k a info. rewrite (Hheld s v k Hv). apply Huni.
Qed.
(** What the nodes of both networks are once nothing is under way. *)
Lemma rest_network net :
  join_inv dest m nodes gs base links R net -> ln_wire net = [] ->
  Network (nodes true ++ nodes false) jlinks jgraph jbase (ln_routers net).
Proof.
  intros I Hwire.
  assert (Hside : forall v, v ∈ nodes true ++ nodes false -> exists s, v ∈ nodes s)
    by (intros v; apply (everyone_sides nodes)).
  assert (Hrest : forall v k, v ∈ nodes true ++ nodes false -> holds net v k = jbase !! k)
    by (intros v k Hv; by apply (rest_everything dest m nodes gs base links R J)).
  split.
  - intros v [s Hv]%Hside. by apply (ji_waiting _ _ _ _ _ _ _ _ I s).
  - exact (fun v k Hv => Hrest v k Hv).
  - apply (jbase_good dest m nodes gs base links R J).
  - intros n. apply (joined_graph_is m nodes gs base apart tips good graph_is).
  - intros v [s Hv]%Hside. rewrite (jgraph_lookup dest m nodes gs base links R J s v Hv).
    destruct (nw_known _ _ _ _ _ (nets s) v Hv) as [adjs ->]. case_decide; by eexists.
  - intros v c link [s Hv]%Hside Hlk. apply (everyone_sides nodes). by apply (jlinks_peer dest m nodes gs base links R J s v c).
  - intros u v. apply (jgraph_connected dest m nodes gs base links R J).
  - apply (jgraph_costs dest m nodes gs base links R J).
  - intros v Hv. pose proof Hv as [s Hs]%Hside. destruct (ji_routes _ _ _ _ _ _ _ _ I s v Hs) as [Hnone Huni]. split; [done|].
    intros k a info Ha Hu Honly. specialize (Huni k a info Ha Hu Honly). cbn zeta in Huni. rewrite (Hrest v k Hv), Ha in Huni.
    destruct (decide (key_origin k = v)) as [Ho|]; [|done]. rewrite Huni.
    assert (Hks : key_origin k ∈ nodes s) by by rewrite Ho.
    pose proof (joined_base_endpoint m nodes base apart tips good s k a info Hks Ha (proj1 Hu)) as Hb.
    destruct (nw_routed _ _ _ _ _ (nets s) v Hs) as [_ Hown]. specialize (Hown k a info Hb Hu). rewrite decide_True in Hown by done.
    apply Hown. intros k' Hk'. apply Honly. by apply (joined_base_is_Some m nodes base apart tips good k' s).
Qed.

(** The meeting comes to an end. *)
Lemma meeting_at_rest : exists net net', meets net /\ rtc (ls_step dest) net net' /\ ln_wire net' = [].
Proof.
  destruct meeting_happens as [net Hmeets]. pose proof (meeting_inv net Hmeets) as I. exists net.
  destruct (runs_to_rest _ (fun net => ln_wire net = []) net (joining_ends dest m nodes gs base links R J net I))
    as (net' & Hr & Hw); [|by exists net'].
  intros y Hy. apply (join_progress dest m nodes gs base links R J).
  by apply (runs_keep _ _ _ _ (join_keeps dest m nodes gs base links R J) I Hy).
Qed.

(** C6: two networks at rest whose tips become neighbours become one network at rest: whatever the
    order in which the messages arrive no router panics, every run ends, and once nothing is under
    way every node of either holds every advertisement, sees the whole graph with the new adjacency
    in both directions, has published its table from it, and routes every unicast endpoint that one
    node advertises to that node. *)
Theorem networks_join :
  exists net, meets net /\ Acc (fun net' net => ls_step dest net net') net /\
  forall net', rtc (ls_step dest) net net' ->
    (ln_wire net' <> [] -> exists net'', ls_step dest net' net'') /\
    (ln_wire net' = [] -> Network (nodes true ++ nodes false) jlinks jgraph jbase (ln_routers net')).
Proof.
  destruct meeting_happens as [net Hmeets]. pose proof (meeting_inv net Hmeets) as I. exists net. split; [done|].
  split; [by apply (joining_ends dest m nodes gs base links R J)|]. intros net' Hrun.
  pose proof (runs_keep _ _ _ _ (join_keeps dest m nodes gs base links R J) I Hrun) as I'.
  split; [by apply (join_progress dest m nodes gs base links R J) | by apply rest_network].
Qed.
End meeting.

(** * Where networks come from *)
Section lone.
Context `{Cd : Codec} `{E : !Env} `{!EnvLaws}.

Definition lone_lsa (v : NodeId) : Lsa := mkLsa (router_key v) 0 false (Messages.Router []).

(** The empty table of a router that has just started is the table of what it holds. *)
Lemma lone_published v w : lsdb_inv (r_lsdb (router_new v w).1) -> published (router_new v w).1.
Proof.
  intros I. destruct (build_fib_ok _ w I) as (t & fib & Hb & Hwb & Hr & Hfib). exists w, t. rewrite Hb.
  destruct (build_fib_fields _ _ _ _ Hb) as (_ & Hl & Hs & _). pose proof (i_hops _ (proj1 Hwb I)) as Hhops. simpl in Hhops.
  apply build_from_db_spec in Hfib as (H1 & H2 & H3 & H4). do 2 f_equal.
  destruct fib as [id table ls hops]. simpl in *. unfold fib_new.
  assert (Hnone : d_next_hop t = ∅).
  { apply map_eq. intros n. rewrite lookup_empty. destruct (d_next_hop t !! n) as [link|] eqn:Hn; [|done].
    specialize (Hhops n link Hn). by rewrite Hl in Hhops. }
  assert (Htable : table = ∅) by (apply map_eq; intros e; rewrite H4, Hr; by rewrite !lookup_empty).
  rewrite Htable, H1, H2, H3, Hs, Hl, Hnone. done.
Qed.

(** A router that has just started is a network. *)
Lemma lone_network v w :
  Network [v] (fun _ => ∅) {[v := []]} {[router_key v := lone_lsa v]} (fun _ => (router_new v w).1).
Proof.
  set (r := (router_new v w).1).
  assert (Hheld : forall k, held (r_lsdb r) k = ({[router_key v := lone_lsa v]} : gmap LsaKey Lsa) !! k).
  { intros k. unfold held, r, router_new, lsdb_new. simpl. destruct (decide (k = router_key v)) as [->|Hk].
    - by rewrite !lookup_singleton_eq.
    - by rewrite !lookup_singleton_ne. }
  split.
  - intros u ->%list_elem_of_singleton. split; [|done|done].
    assert (I : lsdb_inv (r_lsdb r)).
    { pose proof (lsdb_new_inv v w) as I. unfold r, router_new. by destruct (lsdb_new v w). }
    split; [exact I|]. split; [done|]. exact (lone_published v w I).
  - intros u k ->%list_elem_of_singleton. apply Hheld.
  - intros k a [<- <-]%lookup_singleton_Some. split; try done. by left.
  - intros n. destruct (decide (n = v)) as [->|Hn].
    + by rewrite !lookup_singleton_eq.
    + rewrite lookup_singleton_ne by congruence. rewrite lookup_singleton_ne; [done|].
      intros Heq. apply (f_equal key_origin) in Heq. simpl in Heq. congruence.
  - intros u ->%list_elem_of_singleton. rewrite lookup_singleton_eq. by eexists.
  - done.
  - intros x y ->%list_elem_of_singleton ->%list_elem_of_singleton. exists 0%N. constructor.
  - intros x y c (adjs & a & [<- <-]%lookup_singleton_Some & Ha & _). by apply elem_of_nil in Ha.
  - intros u ->%list_elem_of_singleton. split; [done|]. intros k a info [<- <-]%lookup_singleton_Some [Hb _]. done.
Qed.
End lone.
