(* ===== verification/Inside.v ===== *)
(** A network at rest seen from outside: what the theorems about all nodes there could be say of the
    nodes of one network, to which nodes elsewhere are nothing. *)
From Stdlib Require Import Strings.String.
From S2P Require Import Prelude Types Messages World RouteTable Linkstate Spf SpfProofs LsDb.
From S2P Require Import LsDbProofs LsDbTheorems Convergence Fib FibProofs Router RouterProofs Peer.
From S2P Require Import Handle Receivers Network Delivery Registration Flooding NewPeer Bridge Join.

(** Links that come in pairs, one per neighbour, whose channels take what they are given; costs that
    are the same both ways and unique cheapest paths. *)
Record orderly `{Cd : Codec} `{E : !Env} (dest : ChanId -> option (NodeId * ConnectionId)) (nodes : list NodeId)
    (links : NodeId -> gmap ConnectionId Link) (g : gmap NodeId (list Adjacency)) : Prop := {
  or_open : forall v, v ∈ nodes -> open_links (links v);
  or_meet : forall v c link, v ∈ nodes -> links v !! c = Some link -> exists c' back,
    dest (l_tx link) = Some (l_peer_id link, c') /\ links (l_peer_id link) !! c' = Some back /\
    l_peer_id back = v /\ dest (l_tx back) = Some (v, c);
  or_single : forall v c link c' link', v ∈ nodes -> links v !! c = Some link -> links v !! c' = Some link' ->
    l_peer_id link' = l_peer_id link -> link' = link;
  or_symmetric : forall u v w, edge g u v w -> edge g v u w;
  or_unique : unique_steps g;
}.

Section inside.
Context `{Cd : Codec} `{E : !Env} `{!EnvLaws}.
Context (dest : ChanId -> option (NodeId * ConnectionId)).

Lemma network_same nodes links links' g base R R' :
  (forall v, v ∈ nodes -> links' v = links v /\ R' v = R v) -> Network nodes links g base R -> Network nodes links' g base R'.
Proof.
  intros Hsame [H1 H2 H3 H4 H5 H6 H7 H8 H9]. split; try done.
  - intros v Hv. destruct (Hsame v Hv) as [Hl ->]. destruct (H1 v Hv). split; [done|done|by rewrite Hl].
  - intros v k Hv. destruct (Hsame v Hv) as [_ ->]. by apply H2.
  - intros v c link Hv. destruct (Hsame v Hv) as [-> _]. by apply H6.
  - intros v Hv. destruct (Hsame v Hv) as [_ ->]. by apply H9.
Qed.

Lemma orderly_same nodes links links' g base R R' :
  (forall v, v ∈ nodes -> links' v = links v /\ R' v = R v) -> Network nodes links g base R ->
  orderly dest nodes links g -> orderly dest nodes links' g.
Proof.
  intros Hsame N [H1 H2 H3 H4 H5]. split; try done.
  - intros v Hv. rewrite (proj1 (Hsame v Hv)). by apply H1.
  - intros v c link Hv. rewrite (proj1 (Hsame v Hv)). intros Hl.
    rewrite (proj1 (Hsame _ (nw_peers _ _ _ _ _ N v c link Hv Hl))). by apply H2.
  - intros v c link c' link' Hv. rewrite (proj1 (Hsame v Hv)). by apply H3.
Qed.

(** * Nodes elsewhere

    The theorems about packets speak of all nodes there could be. A node elsewhere, without links,
    may see the same network: it plays no part. *)
Definition elsewhere (base : gmap LsaKey Lsa) (v : NodeId) (w : World) : Router :=
  let db := (fun a => mkLsaRecord a 0%N) <$> base in
  let d := mkLsDb db v ∅ ∅ ∅ ∅ ∅ table_new None 0%N 0%N 0%N in
  match route_change None (mkRouter v d (fib_new v)) w with Returns (r, _) => r | Panics => mkRouter v d (fib_new v) end.

Lemma elsewhere_fields nodes links g base R v w :
  Network nodes links g base R -> v ∉ nodes ->
  waiting (fun _ => ∅) v (elsewhere base v w) /\ (forall k, held (r_lsdb (elsewhere base v w)) k = base !! k) /\
  d_routes (r_lsdb (elsewhere base v w)) = table_new.
Proof.
  intros N Hv. unfold elsewhere. set (d := mkLsDb _ _ _ _ _ _ _ _ _ _ _ _). set (r := mkRouter v d (fib_new v)).
  assert (Hheld : forall k, held d k = base !! k).
  { intros k. unfold held, d. simpl. rewrite lookup_fmap. by destruct (base !! k). }
  assert (I : lsdb_inv d).
  { split; simpl; [|done|by apply (i_routes _ (lsdb_new_inv v w))|done].
    intros k x Hx. rewrite lookup_fmap in Hx. destruct (base !! k) as [a|] eqn:Ha; [|done]. injection Hx as <-.
    pose proof (nw_lsa _ _ _ _ _ N k a Ha) as G. split; [apply (gl_key _ _ _ G)|]. intros Ho.
    destruct Hv. rewrite <- Ho. apply (gl_origin _ _ _ G). }
  destruct (route_change_settles r w I) as (r' & -> & Hset & Hself & Hl & Hdb & Hr).
  split; [split; [done|by rewrite Hself|by rewrite Hl]|]. split; [|by rewrite Hr].
  intros k. unfold held in *. rewrite Hdb. apply Hheld.
Qed.

Lemma elsewhere_ok nodes links g base R v w :
  Network nodes links g base R -> v ∉ nodes -> node_ok (fun _ => ∅) g v (elsewhere base v w).
Proof.
  intros N Hv. destruct (elsewhere_fields _ _ _ _ _ _ w N Hv) as (Hw & Hheld & _).
  eapply (waiting_node_ok nodes); [exact Hw|exact Hheld|apply (nw_lsa _ _ _ _ _ N)|apply (nw_graph _ _ _ _ _ N)].
Qed.

Definition everywhere (nodes : list NodeId) (base : gmap LsaKey Lsa) (R : NodeId -> Router) (w : World) (v : NodeId) : Router :=
  if decide (v ∈ nodes) then R v else elsewhere base v w.

Lemma everywhere_in_force nodes links g base R w v :
  Network nodes links g base R ->
  let r := everywhere nodes base R w v in in_force g v (r_lsdb r) (r_fib r).
Proof.
  intros N r. unfold r, everywhere. destruct (decide (v ∈ nodes)) as [Hv|Hv].
  - eapply node_in_force. by eapply network_node_ok.
  - eapply node_in_force. by eapply elsewhere_ok.
Qed.

Lemma everywhere_links nodes links g base R w :
  Network nodes links g base R -> orderly dest nodes links g ->
  good_links dest (fun v => r_lsdb (everywhere nodes base R w v)).
Proof.
  intros N O. assert (Hl : forall v, d_links (r_lsdb (everywhere nodes base R w v)) = if decide (v ∈ nodes) then links v else ∅).
  { intros v. unfold everywhere. destruct (decide (v ∈ nodes)) as [Hv|Hv].
    - apply (nw_waiting _ _ _ _ _ N v Hv).
    - apply (no_links _ _ _ _ (elsewhere_ok _ _ _ _ _ v w N Hv)). }
  intros v c link. cbn beta. rewrite Hl. destruct (decide (v ∈ nodes)) as [Hv|Hv]; [|done]. intros Hlk.
  split; [intros w'; by apply (or_open _ _ _ _ O v Hv c)|]. split.
  - intros c' link' Hlk'. by apply (or_single _ _ _ _ O v c link c' link').
  - destruct (or_meet _ _ _ _ O v c link Hv Hlk) as (c' & back & Hd & Hb & Hp & _). exists c', back.
    split; [done|]. split; [|done]. cbn beta. rewrite Hl, decide_True; [done|]. by apply (nw_peers _ _ _ _ _ N v c).
Qed.

(** * Packets *)

(** A path that ends in the network starts in it. *)
Lemma path_inside nodes links g base R u v d : Network nodes links g base R -> path g u v d -> v ∈ nodes -> u ∈ nodes.
Proof. intros N. induction 1 as [|u x v c w _ IH He]; [done|]. intros _. apply IH, (edge_inside _ _ _ _ _ _ _ _ N He). Qed.

(** A packet that cannot leave some nodes does not care about the tables of the others. *)
Section hops.
Context (F F' : NodeId -> ForwardingTable) (inside : NodeId -> Prop).
Hypothesis same : forall v, inside v -> F' v = F v.
Hypothesis stays : forall v e link m c, inside v -> f_table (F v) !! e = Some (Single (FwdRemote link)) ->
  dest (l_tx link) = Some (m, c) -> inside m.

Lemma hop_inside v to f : inside v -> hop_of F v to f -> hop_of F' v to f.
Proof. intros Hv. unfold hop_of. by rewrite same. Qed.

Lemma carried_inside p v c n tx : inside v -> carried F dest p v c n tx -> carried F' dest p v c n tx.
Proof.
  intros Hv Hc. induction Hc as [v c tx Ha Hh|v c link m c' n tx Ha Hh Hb Hd _ IH].
  - apply carried_here; [by rewrite same | by apply hop_inside].
  - eapply carried_on; [by rewrite same|by apply hop_inside|by rewrite same|done|]. apply IH.
    destruct Hh as [Hh _]. by eapply stays.
Qed.

Lemma arrives_inside v packet n tx got : inside v -> arrives F dest v packet n tx got -> arrives F' dest v packet n tx got.
Proof.
  intros Hv [-> Hh|link wire m c Hh Hw Hd Hc].
  - apply arrives_here; [done | by apply hop_inside].
  - eapply arrives_there; [by apply hop_inside|done|done|]. apply carried_inside; [|done].
    destruct Hh as [Hh _]. by eapply stays.
Qed.
End hops.

(** The tables of a network do not lead out of it. *)
Lemma tables_stay nodes links g base R v e link m c :
  Network nodes links g base R -> orderly dest nodes links g -> v ∈ nodes ->
  f_table (r_fib (R v)) !! e = Some (Single (FwdRemote link)) -> dest (l_tx link) = Some (m, c) -> m ∈ nodes.
Proof.
  intros N O Hv He Hd. pose proof (network_node_ok _ _ _ _ _ _ N Hv) as Hok.
  pose proof (node_in_force _ _ _ _ Hok) as Hf.
  destruct (table_remotes _ _ _ _ Hf e _ link He) as [n Hn]; [by left|].
  destruct (hop_distance _ _ _ _ Hf n link Hn) as (_ & _ & _ & _ & _ & _ & Hl & _).
  rewrite (no_links _ _ _ _ Hok) in Hl. destruct (or_meet _ _ _ _ O _ _ _ Hv Hl) as (c' & _ & Hd' & _).
  rewrite Hd in Hd'. injection Hd' as -> _. by apply (nw_peers _ _ _ _ _ N v _ link Hv Hl).
Qed.

End inside.
