(* ===== verification/Enter.v ===== *)
(** A listener registers in a network at rest: the advertisement floods, whatever the order in which
    the messages arrive, and the nodes are a network at rest again that knows one endpoint more. *)
From Stdlib Require Import Strings.String.
From S2P Require Import Prelude Types Messages World RouteTable Linkstate Spf SpfProofs LsDb.
From S2P Require Import LsDbProofs LsDbTheorems Convergence Fib FibProofs Router RouterProofs Peer.
From S2P Require Import Handle Receivers Network Delivery Registration Flooding Reach NewPeer Bridge Join Inside.

(** The listener asks for a unicast endpoint that nobody advertises, at a node of the network, and
    every link carries its advertisement. *)
Record can_enter `{Cd : Codec} `{E : !Env} (nodes : list NodeId) (links : NodeId -> gmap ConnectionId Link)
    (base : gmap LsaKey Lsa) (o : NodeId) (rq : RegistrationRequest) : Prop := {
  ce_at : o ∈ nodes;
  ce_kind : ei_kind (rr_endpoint_info rq) = Unicast;
  ce_fresh : forall k, is_Some (base !! k) -> key_endpoint k <> rr_endpoint_id rq;
  ce_carried : forall v c link, v ∈ nodes -> links v !! c = Some link ->
    link_view link (new_lsa o rq) = Some (new_lsa o rq);
  ce_zero : links o !! 0%N = None;
}.

(** * Two descriptions of one network

    What happens at the nodes does not depend on what is said of nodes elsewhere. *)
Section alike.
Context `{Cd : Codec} `{E : !Env}.
Context (dest : ChanId -> option (NodeId * ConnectionId)) (nodes : list NodeId).

Record alike (A B : LsNet) : Prop := {
  al_wire : ln_wire A = ln_wire B;
  al_routers : forall v, v ∈ nodes -> ln_routers A v = ln_routers B v;
  al_worlds : forall v, v ∈ nodes -> ln_worlds A v = ln_worlds B v;
}.

Lemma alike_sym A B : alike A B -> alike B A.
Proof. intros [H1 H2 H3]. split; [done|intros v Hv; by rewrite H2|intros v Hv; by rewrite H3]. Qed.

(** Everything under way is addressed to the nodes. *)
Definition inward (A : LsNet) : Prop := forall s, s ∈ ln_wire A -> s.1.1 ∈ nodes.

Lemma alike_step A B A' :
  inward A -> alike A B -> ls_step dest A A' -> exists B', ls_step dest B B' /\ alike A' B'.
Proof.
  intros Hin [Hw Hr Hd] Hstep. destruct Hstep as [n c m p rm R W pre post r' w' Hp Hrm Hset]. cbn [ln_wire ln_routers ln_worlds] in *.
  assert (Hn : n ∈ nodes) by (apply (Hin (n, c, m)), elem_of_app; right; by left).
  destruct B as [RB WB wire]. cbn [ln_wire ln_routers ln_worlds] in *. subst wire. rewrite (Hr n Hn), (Hd n Hn) in Hset.
  eexists. split; [by eapply ls_deliver|]. rewrite (Hd n Hn). unfold set_router, set_world.
  split; cbn [ln_wire ln_routers ln_worlds]; [done| |]; intros v Hv; destruct (decide (v = n)); auto.
Qed.

Context (inv : LsNet -> Prop).
Hypothesis keeps : forall A B, inv A -> ls_step dest A B -> inv B.
Hypothesis stays : forall A, inv A -> inward A.

Lemma alike_inward A B : alike A B -> inv B -> inward A.
Proof. intros Hal I s. rewrite (al_wire _ _ Hal). by apply stays. Qed.

Lemma alike_run A A' : rtc (ls_step dest) A A' -> forall B, inv B -> alike A B ->
  exists B', rtc (ls_step dest) B B' /\ inv B' /\ alike A' B'.
Proof.
  induction 1 as [A|A A1 A' Hs _ IH]; intros B I Hal; [by exists B; split; [apply rtc_refl|]|].
  destruct (alike_step _ _ _ (alike_inward _ _ Hal I) Hal Hs) as (B1 & HsB & Hal1).
  destruct (IH B1 (keeps _ _ I HsB) Hal1) as (B' & Hrun & HI' & HA').
  exists B'. split; [by eapply rtc_l | done].
Qed.

Lemma alike_ends B : Acc (fun y x => ls_step dest x y) B -> forall A, inv B -> alike A B -> Acc (fun y x => ls_step dest x y) A.
Proof.
  induction 1 as [B _ IH]. intros A I Hal. constructor. intros A' Hs.
  destruct (alike_step _ _ _ (alike_inward _ _ Hal I) Hal Hs) as (B' & HsB & Hal'). by apply (IH B' HsB); [eapply keeps|].
Qed.
End alike.

(** * Registering *)
Section enter.
Context `{Cd : Codec} `{E : !Env} `{!EnvLaws}.
Context (dest : ChanId -> option (NodeId * ConnectionId)).
Context (nodes : list NodeId) (links : NodeId -> gmap ConnectionId Link) (g : gmap NodeId (list Adjacency)).
Context (base : gmap LsaKey Lsa) (R : NodeId -> Router) (W : NodeId -> World) (o : NodeId) (rq : RegistrationRequest).
Hypothesis N : Network nodes links g base R.
Hypothesis O : orderly dest nodes links g.
Hypothesis P : can_enter nodes links base o rq.
Local Abbreviation lsa := (new_lsa o rq).

Definition grown_base : gmap LsaKey Lsa := <[lsa_key lsa := lsa]> base.

(** The nodes of the network have their links, nodes elsewhere none. *)
Definition inner (v : NodeId) : gmap ConnectionId Link := if decide (v ∈ nodes) then links v else ∅.
Definition all (v : NodeId) : Router := everywhere nodes base R (W o) v.

Lemma inner_in v : v ∈ nodes -> inner v = links v.
Proof. intros Hv. unfold inner. by rewrite decide_True. Qed.

Lemma inner_link v c link : inner v !! c = Some link -> v ∈ nodes /\ links v !! c = Some link.
Proof. unfold inner. by case_decide. Qed.

Lemma inner_open v : open_links (inner v).
Proof. intros c link w [Hv Hl]%inner_link. by apply (or_open _ _ _ _ O v Hv c link w). Qed.

Lemma inner_meet v c link : inner v !! c = Some link -> exists c' back,
  dest (l_tx link) = Some (l_peer_id link, c') /\ inner (l_peer_id link) !! c' = Some back /\
  l_peer_id back = v /\ dest (l_tx back) = Some (v, c).
Proof.
  intros [Hv Hl]%inner_link. destruct (or_meet _ _ _ _ O v c link Hv Hl) as (c' & back & ? & Hb & ? & ?).
  exists c', back. split; [done|]. rewrite inner_in; [done | by apply (nw_peers _ _ _ _ _ N v c)].
Qed.

Lemma inner_known v c link : inner v !! c = Some link -> l_peer_id link ∈ nodes.
Proof. intros [Hv Hl]%inner_link. by apply (nw_peers _ _ _ _ _ N v c). Qed.

Lemma inner_carried v c link : inner v !! c = Some link -> link_view link lsa = Some lsa.
Proof. intros [Hv Hl]%inner_link. by apply (ce_carried _ _ _ _ _ P v c). Qed.

Lemma inner_zero : inner o !! 0%N = None.
Proof. rewrite (inner_in o (ce_at _ _ _ _ _ P)). apply (ce_zero _ _ _ _ _ P). Qed.

Lemma all_in v : v ∈ nodes -> all v = R v.
Proof. intros Hv. unfold all, everywhere. by rewrite decide_True. Qed.

Lemma all_ok v : node_ok inner g v (all v).
Proof.
  unfold all, everywhere. destruct (decide (v ∈ nodes)) as [Hv|Hv].
  - apply (network_node_ok nodes _ _ base R); [|done]. apply (network_same nodes links inner g base R R); [|done].
    intros x Hx. by rewrite (inner_in x Hx).
  - destruct (elsewhere_ok _ _ _ _ _ v (W o) N Hv) as [H1 H2 H3 H4]. split; [done|done| |done].
    rewrite H3. unfold inner. by rewrite decide_False.
Qed.

Lemma fresh_key : base !! lsa_key lsa = None.
Proof.
  destruct (base !! lsa_key lsa) as [a|] eqn:Ha; [|done]. destruct (ce_fresh _ _ _ _ _ P (lsa_key lsa)); [by eexists|].
  apply lsa_endpoint.
Qed.

(** The advertisement is not that of a router. *)
Lemma fresh_not_router n : lsa_key lsa <> router_key n.
Proof.
  intros Hk. assert (Hn : n = o) by (by injection Hk). subst n.
  destruct (nw_known _ _ _ _ _ N o (ce_at _ _ _ _ _ P)) as [adjs Hg]. rewrite (nw_graph _ _ _ _ _ N), <- Hk, fresh_key in Hg. done.
Qed.

Lemma all_unheard v : unheard o rq (all v).
Proof.
  unfold unheard, all, everywhere. destruct (decide (v ∈ nodes)) as [Hv|Hv].
  - split; [|rewrite (nw_held _ _ _ _ _ N v _ Hv); apply fresh_key].
    apply (rt_none _ _ _ (nw_routed _ _ _ _ _ N v Hv)). apply (ce_fresh _ _ _ _ _ P).
  - destruct (elsewhere_fields _ _ _ _ _ v (W o) N Hv) as (_ & -> & ->). split; [apply lookup_empty | apply fresh_key].
Qed.

Let is_new (a : Lsa) : Prop := a = lsa.
Let is_key (k : LsaKey) : Prop := k = lsa_key lsa.

(** What holds of the network while the advertisement floods. *)
Record entering (net : LsNet) : Prop := {
  en_flood : flood_inv dest inner g is_new is_key net;
  en_routes : routes_follow o rq net;
  en_own : holds net o (lsa_key lsa) = Some lsa;
  en_others : others_kept o rq all net;
}.

Let not_router := fresh_not_router o.
Let kind := ce_kind _ _ _ _ _ P.
Let costs := nw_costs _ _ _ _ _ N.
Let new_fine := new_ok o rq kind not_router.
Let new_seen := new_carried inner o rq inner_carried.

Lemma entering_step net net' : entering net -> ls_step dest net net' -> entering net'.
Proof.
  intros [I HR Hown HO] Hs. split.
  - exact (step_keeps_inv dest inner g inner_open inner_meet costs is_new is_key new_fine new_seen (new_unique o rq) _ _ I Hs).
  - by apply (step_routes dest inner g inner_open o rq kind not_router net).
  - by apply (own_kept dest inner g inner_open inner_meet costs o rq kind not_router inner_carried net); [..|apply rtc_once].
  - by apply (step_others dest inner g inner_open o rq kind not_router all net).
Qed.

Lemma entering_inward net : entering net -> inward nodes net.
Proof.
  intros En [[n c] m] Hs. pose proof (fi_wire _ _ _ _ _ _ (en_flood _ En) _ Hs) as Hsound. cbn [fst].
  destruct m as [p|a|key seq]; [done|destruct Hsound as (_ & _ & back & Hb & _)|destruct Hsound as (back & Hb)];
    apply (inner_link n c back Hb).
Qed.

(** The registration is served, and looks the same to the nodes. *)
Lemma enters : exists net net0, registers dest o rq R W net /\ entering net0 /\ alike nodes net net0.
Proof.
  destruct (registered_inv dest inner g inner_open inner_meet costs o rq kind not_router inner_carried inner_zero all W
    all_ok all_unheard) as (net0 & Hreg & I & HR & Hown).
  pose proof (registered_others dest inner g inner_open o rq kind not_router all W net0 all_ok all_unheard Hreg) as HO.
  destruct Hreg as (r' & w' & Hres & ->). rewrite (all_in o (ce_at _ _ _ _ _ P)) in Hres.
  eexists. eexists. split; [exists r', w'; by split|]. split; [by split|].
  split; cbn [ln_wire ln_routers ln_worlds]; [done| |done]. intros v Hv. unfold set_router. case_decide; [done | by rewrite all_in].
Qed.

(** The nodes once nothing is under way any more. *)
Lemma entered_network net : entering net -> ln_wire net = [] -> Network nodes links g grown_base (ln_routers net).
Proof.
  intros [I HR Hown HO] Hwire. pose proof (fun v => fi_node _ _ _ _ _ _ I v) as Hok.
  assert (Hheld : forall v k, v ∈ nodes -> holds net v k = grown_base !! k).
  { intros v k Hv. unfold grown_base. destruct (decide (k = lsa_key lsa)) as [->|Hk].
    - rewrite lookup_insert_eq. destruct (nw_connected _ _ _ _ _ N v o Hv (ce_at _ _ _ _ _ P)) as [d Hd].
      apply (rest_agrees dest inner g inner_meet costs is_new is_key (new_unique o rq) net (lsa_key lsa) lsa d v I); try done.
      intros n c a. rewrite Hwire. apply not_elem_of_nil.
    - rewrite lookup_insert_ne by congruence. destruct (HO v) as [-> _]; [|done]. rewrite (all_in v Hv).
      by apply (nw_held _ _ _ _ _ N). }
  split.
  - intros v Hv. destruct (Hok v) as [H1 H2 H3 _]. split; [done|done|]. by rewrite H3, inner_in.
  - exact Hheld.
  - unfold grown_base. intros k a [[<- <-]|[_ Ha]]%lookup_insert_Some; [|by apply (nw_lsa _ _ _ _ _ N)].
    split; [done|apply (ce_at _ _ _ _ _ P)|done| |done]. apply (new_fine lsa eq_refl).
  - intros n. unfold grown_base. rewrite lookup_insert_ne by apply fresh_not_router. apply (nw_graph _ _ _ _ _ N).
  - apply (nw_known _ _ _ _ _ N).
  - apply (nw_peers _ _ _ _ _ N).
  - apply (nw_connected _ _ _ _ _ N).
  - exact costs.
  - intros v Hv. destruct (HO v) as [_ HE]. rewrite (all_in v Hv) in HE. destruct (nw_routed _ _ _ _ _ N v Hv) as [Hnone Huni].
    assert (Hold : forall k, is_Some (base !! k) -> is_Some (grown_base !! k)).
    { intros k Hk. unfold grown_base. rewrite lookup_insert_is_Some. destruct (decide (lsa_key lsa = k)); auto. }
    split.
    + intros e' He. rewrite HE; [apply Hnone; intros k Hk; by apply He, Hold|]. intros ->.
      apply (He (lsa_key lsa)); [unfold grown_base; rewrite lookup_insert_eq; by eexists | apply lsa_endpoint].
    + unfold grown_base. intros k a info [[<- <-]|[Hk Ha]]%lookup_insert_Some Hu Honly.
      * rewrite lsa_endpoint. specialize (HR v). change (new_lsa o rq) with lsa in HR. rewrite (Hheld v _ Hv) in HR.
        unfold grown_base in HR. rewrite lookup_insert_eq in HR. destruct Hu as [[= <-] _]. cbn [key_origin lsa_key new_lsa].
        destruct (decide (v = o)) as [->|Hv']; [rewrite decide_True by done; by eexists|].
        by rewrite decide_False by congruence.
      * rewrite HE; [|apply (ce_fresh _ _ _ _ _ P); by eexists]. apply (Huni k a info Ha Hu).
        intros k' Hk'. by apply Honly, Hold.
Qed.

(** A registration in a network at rest is served, no router panics, every run ends, and then the
    nodes are a network at rest that knows the endpoint. *)
Lemma network_registers :
  exists net, registers dest o rq R W net /\ Acc (fun net' net => ls_step dest net net') net /\
  forall net', rtc (ls_step dest) net net' ->
    (ln_wire net' <> [] -> exists net'', ls_step dest net' net'') /\
    (ln_wire net' = [] -> Network nodes links g grown_base (ln_routers net')).
Proof.
  destruct enters as (net & net0 & Hreg & En & Hal). exists net. split; [done|]. split.
  - eapply (alike_ends dest nodes entering entering_step entering_inward); [|exact En|exact Hal].
    by apply (registration_acc dest inner g inner_open inner_meet costs nodes inner_known o rq kind not_router inner_carried), En.
  - intros net' Hrun.
    destruct (alike_run dest nodes entering entering_step entering_inward _ _ Hrun net0 En Hal) as (net1 & _ & En1 & Hal1).
    pose proof Hal1 as [Hw Hr _]. split.
    + intros Hne. rewrite Hw in Hne.
      destruct (delivery_possible dest inner g inner_open is_new is_key new_fine net1 (en_flood _ En1) Hne) as [net2 Hs].
      destruct (alike_step dest nodes _ _ _ (entering_inward _ En1) (alike_sym _ _ _ Hal1) Hs) as (net3 & Hs3 & _). by exists net3.
    + rewrite Hw. intros Hwire. apply (network_same nodes links links g grown_base (ln_routers net1)); [|by apply entered_network].
      intros v Hv. by rewrite Hr.
Qed.
End enter.
