(* ===== verification/Formed.v ===== *)
(** Networks formed from single routers: what starts, registers and meets, in any order, makes
    networks whose cheapest paths are unique, so that a packet for an endpoint finds its listener
    from every node, however the network came about. *)
From Stdlib Require Import Strings.String.
From S2P Require Import Prelude Types Messages World RouteTable Linkstate Spf SpfProofs LsDb.
From S2P Require Import LsDbProofs LsDbTheorems Convergence Fib FibProofs Router RouterProofs Peer.
From S2P Require Import Handle Receivers Network Delivery Registration Flooding Reach NewPeer Bridge Join Joining Networks Inside Enter.

Section formed.
Context `{Cd : Codec} `{E : !Env} `{!EnvLaws}.
Context (dest : ChanId -> option (NodeId * ConnectionId)).

(** What happens to networks: a router starts; a listener registers at a node; two networks meet.
    The next thing happens when the network is at rest. What is said of other nodes is nothing. *)
Inductive formed : list NodeId -> (NodeId -> gmap ConnectionId Link) -> gmap NodeId (list Adjacency) ->
    gmap LsaKey Lsa -> (NodeId -> Router) -> Prop :=
  | formed_started v w :
      formed [v] (fun _ => ∅) {[v := []]} {[router_key v := lone_lsa v]} (fun _ => (router_new v w).1)
  | formed_same nodes links links' g base R R' :
      (forall v, v ∈ nodes -> links' v = links v /\ R' v = R v) ->
      formed nodes links g base R -> formed nodes links' g base R'
  | formed_registered nodes links g base R W o rq net net' :
      formed nodes links g base R -> can_enter nodes links base o rq ->
      registers dest o rq R W net -> rtc (ls_step dest) net net' -> ln_wire net' = [] ->
      formed nodes links g (grown_base base o rq) (ln_routers net')
  | formed_joined m nodes gs base links R W net net' :
      (forall s, formed (nodes s) links (gs s) (base s) R) -> can_join dest m nodes gs base links R ->
      toll m true = toll m false ->
      meets dest m R W net -> rtc (ls_step dest) net net' -> ln_wire net' = [] ->
      formed (nodes true ++ nodes false) (joined_links m links) (joined_graph m gs) (joined_base m base) (ln_routers net').

Lemma alone_orderly v : orderly dest [v] (fun _ => ∅) {[v := []]}.
Proof.
  assert (Hno : forall u x w, ~ edge {[v := []]} u x w).
  { intros u x w (adjs & a & [<- <-]%lookup_singleton_Some & Ha & _). by apply elem_of_nil in Ha. }
  split.
  - done.
  - done.
  - done.
  - intros x y w He. by destruct (Hno _ _ _ He).
  - intros u n v1 c1 r1 v2 c2 r2 _ _ He. by destruct (Hno _ _ _ He).
Qed.

Lemma joined_orderly m nodes gs base links R :
  can_join dest m nodes gs base links R -> (forall s, orderly dest (nodes s) links (gs s)) -> toll m true = toll m false ->
  orderly dest (nodes true ++ nodes false) (joined_links m links) (joined_graph m gs).
Proof.
  intros J O Htoll. pose proof (cj_networks _ _ _ _ _ _ _ J) as nets. pose proof (cj_tips _ _ _ _ _ _ _ J) as tips.
  pose proof (sides_apart nodes (cj_apart _ _ _ _ _ _ _ J)) as apart.
  assert (Hin : forall s u x w, edge (gs s) u x w -> u ∈ nodes s /\ x ∈ nodes s)
    by (intros s u x w; apply (edge_inside _ _ _ _ _ u x w (nets s))).
  assert (Hknown : forall s, is_Some (gs s !! tip m s)) by (intros s; apply (nw_known _ _ _ _ _ (nets s)), tips).
  assert (Hside : forall v, v ∈ nodes true ++ nodes false -> exists s, v ∈ nodes s)
    by (intros v; apply (everyone_sides nodes)).
  split.
  - intros v [s Hv]%Hside. by apply (cj_open _ _ _ _ _ _ _ J s).
  - intros v c link [s Hv]%Hside. by apply (cj_meet _ _ _ _ _ _ _ J s).
  - intros v c link c' link' [s Hv]%Hside. rewrite (jlinks_lookup dest m nodes gs base links R J s v Hv).
    assert (Hpeer : forall c link, links v !! c = Some link -> l_peer_id link <> tip m (negb s)).
    { intros x l Hl Hp. pose proof (nw_peers _ _ _ _ _ (nets s) v x l Hv Hl) as Hin'. rewrite Hp in Hin'.
      by apply (apart s (tip m (negb s))). }
    case_decide; [|by apply (or_single _ _ _ _ (O s) v)].
    intros [[_ <-]|[_ H1]]%lookup_insert_Some [[_ <-]|[_ H2]]%lookup_insert_Some Heq; [done| | |].
    + by apply Hpeer in H2.
    + by apply Hpeer in H1.
    + by apply (or_single _ _ _ _ (O s) v c link c' link').
  - apply (joined_symmetric (fun s v => v ∈ nodes s) gs (tip m) (fun s => new_adjacency (bridge m s)));
      [exact Hin|exact tips|done|exact (jgraph_lookup dest m nodes gs base links R J)
      |exact (jgraph_side dest m nodes gs base links R J)|exact Hknown|exact Htoll|].
    intros s. apply (or_symmetric _ _ _ _ (O s)).
  - apply (joined_unique_steps (fun s v => v ∈ nodes s) gs (tip m) (fun s => new_adjacency (bridge m s)));
      [exact apart|exact Hin|exact tips|done|exact (jgraph_lookup dest m nodes gs base links R J)
      |exact (jgraph_side dest m nodes gs base links R J)|exact Hknown| |exact (cj_toll _ _ _ _ _ _ _ J)|].
    + intros s. apply (nw_costs _ _ _ _ _ (nets s)).
    + intros s. apply (or_unique _ _ _ _ (O s)).
Qed.
(** A registration is served in one way. *)
Lemma registers_once o rq R W net1 net2 : registers dest o rq R W net1 -> registers dest o rq R W net2 -> net1 = net2.
Proof. intros (r1 & w1 & H1 & ->) (r2 & w2 & H2 & ->). rewrite H1 in H2. by injection H2 as <- <-. Qed.

Lemma formed_network nodes links g base R :
  formed nodes links g base R -> Network nodes links g base R /\ orderly dest nodes links g.
Proof.
  induction 1 as [v w|nodes links links' g base R R' Hsame _ [N O]|nodes links g base R W o rq net net' _ [N O] P Hreg Hrun Hwire|
    m nodes gs base links R W net net' _ IH J Htoll Hmeets Hrun Hwire].
  - split; [apply lone_network | apply alone_orderly].
  - split; [by eapply network_same | by eapply orderly_same].
  - split; [|done]. destruct (network_registers dest nodes links g base R W o rq N O P) as (net1 & Hreg1 & _ & Hrest).
    assert (net1 = net) as -> by (by eapply registers_once). by apply (Hrest net').
  - pose proof (meeting_inv dest m nodes gs base links R W J net Hmeets) as I.
    pose proof (runs_keep _ _ _ _ (join_keeps dest m nodes gs base links R J) I Hrun) as I'.
    split; [by apply (rest_network dest m nodes gs base links R J)|].
    apply (joined_orderly m nodes gs base links R J); [intros s; apply IH | done].
Qed.

(** C5: in a network formed from single routers by meetings, however it came about, a packet that
    a client on any node sends to a unicast endpoint that one node within reach advertises is
    delivered, once and to no one else, to the listener registered there. *)
Theorem formed_networks_deliver nodes links g base R k lsa info a D packet wire W :
  formed nodes links g base R ->
  base !! k = Some lsa -> unicast_lsa lsa info -> only_key base k ->
  a ∈ nodes -> shortest g a (key_origin k) D -> (D < cost_max)%N ->
  p_from packet = a -> p_to packet = AddrEndpoint (key_endpoint k) -> wire_of_packet packet = Returns wire ->
  exists tx, d_routes (r_lsdb (R (key_origin k))) !! key_endpoint k =
      Some (mkLsRouteEntry [mkLsRoute (Local tx) (ei_cost info) (ei_realm info) Unicast] Unicast) /\
    ((forall w, env_try_send w tx = SendOk) -> exists sent W',
      let F v := r_fib (R v) in
      net_send F dest a packet (mkNet W []) (inr tt) sent /\ rtc (net_step F dest) sent (mkNet W' []) /\
      delivered (key_origin k) tx
        (CmMessage (if decide (a = key_origin k) then packet else packet_of_wire wire)) W W').
Proof.
  intros Hf Hlsa Hu Honly Ha Hs HD Hfrom Hto Hwire. destruct (formed_network _ _ _ _ _ Hf) as [N O].
  set (o := key_origin k) in *. pose proof (gl_origin _ _ _ (nw_lsa _ _ _ _ _ N k lsa Hlsa)) as Ho. fold o in Ho.
  assert (Hrt : forall v, v ∈ nodes -> if decide (o = v)
    then exists tx, d_routes (r_lsdb (R v)) !! key_endpoint k =
           Some (mkLsRouteEntry [mkLsRoute (Local tx) (ei_cost info) (ei_realm info) Unicast] Unicast)
    else d_routes (r_lsdb (R v)) !! key_endpoint k = Some (route_from o info))
    by (intros v Hv; exact (rt_unicast _ _ _ (nw_routed _ _ _ _ _ N v Hv) k lsa info Hlsa Hu Honly)).
  pose proof (Hrt o Ho) as Htx. rewrite decide_True in Htx by done. destruct Htx as [tx Htx]. exists tx. split; [done|].
  intros Hopen. set (everyone := everywhere nodes base R (W o)).
  assert (Hev : forall v, v ∈ nodes -> everyone v = R v) by (intros v Hv; unfold everyone, everywhere; by rewrite decide_True).
  assert (Har : arrives (fun v => r_fib (everyone v)) dest a packet o tx (if decide (a = o) then packet else packet_of_wire wire)).
  { eapply (unicast_arrives dest g (fun v => r_lsdb (everyone v))) with (D := D); try done.
    - intros v. by apply (everywhere_in_force nodes links g base R (W o) v).
    - apply (nw_costs _ _ _ _ _ N).
    - apply (or_symmetric _ _ _ _ O).
    - apply (or_unique _ _ _ _ O).
    - by eapply everywhere_links.
    - intros v d Hvs _. assert (Hv : v ∈ nodes) by (eapply path_inside; [exact N|apply Hvs|done]).
      cbn beta. rewrite (Hev v Hv). specialize (Hrt v Hv). case_decide as Hov.
      + rewrite <- Hov, decide_True by done. eexists _, Unicast. split; [by left|]. split; [exact Htx|done].
      + rewrite decide_False by congruence. eexists _, Unicast. split; [by left|]. split; [exact Hrt|done]. }
  apply (arrives_inside dest _ (fun v => r_fib (R v)) (fun v => v ∈ nodes)) in Har; [|by intros v Hv; rewrite Hev| |done].
  - destruct (arrives_delivered _ _ _ _ _ _ _ W Har) as (sent & W' & ? & ? & ?). by exists sent, W'.
  - intros v e link m c Hv. cbn beta. rewrite (Hev v Hv). by eapply tables_stay.
Qed.
End formed.
