(* ===== verification/Withdraw.v ===== *)
(** From the end of a listener to nobody sending to it: the router gives the endpoint up, its
    obituary floods, and every node within reach forgets advertisement and route. The
    counterpart of [Flooding.v] and [Reach.v] for advertisements that are dead. *)
From Stdlib Require Import Strings.String.
From S2P Require Import Prelude Types Messages World RouteTable Linkstate Spf SpfProofs LsDb.
From S2P Require Import LsDbProofs LsDbTheorems Convergence Fib FibProofs Router RouterProofs Peer.
From S2P Require Import Handle Receivers Network Delivery Registration Flooding.

(** * One node: an obituary arrives *)
Section node.
Context `{Cd : Codec} `{E : !Env} `{!EnvLaws}.

(** The obituary of an endpoint clients can ask for. *)
Definition obituary_ok (lsa : Lsa) : Prop :=
  is_router (lsa_body lsa) = false /\ lsa_dead lsa = true /\ not_multicast lsa.

(** What a node holds under its key is an older advertisement of an endpoint. *)
Definition outdated (lsa : Lsa) (d : LsDb) : Prop := forall a,
  held d (lsa_key lsa) = Some a -> is_router (lsa_body a) = false /\ (lsa_seq a < lsa_seq lsa)%N.

(** It forgets what it holds unless the advertisement is its own, and only then passes it on. *)
Definition forgets (lsa : Lsa) (d : LsDb) : bool :=
  bool_decide (key_origin (lsa_key lsa) <> d_self_id d) && bool_decide (is_Some (d_db d !! lsa_key lsa)).

Definition mourns (lsa : Lsa) (c : ConnectionId) (d : LsDb) (ev : Event) : Prop :=
  acks lsa c d ev \/ (forgets lsa d = true /\ offers lsa None d ev).

Record heard_obituary (lsa : Lsa) (d d' : LsDb) : Prop := {
  ho_self : d_self_id d' = d_self_id d;
  ho_links : d_links d' = d_links d;
  ho_db : d_db d' = if forgets lsa d then delete (lsa_key lsa) (d_db d) else d_db d;
  ho_routes : d_routes d' =
    if decide (key_origin (lsa_key lsa) = d_self_id d) then d_routes d else forget_remote (lsa_key lsa) (d_routes d);
}.

(** One that names nothing held, or an advertisement of the node's own, is acknowledged; the routes
    through its node go all the same. *)
Lemma obituary_ignored lsa c d w :
  lsa_dead lsa = true -> forgets lsa d = false ->
  exists d', handle_lsa lsa c d w = Returns (d', send_ack c (lsa_key lsa) (lsa_seq lsa) d w) /\ heard_obituary lsa d d'.
Proof.
  intros Hdead Hf. unfold handle_lsa. case_decide as Ho.
  - exists d. split; [done|]. split; rewrite ?Hf; try done. by rewrite decide_True.
  - rewrite Hdead. unfold remove_dead_lsa. rewrite Hdead. cbn [negb].
    assert (Hnone : d_db d !! lsa_key lsa = None).
    { unfold forgets in Hf. rewrite bool_decide_eq_true_2 in Hf by done. simpl in Hf.
      apply bool_decide_eq_false in Hf. by apply eq_None_not_Some. }
    rewrite Hnone. eexists. split; [done|]. split; simpl; rewrite ?Hf; try done. by rewrite decide_False.
Qed.

Lemma obituary_applied lsa c d w :
  lsa_dead lsa = true -> forgets lsa d = true -> outdated lsa d ->
  let w0 := send_ack c (lsa_key lsa) (lsa_seq lsa) d w in
  exists d1 d' w', handle_lsa lsa c d w = Returns (d', w') /\ w_log w' = w_log (flood_all_neighbors lsa None d1 w0).2 /\
    d_links d1 = d_links d /\ d_next_hop d1 = d_next_hop d /\ heard_obituary lsa d d'.
Proof.
  intros Hdead Hf Hold w0. pose proof Hf as [Ho%bool_decide_eq_true [r Hr]%bool_decide_eq_true]%andb_true_iff.
  unfold handle_lsa. fold w0. rewrite decide_False, Hdead by done. unfold remove_dead_lsa. rewrite Hdead, Hr. cbn [negb].
  destruct (Hold (rec_lsa r)) as [Hb Hs]; [unfold held; by rewrite Hr|].
  rewrite (proj2 (N.ltb_lt _ _) Hs). unfold is_router_record. rewrite Hb.
  set (d1 := set_db _ _). exists d1.
  destruct (flood_all_neighbors lsa None d1 w0) as [d2 w2] eqn:H2. apply flood_spec in H2 as [H2 _].
  pose proof (rebuild_log d2 w2) as Hw3. destruct (request_rebuild d2 w2) as [d3 w3] eqn:H3.
  apply request_rebuild_spec in H3 as (H3 & _).
  assert (Hd2 : d_self_id d2 = d_self_id d /\ d_links d2 = d_links d /\ d_db d2 = delete (lsa_key lsa) (d_db d))
    by (rewrite H2; done).
  assert (Hd3 : d_self_id d3 = d_self_id d2 /\ d_links d3 = d_links d2 /\ d_db d3 = d_db d2) by (rewrite H3; done).
  destruct Hd2 as (Ha2 & Hb2 & Hc2), Hd3 as (Ha3 & Hb3 & Hc3).
  do 2 eexists. split; [done|]. split; [done|]. split; [done|]. split; [done|].
  split; simpl; rewrite ?Hf; [congruence..|]. rewrite decide_False by done.
  assert (Hr3 : d_routes d3 = forget_remote (lsa_key lsa) (d_routes d)) by (rewrite H3; simpl; rewrite H2; done).
  by rewrite Hr3, forget_remote_idem.
Qed.

Lemma handle_obituary lsa c d w :
  obituary_ok lsa -> outdated lsa d -> open_links (d_links d) ->
  exists d' w' evs, handle_lsa lsa c d w = Returns (d', w') /\ w_log w' = w_log w ++ evs /\
    heard_obituary lsa d d' /\ (forall ev, ev ∈ evs <-> mourns lsa c d ev).
Proof.
  intros (_ & Hdead & _) Hold Hopen. destruct (ack_log lsa c d w Hopen) as (acked & Hack & Hacks).
  destruct (forgets lsa d) eqn:Hf.
  - destruct (obituary_applied lsa c d w Hdead Hf Hold) as (d1 & d' & w' & Hres & Hlog & Hl1 & Hn1 & Hh).
    destruct (offers_log lsa None d1 (send_ack c (lsa_key lsa) (lsa_seq lsa) d w)) as (offered & Hflog & Hoffers);
      [by rewrite Hl1|].
    exists d', w', (acked ++ offered). split; [done|]. split; [by rewrite Hlog, Hflog, Hack, <- app_assoc|]. split; [done|].
    intros ev. rewrite elem_of_app, Hacks, Hoffers, (offers_same _ _ _ _ _ Hl1 Hn1).
    unfold mourns. rewrite Hf. naive_solver.
  - destruct (obituary_ignored lsa c d w Hdead Hf) as (d' & Hres & Hh). exists d'. eexists. exists acked.
    split; [done|]. split; [done|]. split; [done|]. intros ev. rewrite Hacks. unfold mourns. rewrite Hf. naive_solver.
Qed.

Lemma obituary_settles lsa c r w :
  obituary_ok lsa -> outdated lsa (r_lsdb r) -> open_links (d_links (r_lsdb r)) -> settled r ->
  exists r' w' evs, settle 3 (HandleBrokerMsg (RmLsaInbound c lsa)) r w = Returns (Some Listen, r', w') /\
    w_log w' = w_log w ++ evs /\ settled r' /\ heard_obituary lsa (r_lsdb r) (r_lsdb r') /\
    (forall ev, ev ∈ evs <-> mourns lsa c (r_lsdb r) ev).
Proof.
  intros Hlsa Hold Hopen (I & _ & _).
  destruct (handle_obituary lsa c (r_lsdb r) w Hlsa Hold Hopen) as (d' & w' & evs & Hres & Hlog & Hh & Hsays).
  destruct (handle_lsa_ok lsa c (r_lsdb r) w I (proj2 (proj2 Hlsa))) as (s & Hs & I' & _).
  rewrite Hres in Hs. injection Hs as <-. simpl in I'.
  destruct (route_change_settles (set_lsdb d' r) w' (I' I)) as (r' & Hrc & Hset & Hself & Hl & Hdb & Hr).
  exists r', w', evs. cbn [settle next handle_broker_msg]. rewrite Hres. cbn [outcome_bind next].
  rewrite Hrc. cbn [outcome_bind]. split_and!; try done.
  destruct Hh as [H1 H2 H3 H4]. simpl in *. split; [congruence..|]. by rewrite Hr.
Qed.

(** The node of the listener says it first. *)
Definition obituary_of (record : LsaRecord) : Lsa :=
  mkLsa (lsa_key (rec_lsa record)) (seq_next (lsa_seq (rec_lsa record))) true (lsa_body (rec_lsa record)).

Lemma dead_link_settles e r w tx cost realm kind record :
  let d := r_lsdb r in
  d_routes d !! e = Some (mkLsRouteEntry [mkLsRoute (Local tx) cost realm kind] kind) -> env_is_closed w tx = true ->
  d_db d !! endpoint_key d e = Some record ->
  open_links (d_links d) -> settled r ->
  exists r' w' evs, settle 3 (HandleBrokerMsg (RmDeadLink e)) r w = Returns (Some Listen, r', w') /\
    settled r' /\ d_self_id (r_lsdb r') = d_self_id d /\ d_links (r_lsdb r') = d_links d /\
    d_db (r_lsdb r') = delete (endpoint_key d e) (d_db d) /\ d_routes (r_lsdb r') !! e = None /\
    w_log w' = w_log w ++ evs /\
    (forall ev, ev ∈ evs <-> offers (obituary_of record) None d ev).
Proof.
  intros d Ht Hclosed Hrec Hopen (I & _ & _). cbn [settle next handle_broker_msg outcome_bind]. fold d.
  pose proof (proj1 (lsdb_remove_endpoint_ok e d w I) I) as I1. revert I1.
  unfold lsdb_remove_endpoint, remove_endpoint. rewrite Ht. cbn [re_routes].
  assert (Hret : retain (keep_open w) [mkLsRoute (Local tx) cost realm kind] = []).
  { unfold retain. rewrite filter_cons_False; [done|]. unfold keep_open. simpl. rewrite Hclosed. simpl. tauto. }
  rewrite Hret. set (d0 := set_routes _ d).
  pose proof (rebuild_log d0 w) as Hw1. destruct (request_rebuild d0 w) as [d1 w1] eqn:H1. cbn [snd] in Hw1.
  apply request_rebuild_spec in H1 as (H1 & _).
  assert (Hd1 : d_self_id d1 = d_self_id d /\ d_links d1 = d_links d /\ d_db d1 = d_db d /\
    d_routes d1 = delete e (d_routes d) /\ d_next_hop d1 = d_next_hop d) by (rewrite H1; done).
  destruct Hd1 as (Hs1 & Hl1 & Hb1 & Hr1 & Hn1).
  assert (Hkey : endpoint_key d1 e = endpoint_key d e) by (unfold endpoint_key; by rewrite Hs1).
  unfold apply_remove. rewrite Hkey, Hb1, Hrec. fold (obituary_of record).
  set (d2 := set_db _ d1). assert (Hopen2 : open_links (d_links d2)) by (unfold d2; simpl; by rewrite Hl1).
  destruct (offers_log (obituary_of record) None d2 w1 Hopen2) as (evs & Hlog & Hoffers).
  destruct (flood_all_neighbors _ None d2 w1) as [d3 w3] eqn:H3. apply flood_spec in H3 as [H3 _]. simpl. intros I3.
  assert (Hd3 : d_self_id d3 = d_self_id d /\ d_links d3 = d_links d /\
    d_db d3 = delete (endpoint_key d e) (d_db d) /\ d_routes d3 = delete e (d_routes d)).
  { rewrite H3. unfold d2. simpl. by rewrite Hs1, Hl1, Hr1. }
  destruct Hd3 as (Hs3 & Hl3 & Hb3 & Hr3).
  destruct (route_change_settles (set_lsdb d3 r) w3 I3) as (r' & Hrc & Hset & Hself & Hl & Hdb & Hr).
  simpl in *. rewrite Hrc. cbn [outcome_bind]. exists r'. eexists. exists evs. split; [done|].
  split; [done|]. split; [congruence|]. split; [congruence|]. split; [congruence|].
  split; [rewrite Hr, Hr3; apply lookup_delete_eq|]. split; [rewrite Hlog, Hw1; done|].
  intros ev. rewrite Hoffers. apply offers_same; [exact Hl1 | exact Hn1].
Qed.
End node.

(** * The network *)
Section network.
Context `{Cd : Codec} `{E : !Env} `{!EnvLaws}.
Context (dest : ChanId -> option (NodeId * ConnectionId)).
Context (links : NodeId -> gmap ConnectionId Link) (g : gmap NodeId (list Adjacency)).
Hypothesis links_open : forall v, open_links (links v).
Hypothesis links_meet : forall v c link, links v !! c = Some link -> exists c' back,
  dest (l_tx link) = Some (l_peer_id link, c') /\ links (l_peer_id link) !! c' = Some back /\
  l_peer_id back = v /\ dest (l_tx back) = Some (v, c).
Hypothesis costs_positive : forall u v c, edge g u v c -> (0 < c)%N.

(** The obituary of an endpoint of the node [o], which every link carries. *)
Context (dead : Lsa).
Let k : LsaKey := lsa_key dead.
Let o : NodeId := key_origin (lsa_key dead).
Hypothesis dead_ok : obituary_ok dead.
Hypothesis not_router : lsa_key dead <> router_key o.
Hypothesis carried_everywhere : forall v c link, links v !! c = Some link -> link_view link dead = Some dead.

Definition coming (net : LsNet) (link : Link) : Prop :=
  exists c, dest (l_tx link) = Some (l_peer_id link, c) /\ (l_peer_id link, c, NmLsa dead) ∈ ln_wire net.

(** Who has forgotten the endpoint has told, or is telling, everyone not nearer to its node. *)
Record grief_inv (net : LsNet) : Prop := {
  gi_node : forall v, node_ok links g v (ln_routers net v);
  gi_wire : forall n c m, (n, c, m) ∈ ln_wire net ->
    (m = NmLsa dead /\ is_Some (links n !! c)) \/ exists key seq, m = NmLsaAck key seq;
  gi_old : forall v, outdated dead (r_lsdb (ln_routers net v));
  gi_own : holds net o k = None;
  gi_told : forall v c link, links v !! c = Some link -> holds net v k = None ->
    l_peer_id link <> o -> ~ nearer g (l_peer_id link) v o -> holds net (l_peer_id link) k = None \/ coming net link;
  gi_routes : forall v, v <> o -> holds net v k = None ->
    no_route_to (d_routes (r_lsdb (ln_routers net v))) (key_endpoint k) o;
}.

(** ** One delivery *)
Lemma obituary_holds d d' x :
  heard_obituary dead d d' -> held d' x = if forgets dead d && bool_decide (x = k) then None else held d x.
Proof.
  intros [_ _ Hdb _]. unfold held. rewrite Hdb. destruct (forgets dead d); [|done]. simpl.
  case_bool_decide as Hx; [subst x; by rewrite lookup_delete_eq | by rewrite lookup_delete_ne].
Qed.

Lemma obituary_view d d' : heard_obituary dead d d' -> router_view g d -> router_view g d'.
Proof.
  intros Hh [Hrk Hg]. split.
  - intros x a adjs Ha. rewrite (obituary_holds _ _ x Hh) in Ha. destruct (_ && _); [done | by apply Hrk].
  - intros n. rewrite <- Hg. unfold held_adjacencies. rewrite (obituary_holds _ _ _ Hh).
    destruct (forgets dead d); [|done]. simpl. case_bool_decide as Hn; [|done].
    destruct not_router. unfold o. unfold k in Hn. rewrite <- Hn. done.
Qed.

Lemma mourned net n c (evs : list Event) s :
  grief_inv net -> (forall ev, ev ∈ evs <-> mourns dead c (r_lsdb (ln_routers net n)) ev) ->
  s ∈ omap (signal_of dest) evs ->
  (exists m c' key seq, s = (m, c', NmLsaAck key seq)) \/
  (exists m c', s = (m, c', NmLsa dead) /\ is_Some (links m !! c') /\ forgets dead (r_lsdb (ln_routers net n)) = true).
Proof.
  intros I Hevs (ev & Hev%Hevs & Hs)%list_elem_of_omap. destruct Hev as [(link & Hlk & ->)|(Hacc & Hoff)].
  - left. unfold signal_of in Hs. simpl in Hs. destruct (dest (l_tx link)) as [[m c']|]; [|done].
    injection Hs as <-. by do 4 eexists.
  - right. destruct (offers_arrive dest links g links_meet n _ dead None ev s (gi_node _ I n)) as
      (c2 & link & c' & back & _ & _ & -> & Hb & _); [apply carried_everywhere|done|done|]. by eauto.
Qed.

Lemma told_everyone net n c (evs : list Event) c2 link :
  grief_inv net -> (forall ev, ev ∈ evs <-> mourns dead c (r_lsdb (ln_routers net n)) ev) ->
  forgets dead (r_lsdb (ln_routers net n)) = true -> links n !! c2 = Some link ->
  l_peer_id link <> o -> ~ nearer g (l_peer_id link) n o ->
  exists c', dest (l_tx link) = Some (l_peer_id link, c') /\ (l_peer_id link, c', NmLsa dead) ∈ omap (signal_of dest) evs.
Proof.
  intros I Hevs Hacc Hlk Hpeer Hnear.
  destruct (offered dest links g links_meet costs_positive n _ dead None c2 link (gi_node _ I n) Hlk) as
    (c' & ev & Hd & Hoff & Hs); [by eapply carried_everywhere|done|done|done|].
  exists c'. split; [done|]. apply list_elem_of_omap. exists ev. split; [|done]. apply Hevs. by right.
Qed.

Lemma forgets_own net : grief_inv net -> forgets dead (r_lsdb (ln_routers net o)) = false.
Proof.
  intros I. unfold forgets. rewrite bool_decide_eq_false_2; [done|]. intros Hne. apply Hne.
  symmetry. apply (gi_node _ I o).
Qed.

Lemma deliver_obituary_inv net (pre post : list signal) n c r' w' (evs : list Event) :
  grief_inv net -> ln_wire net = pre ++ (n, c, NmLsa dead) :: post ->
  settled r' -> heard_obituary dead (r_lsdb (ln_routers net n)) (r_lsdb r') ->
  (forall ev, ev ∈ evs <-> mourns dead c (r_lsdb (ln_routers net n)) ev) ->
  grief_inv (after net n r' w' (pre ++ post ++ omap (signal_of dest) evs)).
Proof.
  intros I Hwire Hset Hh Hevs. set (net' := after _ _ _ _ _).
  assert (Hself : d_self_id (r_lsdb (ln_routers net n)) = n) by apply (gi_node _ I n).
  assert (Hold : forall s, s ∈ pre ++ post -> s ∈ ln_wire net) by (intros s; rewrite Hwire; set_solver).
  assert (Hkeep : forall v, holds net' v k = None <-> holds net v k = None \/
    (v = n /\ forgets dead (r_lsdb (ln_routers net n)) = true)).
  { intros v. unfold net'. rewrite after_holds. destruct (decide (v = n)) as [->|]; [|naive_solver].
    rewrite (obituary_holds _ _ k Hh), bool_decide_eq_true_2, andb_true_r by done.
    destruct (forgets _ _); naive_solver. }
  assert (Hn : n <> o -> holds net' n k = None).
  { intros Hne. apply Hkeep. destruct (forgets dead (r_lsdb (ln_routers net n))) eqn:Hf; [by right|]. left.
    unfold forgets in Hf. rewrite bool_decide_eq_true_2 in Hf by (rewrite Hself; unfold o in Hne; congruence).
    simpl in Hf. apply bool_decide_eq_false, eq_None_not_Some in Hf. unfold holds, held. fold k in Hf. by rewrite Hf. }
  split.
  - intros v. unfold net', after, set_router. simpl. destruct (decide (v = n)) as [->|]; [|apply (gi_node _ I)].
    pose proof (gi_node _ I n) as Hok. eapply node_ok_after; [done|done|apply Hh|apply Hh|].
    eapply obituary_view; [done|apply Hok].
  - intros m c' msg Hs. simpl in Hs. rewrite app_assoc in Hs. apply elem_of_app in Hs as [Hs|Hs].
    + by apply (gi_wire _ I), Hold.
    + destruct (mourned _ _ _ _ _ I Hevs Hs) as [(? & ? & key & seq & [= _ _ ->])|(? & ? & [= -> -> ->] & ? & _)];
        [right; by do 2 eexists | by left].
  - intros v a. unfold net', after, set_router. simpl. destruct (decide (v = n)) as [->|]; [|apply (gi_old _ I)].
    rewrite (obituary_holds _ _ _ Hh). destruct (_ && _); [done|]. apply (gi_old _ I).
  - apply Hkeep. left. apply (gi_own _ I).
  - intros v c2 link Hlk Hv Hpeer Hnear. apply Hkeep in Hv as [Hv|[-> Hf]].
    + destruct (gi_told _ I v c2 link Hlk Hv Hpeer Hnear) as [Hl|(c' & Hd & Hin)]; [left; apply Hkeep; by left|].
      rewrite Hwire in Hin. apply elem_of_app in Hin as [Hin|[Hin|Hin]%elem_of_cons].
      * right. exists c'. split; [done|]. simpl. set_solver.
      * injection Hin as Hpn _. left. rewrite Hpn. apply Hn. congruence.
      * right. exists c'. split; [done|]. simpl. set_solver.
    + right. destruct (told_everyone _ _ _ _ _ _ I Hevs Hf Hlk Hpeer Hnear) as (c' & Hd & Hin).
      exists c'. split; [done|]. simpl. set_solver.
  - intros v Hvo Hv. unfold net', after, set_router. cbn [ln_routers]. destruct (decide (v = n)) as [->|Hvn].
    + rewrite (ho_routes _ _ _ Hh), Hself, decide_False by done. apply forget_remote_gone.
    + apply (gi_routes _ I); [done|]. apply Hkeep in Hv as [Hv|[? _]]; done.
Qed.

Lemma deliver_ack_grief net (pre post : list signal) n c key seq r' w' :
  grief_inv net -> ln_wire net = pre ++ (n, c, NmLsaAck key seq) :: post -> node_ok links g n r' ->
  d_db (r_lsdb r') = d_db (r_lsdb (ln_routers net n)) -> d_routes (r_lsdb r') = d_routes (r_lsdb (ln_routers net n)) ->
  grief_inv (after net n r' w' (pre ++ post)).
Proof.
  intros I Hwire Hr Hdb Hro. set (net' := after _ _ _ _ _).
  assert (Hsame : forall v, holds net' v k = holds net v k).
  { intros v. unfold net'. rewrite after_holds. destruct (decide (v = n)) as [->|]; [|done].
    unfold holds, held. by rewrite Hdb. }
  split.
  - intros v. unfold net', after, set_router. simpl. destruct (decide (v = n)) as [->|]; [done | apply (gi_node _ I)].
  - intros m c' msg Hs. apply (gi_wire _ I). rewrite Hwire. simpl in Hs. set_solver.
  - intros v. unfold net', after, set_router. simpl. destruct (decide (v = n)) as [->|]; [|apply (gi_old _ I)].
    pose proof (gi_old _ I n) as Hold. unfold outdated, held in *. by rewrite Hdb.
  - rewrite Hsame. apply (gi_own _ I).
  - intros v c2 link Hlk Hv Hpeer Hnear. rewrite !Hsame in *.
    destruct (gi_told _ I v c2 link Hlk Hv Hpeer Hnear) as [Hl|(c' & Hd & Hin)]; [by left|]. right. exists c'.
    split; [done|]. rewrite Hwire in Hin. simpl. apply elem_of_app in Hin as [Hin|[Hin|Hin]%elem_of_cons]; [set_solver|done|set_solver].
  - intros v Hvo Hv. rewrite Hsame in Hv. unfold net', after, set_router. cbn [ln_routers].
    destruct (decide (v = n)) as [->|]; [rewrite Hro|]; by apply (gi_routes _ I).
Qed.

(** What every step is. *)
Lemma grief_delivery net (pre post : list signal) n c m :
  grief_inv net -> ln_wire net = pre ++ (n, c, m) :: post ->
  (m = NmLsa dead /\ exists r' w' evs,
     settle 3 (HandleBrokerMsg (RmLsaInbound c dead)) (ln_routers net n) (ln_worlds net n) =
       Returns (Some Listen, r', w') /\ news (ln_worlds net n) w' = evs /\ settled r' /\
     heard_obituary dead (r_lsdb (ln_routers net n)) (r_lsdb r') /\
     forall ev, ev ∈ evs <-> mourns dead c (r_lsdb (ln_routers net n)) ev) \/
  (exists key seq, m = NmLsaAck key seq /\ exists r',
     settle 3 (HandleBrokerMsg (RmLsaAckInbound c key seq)) (ln_routers net n) (ln_worlds net n) =
       Returns (Some Listen, r', ln_worlds net n) /\ node_ok links g n r' /\
     d_db (r_lsdb r') = d_db (r_lsdb (ln_routers net n)) /\
     d_routes (r_lsdb r') = d_routes (r_lsdb (ln_routers net n))).
Proof.
  intros I Hwire. pose proof (gi_node _ I n) as Hn.
  destruct (gi_wire _ I n c m) as [[-> _]|(key & seq & ->)]; [rewrite Hwire; apply elem_of_app; right; by left|left|right].
  - split; [done|]. destruct (obituary_settles dead c (ln_routers net n) (ln_worlds net n) dead_ok (gi_old _ I n)) as
      (r' & w' & evs & Hset & Hlog & Hr & Hh & Hevs); [rewrite (no_links _ _ _ _ Hn); apply links_open|apply Hn|].
    exists r', w', evs. split_and!; try done. by apply news_app.
  - exists key, seq. split; [done|].
    destruct (ack_inbound_settles key seq c (ln_routers net n) (ln_worlds net n) (no_settled _ _ _ _ Hn)) as
      (r' & Hset & Hr & _ & Hself & Hl & Hdb & Hro).
    exists r'. split_and!; try done. eapply node_ok_after; try done.
    destruct (no_view _ _ _ _ Hn) as [Hrk Hg]. split; unfold held_adjacencies, held in *; by rewrite Hdb.
Qed.

Lemma grief_step net net' :
  grief_inv net -> ls_step dest net net' -> exists (pre post : list signal) n c m,
  ln_wire net = pre ++ (n, c, m) :: post /\
  ((exists r' w' evs, m = NmLsa dead /\ settled r' /\
      heard_obituary dead (r_lsdb (ln_routers net n)) (r_lsdb r') /\
      (forall ev, ev ∈ evs <-> mourns dead c (r_lsdb (ln_routers net n)) ev) /\
      net' = after net n r' w' (pre ++ post ++ omap (signal_of dest) evs)) \/
   (exists key seq r' w', m = NmLsaAck key seq /\ node_ok links g n r' /\
      d_db (r_lsdb r') = d_db (r_lsdb (ln_routers net n)) /\
      d_routes (r_lsdb r') = d_routes (r_lsdb (ln_routers net n)) /\ net' = after net n r' w' (pre ++ post))).
Proof.
  intros I Hstep. destruct Hstep as [n c m p rm R W pre post r' w' Hp Hrm Hset].
  exists pre, post, n, c, m. split; [done|].
  destruct (grief_delivery _ pre post n c m I eq_refl) as
    [(-> & r1 & w1 & evs & Hset1 & Hnews & Hr & Hh & Hevs)|(key & seq & -> & r1 & Hset1 & Hr & Hdb & Hro)];
    simpl in Hrm; injection Hrm as <-; rewrite Hp in Hset; cbn [ln_routers ln_worlds] in *; rewrite Hset1 in Hset;
    injection Hset as <- <-; [left|right].
  - exists r1, w1, evs. split_and!; try done. unfold after. cbn [ln_routers ln_worlds]. by rewrite Hnews.
  - exists key, seq, r1, (W n). split_and!; try done. unfold after, news. cbn [ln_routers ln_worlds].
    by rewrite drop_all, app_nil_r.
Qed.

Lemma grief_step_keeps net net' : grief_inv net -> ls_step dest net net' -> grief_inv net'.
Proof.
  intros I Hstep. destruct (grief_step _ _ I Hstep) as (pre & post & n & c & m & Hwire &
    [(r' & w' & evs & -> & Hr & Hh & Hevs & ->)|(key & seq & r' & w' & -> & Hr & Hdb & Hro & ->)]).
  - by eapply deliver_obituary_inv.
  - by eapply deliver_ack_grief.
Qed.

Lemma grief_runs net net' : grief_inv net -> rtc (ls_step dest) net net' -> grief_inv net'.
Proof. apply runs_keep. exact grief_step_keeps. Qed.

Lemma grief_possible net : grief_inv net -> ln_wire net <> [] -> exists net', ls_step dest net net'.
Proof.
  intros I Hne. destruct net as [R W wire]. destruct wire as [|[[n c] m] post]; [done|]. clear Hne.
  set (p := mkPeer n n Global c 0%N stats_default ∅ true).
  destruct (grief_delivery _ [] post n c m I eq_refl) as
    [(-> & r1 & w1 & evs & Hset & _)|(key & seq & -> & r1 & Hset & _)]; cbn [ln_routers ln_worlds] in Hset;
    eexists; (eapply (ls_deliver dest n c _ p _ R W [] post); [done | reflexivity | exact Hset]).
Qed.

(** ** At rest *)
Lemma grief_rest net : forall d v,
  grief_inv net -> ln_wire net = [] -> shortest g v o d -> (d < cost_max)%N -> holds net v k = None.
Proof.
  intros d. induction d as [d IH] using (well_founded_induction N.lt_wf_0). intros v I Hwire Hs Hd.
  destruct (decide (o = v)) as [<-|Hne]; [apply (gi_own _ I)|].
  destruct (hop_exists links g v _ _ d (gi_node _ I v) Hs Hd Hne) as (link & c & w & rest & Hlk & He & Hr & Heq).
  pose proof (costs_positive _ _ _ He) as Hw.
  assert (Hu : holds net (l_peer_id link) k = None) by (apply (IH rest); done || lia).
  destruct (links_meet _ _ _ Hlk) as (c' & back & _ & Hback & Hpeer & _).
  destruct (gi_told _ I _ _ back Hback Hu) as [Hv|(c1 & _ & Hin)].
  - congruence.
  - rewrite Hpeer. eapply nearer_not; [exact Hr | exact Hs | lia].
  - by rewrite Hpeer in Hv.
  - rewrite Hwire in Hin. by apply elem_of_nil in Hin.
Qed.

(** ** It ends *)
Context (nodes : list NodeId).
Hypothesis nodes_known : forall v c link, links v !! c = Some link -> l_peer_id link ∈ nodes.

Definition believes (net : LsNet) (v : NodeId) : nat := match holds net v k with Some _ => 1 | None => 0 end.
Definition believers (net : LsNet) : nat := sum_list_with (believes net) nodes.

Lemma grief_progress net net' :
  grief_inv net -> ls_step dest net net' ->
  believers net' < believers net \/
  believers net' = believers net /\ (lsas_coming net' < lsas_coming net \/
    lsas_coming net' = lsas_coming net /\ length (ln_wire net') < length (ln_wire net)).
Proof.
  intros I Hstep. destruct (grief_step _ _ I Hstep) as (pre & post & n & c & m & Hwire &
    [(r' & w' & evs & -> & Hr & Hh & Hevs & ->)|(key & seq & r' & w' & -> & Hr & Hdb & _ & ->)]); set (net' := after _ _ _ _ _).
  - assert (Hb : forall v, believes net' v =
      if decide (v = n /\ forgets dead (r_lsdb (ln_routers net n)) = true) then 0 else believes net v).
    { intros v. unfold believes, net'. rewrite after_holds. destruct (decide (v = n)) as [->|Hv].
      - rewrite (obituary_holds _ _ k Hh), bool_decide_eq_true_2, andb_true_r by done.
        destruct (forgets _ _); [by rewrite decide_True|]. by rewrite decide_False by by intros [_ ?].
      - by rewrite decide_False by by intros [? _]. }
    destruct (forgets dead (r_lsdb (ln_routers net n))) eqn:Hf.
    + left. apply (sum_with_lt _ _ _ n).
      * intros v. rewrite Hb. destruct (decide _) as [_|_]; [apply Nat.le_0_l | done].
      * destruct (gi_wire _ I n c (NmLsa dead)) as [[_ [back Hback]]|(? & ? & ?)]; [|..|done].
        { rewrite Hwire. apply elem_of_app. right. by left. }
        destruct (links_meet _ _ _ Hback) as (c' & b & _ & Hb' & Hp & _). rewrite <- Hp. by eapply nodes_known.
      * rewrite Hb, decide_True by done. unfold believes, holds, held.
        apply andb_true_iff in Hf as [_ [x Hx]%bool_decide_eq_true]. fold k in Hx. rewrite Hx. simpl. lia.
    + right. split.
      { apply Nat.le_antisymm; apply sum_with_le; intros v; rewrite Hb, decide_False; (done || by intros [_ ?]). }
      left. assert (Hnone : List.filter is_lsa (omap (signal_of dest) evs) = []).
      { destruct (List.filter is_lsa _) as [|s l] eqn:Hfl; [done|]. exfalso.
        assert (Hs : s ∈ List.filter is_lsa (omap (signal_of dest) evs)) by (rewrite Hfl; by left).
        apply list_elem_of_In, List.filter_In in Hs as [Hs Hi]. apply list_elem_of_In in Hs.
        destruct (mourned _ _ _ _ _ I Hevs Hs) as [(? & ? & ? & ? & ->)|(? & ? & _ & _ & ?)]; [done | congruence]. }
      unfold lsas_coming, net', after. cbn [ln_wire].
      rewrite Hwire, !List.filter_app, Hnone, !length_app. simpl. lia.
  - right. assert (Hsame : forall v, believes net' v = believes net v).
    { intros v. unfold believes, net'. rewrite after_holds. destruct (decide (v = n)) as [->|]; [|done].
      unfold holds, held. by rewrite Hdb. }
    split; [apply Nat.le_antisymm; apply sum_with_le; intros v; by rewrite Hsame|].
    right. unfold lsas_coming, net', after. cbn [ln_wire].
    rewrite Hwire, !List.filter_app, !length_app. simpl. lia.
Qed.

Lemma grief_acc net : grief_inv net -> Acc (fun net' net => ls_step dest net net') net.
Proof.
  apply (runs_end_by_counts _ _ believers lsas_coming (fun net => length (ln_wire net))).
  - exact grief_step_keeps.
  - exact grief_progress.
Qed.
End network.

(** * The withdrawal *)
Section withdrawal.
Context `{Cd : Codec} `{E : !Env} `{!EnvLaws}.
Context (dest : ChanId -> option (NodeId * ConnectionId)).
Context (links : NodeId -> gmap ConnectionId Link) (g : gmap NodeId (list Adjacency)).
Hypothesis links_open : forall v, open_links (links v).
Hypothesis links_meet : forall v c link, links v !! c = Some link -> exists c' back,
  dest (l_tx link) = Some (l_peer_id link, c') /\ links (l_peer_id link) !! c' = Some back /\
  l_peer_id back = v /\ dest (l_tx back) = Some (v, c).
Hypothesis costs_positive : forall u v c, edge g u v c -> (0 < c)%N.
Context (nodes : list NodeId).
Hypothesis nodes_known : forall v c link, links v !! c = Some link -> l_peer_id link ∈ nodes.

(** An endpoint of the node [o] with one listener, whose advertisement [lsa] every link carries. *)
Context (o : NodeId) (e : EndpointId) (tx : ChanId) (cost : Cost) (realm : Realm) (kind : RouteKind).
Context (record : LsaRecord).
Let lsa : Lsa := rec_lsa record.
Hypothesis key_of_endpoint : lsa_key lsa = mkLsaKey o (endpoint_uuid e).
Hypothesis not_router : lsa_key lsa <> router_key o.
Hypothesis body_endpoint : is_router (lsa_body lsa) = false.
Hypothesis kind_ok : not_multicast lsa.
Hypothesis seq_fits : (lsa_seq lsa < seq_next (lsa_seq lsa))%N.
Hypothesis carried_everywhere : forall v c link,
  links v !! c = Some link -> link_view link (obituary_of record) = Some (obituary_of record).

(** The listener is gone; the nodes know the endpoint at most as it was last advertised, those with
    links know it, and those that do not have no route to it. *)
Record about_to_go (R : NodeId -> Router) (W : NodeId -> World) : Prop := {
  ag_nodes : forall v, node_ok links g v (R v);
  ag_route : d_routes (r_lsdb (R o)) !! e = Some (mkLsRouteEntry [mkLsRoute (Local tx) cost realm kind] kind);
  ag_closed : env_is_closed (W o) tx = true;
  ag_record : d_db (r_lsdb (R o)) !! lsa_key lsa = Some record;
  ag_old : forall v a, held (r_lsdb (R v)) (lsa_key lsa) = Some a ->
    is_router (lsa_body a) = false /\ (lsa_seq a <= lsa_seq lsa)%N;
  ag_known : forall v c link, links v !! c = Some link -> is_Some (held (r_lsdb (R v)) (lsa_key lsa));
  ag_routes : forall v, v <> o -> held (r_lsdb (R v)) (lsa_key lsa) = None -> no_route_to (d_routes (r_lsdb (R v))) e o;
}.

(** The router of [o] is told of the dead link; what it sends is under way. *)
Definition withdraws (R : NodeId -> Router) (W : NodeId -> World) (net : LsNet) : Prop :=
  exists r' w', settle 3 (HandleBrokerMsg (RmDeadLink e)) (R o) (W o) = Returns (Some Listen, r', w') /\
    net = mkLsNet (set_router o r' R) (set_world o w' W) (omap (signal_of dest) (news (W o) w')).

Lemma dead_obituary : obituary_ok (obituary_of record).
Proof. split; [done|]. split; [done|]. exact kind_ok. Qed.

(** The network when the endpoint was given up: what every node holds, and what is under way. *)
Definition left_over (R : NodeId -> Router) (v : NodeId) (x : LsaKey) : option Lsa :=
  if decide (v = o /\ x = lsa_key lsa) then None else held (r_lsdb (R v)) x.

Lemma withdrawn R W :
  about_to_go R W -> exists net, withdraws R W net /\ (forall v, node_ok links g v (ln_routers net v)) /\
    (forall v x, holds net v x = left_over R v x) /\
    (forall s, s ∈ ln_wire net <->
       exists ev, offers (obituary_of record) None (r_lsdb (R o)) ev /\ signal_of dest ev = Some s) /\
    d_routes (r_lsdb (ln_routers net o)) !! e = None /\ forall v, v <> o -> ln_routers net v = R v.
Proof.
  intros G. pose proof (ag_nodes _ _ G o) as [Hset Hself Hl Hview].
  destruct (dead_link_settles e (R o) (W o) tx cost realm kind record (ag_route _ _ G) (ag_closed _ _ G)) as
    (r' & w' & evs & Hres & Hr' & Hs' & Hl' & Hdb & Hro & Hlog & Hevs); [|rewrite Hl; apply links_open|done|].
  { unfold endpoint_key. rewrite Hself, <- key_of_endpoint. apply (ag_record _ _ G). }
  eexists. split; [exists r', w'; done|]. rewrite (news_app _ _ _ Hlog). set (net := mkLsNet _ _ _).
  assert (Hheld : forall x, held (r_lsdb r') x = left_over R o x).
  { intros x. unfold held, left_over. rewrite Hdb. unfold endpoint_key. rewrite Hself, <- key_of_endpoint.
    destruct (decide (x = lsa_key lsa)) as [->|Hx].
    - by rewrite lookup_delete_eq, decide_True.
    - rewrite lookup_delete_ne, decide_False by (congruence || by intros [_ ?]). done. }
  assert (Hat : forall v, ln_routers net v = if decide (v = o) then r' else R v) by done.
  split_and!.
  - intros v. rewrite Hat. destruct (decide (v = o)) as [->|]; [|apply G].
    eapply node_ok_after; [exact (ag_nodes _ _ G o)|done|congruence|congruence|].
    apply (view_edit g (r_lsdb (R o)) _ (lsa_key lsa)); [by rewrite key_of_endpoint in * | | |done].
    + intros x Hx. rewrite Hheld. unfold left_over. rewrite decide_False by by intros [_ ?]. done.
    + intros a. rewrite Hheld. unfold left_over. by rewrite decide_True.
  - intros v x. unfold holds. rewrite Hat. destruct (decide (v = o)) as [->|Hv]; [done|].
    unfold left_over. by rewrite decide_False by by intros [? _].
  - intros s. cbn [net ln_wire]. rewrite list_elem_of_omap. by setoid_rewrite Hevs.
  - rewrite Hat. by rewrite decide_True.
  - intros v Hv. rewrite Hat. by rewrite decide_False.
Qed.

Lemma withdrawn_inv R W :
  about_to_go R W -> exists net, withdraws R W net /\ grief_inv dest links g (obituary_of record) net /\
    d_routes (r_lsdb (ln_routers net o)) !! e = None /\ forall v, v <> o -> ln_routers net v = R v.
Proof.
  intros G. destruct (withdrawn R W G) as (net & Hwith & Hnodes & Hheld & Hwire & Hgone & Hothers).
  exists net. split; [done|]. split; [|done].
  assert (Hkey : lsa_key (obituary_of record) = lsa_key lsa) by done.
  assert (Hep : key_endpoint (lsa_key lsa) = e) by (rewrite key_of_endpoint; unfold key_endpoint; simpl; by destruct e).
  assert (Hor : key_origin (lsa_key lsa) = o) by by rewrite key_of_endpoint.
  split; rewrite ?Hkey, ?Hor, ?Hep; [done|..].
  - intros n c m (ev & Hoff & Hs)%Hwire. left.
    destruct (offers_arrive dest links g links_meet o _ _ _ ev _ (ag_nodes _ _ G o) (carried_everywhere o) Hoff Hs)
      as (c2 & link & c' & back & _ & _ & [= -> -> ->] & Hb & _). split; [done | by eexists].
  - intros v a. change (held (r_lsdb (ln_routers net v)) (lsa_key (obituary_of record))) with (holds net v (lsa_key lsa)).
    rewrite Hheld. unfold left_over. case_decide; [done|]. intros Ha. destruct (ag_old _ _ G _ _ Ha) as [? Hle].
    split; [done|]. simpl. fold lsa. lia.
  - rewrite Hheld. unfold left_over. by rewrite decide_True.
  - intros v c link Hlk Hv Hpeer Hnear. rewrite Hheld in Hv. unfold left_over in Hv. case_decide as Hvo.
    + destruct Hvo as [-> _]. right.
      destruct (offered dest links g links_meet costs_positive o _ (obituary_of record) None c link (ag_nodes _ _ G o) Hlk)
        as (c' & ev & Hd & Hoff & Hs); [by eapply carried_everywhere|done|by rewrite Hkey, Hor..|].
      exists c'. split; [done|]. apply Hwire. by exists ev.
    + destruct (ag_known _ _ G v c link Hlk) as [a Ha]. congruence.
  - intros v Hvo Hv. rewrite Hothers by done. apply (ag_routes _ _ G); [done|].
    rewrite Hheld in Hv. unfold left_over in Hv. by rewrite decide_False in Hv by by intros [? _].
Qed.

(** C8: a withdrawal reaches everyone: when the only listener of an endpoint is gone, the router
    gives the endpoint up, flooding the obituary never panics and ends whatever the order in which
    messages arrive, and once nothing is under way any more no node within reach holds the
    advertisement or has a route through the node that gave it up. *)
Theorem withdrawal_reaches_everyone R W :
  about_to_go R W ->
  exists net, withdraws R W net /\ Acc (fun net' net => ls_step dest net net') net /\
  forall net', rtc (ls_step dest) net net' ->
    (ln_wire net' <> [] -> exists net'', ls_step dest net' net'') /\
    (ln_wire net' = [] -> forall v d, shortest g v o d -> (d < cost_max)%N ->
       holds net' v (lsa_key lsa) = None /\ (v <> o -> no_route_to (d_routes (r_lsdb (ln_routers net' v))) e o)).
Proof.
  intros G. destruct (withdrawn_inv R W G) as (net & Hw & I & _). exists net. split; [done|].
  assert (Hor : key_origin (lsa_key (obituary_of record)) = o).
  { change (lsa_key (obituary_of record)) with (lsa_key lsa). by rewrite key_of_endpoint. }
  assert (Hep : key_endpoint (lsa_key (obituary_of record)) = e).
  { change (lsa_key (obituary_of record)) with (lsa_key lsa). rewrite key_of_endpoint. unfold key_endpoint. simpl. by destruct e. }
  assert (Hnr : lsa_key (obituary_of record) <> router_key (key_origin (lsa_key (obituary_of record)))).
  { rewrite Hor. exact not_router. }
  split.
  { eapply (grief_acc dest links g links_open links_meet costs_positive (obituary_of record)
      dead_obituary Hnr carried_everywhere nodes nodes_known); [done..|exact I]. }
  intros net' Hrun.
  pose proof (grief_runs dest links g links_open links_meet costs_positive (obituary_of record) dead_obituary Hnr
    carried_everywhere net net' I Hrun) as I'.
  split; [by apply (grief_possible dest links g links_open (obituary_of record) dead_obituary)|].
  intros Hwire v d Hs Hd.
  assert (Hv : holds net' v (lsa_key lsa) = None).
  { apply (grief_rest dest links g links_meet costs_positive (obituary_of record) net' d v I' Hwire); [|done].
    by rewrite Hor. }
  split; [done|]. intros Hvo. rewrite <- Hep, <- Hor. by apply (gi_routes _ _ _ _ _ I'); [rewrite Hor|].
Qed.
End withdrawal.
