(* ===== verification/Restart.v ===== *)
(** An endpoint that goes and comes back: its node starts the new advertisement at sequence number
    zero, below that of the obituary of the old one ([LsDb::add_endpoint] and
    [LsDb::remove_endpoint]), and what the other nodes make of the two depends on the order in
    which copies of them arrive. *)
From Stdlib Require Import Strings.String.
From S2P Require Import Prelude Types Messages World RouteTable Linkstate Spf SpfProofs LsDb.
From S2P Require Import LsDbProofs LsDbTheorems Convergence Fib FibProofs Router RouterProofs Peer.
From S2P Require Import Handle Receivers Network Delivery Registration Flooding Reach Withdraw.

Section restart.
Context `{Cd : Codec} `{E : !Env} `{!EnvLaws}.

(** The endpoint [rr_endpoint_id rq] of node [o]: the record of its advertisement, which is not
    about to wrap around, and the request of the listener that takes its place. *)
Context (o : NodeId) (record : LsaRecord) (rq : RegistrationRequest).
Local Abbreviation e := (rr_endpoint_id rq).
Local Abbreviation old := (rec_lsa record).
Local Abbreviation dead := (obituary_of record).
Local Abbreviation fresh := (new_lsa o rq).
Hypothesis key_of_endpoint : lsa_key old = mkLsaKey o (endpoint_uuid e).
Hypothesis body_endpoint : is_router (lsa_body old) = false.
Hypothesis kind_ok : not_multicast old.
Hypothesis seq_fits : (lsa_seq old < seq_next (lsa_seq old))%N.
Hypothesis kind_unicast : ei_kind (rr_endpoint_info rq) = Unicast.

(** * At the other nodes *)

(** Advertisements arrive one after the other and the router serves each. *)
Fixpoint hears_in_turn (l : list (ConnectionId * Lsa)) (r : Router) (w : World) : option (Router * World) :=
  match l with
  | [] => Some (r, w)
  | (c, lsa) :: l =>
      match settle 3 (HandleBrokerMsg (RmLsaInbound c lsa)) r w with
      | Returns (Some Listen, r', w') => hears_in_turn l r' w'
      | _ => None
      end
  end.

(** A node that holds [h] of the endpoint, and no route to it when it holds nothing. *)
Record holding (v : NodeId) (h : option Lsa) (r : Router) : Prop := {
  bl_settled : settled r;
  bl_open : open_links (d_links (r_lsdb r));
  bl_self : d_self_id (r_lsdb r) = v;
  bl_held : held (r_lsdb r) (lsa_key old) = h;
  bl_routes : h = None -> no_route_to (d_routes (r_lsdb r)) e o;
}.

Lemma dead_ok : obituary_ok dead.
Proof. split; [exact body_endpoint|]. split; [done|]. exact kind_ok. Qed.

Lemma key_back : key_endpoint (lsa_key old) = e /\ key_origin (lsa_key old) = o /\ lsa_key fresh = lsa_key old.
Proof. rewrite key_of_endpoint. unfold key_endpoint. simpl. by destruct (rr_endpoint_id rq). Qed.

(** The obituary puts an end to either. *)
Lemma hears_dead v h c r w :
  v <> o -> h ∈ [Some old; Some fresh; None] -> holding v h r ->
  exists r' w' evs, settle 3 (HandleBrokerMsg (RmLsaInbound c dead)) r w = Returns (Some Listen, r', w') /\
    holding v None r' /\ w_log w' = w_log w ++ evs /\
    (forall ev, ev ∈ evs <-> mourns dead c (r_lsdb r) ev) /\
    (h <> None -> forgets dead (r_lsdb r) = true).
Proof.
  intros Hv Hh [Hset Hopen Hself Hheld Hroutes]. destruct key_back as (Hke & Hko & Hkf).
  assert (Hout : outdated dead (r_lsdb r)).
  { intros a Ha. change (lsa_key dead) with (lsa_key old) in Ha. assert (h = Some a) as -> by congruence.
    rewrite !elem_of_cons, elem_of_nil in Hh. destruct Hh as [[= ->]|[[= ->]|[[=]|[]]]]; simpl; split; try done; lia. }
  destruct (obituary_settles dead c r w dead_ok Hout Hopen Hset) as (r' & w' & evs & Hs & Hlog & Hset' & [H1 H2 H3 H4] & Hsays).
  change (lsa_key dead) with (lsa_key old) in *. rewrite decide_False in H4 by congruence.
  exists r', w', evs. split_and!; try done.
  - split; [done|by rewrite H2|congruence| |].
    + unfold held. rewrite H3. destruct (forgets dead (r_lsdb r)) eqn:Hf; [by rewrite lookup_delete_eq|].
      unfold forgets in Hf. rewrite bool_decide_eq_true_2 in Hf by (change (lsa_key dead) with (lsa_key old); congruence).
      apply bool_decide_eq_false, eq_None_not_Some in Hf. change (lsa_key dead) with (lsa_key old) in Hf. by rewrite Hf.
    + intros _. rewrite H4, <- Hke, <- Hko at 1. apply forget_remote_gone.
  - intros Hn. unfold forgets. change (lsa_key dead) with (lsa_key old). apply andb_true_iff. split; apply bool_decide_eq_true; [congruence|].
    unfold held in Hheld. destruct (d_db (r_lsdb r) !! lsa_key old); [done|]. by subst h.
Qed.
(** The new advertisement loses to whatever the node holds. *)
Lemma hears_fresh v h c r w :
  v <> o -> holding v h r ->
  exists r' w', settle 3 (HandleBrokerMsg (RmLsaInbound c fresh)) r w = Returns (Some Listen, r', w') /\
    holding v (Some (default fresh h)) r'.
Proof.
  intros Hv [Hset Hopen Hself Hheld Hroutes]. destruct key_back as (Hke & Hko & Hkf).
  assert (Hnm : not_multicast fresh) by (unfold not_multicast; simpl; by rewrite kind_unicast).
  destruct (lsa_inbound_settles fresh c r w eq_refl Hnm Hopen Hset) as (r' & w' & evs & Hs & _ & Hset' & [H1 H2 [now H3] _] & _).
  assert (Hacc : accepts_lsa fresh (r_lsdb r) = negb (bool_decide (is_Some h))).
  { unfold accepts_lsa, stores. rewrite Hkf, Hko, Hself, bool_decide_eq_true_2 by done. unfold held in Hheld.
    destruct (d_db (r_lsdb r) !! lsa_key old) as [a|]; subst h; [|done]. simpl. by destruct (lsa_seq (rec_lsa a)). }
  exists r', w'. split; [done|]. split; [done|by rewrite H2|congruence| |done].
  unfold held. rewrite H3, Hacc, Hkf. destruct h as [a|]; simpl; [exact Hheld | by rewrite lookup_insert_eq].
Qed.

(** What a node holds after the messages of [l]. *)
Definition last_word (h : option Lsa) (l : list (ConnectionId * Lsa)) : option Lsa :=
  foldl (fun h m => if lsa_dead m.2 then None else Some (default fresh h)) h l.

Definition about_endpoint (m : ConnectionId * Lsa) : Prop := m.2 = dead \/ m.2 = fresh.

Lemma hears_all v l : Forall about_endpoint l -> v <> o ->
  forall h r w, h ∈ [Some old; Some fresh; None] -> holding v h r ->
  exists r' w', hears_in_turn l r w = Some (r', w') /\ holding v (last_word h l) r'.
Proof.
  intros Hl Hv. induction Hl as [|[c m] l [Hm|Hm] _ IH]; intros h r w Hh Hb; [by exists r, w|..].
  all: simpl in Hm; subst m; cbn [hears_in_turn].
  - destruct (hears_dead v h c r w Hv Hh Hb) as (r1 & w1 & _ & -> & Hb1 & _). apply (IH None); [|done]. set_solver.
  - destruct (hears_fresh v h c r w Hv Hb) as (r1 & w1 & -> & Hb1). apply (IH (Some (default fresh h))); [|done].
    rewrite !elem_of_cons in *. destruct Hh as [->|[->|[->|?]]]; [by auto..|set_solver].
Qed.

(** The three ends of such a sequence. *)
Lemma no_obituary l h : Forall about_endpoint l -> dead ∉ l.*2 -> last_word (Some h) l = Some h.
Proof.
  intros Hl Hd. induction Hl as [|[c m] l [Hm|Hm] _ IH]; [done|set_solver|].
  simpl in Hm. subst m. apply IH. set_solver.
Qed.

Lemma last_word_snoc h l m :
  last_word h (l ++ [m]) = if lsa_dead m.2 then None else Some (default fresh (last_word h l)).
Proof. unfold last_word. by rewrite foldl_snoc. Qed.

Lemma word_after l h : Forall about_endpoint l -> h ∈ [Some fresh; None] -> last_word h l ∈ [Some fresh; None].
Proof.
  intros Hl. revert h. induction Hl as [|[c m] l [Hm|Hm] _ IH]; intros h Hh; [done|..]; simpl in Hm; subst m; apply IH; simpl.
  - set_solver.
  - rewrite !elem_of_cons in *. destruct Hh as [->|[->|?]]; [by auto..|set_solver].
Qed.

Lemma obituary_heard l h : Forall about_endpoint l -> dead ∈ l.*2 -> last_word h l ∈ [Some fresh; None].
Proof.
  intros Hl ([c m] & Hd & Hin)%list_elem_of_fmap. simpl in Hd. subst m.
  apply list_elem_of_split in Hin as (l1 & l2 & ->). apply Forall_app in Hl as [_ [_ Hl]%Forall_cons].
  unfold last_word. rewrite foldl_app. apply (word_after l2 None); [done | set_solver].
Qed.

Lemma ends_with (l : list (ConnectionId * Lsa)) m : last l.*2 = Some m -> exists l' c, l = l' ++ [(c, m)].
Proof.
  rewrite fmap_last. destruct (last l) as [[c m']|] eqn:Hl; [|done]. intros [= ->].
  apply last_Some in Hl as [l' ->]. by exists l', c.
Qed.

(** * At its own node *)

(** Giving the endpoint up and registering it again, each served to the end. *)
Lemma restarts r w tx cost realm kind :
  let d := r_lsdb r in
  settled r -> d_self_id d = o -> open_links (d_links d) ->
  d_routes d !! e = Some (mkLsRouteEntry [mkLsRoute (Local tx) cost realm kind] kind) -> env_is_closed w tx = true ->
  d_db d !! lsa_key old = Some record ->
  exists r1 w1 r2 w2 gone back told,
    settle 3 (HandleBrokerMsg (RmDeadLink e)) r w = Returns (Some Listen, r1, w1) /\
    settle 3 (HandleBrokerMsg (RmRegisterEndpoint rq)) r1 w1 = Returns (Some Listen, r2, w2) /\
    w_log w2 = w_log w ++ gone ++ back ++ [told] /\
    (forall ev, ev ∈ gone <-> offers dead None d ev) /\
    (forall ev, ev ∈ back <-> offers fresh (Some 0%N) (r_lsdb r1) ev) /\
    held (r_lsdb r2) (lsa_key old) = Some fresh /\
    d_routes (r_lsdb r2) !! e = Some (mkLsRouteEntry [local_route rq] Unicast).
Proof.
  intros d Hset Hself Hopen Hr Hclosed Hrec. destruct key_back as (_ & _ & Hkf).
  assert (Hk : endpoint_key d e = lsa_key old) by (unfold endpoint_key; by rewrite Hself, key_of_endpoint).
  destruct (dead_link_settles e r w tx cost realm kind record Hr Hclosed ltac:(by fold d; rewrite Hk) Hopen Hset)
    as (r1 & w1 & gone & H1 & Hset1 & Hs1 & Hl1 & _ & Hr1 & Hlog1 & Hgone).
  destruct (register_settles rq r1 w1 kind_unicast Hr1 ltac:(by rewrite Hl1) Hset1)
    as (r2 & w2 & back & told & H2 & _ & _ & _ & [now Hdb2] & Hr2 & Hlog2 & _ & Hback).
  fold d in Hs1. rewrite Hs1, Hself in Hback, Hdb2. exists r1, w1, r2, w2, gone, back, told. split_and!; try done.
  - by rewrite Hlog2, Hlog1, <- app_assoc.
  - unfold held. rewrite Hdb2, Hkf. by rewrite lookup_insert_eq.
  - by rewrite Hr2, lookup_insert_eq.
Qed.

(** C36: an endpoint that is given up and registered again may stay lost to other nodes. At its
    node [o] the end of the old listener is told with the old sequence number plus one, the new
    listener with sequence number zero, and it is served there. Another node that holds the old
    advertisement may hear copies of the two in any order and any number, over any links: until
    the obituary comes it keeps the old advertisement, whatever it hears of the new one; it ends
    up with the new one only when a copy of that comes last; and when a copy of the obituary
    comes last, having come round another way, it is left with no record of the endpoint and no
    route to [o] for it, although the new listener was announced after the obituary. A node that
    thus loses the new advertisement passes the obituary on to its neighbours. *)
Theorem restarted_sequence_loses :
  (forall r w tx cost realm kind, let d := r_lsdb r in
    settled r -> d_self_id d = o -> open_links (d_links d) ->
    d_routes d !! e = Some (mkLsRouteEntry [mkLsRoute (Local tx) cost realm kind] kind) -> env_is_closed w tx = true ->
    d_db d !! lsa_key old = Some record ->
    exists r1 w1 r2 w2 gone back told,
      settle 3 (HandleBrokerMsg (RmDeadLink e)) r w = Returns (Some Listen, r1, w1) /\
      settle 3 (HandleBrokerMsg (RmRegisterEndpoint rq)) r1 w1 = Returns (Some Listen, r2, w2) /\
      w_log w2 = w_log w ++ gone ++ back ++ [told] /\
      (forall ev, ev ∈ gone <-> offers dead None d ev) /\
      (forall ev, ev ∈ back <-> offers fresh (Some 0%N) (r_lsdb r1) ev) /\
      held (r_lsdb r2) (lsa_key old) = Some fresh /\
      d_routes (r_lsdb r2) !! e = Some (mkLsRouteEntry [local_route rq] Unicast)) /\
  (forall v r w l, v <> o -> holding v (Some old) r -> Forall about_endpoint l ->
    exists r' w', hears_in_turn l r w = Some (r', w') /\
      (dead ∉ l.*2 -> holding v (Some old) r') /\
      (last l.*2 = Some dead -> holding v None r') /\
      (dead ∈ l.*2 -> last l.*2 = Some fresh -> holding v (Some fresh) r')) /\
  (forall v r w c, v <> o -> holding v (Some fresh) r ->
    exists r' w' evs, settle 3 (HandleBrokerMsg (RmLsaInbound c dead)) r w = Returns (Some Listen, r', w') /\
      holding v None r' /\ w_log w' = w_log w ++ evs /\
      (forall ev, ev ∈ evs <-> acks dead c (r_lsdb r) ev \/ offers dead None (r_lsdb r) ev)).
Proof.
  split; [exact restarts|]. split.
  - intros v r w l Hv Hb Hl. destruct (hears_all v l Hl Hv (Some old) r w ltac:(set_solver) Hb) as (r' & w' & Hr & Hb').
    exists r', w'. split; [done|]. split; [|split].
    + intros Hd. by rewrite no_obituary in Hb'.
    + intros (l' & c & ->)%ends_with. by rewrite last_word_snoc in Hb'.
    + intros Hd (l' & c & ->)%ends_with. rewrite last_word_snoc in Hb'. cbn [snd lsa_dead new_lsa] in Hb'.
      assert (Hd' : dead ∈ l'.*2) by (rewrite fmap_app in Hd; set_solver).
      apply Forall_app in Hl as [Hl _]. pose proof (obituary_heard l' (Some old) Hl Hd') as Hw.
      rewrite !elem_of_cons, elem_of_nil in Hw. destruct Hw as [Hw|[Hw|[]]]; by rewrite Hw in Hb'.
  - intros v r w c Hv Hb. destruct (hears_dead v (Some fresh) c r w Hv ltac:(set_solver) Hb)
      as (r' & w' & evs & Hs & Hb' & Hlog & Hsays & Hf). exists r', w', evs. split_and!; try done.
    intros ev. rewrite Hsays. unfold mourns. rewrite Hf by done. naive_solver.
Qed.
End restart.
