(* ===== verification/Lifespan.v ===== *)
(** The life of a listener, from its registration to the obituary of its endpoint, in a network of
    routers: the theorems of [Reach.v] and [Withdraw.v] put together, from what the nodes publish
    when the first has come to rest to what they answer when the second has. *)
From Stdlib Require Import Strings.String.
From S2P Require Import Prelude Types Messages World RouteTable Linkstate Spf SpfProofs LsDb.
From S2P Require Import LsDbProofs LsDbTheorems Convergence Fib FibProofs Router RouterProofs Peer.
From S2P Require Import Handle Receivers Network Delivery Registration Flooding Reach Withdraw.

(** * One node *)
Section node.
Context `{Cd : Codec} `{E : !Env} `{!EnvLaws}.

(** A table whose only route for an endpoint goes to a node forgets the endpoint with that route. *)
Lemma forget_only_route k t route kind :
  r_via route = Remote (key_origin k) -> t !! key_endpoint k = Some (mkLsRouteEntry [route] kind) ->
  forget_remote k t !! key_endpoint k = None.
Proof.
  intros Hvia Ht. unfold forget_remote, remove_remote_endpoint. rewrite Ht. cbn [re_routes].
  assert (Hr : retain (fun r => negb (is_origin (key_origin k) r)) [route] = []).
  { rewrite retain_cons. unfold is_origin. by rewrite Hvia, bool_decide_true. }
  rewrite Hr. cbn [snd]. apply lookup_delete_eq.
Qed.

Lemma forget_no_route k t : t !! key_endpoint k = None -> forget_remote k t = t.
Proof. intros Ht. unfold forget_remote, remove_remote_endpoint. by rewrite Ht. Qed.

(** What a node in force answers for an endpoint it has no route for. *)
Lemma no_route_answer g v d fib e packet w :
  in_force g v d fib -> d_routes d !! e = None -> get_endpoint (p_to packet) v = e ->
  fib_send fib packet w = Returns (inl (ErrNoRoute (Some (p_payload packet))), w).
Proof.
  intros Hf He Hto. destruct (table_fields g v d fib Hf) as (w0 & t & st & _ & _ & Hid & _ & _ & Ht).
  unfold fib_send. rewrite Hid, Hto, Ht, He. done.
Qed.
End node.

(** * The network *)
Section network.
Context `{Cd : Codec} `{E : !Env} `{!EnvLaws}.
Context (dest : ChanId -> option (NodeId * ConnectionId)).
Context (links : NodeId -> gmap ConnectionId Link) (g : gmap NodeId (list Adjacency)).
Hypothesis links_open : forall v, open_links (links v).
Hypothesis links_meet : forall v c link, links v !! c = Some link -> exists c' back,
  dest (l_tx link) = Some (l_peer_id link, c') /\ links (l_peer_id link) !! c' = Some back /\
  l_peer_id back = v /\ dest (l_tx back) = Some (v, c).
Hypothesis costs_positive : forall u v c, edge g u v c -> (0 < c)%N.
Context (nodes : list NodeId).
Hypothesis nodes_known : forall v c link, links v !! c = Some link -> l_peer_id link ∈ nodes.

Context (o : NodeId) (rq : RegistrationRequest).
Let e : EndpointId := rr_endpoint_id rq.
Let lsa : Lsa := new_lsa o rq.
Let tx : ChanId := rr_sender rq.
Hypothesis kind_unicast : ei_kind (rr_endpoint_info rq) = Unicast.
Hypothesis not_router : lsa_key lsa <> router_key o.
Hypothesis carried_everywhere : forall v c link, links v !! c = Some link -> link_view link lsa = Some lsa.
Hypothesis no_link_zero : links o !! 0%N = None.
(** Every node with a link is within reach. *)
Hypothesis connected : forall v c link, links v !! c = Some link -> exists d, shortest g v o d /\ (d < cost_max)%N.

Let inv : LsNet -> Prop := flood_inv dest links g (fun a => a = lsa) (fun k => k = lsa_key lsa).

(** Everyone within reach knows the way to the listener. *)
Definition known_everywhere (net : LsNet) : Prop := forall v d, shortest g v o d -> (d < cost_max)%N ->
  holds net v (lsa_key lsa) = Some lsa /\
  f_table (r_fib (ln_routers net v)) !! e =
    if decide (v = o) then Some (Single (FwdLocal tx))
    else (fun hop => Single (FwdRemote hop)) <$> f_next_hop (r_fib (ln_routers net v)) !! o.

(** Nobody within reach does: a send fails at once and gives the payload back. *)
Definition unknown_everywhere (net : LsNet) : Prop := forall v d, shortest g v o d -> (d < cost_max)%N ->
  holds net v (lsa_key lsa) = None /\ d_routes (r_lsdb (ln_routers net v)) !! e = None /\
  forall packet w, get_endpoint (p_to packet) v = e ->
    fib_send (r_fib (ln_routers net v)) packet w = Returns (inl (ErrNoRoute (Some (p_payload packet))), w).

Lemma rest_known net :
  inv net -> routes_follow o rq net -> holds net o (lsa_key lsa) = Some lsa -> ln_wire net = [] -> known_everywhere net.
Proof.
  intros I HR Hown Hwire v d Hs Hd. pose proof (fi_node _ _ _ _ _ _ I v) as Hv.
  assert (Hh : holds net v (lsa_key lsa) = Some lsa).
  { apply (rest_agrees dest links g links_meet costs_positive _ _ (new_unique o rq) net (lsa_key lsa) lsa d v I);
      try done; [|apply Hs]. intros n c a. rewrite Hwire. apply not_elem_of_nil. }
  split; [done|]. pose proof (HR v) as Hr. change (new_lsa o rq) with lsa in Hr. rewrite Hh in Hr.
  assert (Hone : exists route, d_routes (r_lsdb (ln_routers net v)) !! e = Some (mkLsRouteEntry [route] Unicast) /\
    r_via route = if decide (v = o) then Local tx else Remote o) by (case_decide; eexists; split; done).
  destruct Hone as (route & Hroute & Hvia).
  rewrite (single_route g v _ _ (node_in_force links g v _ Hv) _ _ _ (or_introl eq_refl) Hroute), Hvia.
  destruct (decide (v = o)); [done|]. by destruct (f_next_hop _ !! o).
Qed.

(** ** The obituary *)
Section obituary.
Context (record : LsaRecord).
Hypothesis record_is : rec_lsa record = lsa.
Let dead : Lsa := obituary_of record.
Let grief : LsNet -> Prop := grief_inv dest links g dead.

Lemma dead_key : lsa_key dead = lsa_key lsa.
Proof. unfold dead, obituary_of. simpl. by rewrite record_is. Qed.

Lemma dead_is_ok : obituary_ok dead.
Proof.
  unfold obituary_ok, not_multicast, dead, obituary_of. simpl. rewrite record_is. simpl. by rewrite kind_unicast.
Qed.

Lemma dead_not_router : lsa_key dead <> router_key (key_origin (lsa_key dead)).
Proof. rewrite dead_key. exact not_router. Qed.

Lemma dead_carried v c link : links v !! c = Some link -> link_view link dead = Some dead.
Proof.
  intros Hl. pose proof (carried_everywhere v c link Hl) as Hv. revert Hv.
  unfold link_view, dead, obituary_of. simpl. rewrite record_is. simpl.
  destruct (realms_contains _ _); done.
Qed.

(** A node has the route it was told of, or none any more. *)
Definition routes_go (net : LsNet) : Prop := forall v,
  d_routes (r_lsdb (ln_routers net v)) !! e = None \/
  v <> o /\ holds net v (lsa_key lsa) <> None /\
  d_routes (r_lsdb (ln_routers net v)) !! e = Some (mkLsRouteEntry [remote_route o rq] Unicast).

Lemma grief_step_routes net net' : grief net -> routes_go net -> ls_step dest net net' -> routes_go net'.
Proof.
  intros I HR Hstep.
  destruct (grief_step dest links g links_open dead dead_is_ok _ _ I Hstep) as (pre & post & n & c & m & _ &
    [(r' & w' & evs & -> & _ & Hh & _ & ->)|(key & seq & r' & w' & -> & _ & Hdb & Hro & ->)]);
    intros v; rewrite after_holds; unfold after, set_router; cbn [ln_routers]; specialize (HR v);
    (destruct (decide (v = n)) as [->|]; [|done]).
  - left. rewrite (ho_routes _ _ _ Hh), dead_key.
    assert (Hself : d_self_id (r_lsdb (ln_routers net n)) = n) by apply (gi_node _ _ _ _ _ I n). rewrite Hself.
    change (key_origin (lsa_key lsa)) with o. case_decide as Hn; [by destruct HR as [|[? _]]; [|congruence]|].
    change e with (rr_endpoint_id rq) in *. rewrite <- (lsa_endpoint o rq) in *. destruct HR as [HR|(_ & _ & HR)]; [by rewrite forget_no_route|].
    apply (forget_only_route _ _ (remote_route o rq) Unicast); [done | exact HR].
  - rewrite Hro. unfold holds, held in *. by rewrite Hdb.
Qed.
Lemma grief_runs_routes net net' :
  grief net -> routes_go net -> rtc (ls_step dest) net net' -> grief net' /\ routes_go net'.
Proof.
  intros I HR Hrun. induction Hrun as [|net net1 net' Hs _ IH]; [done|]. apply IH.
  - exact (grief_step_keeps dest links g links_open links_meet costs_positive dead dead_is_ok dead_not_router dead_carried
      net net1 I Hs).
  - by eapply grief_step_routes.
Qed.

Lemma rest_unknown net : grief net -> routes_go net -> ln_wire net = [] -> unknown_everywhere net.
Proof.
  intros I HR Hwire v d Hs Hd.
  assert (Hh : holds net v (lsa_key lsa) = None).
  { rewrite <- dead_key. apply (grief_rest dest links g links_meet costs_positive dead net d v I Hwire); [|done].
    by rewrite dead_key. }
  assert (Hr : d_routes (r_lsdb (ln_routers net v)) !! e = None) by (destruct (HR v) as [?|(_ & ? & _)]; done).
  split; [done|]. split; [done|]. intros packet w. eapply no_route_answer; [|done].
  apply (node_in_force links g). apply (gi_node _ _ _ _ _ I).
Qed.

Lemma rest_about_to_go net W :
  inv net -> routes_follow o rq net -> known_everywhere net ->
  d_db (r_lsdb (ln_routers net o)) !! lsa_key lsa = Some record -> env_is_closed (W o) tx = true ->
  about_to_go links g o e tx (ei_cost (rr_endpoint_info rq)) (ei_realm (rr_endpoint_info rq)) Unicast record
    (ln_routers net) W.
Proof.
  intros I HR Hknown Hrec Hclosed. split; rewrite ?record_is.
  - apply (fi_node _ _ _ _ _ _ I).
  - pose proof (HR o) as Ho. by rewrite decide_True in Ho.
  - done.
  - done.
  - intros v a Ha. destruct (fi_held _ _ _ _ _ _ I v (lsa_key lsa) a eq_refl Ha) as [-> _]. split; [done|]. lia.
  - intros v c link Hl. destruct (connected v c link Hl) as (d & Hs & Hd). destruct (Hknown v d Hs Hd) as [Hh _].
    unfold holds in Hh. rewrite Hh. by eexists.
  - intros v Hv Hnone en r Hr. pose proof (HR v) as Ho. rewrite decide_False in Ho by done.
    unfold holds in Ho. change (new_lsa o rq) with lsa in Ho. rewrite Hnone in Ho. unfold e in Hr. congruence.
Qed.
(** The router gives the endpoint up. *)
Lemma withdrawn_from_rest net W :
  inv net -> routes_follow o rq net -> known_everywhere net ->
  d_db (r_lsdb (ln_routers net o)) !! lsa_key lsa = Some record -> env_is_closed (W o) tx = true ->
  exists net2, withdraws dest o e (ln_routers net) W net2 /\ grief net2 /\ routes_go net2.
Proof.
  intros I HR Hknown Hrec Hclosed. pose proof (rest_about_to_go net W I HR Hknown Hrec Hclosed) as G.
  destruct (withdrawn_inv dest links g links_open links_meet costs_positive o e tx (ei_cost (rr_endpoint_info rq))
    (ei_realm (rr_endpoint_info rq)) Unicast record) with (R := ln_routers net) (W := W)
    as (net2 & Hw & I2 & Ho2 & Hothers); [by rewrite record_is..|exact dead_carried|exact G|].
  exists net2. split; [done|]. split; [done|].
  intros v. destruct (decide (v = o)) as [->|Hv]; [by left|]. unfold holds. rewrite (Hothers v Hv).
  pose proof (HR v) as Hr. rewrite decide_False in Hr by done. unfold holds in Hr. change (new_lsa o rq) with lsa in Hr.
  destruct (held (r_lsdb (ln_routers net v)) (lsa_key lsa)) eqn:Hh; [right; by split_and! | by left].
Qed.
End obituary.

(** C9: a listener comes and goes: it registers, and flooding comes to rest, whatever the order of
    messages, with every node within reach knowing the way to it; whatever clients do meanwhile,
    once its receiver is dropped the router gives the endpoint up, flooding comes to rest again,
    and every node within reach has forgotten advertisement and route and answers a send to the
    endpoint with the payload and that there is no route. Neither run panics or goes on forever. *)
Theorem listener_comes_and_goes R W :
  (forall v, node_ok links g v (R v)) -> (forall v, unheard o rq (R v)) ->
  exists net, registers dest o rq R W net /\ Acc (fun net' net => ls_step dest net net') net /\
  forall net1, rtc (ls_step dest) net net1 ->
    (ln_wire net1 <> [] -> exists net', ls_step dest net1 net') /\
    (ln_wire net1 = [] -> known_everywhere net1 /\ forall W1, env_is_closed (W1 o) tx = true ->
       exists net2, withdraws dest o e (ln_routers net1) W1 net2 /\ Acc (fun net' net => ls_step dest net net') net2 /\
       forall net3, rtc (ls_step dest) net2 net3 ->
         (ln_wire net3 <> [] -> exists net', ls_step dest net3 net') /\
         (ln_wire net3 = [] -> unknown_everywhere net3)).
Proof.
  intros Hok Hun.
  destruct (registered_inv dest links g links_open links_meet costs_positive o rq kind_unicast not_router carried_everywhere
    no_link_zero R W Hok Hun) as (net & Hreg & I & HR & Hown).
  exists net. split; [done|]. split.
  { by apply (registration_acc dest links g links_open links_meet costs_positive nodes nodes_known o rq). }
  intros net1 Hrun.
  destruct (runs_routes dest links g links_open links_meet costs_positive o rq kind_unicast not_router
    carried_everywhere _ _ I HR Hrun) as [I1 HR1].
  pose proof (own_kept dest links g links_open links_meet costs_positive o rq kind_unicast not_router
    carried_everywhere _ _ I Hown Hrun) as Hown1.
  split; [by apply (delivery_possible dest links g links_open _ _ (new_ok o rq kind_unicast not_router))|].
  intros Hwire1. pose proof (rest_known net1 I1 HR1 Hown1 Hwire1) as Hknown. split; [done|]. intros W1 Hclosed.
  unfold holds, held in Hown1. destruct (d_db _ !! lsa_key _) as [record|] eqn:Hrec; [|done]. injection Hown1 as Hlsa.
  destruct (withdrawn_from_rest record Hlsa net1 W1 I1 HR1 Hknown Hrec Hclosed) as (net2 & Hw & I2 & HR2).
  exists net2. split; [done|]. split.
  { eapply (grief_acc dest links g links_open links_meet costs_positive (obituary_of record) (dead_is_ok record Hlsa)
      (dead_not_router record Hlsa) (dead_carried record Hlsa) nodes nodes_known); [done..|exact I2]. }
  intros net3 Hrun3. destruct (grief_runs_routes record Hlsa _ _ I2 HR2 Hrun3) as [I3 HR3].
  split; [by apply (grief_possible dest links g links_open _ (dead_is_ok record Hlsa))|].
  by apply (rest_unknown record Hlsa).
Qed.
End network.
