(* ===== verification/AnycastReceiver.v ===== *)
(** The receivers of anycast endpoints ([AnycastReceiver] of [src/receivers/receiver.rs],
    [AnycastRpcReceiver] of [rpc_receiver.rs], [anycast_cost.rs]) and what a change of a
    listener's cost comes to: from the call through the router to the published table. *)
From Stdlib Require Import Strings.String.
From S2P Require Import Prelude Types Messages World RouteTable Linkstate Spf LsDb LsDbProofs LsDbTheorems.
From S2P Require Import RouteSpec Advertise Fib FibProofs Router RouterProofs Handle Receivers Registration Flooding.

Section receivers.
Context `{Cd : Codec}.

(** Identity of one anycast listener; the handle is the mailbox of the router. *)
Record AnycastCost := mkAnycastCost { ac_endpoint_id : EndpointId; ac_sender : ChanId }.

(** The message of [AnycastCost::set_cost]; its result is [set_cost_result]. *)
Definition ac_set_cost (ac : AnycastCost) (cost : Cost) (reply : ChanId) : RouterMsg :=
  set_cost_msg (ac_endpoint_id ac) (ac_sender ac) cost reply.

Record AnycastReceiver := mkAnycastReceiver { ar_receiver : Mailbox; ar_cost : AnycastCost }.
Definition set_ar_receiver (mb : Mailbox) (r : AnycastReceiver) : AnycastReceiver := mkAnycastReceiver mb (ar_cost r).

Definition anycast_receiver_new (receiver : Mailbox) (endpoint_id : EndpointId) (sender : ChanId) : AnycastReceiver :=
  mkAnycastReceiver receiver (mkAnycastCost endpoint_id sender).
Definition anycast_set_cost (r : AnycastReceiver) (cost : Cost) (reply : ChanId) : RouterMsg :=
  ac_set_cost (ar_cost r) cost reply.
Definition anycast_recv (T : RustTy) (r : AnycastReceiver)
    : Outcome (Poll (ReceiveError + Rider)) * AnycastReceiver :=
  let '(res, mb) := receiver_recv T (ar_receiver r) in (res, set_ar_receiver mb r).
Definition anycast_try_recv (T : RustTy) (r : AnycastReceiver)
    : Outcome (option (ReceiveError + Rider)) * AnycastReceiver :=
  let '(res, mb) := receiver_try_recv T (ar_receiver r) in (res, set_ar_receiver mb r).
Definition anycast_poll_next (T : RustTy) (r : AnycastReceiver)
    : Outcome (Poll (option Rider)) * AnycastReceiver :=
  let '(res, mb) := receiver_poll_next T (ar_receiver r) in (res, set_ar_receiver mb r).

Record AnycastRpcReceiver := mkAnycastRpcReceiver { arr_mailbox : Mailbox; arr_cost : AnycastCost }.
Definition anycast_rpc_receiver_new (endpoint_id : EndpointId) (rx : Mailbox) (sender : ChanId) : AnycastRpcReceiver :=
  mkAnycastRpcReceiver rx (mkAnycastCost endpoint_id sender).
Definition anycast_rpc_recv (T : RustTy) (r : AnycastRpcReceiver)
    : Outcome (Poll (ReceiveError + RpcRequest)) * AnycastRpcReceiver :=
  let '(res, mb) := recv_rpc T (arr_mailbox r) in (res, mkAnycastRpcReceiver mb (arr_cost r)).
Definition anycast_rpc_set_cost (r : AnycastRpcReceiver) (cost : Cost) (reply : ChanId) : RouterMsg :=
  ac_set_cost (arr_cost r) cost reply.
End receivers.

(** * The route table *)
Section table.

(** The listener [sender] of an anycast endpoint, among its routes. *)
Definition listens (t : RouteTable) (e : EndpointId) (sender : ChanId) (before : list LsRoute) (route : LsRoute)
    (behind : list LsRoute) : Prop :=
  t !! e = Some (mkLsRouteEntry (before ++ route :: behind) Anycast) /\ r_via route = Local sender.

(** There is no such listener: nothing of the endpoint, or other listeners only. *)
Definition does_not_listen (t : RouteTable) (e : EndpointId) (sender : ChanId) : Prop :=
  forall en, t !! e = Some en -> re_kind en = Anycast /\ forall route, route ∈ re_routes en -> r_via route <> Local sender.

(** What [set_anycast_cost] decides. *)
Lemma set_anycast_cost_decides t e sender c res t' :
  set_anycast_cost t e sender c = (res, t') ->
  match res with
  | inl NotRegistered => does_not_listen t e sender /\ t' = t
  | inl NotAnycast => (exists en, t !! e = Some en /\ re_kind en <> Anycast) /\ t' = t
  | inr out => exists before route behind, listens t e sender before route behind /\
      match out with
      | Unchanged => r_cost route = c /\ t' = t
      | Changed _ _ _ => r_cost route <> c /\
          t' = <[e := mkLsRouteEntry (before ++ set_route_cost c route :: behind) Anycast]> t
      end
  end.
Proof.
  unfold set_anycast_cost, listens, does_not_listen. destruct (t !! e) as [en|]; [|by intros [= <- <-]].
  case_decide as Hk; [|intros [= <- <-]; split; [by eexists | done]].
  destruct (find_update _ _ _) as [[route routes']|] eqn:Hf.
  - destruct (find_update_Some _ _ _ _ _ Hf) as (l1 & l2 & Hl & Hl' & Hs).
    rewrite is_sender_via, bool_decide_eq_true in Hs.
    assert (Hen : en = mkLsRouteEntry (l1 ++ route :: l2) Anycast) by (destruct en; simpl in *; congruence).
    destruct (N.eqb_spec (r_cost route) c) as [Hc|Hc]; intros [= <- <-]; exists l1, route, l2; split_and!; try done;
      [by rewrite Hen..|]. by rewrite Hl', Hk.
  - intros [= <- <-]. split; [|done]. intros en' [= <-]. split; [done|]. intros route Hin Hvia.
    pose proof (find_update_None _ _ _ Hf route Hin) as Hno. by rewrite is_sender_via, bool_decide_true in Hno.
Qed.
End table.

(** * The table built *)
Section build.
Context `{Cd : Codec} `{E : !Env} `{!EnvLaws}.

(** The entry of an endpoint in the table built from a database. *)
Lemma built_entry d w t fib e en :
  build_fib d w = Returns (t, fib) -> d_routes d !! e = Some en ->
  f_our_id fib = d_self_id d /\
  f_table fib !! e = match fib_entry_of t en w with Returns o => o | Panics => None end.
Proof.
  unfold build_fib. destruct (compute_spf _ d w) as [d1|] eqn:Hspf; [|done]. cbn [outcome_bind].
  destruct (build_from_db _ w) as [f|] eqn:Hb; [|done]. intros [= <- <-] He.
  apply build_from_db_spec in Hb as (Hid & _ & _ & Ht). destruct (compute_spf_run _ _ _ Hspf) as (st & _ & ->).
  split; [done|]. rewrite Ht. simpl. by rewrite He.
Qed.

(** A listener's distance is at least its own cost. *)
Lemma total_at_least d route t c :
  anycast_total d route = Some t -> (c < cost_max)%N -> (c < r_cost route)%N -> (c < t)%N.
Proof.
  unfold anycast_total. destruct (r_via route) as [s|n]; [by intros [= <-]|].
  destruct (d_cost d !! n) as [path|]; [|done]. destruct (N.eqb path u16_max); [done|].
  destruct (d_next_hop d !! n); [|done]. intros [= <-]. unfold cost_add, u16_saturating_add, cost_max, u16_max. lia.
Qed.

(** A local listener that is cheaper than every other route is the one the entry leads to. *)
Lemma cheapest_local d before route behind sender :
  r_via route = Local sender -> (r_cost route < cost_max)%N ->
  (forall other, other ∈ before ++ behind -> (r_cost route < r_cost other)%N) ->
  anycast_entry d (before ++ route :: behind) = Some (Single (FwdLocal sender)).
Proof.
  intros Hvia Hmax Hleast. assert (Hown : anycast_total d route = Some (r_cost route)) by (unfold anycast_total; by rewrite Hvia).
  assert (Hin : route ∈ before ++ route :: behind) by (apply elem_of_app; right; by left).
  destruct (anycast_entry d (before ++ route :: behind)) as [fe|] eqn:Ha.
  - apply anycast_entry_Some in Ha as (best & t & h & -> & Hbest & Hh & Ht & Hmin).
    specialize (Hmin route _ Hin Hown). assert (Hother : best ∈ before ++ behind -> False).
    { intros Ho. pose proof (total_at_least d best t _ Ht Hmax (Hleast best Ho)). lia. }
    assert (best = route) as ->.
    { apply elem_of_app in Hbest as [Hb|[Hb|Hb]%elem_of_cons]; [destruct Hother; set_solver | done | destruct Hother; set_solver]. }
    revert Hh. unfold fib_forward. rewrite Hvia. by intros [= <-].
  - rewrite anycast_entry_None in Ha. by rewrite (Ha route Hin) in Hown.
Qed.

(** What is answered to those who asked for a change of cost. *)
Definition answered (ev : Event) : option (ChanId * (SetAnycastCostError + unit)) :=
  match ev with EvReply tx r => Some (tx, r) | _ => None end.
Definition answers_since (w w' : World) : list (ChanId * (SetAnycastCostError + unit)) :=
  omap answered (drop (length (w_log w)) (w_log w')).

Lemma answers_then_nodes w tx res w' :
  emits is_node (reply tx res w) w' -> answers_since w w' = [(tx, res)].
Proof.
  intros [_ (evs & Hl & HF)]. unfold answers_since. rewrite Hl. unfold reply, log_event. simpl.
  rewrite <- app_assoc, drop_app_length. simpl. f_equal.
  clear Hl. induction HF as [|ev evs Hev _ IH]; [done|]. by destruct ev.
Qed.

(** * A change of cost, from end to end *)

(** The router when a cost has changed: the caller is answered, the new cost is advertised, and the
    table in force is built again. *)
Lemma changed_settles e sender cost reply_tx r w previous new advertise d :
  lsdb_inv (r_lsdb r) ->
  lsdb_set_anycast_cost e sender cost (r_lsdb r) = (inr (Changed previous new advertise), d) ->
  exists r' w', settle 3 (HandleBrokerMsg (RmSetAnycastCost e sender cost reply_tx)) r w = Returns (Some Listen, r', w') /\
    settled r' /\ d_routes (r_lsdb r') = d_routes d /\ emits is_node (reply reply_tx (inr tt) w) w'.
Proof.
  intros I Hs. pose proof (proj1 (lsdb_set_anycast_cost_ok e sender cost (r_lsdb r) w I) I) as I1. rewrite Hs in I1.
  simpl in I1. cbn [settle next handle_broker_msg]. unfold handle_set_anycast_cost. rewrite Hs.
  set (w1 := reply reply_tx (inr tt) w).
  assert (exists d2 w2, match advertise with Some c => update_endpoint_cost e c d w1 | None => (d, w1) end = (d2, w2) /\
    lsdb_inv d2 /\ d_routes d2 = d_routes d /\ emits is_node w1 w2) as (d2 & w2 & -> & I2 & Hr2 & Hem).
  { destruct advertise as [c|]; [|by exists d, w1].
    pose proof (proj1 (update_endpoint_cost_ok e c d w1) I1) as I2. pose proof (cost_tells_nodes e c d w1) as Hem.
    pose proof (update_endpoint_cost_routes e c d w1) as Hr2. destruct (update_endpoint_cost e c d w1) as [d2 w2].
    by exists d2, w2. }
  cbn [outcome_bind next]. destruct (route_change_settles (set_lsdb d2 r) w2 I2) as (r' & -> & Hset & _ & _ & _ & Hr).
  cbn [outcome_bind]. exists r', w2. split_and!; try done. by rewrite Hr.
Qed.

(** Where three steps lead is reachable. *)
Lemma settled_reachable node_id e sender cost reply_tx r w o r' w' :
  reachable node_id (Some Listen, r, w) ->
  settle 3 (HandleBrokerMsg (RmSetAnycastCost e sender cost reply_tx)) r w = Returns (o, r', w') ->
  reachable node_id (o, r', w').
Proof.
  intros Hr Hset.
  pose proof (reachable_step _ Listen (WakeMsg (Some (RmSetAnycastCost e sender cost reply_tx))) _ _ _ Hr I eq_refl) as H1.
  destruct (settle_rests node_id 3 (HandleBrokerMsg (RmSetAnycastCost e sender cost reply_tx)) r w ltac:(done) ltac:(simpl; lia) H1)
    as (o1 & r1 & w1 & Hset1 & Hr1 & _). rewrite Hset in Hset1. by injection Hset1 as <- <- <-.
Qed.

(** The router when nothing changed: the caller is answered and the router is as it was. *)
Lemma kept_settles e sender cost reply_tx r w res :
  lsdb_set_anycast_cost e sender cost (r_lsdb r) = (res, r_lsdb r) -> (forall p n a, res <> inr (Changed p n a)) ->
  settle 3 (HandleBrokerMsg (RmSetAnycastCost e sender cost reply_tx)) r w =
    Returns (Some Listen, r, reply reply_tx (match res with inl err => inl err | inr _ => inr tt end) w).
Proof.
  intros Hs Hres. cbn [settle next handle_broker_msg]. unfold handle_set_anycast_cost. rewrite Hs.
  assert (set_lsdb (r_lsdb r) r = r) as -> by by destruct r.
  destruct res as [err|[|p n a]]; [done..|]. by destruct (Hres p n a).
Qed.

(** The table in force sends to a listener that is cheaper than every other. *)
Lemma cheapest_sends r e before route behind sender p w0 :
  settled r -> d_routes (r_lsdb r) !! e = Some (mkLsRouteEntry (before ++ route :: behind) Anycast) ->
  r_via route = Local sender -> (r_cost route < cost_max)%N ->
  (forall other, other ∈ before ++ behind -> (r_cost route < r_cost other)%N) ->
  get_endpoint (p_to p) (f_our_id (r_fib r)) = e -> env_try_send w0 sender = SendOk ->
  fib_send (r_fib r) p w0 = Returns (inr tt, log_event (EvClient sender (CmMessage p) SendOk) w0).
Proof.
  intros (_ & _ & w & t & Hb) He Hvia Hmax Hleast Hp Ht. apply local_entry_sends; [|done].
  destruct (built_entry _ _ _ _ _ _ Hb He) as [_ Hfe]. rewrite Hp, Hfe. unfold fib_entry_of. simpl.
  by rewrite (cheapest_local t before route behind sender).
Qed.

(** C21: changing the cost of an anycast listener comes to its end: from every reachable
    configuration that waits, at most three steps bring the router back to waiting, and it
    answers the caller once. The call returns [Ok] exactly when the caller's listener is among
    the listeners of an anycast endpoint; then its route, and nothing else of the table, has the
    new cost, and if that is less than the cost of every other route the next packet sent to the
    endpoint here goes to that listener. Otherwise the call fails, with [NotAnycast] for an
    endpoint of another kind and with [ListenerNotRegistered] for an unknown listener, and the
    router is as it was. *)
Theorem cost_change_end_to_end node_id r w rcv cost reply_tx :
  let e := ac_endpoint_id (ar_cost rcv) in
  let sender := ac_sender (ar_cost rcv) in
  let t := d_routes (r_lsdb r) in
  reachable node_id (Some Listen, r, w) ->
  exists r' w' answer,
    settle 3 (listen (WakeMsg (Some (anycast_set_cost rcv cost reply_tx)))) r w = Returns (Some Listen, r', w') /\
    reachable node_id (Some Listen, r', w') /\ answers_since w w' = [(reply_tx, answer)] /\
    match set_cost_result true (Some answer) with
    | inr _ => exists before route behind, listens t e sender before route behind /\
        d_routes (r_lsdb r') = <[e := mkLsRouteEntry (before ++ set_route_cost cost route :: behind) Anycast]> t /\
        (r_cost route <> cost -> (cost < cost_max)%N ->
         (forall other, other ∈ before ++ behind -> (cost < r_cost other)%N) ->
         forall p w0, get_endpoint (p_to p) (f_our_id (r_fib r')) = e -> env_try_send w0 sender = SendOk ->
           fib_send (r_fib r') p w0 = Returns (inr tt, log_event (EvClient sender (CmMessage p) SendOk) w0))
    | inl HeNotAnycast => (exists en, t !! e = Some en /\ re_kind en <> Anycast) /\ r' = r
    | inl HeListenerNotRegistered => does_not_listen t e sender /\ r' = r
    | inl _ => False
    end.
Proof.
  intros e sender t Hr. pose proof (reachable_ok _ _ Hr) as [Iv _].
  pose proof (fun o r' w' => settled_reachable node_id e sender cost reply_tx r w o r' w' Hr) as Hre.
  change (listen _) with (HandleBrokerMsg (RmSetAnycastCost e sender cost reply_tx)).
  destruct (set_anycast_cost t e sender cost) as [res t'] eqn:Hdec.
  pose proof (set_anycast_cost_decides _ _ _ _ _ _ Hdec) as Hd.
  assert (Hs : lsdb_set_anycast_cost e sender cost (r_lsdb r) = (res, set_routes t' (r_lsdb r)))
    by (unfold lsdb_set_anycast_cost; fold t; by rewrite Hdec).
  assert (Hsame : set_routes t (r_lsdb r) = r_lsdb r) by (unfold t; by destruct (r_lsdb r)).
  destruct res as [err|[|previous new advertise]].
  - assert (t' = t) as -> by (destruct err; apply Hd). rewrite Hsame in Hs.
    pose proof (kept_settles _ _ _ reply_tx r w _ Hs ltac:(done)) as Hk.
    exists r, (reply reply_tx (inl err) w), (inl err). split; [done|]. split; [by apply Hre|].
    split; [by apply answers_then_nodes|]. by destruct err; split; try apply Hd.
  - destruct Hd as (before & route & behind & Hl & Hc & ->). rewrite Hsame in Hs.
    pose proof (kept_settles _ _ _ reply_tx r w _ Hs ltac:(done)) as Hk.
    exists r, (reply reply_tx (inr tt) w), (inr tt). split; [done|]. split; [by apply Hre|].
    split; [by apply answers_then_nodes|]. exists before, route, behind. split; [done|]. split; [|done].
    assert (set_route_cost cost route = route) as -> by (rewrite <- Hc; by destruct route).
    symmetry. apply insert_id. apply Hl.
  - destruct Hd as (before & route & behind & Hl & Hc & ->).
    destruct (changed_settles e sender cost reply_tx r w _ _ _ _ Iv Hs) as (r' & w' & Hk & Hsettled & Hroutes & Hem).
    exists r', w', (inr tt). split; [done|]. split; [by apply Hre|]. split; [by apply answers_then_nodes|].
    exists before, route, behind. split; [done|]. split; [done|]. intros _ Hmax Hleast p w0 Hp Ht.
    apply (cheapest_sends r' e before (set_route_cost cost route) behind sender); try done; [|apply Hl].
    rewrite Hroutes. apply lookup_insert_eq.
Qed.
End build.
