(* ===== verification/Ipc.v ===== *)
(** [src/peers/ipc.rs]: what the tasks of the IPC transport exchange. *)
From S2P Require Import Prelude Types Messages World Peer.

(** * The directory *)
Record DirectoryView := mkDirectoryView { dv_owner : NodeId; dv_peers : list NodeId }.

(** [DirectoryView::dial_ids]. *)
Definition dial_ids (v : DirectoryView) : list NodeId :=
  if existsb (fun id => bool_decide (id = dv_owner v)) (dv_peers v) then dv_peers v
  else dv_peers v ++ [dv_owner v].

Lemma elem_of_dial_ids v id : id ∈ dial_ids v <-> id = dv_owner v \/ id ∈ dv_peers v.
Proof.
  unfold dial_ids. destruct (existsb _ _) eqn:E.
  - apply existsb_elem in E as (x & Hx & ->%bool_decide_eq_true). naive_solver.
  - rewrite elem_of_app, list_elem_of_singleton. tauto.
Qed.

(** * Messages *)
Inductive IpcControl := IcAccepted | IcShutdown | IcResume.

Inductive IpcCommand :=
  | IcPeerClosed (peer_id : NodeId) (connection_id : ConnectionId)
  | IcLearnedPeers (ids : list NodeId)
  | IcSessionReady (peer_id : NodeId) (control : ChanId) (connection_id : ConnectionId)
  | IcHandshakeFailed (expected : option NodeId)
  | IcDirectoryProbe (primary : option DirectoryView) (primary_self : bool)
                     (backup : option DirectoryView) (backup_self : bool).

Section messages.
Context `{Cd : Codec}.

Inductive IpcMessage :=
  | ImHello (id : NodeId)
  | ImKnownPeers (ids : list NodeId)
  | ImNeighborRemoved (id : NodeId)
  | ImCloseConnection
  | ImNodeMsg (m : NodeMessage)
  | ImPing (token : N)
  | ImPong (token : N).
End messages.
