(* ===== verification/IpcPeer.v ===== *)
(** [src/peers/ipc/ipc_peer.rs]: the task that owns one IPC connection, from the handshake to
    the end of the session. *)
From S2P Require Import Prelude Types Messages World Peer Ipc.

(** * State *)
Section peer.
Context `{Cd : Codec}.

(** The stream and the channels are the environment's: what they do comes with each step. *)
Record IpcPeer := mkIpcPeer {
  ip_peer : option Peer;
  ip_hb : Heartbeat;
  ip_expected : option NodeId;
  ip_our_nodeid : NodeId;
  ip_control_tx : ChanId;
  ip_established : bool;
}.

Definition ipc_peer_new (expected : option NodeId) (our_nodeid : NodeId) (control_tx : ChanId)
    (now : Instant) (interval timeout : Duration) : IpcPeer :=
  mkIpcPeer None (heartbeat_new now interval timeout) expected our_nodeid control_tx false.

Definition set_ip_peer (p : option Peer) (s : IpcPeer) : IpcPeer :=
  mkIpcPeer p (ip_hb s) (ip_expected s) (ip_our_nodeid s) (ip_control_tx s) (ip_established s).
Definition set_ip_hb (hb : Heartbeat) (s : IpcPeer) : IpcPeer :=
  mkIpcPeer (ip_peer s) hb (ip_expected s) (ip_our_nodeid s) (ip_control_tx s) (ip_established s).
Definition set_ip_established (b : bool) (s : IpcPeer) : IpcPeer :=
  mkIpcPeer (ip_peer s) (ip_hb s) (ip_expected s) (ip_our_nodeid s) (ip_control_tx s) b.

(** [IpcPeer::peer_id]. *)
Definition ip_peer_id (s : IpcPeer) : option NodeId :=
  match ip_peer s with Some p => Some (pe_peer_id p) | None => ip_expected s end.

Inductive PeerState :=
  | PsHello
  | PsAbortHandshake
  | PsSendPeers
  | PsWaitForMessages
  | PsHeartbeatTick
  | PsSendPing
  | PsHandleError
  | PsNodeMessageReceived (m : NodeMessage)
  | PsIpcControlReceived (c : IpcControl)
  | PsIpcMessageReceived (m : IpcMessage)
  | PsClosePeer
  | PsShutdown.

(** What a step does to the stream, to the manager and to the router. A send records whether it
    succeeded. *)
Inductive PeerAct :=
  | PaSend (m : IpcMessage) (ok : bool)
  | PaCloseStream
  | PaCommand (c : IpcCommand) (ok : bool)
  | PaPeer (o : PeerOut).

(** What [select!] yields in [WaitForMessages]; [None] in [PwStream] is a decoding or transport
    error, [PwStreamEnd] the end of the stream. *)
Inductive PeerWakeup :=
  | PwStream (m : option IpcMessage)
  | PwStreamEnd
  | PwControl (c : option IpcControl)
  | PwNode (m : option NodeMessage)
  | PwDeadline.

(** What the environment supplies to a step. *)
Record PeerInput := mkPeerInput {
  pi_now : Instant;
  pi_send_ok : bool;                      (* [stream.send], within its timeout where it has one *)
  pi_command_ok : bool;                   (* [ipc_command.send] *)
  pi_hello : option IpcMessage;           (* what arrives first, if it does in time *)
  pi_control : option IpcControl;         (* the answer to [SessionReady], if it comes in time *)
  pi_connection_id : ConnectionId;
  pi_peer_tx : ChanId;
  pi_neighbors : list NodeId;             (* the sessions of the manager *)
  pi_wake : PeerWakeup;
}.

(** * The states *)

Definition ipc_realms : RealmList := realms_add (realms_of Userspace) Global.

Definition step_hello (i : PeerInput) (s : IpcPeer) : PeerState * IpcPeer * list PeerAct :=
  let sent := PaSend (ImHello (ip_our_nodeid s)) (pi_send_ok i) in
  if negb (pi_send_ok i) then (PsAbortHandshake, s, [sent])
  else
    match pi_hello i with
    | Some (ImHello peer_id) =>
        if match ip_expected s with Some expected => negb (bool_decide (expected = peer_id)) | None => false end
        then (PsAbortHandshake, s, [sent])
        else
          let connection_id := pi_connection_id i in
          let '(peer, outs) :=
            register_peer peer_id (ip_our_nodeid s) Userspace connection_id 10%N ipc_realms (pi_peer_tx i) in
          let s := set_ip_peer (Some peer) s in
          let acts := sent :: map PaPeer outs ++
            [PaCommand (IcSessionReady peer_id (ip_control_tx s) connection_id) (pi_command_ok i)] in
          if negb (pi_command_ok i) then (PsAbortHandshake, s, acts)
          else
            match pi_control i with
            | Some IcAccepted => (PsSendPeers, set_ip_established true s, acts)
            | _ => (PsAbortHandshake, s, acts)
            end
    | _ => (PsAbortHandshake, s, [sent])
    end.

(** [peer.unregister()] when there is a peer. *)
Definition unregister_peer (s : IpcPeer) : IpcPeer * list PeerAct :=
  match ip_peer s with
  | Some p => let '(p, outs) := unregister p in (set_ip_peer (Some p) s, map PaPeer outs)
  | None => (s, [])
  end.

Definition step_abort (i : PeerInput) (s : IpcPeer) : IpcPeer * list PeerAct :=
  let '(s, outs) := unregister_peer s in
  (s, PaCloseStream :: outs ++ [PaCommand (IcHandshakeFailed (ip_expected s)) (pi_command_ok i)]).

(** [Some(WaitForMessages)] or [HandleError], after a send. *)
Definition after_send (ok : bool) : PeerState := if ok then PsWaitForMessages else PsHandleError.

Definition step_send_peers (i : PeerInput) (s : IpcPeer) : Outcome (PeerState * IpcPeer * list PeerAct) :=
  match ip_peer_id s with
  | None => Panics
  | Some peer_id =>
      let peers := retain (fun u => negb (bool_decide (u = peer_id))) (pi_neighbors i) ++ [ip_our_nodeid s] in
      match peers with
      | [] => Returns (PsWaitForMessages, s, [])
      | _ => Returns (after_send (pi_send_ok i), s, [PaSend (ImKnownPeers peers) (pi_send_ok i)])
      end
  end.

(** [peer.recv()] counts the packets it yields. *)
Definition step_wait (i : PeerInput) (s : IpcPeer) : Outcome (PeerState * IpcPeer * list PeerAct) :=
  match ip_peer s with
  | None => Panics
  | Some peer =>
      Returns match pi_wake i with
      | PwStream (Some m) => (PsIpcMessageReceived m, set_ip_hb (on_rx (pi_now i) (ip_hb s)) s, [])
      | PwStream None => (PsHandleError, s, [])
      | PwStreamEnd => (PsClosePeer, s, [])
      | PwControl (Some c) => (PsIpcControlReceived c, s, [])
      | PwControl None => (PsShutdown, s, [])
      | PwNode received =>
          let '(m, peer) := peer_recv received peer in
          match m with
          | Some node_msg => (PsNodeMessageReceived node_msg, set_ip_peer (Some peer) s, [])
          | None => (PsShutdown, set_ip_peer (Some peer) s, [])
          end
      | PwDeadline => (PsHeartbeatTick, s, [])
      end
  end.

Definition step_heartbeat_tick (i : PeerInput) (s : IpcPeer) : PeerState :=
  if timed_out (ip_hb s) (pi_now i) then PsClosePeer
  else if ping_due (ip_hb s) (pi_now i) then PsSendPing
  else PsWaitForMessages.

Definition step_send_ping (i : PeerInput) (s : IpcPeer) : PeerState * IpcPeer * list PeerAct :=
  let '(token, hb) := take_ping_token (pi_now i) (ip_hb s) in
  (after_send (pi_send_ok i), set_ip_hb hb s, [PaSend (ImPing token) (pi_send_ok i)]).

Definition step_control (i : PeerInput) (c : IpcControl) (s : IpcPeer) : PeerState * IpcPeer :=
  match c with
  | IcShutdown => (PsShutdown, s)
  | IcAccepted => (PsWaitForMessages, s)
  | IcResume => (PsSendPing, set_ip_hb (note_resume (pi_now i) (ip_hb s)) s)
  end.

Definition step_message (i : PeerInput) (m : IpcMessage) (s : IpcPeer)
    : PeerState * IpcPeer * list PeerAct :=
  match m with
  | ImHello _ | ImNeighborRemoved _ | ImPong _ => (PsWaitForMessages, s, [])
  | ImKnownPeers uuids =>
      (PsWaitForMessages, s, [PaCommand (IcLearnedPeers uuids) (pi_command_ok i)])
  | ImCloseConnection => (PsClosePeer, s, [])
  | ImPing token =>
      (after_send (pi_send_ok i), s, [PaSend (ImPong token) (pi_send_ok i)])
  | ImNodeMsg node_message =>
      match ip_peer s with
      | Some peer =>
          let '(peer, outs) := handle_node_message node_message peer in
          (PsWaitForMessages, set_ip_peer (Some peer) s, map PaPeer outs)
      | None => (PsWaitForMessages, s, [])
      end
  end.

Definition step_close (i : PeerInput) (s : IpcPeer) : Outcome (IpcPeer * list PeerAct) :=
  if ip_established s then
    let told :=
      match ip_peer_id s with
      | Some peer_id =>
          match ip_peer s with
          | Some p => Returns [PaCommand (IcPeerClosed peer_id (pe_connection_id p)) (pi_command_ok i)]
          | None => Panics
          end
      | None => Returns []
      end in
    outcome_bind told (fun told =>
      let '(s, outs) := unregister_peer s in
      Returns (s, PaCloseStream :: told ++ outs ++ [PaCloseStream]))
  else
    Returns (s, [PaCloseStream; PaCommand (IcHandshakeFailed (ip_expected s)) (pi_command_ok i); PaCloseStream]).

(** [State::next]; [None] ends the task. *)
Definition peer_next (st : PeerState) (i : PeerInput) (s : IpcPeer)
    : Outcome (option PeerState * IpcPeer * list PeerAct) :=
  match st with
  | PsHello => let '(st, s, acts) := step_hello i s in Returns (Some st, s, acts)
  | PsAbortHandshake => let '(s, acts) := step_abort i s in Returns (None, s, acts)
  | PsSendPeers =>
      outcome_bind (step_send_peers i s) (fun '(st, s, acts) => Returns (Some st, s, acts))
  | PsWaitForMessages =>
      outcome_bind (step_wait i s) (fun '(st, s, acts) => Returns (Some st, s, acts))
  | PsHeartbeatTick => Returns (Some (step_heartbeat_tick i s), s, [])
  | PsSendPing => let '(st, s, acts) := step_send_ping i s in Returns (Some st, s, acts)
  | PsHandleError =>
      Returns (Some (if ip_established s then PsClosePeer else PsAbortHandshake), s, [])
  | PsNodeMessageReceived m =>
      Returns (Some (after_send (pi_send_ok i)), s, [PaSend (ImNodeMsg m) (pi_send_ok i)])
  | PsIpcControlReceived c => let '(st, s) := step_control i c s in Returns (Some st, s, [])
  | PsIpcMessageReceived m => let '(st, s, acts) := step_message i m s in Returns (Some st, s, acts)
  | PsClosePeer => outcome_bind (step_close i s) (fun '(s, acts) => Returns (None, s, acts))
  | PsShutdown => Returns (Some PsClosePeer, s, [PaSend ImCloseConnection (pi_send_ok i)])
  end.

(** A run of [start], with everything it did. *)
Inductive peer_run (s0 : IpcPeer) : option PeerState -> IpcPeer -> list PeerAct -> Prop :=
  | peer_run_start : peer_run s0 (Some PsHello) s0 []
  | peer_run_step st i s acts st' s' acts' :
      peer_run s0 (Some st) s acts -> peer_next st i s = Returns (st', s', acts') ->
      peer_run s0 st' s' (acts ++ acts').
End peer.
