(* ===== verification/IpcPeerProofs.v ===== *)
(** The life of an IPC session: it never panics, and what it registered it unregisters. *)
From S2P Require Import Prelude Types Messages World Peer Ipc IpcPeer.

Section life.
Context `{Cd : Codec}.

(** What a run told the router and the manager. *)
Definition broker_out (a : PeerAct) : option PeerOut :=
  match a with PaPeer o => Some o | _ => None end.
Definition broker_outs (acts : list PeerAct) : list PeerOut := omap broker_out acts.
Definition command_of (a : PeerAct) : option IpcCommand :=
  match a with PaCommand c _ => Some c | _ => None end.
Definition commands (acts : list PeerAct) : list IpcCommand := omap command_of acts.

(** What the router was told while the session is open. *)
Definition session_outs (p : Peer) (outs : list PeerOut) : Prop :=
  exists tx mid, outs = SendBroker (RmRegisterPeer (pe_peer_id p) (pe_connection_id p) tx 10%N ipc_realms) :: mid /\
    Forall (traffic (pe_connection_id p)) mid.

Definition open_ok (s : IpcPeer) (acts : list PeerAct) : Prop :=
  match ip_peer s with
  | None => broker_outs acts = []
  | Some p => session_outs p (broker_outs acts)
  end.

Definition is_final (c : IpcCommand) : bool :=
  match c with IcPeerClosed _ _ | IcHandshakeFailed _ => true | _ => false end.
Definition none_final (acts : list PeerAct) : Prop := Forall (fun c => is_final c = false) (commands acts).

Definition live (s0 : IpcPeer) (st : PeerState) (s : IpcPeer) (acts : list PeerAct) : Prop :=
  ip_expected s = ip_expected s0 /\ open_ok s acts /\ none_final acts /\
  match st with
  | PsHello => ip_peer s = None /\ ip_established s = false
  | PsAbortHandshake => ip_established s = false
  | _ => ip_established s = true /\ is_Some (ip_peer s)
  end.

(** How a run can end. *)
Definition ended (s0 s : IpcPeer) (acts : list PeerAct) : Prop :=
  exists others final, commands acts = others ++ [final] /\ Forall (fun c => is_final c = false) others /\
  match ip_peer s with
  | None => broker_outs acts = [] /\ final = IcHandshakeFailed (ip_expected s0)
  | Some p =>
      exists outs, session_outs p outs /\
        broker_outs acts = outs ++ [SendBroker (RmUnRegisterPeer (pe_connection_id p))] /\
        final = if ip_established s then IcPeerClosed (pe_peer_id p) (pe_connection_id p)
                else IcHandshakeFailed (ip_expected s0)
  end.

Definition run_ok (s0 : IpcPeer) (st : option PeerState) (s : IpcPeer) (acts : list PeerAct) : Prop :=
  match st with Some st => live s0 st s acts | None => ended s0 s acts end.

Lemma broker_outs_app l1 l2 : broker_outs (l1 ++ l2) = broker_outs l1 ++ broker_outs l2.
Proof. apply omap_app. Qed.
Lemma commands_app l1 l2 : commands (l1 ++ l2) = commands l1 ++ commands l2.
Proof. apply omap_app. Qed.

(** A step that says nothing to the router or the manager. *)
Lemma live_quiet s0 st st' s s' acts acts' :
  live s0 st s acts -> st <> PsHello -> st <> PsAbortHandshake -> st' <> PsHello ->
  ip_expected s' = ip_expected s -> ip_established s' = ip_established s ->
  (forall p, ip_peer s = Some p -> exists p', ip_peer s' = Some p' /\ pe_peer_id p' = pe_peer_id p /\
     pe_connection_id p' = pe_connection_id p /\ Forall (traffic (pe_connection_id p)) (broker_outs acts')) ->
  Forall (fun c => is_final c = false) (commands acts') -> st' <> PsAbortHandshake ->
  live s0 st' s' (acts ++ acts').
Proof.
  intros (Hx & Hopen & Hnf & Hst) H1 H2 H1' Hx' He' Hp Hc H2'.
  assert (Hest : ip_established s = true /\ is_Some (ip_peer s)) by (by destruct st).
  destruct Hest as [He [p Hps]]. destruct (Hp p Hps) as (p' & Hp' & Hid & Hcid & Htr).
  unfold open_ok in Hopen. rewrite Hps in Hopen. destruct Hopen as (tx & mid & Ho & Hmid).
  split_and!; [congruence| | |].
  - unfold open_ok. rewrite Hp'. exists tx, (mid ++ broker_outs acts').
    rewrite broker_outs_app, Ho, Hid, Hcid. split; [done|]. by apply Forall_app.
  - unfold none_final. rewrite commands_app. by apply Forall_app.
  - rewrite He', He, Hp'. destruct st'; done || (split; [done|by eexists]).
Qed.

Lemma step_hello_ok s0 i s st s' acts :
  live s0 PsHello s [] -> step_hello i s = (st, s', acts) -> live s0 st s' acts.
Proof.
  intros (Hx & _ & _ & Hp & He). unfold step_hello.
  assert (Hfail : forall a, broker_outs [a] = [] -> commands [a] = [] -> live s0 PsAbortHandshake s [a]).
  { intros a Hb Hc. split_and!; try done; [unfold open_ok; by rewrite Hp|]. unfold none_final. by rewrite Hc. }
  destruct (pi_send_ok i); simpl; [|intros [= <- <- <-]; by apply Hfail].
  destruct (pi_hello i) as [[peer_id| | | | | |]|]; try (intros [= <- <- <-]; by apply Hfail).
  destruct (match ip_expected s with Some _ => _ | None => _ end); [intros [= <- <- <-]; by apply Hfail|].
  set (p := mkPeer _ _ _ _ _ _ _ _). set (a := PaCommand _ _).
  assert (Hreg : forall b, let s1 := set_ip_established b (set_ip_peer (Some p) s) in
    open_ok s1 [PaSend (ImHello (ip_our_nodeid s)) true;
      PaPeer (SendBroker (RmRegisterPeer peer_id (pi_connection_id i) (pi_peer_tx i) 10%N ipc_realms)); a] /\
    none_final [PaSend (ImHello (ip_our_nodeid s)) true;
      PaPeer (SendBroker (RmRegisterPeer peer_id (pi_connection_id i) (pi_peer_tx i) 10%N ipc_realms)); a]).
  { intros b. split; [|by repeat constructor]. by exists (pi_peer_tx i), []. }
  assert (Habort : live s0 PsAbortHandshake (set_ip_peer (Some p) s) [PaSend (ImHello (ip_our_nodeid s)) true;
      PaPeer (SendBroker (RmRegisterPeer peer_id (pi_connection_id i) (pi_peer_tx i) 10%N ipc_realms)); a]).
  { destruct (Hreg false). by split_and!. }
  destruct (pi_command_ok i); simpl; [|by intros [= <- <- <-]].
  destruct (pi_control i) as [[]|]; intros [= <- <- <-]; try exact Habort.
  destruct (Hreg true). by split_and!.
Qed.

Lemma unregister_peer_spec s p :
  ip_peer s = Some p ->
  exists p', unregister_peer s = (set_ip_peer (Some p') s, [PaPeer (SendBroker (RmUnRegisterPeer (pe_connection_id p)))]) /\
    pe_peer_id p' = pe_peer_id p /\ pe_connection_id p' = pe_connection_id p.
Proof. intros Hp. unfold unregister_peer. rewrite Hp. by eexists. Qed.

Lemma step_abort_ok s0 i s acts s' acts' :
  live s0 PsAbortHandshake s acts -> step_abort i s = (s', acts') -> ended s0 s' (acts ++ acts').
Proof.
  intros (Hx & Hopen & Hnf & He). unfold step_abort, open_ok in *.
  destruct (ip_peer s) as [p|] eqn:Hp.
  - destruct (unregister_peer_spec s p Hp) as (p' & -> & Hid & Hcid). intros [= <- <-].
    exists (commands acts), (IcHandshakeFailed (ip_expected s)). rewrite commands_app, broker_outs_app.
    split; [done|]. split; [done|]. simpl. exists (broker_outs acts). rewrite Hcid, He, Hx.
    unfold session_outs in *. by rewrite Hid, Hcid.
  - unfold unregister_peer. rewrite Hp. intros [= <- <-].
    exists (commands acts), (IcHandshakeFailed (ip_expected s)). rewrite commands_app, broker_outs_app, Hopen, Hp.
    split; [done|]. split; [done|]. by rewrite Hx.
Qed.

Lemma step_close_ok s0 i s acts :
  live s0 PsClosePeer s acts ->
  exists s' acts', step_close i s = Returns (s', acts') /\ ended s0 s' (acts ++ acts').
Proof.
  intros (Hx & Hopen & Hnf & He & p & Hp). unfold step_close, ip_peer_id, open_ok in *.
  rewrite He, Hp in *. simpl. destruct (unregister_peer_spec s p Hp) as (p' & -> & Hid & Hcid).
  do 2 eexists. split; [done|]. exists (commands acts), (IcPeerClosed (pe_peer_id p) (pe_connection_id p)).
  rewrite commands_app, broker_outs_app. split; [done|]. split; [done|]. simpl.
  exists (broker_outs acts). rewrite He, Hid, Hcid. unfold session_outs in *. by rewrite Hid, Hcid.
Qed.

Lemma broker_outs_peer outs : broker_outs (map PaPeer outs) = outs.
Proof. unfold broker_outs. induction outs as [|o outs IH]; [done|]. simpl. by f_equal. Qed.
Lemma commands_peer outs : commands (map PaPeer outs) = [].
Proof. unfold commands. by induction outs. Qed.

(** A step whose next state and effects are plain. *)
Ltac quiet Hq Hok :=
  apply Hq; try apply Hok; first [done | by repeat constructor | eexists; by repeat constructor].

(** A state other than the first and the last ones. *)
Lemma step_quiet s0 st i s acts :
  live s0 st s acts -> st <> PsHello -> st <> PsAbortHandshake -> st <> PsClosePeer ->
  exists st' s' acts', peer_next st i s = Returns (Some st', s', acts') /\ live s0 st' s' (acts ++ acts').
Proof.
  intros Hl H1 H2 H3. pose proof Hl as (_ & _ & _ & Hst).
  assert (Hest : ip_established s = true /\ is_Some (ip_peer s)) by (by destruct st).
  destruct Hest as [He [p Hp]].
  assert (Hq : forall st' s' acts', st' <> PsHello -> st' <> PsAbortHandshake ->
    ip_expected s' = ip_expected s -> ip_established s' = ip_established s ->
    (exists p', ip_peer s' = Some p' /\ pe_peer_id p' = pe_peer_id p /\
       pe_connection_id p' = pe_connection_id p /\ Forall (traffic (pe_connection_id p)) (broker_outs acts')) ->
    Forall (fun c => is_final c = false) (commands acts') -> live s0 st' s' (acts ++ acts')).
  { intros st' s' acts' ????? ?. apply (live_quiet s0 st st' s s'); try done. intros q Hq.
    rewrite Hp in Hq. by injection Hq as <-. }
  assert (Hok : forall b, after_send b <> PsHello /\ after_send b <> PsAbortHandshake) by (by intros []).
  destruct st; try done; simpl.
  - unfold step_send_peers, ip_peer_id. rewrite Hp. destruct (_ ++ _); simpl; do 3 eexists; (split; [done|]);
      quiet Hq Hok.
  - unfold step_wait. rewrite Hp. simpl.
    destruct (pi_wake i) as [[m|]| |[c|]|m|]; simpl; try (do 3 eexists; split; [done|]; quiet Hq Hok).
    destruct m as [[w|l|k q]|]; simpl; do 3 eexists; (split; [done|]);
      quiet Hq Hok.
  - do 3 eexists. split; [done|]. unfold step_heartbeat_tick.
    destruct (timed_out _ _); [|destruct (ping_due _ _)]; quiet Hq Hok.
  - do 3 eexists. split; [done|]. quiet Hq Hok.
  - do 3 eexists. split; [done|]. rewrite He. quiet Hq Hok.
  - do 3 eexists. split; [done|]. quiet Hq Hok.
  - destruct c; simpl; do 3 eexists; (split; [done|]); quiet Hq Hok.
  - destruct m as [id|ids|id| |m|t|t]; simpl; try (do 3 eexists; split; [done|]; quiet Hq Hok).
    rewrite Hp. pose proof (handle_node_message_traffic m p) as Ht.
    destruct (handle_node_message m p) as [p' outs]. destruct Ht as (Hid & Hc & Ht).
    do 3 eexists. split; [done|]. apply Hq; try done; [exists p'; by rewrite broker_outs_peer|].
    by rewrite commands_peer.
  - do 3 eexists. split; [done|]. quiet Hq Hok.
Qed.

Lemma peer_next_ok s0 st i s acts :
  live s0 st s acts -> (st = PsHello -> acts = []) ->
  exists st' s' acts', peer_next st i s = Returns (st', s', acts') /\ run_ok s0 st' s' (acts ++ acts').
Proof.
  intros Hl Hnil.
  assert (Hquiet : st <> PsHello -> st <> PsAbortHandshake -> st <> PsClosePeer ->
    exists st' s' acts', peer_next st i s = Returns (st', s', acts') /\ run_ok s0 st' s' (acts ++ acts')).
  { intros H1 H2 H3. destruct (step_quiet s0 st i s acts Hl H1 H2 H3) as (st' & s' & acts' & Hn & Hl').
    by exists (Some st'), s', acts'. }
  destruct st; try (by apply Hquiet); cbn [peer_next].
  - rewrite Hnil in * by done. destruct (step_hello i s) as [[st s'] acts'] eqn:E.
    exists (Some st), s', acts'. split; [done|]. by apply (step_hello_ok s0 i s).
  - destruct (step_abort i s) as [s' acts'] eqn:E. exists None, s', acts'. split; [done|].
    by apply (step_abort_ok s0 i s).
  - destruct (step_close_ok s0 i s acts Hl) as (s' & acts' & -> & He). by exists None, s', acts'.
Qed.

(** A later state than the first is never [Hello] again. *)
Lemma peer_next_not_hello st i s s' acts : peer_next st i s <> Returns (Some PsHello, s', acts).
Proof.
  intros Hn. unfold peer_next, step_hello, step_abort, step_send_peers, step_wait, step_heartbeat_tick,
    after_send, step_control, step_message, outcome_bind in Hn.
  repeat (case_match; simplify_eq/=); by destruct (pi_send_ok i).
Qed.

Lemma peer_run_ok expected our tx now interval timeout st s acts :
  let s0 := ipc_peer_new expected our tx now interval timeout in
  peer_run s0 st s acts -> run_ok s0 st s acts /\ (st = Some PsHello -> acts = []).
Proof.
  intros s0. induction 1 as [|st i s acts st' s' acts' _ [IH Hnil] Hn].
  - split; [|done]. split_and!; done || constructor.
  - assert (Hlive : live s0 st s acts) by exact IH.
    destruct (peer_next_ok s0 st i s acts Hlive) as (st1 & s1 & acts1 & Hn1 & Hok); [naive_solver|].
    rewrite Hn1 in Hn. injection Hn as -> -> ->. split; [done|]. intros ->.
    by apply peer_next_not_hello in Hn1.
Qed.

(** C28: a session's bookkeeping balances. When the task of an IPC connection ends, either the
    handshake failed before the peer was known, the router was told nothing and the manager was
    told of the failure; or the router was told of the peer first, of nothing but traffic under
    its connection in between, and of its end last; and the last thing the manager heard was that
    an established session closed, or that the handshake failed. *)
Theorem ipc_session_balances expected our tx now interval timeout s acts :
  let s0 := ipc_peer_new expected our tx now interval timeout in
  peer_run s0 None s acts -> ended s0 s acts.
Proof. intros s0 Hr. exact (proj1 (peer_run_ok _ _ _ _ _ _ _ _ _ Hr)). Qed.

(** An IPC connection never panics: in every state a run reaches, the next step returns,
    whatever the stream, the channels and the clock do. *)
Theorem ipc_peer_never_panics expected our tx now interval timeout st s acts i :
  let s0 := ipc_peer_new expected our tx now interval timeout in
  peer_run s0 (Some st) s acts -> exists c, peer_next st i s = Returns c.
Proof.
  intros s0 Hr. destruct (peer_run_ok _ _ _ _ _ _ _ _ _ Hr) as [Hl Hnil].
  destruct (peer_next_ok s0 st i s acts Hl) as (st' & s' & acts' & -> & _); [naive_solver|]. by eexists.
Qed.
End life.
