(* ===== verification/IpcManager.v ===== *)
(** [src/peers/ipc/ipc_manager.rs]: the task that finds the other nodes of the machine through
    two well-known directory sockets, keeps one of them when its rank says so, and owns the list
    of sessions. *)
From S2P Require Import Prelude Types Messages World Peer Ipc IpcPeer.

(** * Constants *)
Definition directory_retry_interval : Duration := from_millis 500.
Definition directory_health_interval : Duration := from_secs 15.
Definition primary_takeover_misses : N := 3.
Definition directory_overwrite_after : N := 3.

(** * State *)

(** [(NodeId, Sender<IpcControl>, ConnectionId)]. *)
Record Session := mkSession { ss_id : NodeId; ss_control : ChanId; ss_connection_id : ConnectionId }.

(** A listener is either bound or not; a stream is known by its identity. *)
Record IpcManager := mkIpcManager {
  im_peers : list Session;
  im_our_nodeid : NodeId;
  im_primary_listener : bool;
  im_backup_listener : bool;
  im_peer_listener : bool;
  im_pending : gset NodeId;
  im_shutting_down : bool;
  im_directory_wake_at : option Instant;
  im_directory_wake_probe : bool;
  im_primary_misses : N;
  im_primary_bind_in_use : N;
  im_backup_bind_in_use : N;
  im_probe_in_flight : bool;
}.

Definition ipc_manager_new (our_nodeid : NodeId) : IpcManager :=
  mkIpcManager [] our_nodeid false false false ∅ false None false 0 0 0 false.

Definition set_peers (l : list Session) (m : IpcManager) : IpcManager :=
  mkIpcManager l (im_our_nodeid m) (im_primary_listener m) (im_backup_listener m) (im_peer_listener m)
    (im_pending m) (im_shutting_down m) (im_directory_wake_at m) (im_directory_wake_probe m)
    (im_primary_misses m) (im_primary_bind_in_use m) (im_backup_bind_in_use m) (im_probe_in_flight m).
Definition set_listeners (primary backup : bool) (m : IpcManager) : IpcManager :=
  mkIpcManager (im_peers m) (im_our_nodeid m) primary backup (im_peer_listener m)
    (im_pending m) (im_shutting_down m) (im_directory_wake_at m) (im_directory_wake_probe m)
    (im_primary_misses m) (im_primary_bind_in_use m) (im_backup_bind_in_use m) (im_probe_in_flight m).
Definition set_peer_listener (b : bool) (m : IpcManager) : IpcManager :=
  mkIpcManager (im_peers m) (im_our_nodeid m) (im_primary_listener m) (im_backup_listener m) b
    (im_pending m) (im_shutting_down m) (im_directory_wake_at m) (im_directory_wake_probe m)
    (im_primary_misses m) (im_primary_bind_in_use m) (im_backup_bind_in_use m) (im_probe_in_flight m).
Definition set_pending_ids (p : gset NodeId) (m : IpcManager) : IpcManager :=
  mkIpcManager (im_peers m) (im_our_nodeid m) (im_primary_listener m) (im_backup_listener m)
    (im_peer_listener m) p (im_shutting_down m) (im_directory_wake_at m) (im_directory_wake_probe m)
    (im_primary_misses m) (im_primary_bind_in_use m) (im_backup_bind_in_use m) (im_probe_in_flight m).
Definition set_shutting_down (b : bool) (m : IpcManager) : IpcManager :=
  mkIpcManager (im_peers m) (im_our_nodeid m) (im_primary_listener m) (im_backup_listener m)
    (im_peer_listener m) (im_pending m) b (im_directory_wake_at m) (im_directory_wake_probe m)
    (im_primary_misses m) (im_primary_bind_in_use m) (im_backup_bind_in_use m) (im_probe_in_flight m).
Definition set_wake (at_ : option Instant) (probe : bool) (m : IpcManager) : IpcManager :=
  mkIpcManager (im_peers m) (im_our_nodeid m) (im_primary_listener m) (im_backup_listener m)
    (im_peer_listener m) (im_pending m) (im_shutting_down m) at_ probe
    (im_primary_misses m) (im_primary_bind_in_use m) (im_backup_bind_in_use m) (im_probe_in_flight m).
Definition set_counts (misses primary backup : N) (m : IpcManager) : IpcManager :=
  mkIpcManager (im_peers m) (im_our_nodeid m) (im_primary_listener m) (im_backup_listener m)
    (im_peer_listener m) (im_pending m) (im_shutting_down m) (im_directory_wake_at m)
    (im_directory_wake_probe m) misses primary backup (im_probe_in_flight m).
Definition set_probe_in_flight (b : bool) (m : IpcManager) : IpcManager :=
  mkIpcManager (im_peers m) (im_our_nodeid m) (im_primary_listener m) (im_backup_listener m)
    (im_peer_listener m) (im_pending m) (im_shutting_down m) (im_directory_wake_at m)
    (im_directory_wake_probe m) (im_primary_misses m) (im_primary_bind_in_use m)
    (im_backup_bind_in_use m) b.

Definition set_misses (n : N) (m : IpcManager) : IpcManager :=
  set_counts n (im_primary_bind_in_use m) (im_backup_bind_in_use m) m.
Definition set_primary_in_use (n : N) (m : IpcManager) : IpcManager :=
  set_counts (im_primary_misses m) n (im_backup_bind_in_use m) m.
Definition set_backup_in_use (n : N) (m : IpcManager) : IpcManager :=
  set_counts (im_primary_misses m) (im_primary_bind_in_use m) n m.

(** * Rank and peers *)

(** [iter().find_position(..)]. *)
Fixpoint find_position {A} (p : A -> bool) (l : list A) : option nat :=
  match l with
  | [] => None
  | x :: r => if p x then Some 0 else S <$> find_position p r
  end.

(** [IpcManager::rank]; [None] is the panic of [unwrap]. *)
Definition rank (m : IpcManager) : option nat :=
  find_position (fun u => bool_decide (u = im_our_nodeid m))
    (sort_by_key node_uuid (map ss_id (im_peers m) ++ [im_our_nodeid m])).

Definition directory_peer_list (m : IpcManager) : list NodeId :=
  map ss_id (im_peers m) ++ [im_our_nodeid m].

Definition is_session (id : NodeId) (s : Session) : bool := bool_decide (ss_id s = id).

(** A node that is neither this one, nor connected, nor being dialled. *)
Definition is_unknown (m : IpcManager) (id : NodeId) : bool :=
  negb (bool_decide (id = im_our_nodeid m)) && negb (existsb (is_session id) (im_peers m)) &&
  negb (bool_decide (id ∈ im_pending m)).

Definition has_unknown_peers (ids : list NodeId) (m : IpcManager) : bool := existsb (is_unknown m) ids.

(** * Timers *)

Inductive BindResult := BindOk | BindAddrInUse | BindOtherError.

Definition bind_retry_delay (err : BindResult) : Duration :=
  match err with BindAddrInUse => directory_health_interval | _ => directory_retry_interval end.

Definition schedule_directory_wake (now : Instant) (delay : Duration) (probe_primary : bool)
    (m : IpcManager) : IpcManager :=
  let at_ := (now + delay)%N in
  match im_directory_wake_at m with
  | Some existing =>
      if N.leb existing at_ then set_wake (Some existing) (im_directory_wake_probe m || probe_primary) m
      else set_wake (Some at_) probe_primary m
  | None => set_wake (Some at_) probe_primary m
  end.

Definition schedule_directory_health (now : Instant) (m : IpcManager) : IpcManager :=
  if im_shutting_down m then m else schedule_directory_wake now directory_health_interval true m.

Definition drop_directory_listeners (m : IpcManager) : IpcManager :=
  set_counts 0 0 0 (set_wake None false (set_listeners false false m)).

Definition drop_backup (m : IpcManager) : IpcManager := set_listeners (im_primary_listener m) false m.

(** * The directory protocol *)
Section protocol.
Context `{Cd : Codec}.

(** [ServeDirectory] writes these, if it can. *)
Definition serve_messages (m : IpcManager) : list IpcMessage :=
  [ImHello (im_our_nodeid m); ImKnownPeers (directory_peer_list m)].

(** [query_directory]: what the socket yields, [None] when it cannot be reached or the
    exchange takes more than two seconds. *)
Definition query_directory (answer : option (list IpcMessage)) : option DirectoryView :=
  match answer with
  | Some (ImHello owner :: ImKnownPeers peers :: _) => Some (mkDirectoryView owner peers)
  | _ => None
  end.

(** [query_any_directory]. *)
Definition query_any_directory (primary backup : option (list IpcMessage)) : option (list NodeId) :=
  match query_directory primary with
  | Some view => Some (dial_ids view)
  | None => dial_ids <$> query_directory backup
  end.

(** The task of [spawn_directory_probe]. *)
Definition directory_probe (hold_primary hold_backup : bool) (primary backup : option (list IpcMessage))
    : IpcCommand :=
  IcDirectoryProbe (query_directory primary) hold_primary
    (if hold_backup then query_directory backup else None) hold_backup.
End protocol.

(** What a state does besides updating the manager. *)
Inductive ImOut :=
  | OutProbe (hold_primary hold_backup : bool)
  | OutSpawnPeer (stream : N) (expected : option NodeId)
  | OutIpcControl (tx : ChanId) (c : IpcControl)
  | OutServe (stream : N) (owner : NodeId) (peers : list NodeId).

Definition spawn_directory_probe (m : IpcManager) : IpcManager * list ImOut :=
  if im_probe_in_flight m || im_shutting_down m then (m, [])
  else (set_probe_in_flight true m, [OutProbe (im_primary_listener m) (im_backup_listener m)]).

Definition spawn_peer (stream : N) (expected : option NodeId) (m : IpcManager) : IpcManager * list ImOut :=
  (match expected with Some id => set_pending_ids ({[ id ]} ∪ im_pending m) m | None => m end,
   [OutSpawnPeer stream expected]).

(** * States *)
Inductive ImState :=
  | StCreation
  | StStartPeerListener (query : bool)
  | StQueryDirectory
  | StBindPrimary
  | StBindBackup
  | StDialPeers (ids : list NodeId) (from_directory : bool)
  | StServeDirectory (stream : N)
  | StReconcileDirectory
  | StListen (shutdown : bool)
  | StSoftShutdown
  | StShutdown
  | StHandleError
  | StHandleIpcCommand (c : IpcCommand).

(** What [select!] yields in [Listen]; [None] is a failed [accept]. *)
Inductive ImWakeup :=
  | IwPeerStream (stream : option N)
  | IwPrimaryStream (stream : option N)
  | IwBackupStream (stream : option N)
  | IwDirectoryWake
  | IwCommand (c : IpcCommand)
  | IwShuttingDown
  | IwResuming
  | IwStatusClosed
  | IwOtherStatus.

(** What the environment supplies to a step: the clock, the answer of [create_tokio], the
    directories it asks, the peers it dials and whether serving succeeds. *)
Record ImInput `{Cd : Codec} := mkImInput {
  ii_now : Instant;
  ii_bind : bool -> BindResult;           (* [try_overwrite] or not *)
  ii_primary : option (list IpcMessage);
  ii_backup : option (list IpcMessage);
  ii_connect : NodeId -> option N;
  ii_serve_ok : bool;
  ii_wake : ImWakeup;
}.

Definition u8_succ (n : N) : N := u8_saturating_add n 1.

Section states.
Context `{Cd : Codec}.

Definition st_start_peer_listener (query : bool) (i : ImInput) (m : IpcManager) : ImState * IpcManager :=
  let next := if query then StQueryDirectory else StListen false in
  if im_peer_listener m then (next, m)
  else match ii_bind i false with
       | BindOk => (next, set_peer_listener true m)
       | _ => (StShutdown, m)
       end.

Definition st_query_directory (i : ImInput) : ImState :=
  match query_any_directory (ii_primary i) (ii_backup i) with
  | Some ids => StDialPeers ids true
  | None => StBindPrimary
  end.

(** The end of [BindPrimary] and the part of [ReconcileDirectory] that holds the name. *)
Definition hold_primary (i : ImInput) (m : IpcManager) : ImState * IpcManager * list ImOut :=
  (StListen false, schedule_directory_health (ii_now i) (set_misses 0 (drop_backup m)), []).

(** Whether a bind asks to overwrite a stale name. *)
Definition overwrites (in_use : N) : bool := N.leb directory_overwrite_after in_use.

Definition st_bind_primary (i : ImInput) (m : IpcManager) : ImState * IpcManager * list ImOut :=
  if im_shutting_down m then (StListen true, m, [])
  else if im_primary_listener m then hold_primary i m
  else
    match ii_bind i (overwrites (im_primary_bind_in_use m)) with
    | BindOk => hold_primary i (set_primary_in_use 0 (set_listeners true (im_backup_listener m) m))
    | err =>
        let m :=
          match err with
          | BindAddrInUse => set_primary_in_use (u8_succ (im_primary_bind_in_use m)) m
          | _ => m
          end in
        let '(m, outs) := spawn_directory_probe m in
        (StListen false, schedule_directory_wake (ii_now i) (bind_retry_delay err) false m, outs)
    end.

Definition st_bind_backup (i : ImInput) (m : IpcManager) : ImState * IpcManager :=
  if im_shutting_down m then (StListen true, m)
  else
    let m := set_listeners false (im_backup_listener m) m in
    if im_backup_listener m then (StListen false, schedule_directory_health (ii_now i) m)
    else
      match ii_bind i (overwrites (im_backup_bind_in_use m)) with
      | BindOk =>
          (StListen false, schedule_directory_health (ii_now i)
             (set_backup_in_use 0 (set_listeners (im_primary_listener m) true m)))
      | err =>
          let m :=
            match err with
            | BindAddrInUse => set_backup_in_use (u8_succ (im_backup_bind_in_use m)) m
            | _ => m
            end in
          (StListen false, schedule_directory_wake (ii_now i) (bind_retry_delay err) false m)
      end.

(** The [retain] of [DialPeers]. *)
Definition to_dial (from_directory : bool) (m : IpcManager) (id : NodeId) : bool :=
  is_unknown m id && (from_directory || node_lt (im_our_nodeid m) id).

Definition dial_one (i : ImInput) (s : IpcManager * list ImOut) (peer_id : NodeId) : IpcManager * list ImOut :=
  match ii_connect i peer_id with
  | Some stream => let '(m, outs) := spawn_peer stream (Some peer_id) s.1 in (m, s.2 ++ outs)
  | None => s
  end.

Definition st_dial_peers (ids : list NodeId) (from_directory : bool) (i : ImInput) (m : IpcManager)
    : ImState * IpcManager * list ImOut :=
  if im_shutting_down m then (StListen true, m, [])
  else
    let '(m, outs) := foldl (dial_one i) (m, []) (retain (to_dial from_directory m) ids) in
    (StListen (im_shutting_down m), schedule_directory_health (ii_now i) m, outs).

Definition st_serve_directory (stream : N) (i : ImInput) (m : IpcManager) : ImState * list ImOut :=
  if ii_serve_ok i then (StListen false, [OutServe stream (im_our_nodeid m) (directory_peer_list m)])
  else (StHandleError, []).

Definition st_reconcile (i : ImInput) (m : IpcManager) : Outcome (ImState * IpcManager * list ImOut) :=
  if im_shutting_down m then Returns (StListen true, m, [])
  else
    match rank m with
    | None => Panics
    | Some 0 =>
        if im_primary_listener m then Returns (hold_primary i m) else Returns (StBindPrimary, m, [])
    | Some 1 => Returns (StBindBackup, m, [])
    | Some _ => Returns (StListen false, drop_directory_listeners m, [])
    end.

Definition st_soft_shutdown (m : IpcManager) : ImState * IpcManager :=
  (StListen true, drop_directory_listeners (set_peer_listener false (set_shutting_down true m))).

Definition st_shutdown (m : IpcManager) : IpcManager * list ImOut :=
  (set_peers [] (drop_directory_listeners (set_peer_listener false m)),
   map (fun s => OutIpcControl (ss_control s) IcShutdown) (im_peers m)).
(** * Listen *)

Definition accepting (shutdown : bool) (m : IpcManager) : bool := negb shutdown && negb (im_shutting_down m).

(** The branches of [select!] that can be taken. *)
Definition listen_enabled (shutdown : bool) (m : IpcManager) (wake : ImWakeup) : bool :=
  match wake with
  | IwPeerStream _ => accepting shutdown m && im_peer_listener m
  | IwPrimaryStream _ => accepting shutdown m && im_primary_listener m
  | IwBackupStream _ => accepting shutdown m && im_backup_listener m
  | IwDirectoryWake => match im_directory_wake_at m with Some _ => true | None => false end
  | IwCommand _ | IwShuttingDown | IwResuming | IwStatusClosed | IwOtherStatus => true
  end.

Definition on_wake (shutdown : bool) (i : ImInput) (m : IpcManager) : ImState * IpcManager * list ImOut :=
  let keep := StListen (shutdown || im_shutting_down m) in
  match ii_wake i with
  | IwPeerStream (Some stream) =>
      let '(m, outs) := spawn_peer stream None m in (StListen shutdown, m, outs)
  | IwPrimaryStream (Some stream) | IwBackupStream (Some stream) => (StServeDirectory stream, m, [])
  | IwPeerStream None | IwPrimaryStream None | IwBackupStream None => (StHandleError, m, [])
  | IwDirectoryWake =>
      let probe := im_directory_wake_probe m in
      let m := set_wake None false m in
      if probe then
        if im_probe_in_flight m then (keep, schedule_directory_health (ii_now i) m, [])
        else let '(m, outs) := spawn_directory_probe m in (keep, m, outs)
      else (StReconcileDirectory, m, [])
  | IwCommand c => (StHandleIpcCommand c, m, [])
  | IwShuttingDown => (StSoftShutdown, m, [])
  | IwResuming => (keep, m, map (fun s => OutIpcControl (ss_control s) IcResume) (im_peers m))
  | IwStatusClosed => (StShutdown, m, [])
  | IwOtherStatus => (keep, m, [])
  end.

(** What [Listen] does before it waits: [None] when it goes to bind the peer listener. *)
Definition listen_prepare (shutdown : bool) (i : ImInput) (m : IpcManager) : option IpcManager :=
  if accepting shutdown m && negb (im_peer_listener m) then None
  else if accepting shutdown m && match im_directory_wake_at m with None => true | Some _ => false end
  then Some (schedule_directory_health (ii_now i) m)
  else Some m.

Definition st_listen (shutdown : bool) (i : ImInput) (m : IpcManager) : ImState * IpcManager * list ImOut :=
  match listen_prepare shutdown i m with
  | None => (StStartPeerListener false, m, [])
  | Some m => on_wake shutdown i m
  end.

(** * Commands *)

Definition is_connection (id : NodeId) (c : ConnectionId) (s : Session) : bool :=
  bool_decide (ss_id s = id) && N.eqb (ss_connection_id s) c.

Definition peer_closed (uuid : NodeId) (c : ConnectionId) (m : IpcManager) : IpcManager :=
  let m := set_peers (retain (fun s => negb (is_connection uuid c s)) (im_peers m)) m in
  if existsb (is_session uuid) (im_peers m) then m
  else set_pending_ids (im_pending m ∖ {[ uuid ]}) m.

(** [peers[pos] = ..], with the control channel of the session it replaces. *)
Fixpoint replace_session (new : Session) (l : list Session) : option (ChanId * list Session) :=
  match l with
  | [] => None
  | s :: r =>
      if is_session (ss_id new) s then Some (ss_control s, new :: r)
      else match replace_session new r with
           | Some (old, r') => Some (old, s :: r')
           | None => None
           end
  end.

Definition session_ready (peer_id : NodeId) (control : ChanId) (c : ConnectionId) (m : IpcManager)
    : IpcManager * list ImOut :=
  let m := set_pending_ids (im_pending m ∖ {[ peer_id ]}) m in
  let new := mkSession peer_id control c in
  match replace_session new (im_peers m) with
  | Some (old_tx, peers) =>
      (set_peers peers m, [OutIpcControl old_tx IcShutdown; OutIpcControl control IcAccepted])
  | None => (set_peers (im_peers m ++ [new]) m, [OutIpcControl control IcAccepted])
  end.

Definition handshake_failed (id : option NodeId) (i : ImInput) (m : IpcManager) : IpcManager :=
  let m := match id with Some id => set_pending_ids (im_pending m ∖ {[ id ]}) m | None => m end in
  if negb (im_primary_listener m) && match im_peers m with [] => true | _ => false end
  then schedule_directory_wake (ii_now i) directory_retry_interval false m
  else m.

(** What a probe says of a directory this node held: whether it still does, and whom the new
    owner knows. *)
Definition probe_lost (our : NodeId) (self : bool) (view : option DirectoryView) : bool * list NodeId :=
  if self then
    match view with
    | Some v => if decide (dv_owner v = our) then (false, []) else (true, dial_ids v)
    | None => (true, [])
    end
  else (false, []).

Definition view_ids (view : option DirectoryView) : list NodeId := default [] (dial_ids <$> view).

Definition directory_probed (primary : option DirectoryView) (primary_self : bool)
    (backup : option DirectoryView) (backup_self : bool) (i : ImInput) (m : IpcManager)
    : ImState * IpcManager :=
  let m := set_probe_in_flight false m in
  if im_shutting_down m then (StListen true, m)
  else
    let '(primary_lost, primary_ids) := probe_lost (im_our_nodeid m) primary_self primary in
    let '(backup_lost, backup_ids) := probe_lost (im_our_nodeid m) backup_self backup in
    let m := set_listeners (im_primary_listener m && negb primary_lost)
                           (im_backup_listener m && negb backup_lost) m in
    let stolen_ids := primary_ids ++ backup_ids in
    if has_unknown_peers stolen_ids m then
      (StDialPeers stolen_ids true, schedule_directory_health (ii_now i) m)
    else if primary_lost || backup_lost then (StReconcileDirectory, m)
    else
      let m :=
        if primary_self then m
        else match primary with
             | Some _ => set_misses 0 m
             | None => set_misses (u8_succ (im_primary_misses m)) m
             end in
      let missed := match primary with None => negb primary_self | Some _ => false end in
      if missed && N.leb primary_takeover_misses (im_primary_misses m) then (StBindPrimary, m)
      else
        let ids := view_ids primary ++ view_ids backup in
        let m' := schedule_directory_health (ii_now i) m in
        if has_unknown_peers ids m then (StDialPeers ids true, m')
        else (StListen (im_shutting_down m'), m').

Definition handle_ipc_command (c : IpcCommand) (i : ImInput) (m : IpcManager)
    : ImState * IpcManager * list ImOut :=
  match c with
  | IcPeerClosed uuid connection_id => (StReconcileDirectory, peer_closed uuid connection_id m, [])
  | IcSessionReady peer_id control connection_id =>
      let '(m, outs) := session_ready peer_id control connection_id m in (StReconcileDirectory, m, outs)
  | IcHandshakeFailed id =>
      let m := handshake_failed id i m in (StListen (im_shutting_down m), m, [])
  | IcLearnedPeers ids => (StDialPeers ids false, m, [])
  | IcDirectoryProbe primary primary_self backup backup_self =>
      let '(s, m) := directory_probed primary primary_self backup backup_self i m in (s, m, [])
  end.

(** [State::next]; [None] ends the task. *)
Definition im_next (s : ImState) (i : ImInput) (m : IpcManager)
    : Outcome (option ImState * IpcManager * list ImOut) :=
  match s with
  | StCreation => Returns (Some (StStartPeerListener true), m, [])
  | StStartPeerListener query =>
      let '(s, m) := st_start_peer_listener query i m in Returns (Some s, m, [])
  | StQueryDirectory => Returns (Some (st_query_directory i), m, [])
  | StBindPrimary => let '(s, m, outs) := st_bind_primary i m in Returns (Some s, m, outs)
  | StBindBackup => let '(s, m) := st_bind_backup i m in Returns (Some s, m, [])
  | StDialPeers ids from_directory =>
      let '(s, m, outs) := st_dial_peers ids from_directory i m in Returns (Some s, m, outs)
  | StServeDirectory stream =>
      let '(s, outs) := st_serve_directory stream i m in Returns (Some s, m, outs)
  | StReconcileDirectory =>
      outcome_bind (st_reconcile i m) (fun '(s, m, outs) => Returns (Some s, m, outs))
  | StListen shutdown => let '(s, m, outs) := st_listen shutdown i m in Returns (Some s, m, outs)
  | StSoftShutdown => let '(s, m) := st_soft_shutdown m in Returns (Some s, m, [])
  | StShutdown => let '(m, outs) := st_shutdown m in Returns (None, m, outs)
  | StHandleError => Returns (Some (StListen (im_shutting_down m)), m, [])
  | StHandleIpcCommand c =>
      let '(s, m, outs) := handle_ipc_command c i m in Returns (Some s, m, outs)
  end.

(** A step of [start]: in [Listen], only an enabled branch of [select!] is taken. *)
Definition step_enabled (s : ImState) (i : ImInput) (m : IpcManager) : Prop :=
  match s with
  | StListen shutdown =>
      match listen_prepare shutdown i m with
      | Some m => listen_enabled shutdown m (ii_wake i) = true
      | None => True
      end
  | _ => True
  end.

(** The configurations of [start]. *)
Inductive im_reachable (our_nodeid : NodeId) : option ImState -> IpcManager -> Prop :=
  | im_start : im_reachable our_nodeid (Some StCreation) (ipc_manager_new our_nodeid)
  | im_step s i m s' m' outs :
      im_reachable our_nodeid (Some s) m -> step_enabled s i m ->
      im_next s i m = Returns (s', m', outs) -> im_reachable our_nodeid s' m'.
End states.
