(* ===== verification/IpcManagerProofs.v ===== *)
(** What the IPC manager guarantees: who holds the directories, what it does while shutting
    down, and the integrity of its list of sessions. *)
From S2P Require Import Prelude Types Messages World Peer Ipc IpcPeer IpcPeerProofs IpcManager.

(** * The invariant *)

(** States that bind or serve without asking whether the node is shutting down. *)
Definition opens_sockets (s : ImState) : bool :=
  match s with StCreation | StStartPeerListener _ | StQueryDirectory | StServeDirectory _ => true | _ => false end.

Record im_inv (s : ImState) (m : IpcManager) : Prop := {
  v_one_directory : im_primary_listener m = true -> im_backup_listener m = false;
  v_quiet : im_shutting_down m = true ->
    im_primary_listener m = false /\ im_backup_listener m = false /\ im_peer_listener m = false /\
    opens_sockets s = false;
  v_sessions : NoDup (map ss_id (im_peers m));
}.

(** What the invariant reads of a manager. *)
Definition view (m : IpcManager) : bool * bool * bool * bool * list NodeId :=
  (im_primary_listener m, im_backup_listener m, im_peer_listener m, im_shutting_down m,
   map ss_id (im_peers m)).

Lemma im_inv_view s m p b l sd ids :
  view m = (p, b, l, sd, ids) -> (p = true -> b = false) ->
  (sd = true -> p = false /\ b = false /\ l = false /\ opens_sockets s = false) -> NoDup ids -> im_inv s m.
Proof. intros [= <- <- <- <- <-] H1 H2 H3. by split. Qed.

Lemma im_inv_same s s' m m' :
  im_inv s m -> view m' = view m -> (im_shutting_down m = true -> opens_sockets s' = false) -> im_inv s' m'.
Proof.
  intros [H1 H2 H3] Hv Hs'. eapply im_inv_view; [exact Hv|done| |done].
  intros Hsd. destruct (H2 Hsd) as (? & ? & ? & _). auto.
Qed.

Section manager.
Context `{Cd : Codec}.

(** * Rank *)

Lemma node_lt_spec a b : node_lt a b = true <-> (node_uuid a < node_uuid b)%N.
Proof. unfold node_lt. apply N.ltb_lt. Qed.

Lemma find_position_sorted our l :
  sorted_by_key node_uuid l -> our ∈ l ->
  find_position (fun u => bool_decide (u = our)) l = Some (length (retain (fun u => node_lt u our) l)).
Proof.
  unfold sorted_by_key. induction l as [|x l IH]; intros Hs Hin; [by apply elem_of_nil in Hin|].
  apply StronglySorted_inv in Hs as [Hs Hall]. simpl. rewrite retain_cons. case_bool_decide as Hx.
  - subst x. assert (retain (fun u => node_lt u our) (our :: l) = []) as Hnil.
    { apply elem_of_nil_inv. intros y [Hy%node_lt_spec Hin']%elem_of_retain.
      apply elem_of_cons in Hin' as [->|Hin']; [lia|]. rewrite Forall_forall in Hall. specialize (Hall y Hin'). lia. }
    rewrite retain_cons in Hnil. by rewrite Hnil.
  - apply elem_of_cons in Hin as [?|Hin]; [congruence|]. rewrite (IH Hs Hin).
    rewrite Forall_forall in Hall. specialize (Hall our Hin).
    assert (node_lt x our = true) as ->; [|done]. apply node_lt_spec.
    assert (node_uuid x <> node_uuid our); [|lia]. intros He. apply Hx. destruct x, our. simpl in He. by subst.
Qed.

(** The rank of a node is the number of its sessions with older nodes. *)
Lemma rank_spec m :
  rank m = Some (length (retain (fun u => node_lt u (im_our_nodeid m)) (directory_peer_list m))).
Proof.
  unfold rank, directory_peer_list. set (l := _ ++ _). rewrite find_position_sorted.
  - f_equal. apply Permutation_length. by rewrite (sort_by_key_perm node_uuid l).
  - apply sort_by_key_sorted.
  - rewrite sort_by_key_perm. unfold l. apply elem_of_app. right. by apply list_elem_of_singleton.
Qed.

(** Updates of timers, counters and pending identifiers. *)
Lemma view_wake now delay probe m : view (schedule_directory_wake now delay probe m) = view m.
Proof. unfold schedule_directory_wake. destruct (im_directory_wake_at m); [destruct (N.leb _ _)|]; done. Qed.

Lemma view_health now m : view (schedule_directory_health now m) = view m.
Proof. unfold schedule_directory_health. destruct (im_shutting_down m); [done | apply view_wake]. Qed.

Lemma view_probe m m' outs : spawn_directory_probe m = (m', outs) -> view m' = view m.
Proof. unfold spawn_directory_probe. destruct (_ || _); by intros [= <- <-]. Qed.

Lemma view_dial i ids : forall s, view (foldl (dial_one i) s ids).1 = view s.1.
Proof.
  induction ids as [|id ids IH]; intros s; simpl; [done|]. rewrite IH. unfold dial_one.
  by destruct (ii_connect i id).
Qed.

Lemma view_handshake_failed id i m : view (handshake_failed id i m) = view m.
Proof. unfold handshake_failed. destruct id; destruct (negb _ && _); by rewrite ?view_wake. Qed.

(** The list of sessions. *)
Lemma replace_session_ids new l tx l' :
  replace_session new l = Some (tx, l') -> map ss_id l' = map ss_id l.
Proof.
  revert l'. induction l as [|s l IH]; intros l'; simpl; [done|].
  destruct (is_session (ss_id new) s) eqn:E.
  - intros [= <- <-]. apply bool_decide_eq_true in E. simpl. by rewrite E.
  - destruct (replace_session new l) as [[old r]|]; [|done]. intros [= <- <-]. simpl. f_equal. by apply IH.
Qed.

Lemma replace_session_None new l : replace_session new l = None -> ss_id new ∉ map ss_id l.
Proof.
  induction l as [|s l IH]; simpl; [by intros _ ?%elem_of_nil|].
  destruct (is_session (ss_id new) s) eqn:E; [done|].
  destruct (replace_session new l) as [[]|]; [done|]. intros _ [He|He]%elem_of_cons; [|by apply IH].
  unfold is_session in E. apply bool_decide_eq_false in E. congruence.
Qed.

Lemma view_session_ready id tx c m m' outs :
  NoDup (map ss_id (im_peers m)) -> session_ready id tx c m = (m', outs) ->
  exists ids, NoDup ids /\
    view m' = (im_primary_listener m, im_backup_listener m, im_peer_listener m, im_shutting_down m, ids).
Proof.
  intros Hnd. unfold session_ready. destruct (replace_session _ _) as [[old l]|] eqn:E; intros [= <- <-].
  - eexists. split; [|reflexivity]. simpl. by rewrite (replace_session_ids _ _ _ _ E).
  - eexists. split; [|reflexivity]. simpl. apply replace_session_None in E. simpl in E.
    rewrite map_app. apply NoDup_app. split_and!; [done| |apply NoDup_singleton].
    intros x Hx ->%list_elem_of_singleton. done.
Qed.

Lemma view_peer_closed id c m :
  view (peer_closed id c m) =
  (im_primary_listener m, im_backup_listener m, im_peer_listener m, im_shutting_down m,
   map ss_id (retain (fun s => negb (is_connection id c s)) (im_peers m))).
Proof. unfold peer_closed. by destruct (existsb _ _). Qed.

(** * The invariant is kept *)

Lemma hold_primary_inv i m :
  im_shutting_down m = false -> NoDup (map ss_id (im_peers m)) ->
  let '(s', m', _) := hold_primary i m in im_inv s' m'.
Proof.
  intros Hsd Hnd. simpl. eapply im_inv_view; [rewrite view_health; reflexivity|simpl; done|simpl; congruence|done].
Qed.

Lemma bind_primary_inv i m s' m' outs :
  im_inv StBindPrimary m -> st_bind_primary i m = (s', m', outs) -> im_inv s' m'.
Proof.
  intros I. unfold st_bind_primary. destruct (im_shutting_down m) eqn:Esd.
  { intros [= <- <- <-]. by apply (im_inv_same _ _ _ _ I). }
  destruct (im_primary_listener m) eqn:Ep.
  { intros [= <- <- <-]. apply (hold_primary_inv i m Esd), I. }
  destruct (ii_bind i _).
  - intros [= <- <- <-]. by apply (hold_primary_inv i (set_primary_in_use 0 (set_listeners true _ m))), I.
  - destruct (spawn_directory_probe _) as [m1 o] eqn:E. intros [= <- <- <-].
    apply (im_inv_same _ _ _ _ I); [|done]. rewrite view_wake. by rewrite (view_probe _ _ _ E).
  - destruct (spawn_directory_probe _) as [m1 o] eqn:E. intros [= <- <- <-].
    apply (im_inv_same _ _ _ _ I); [|done]. rewrite view_wake. by rewrite (view_probe _ _ _ E).
Qed.

Lemma bind_backup_inv i m s' m' : im_inv StBindBackup m -> st_bind_backup i m = (s', m') -> im_inv s' m'.
Proof.
  intros I. unfold st_bind_backup. destruct (im_shutting_down m) eqn:Esd.
  { intros [= <- <-]. by apply (im_inv_same _ _ _ _ I). }
  assert (Hv : forall m1, view m1 = (false, im_backup_listener m1, im_peer_listener m, false, map ss_id (im_peers m)) ->
    im_inv (StListen false) m1).
  { intros m1 Hv. eapply im_inv_view; [exact Hv|done|done|apply I]. }
  simpl. destruct (im_backup_listener m) eqn:Eb; [|destruct (ii_bind i _)]; intros [= <- <-];
    eapply im_inv_view; try (rewrite ?view_health, ?view_wake; reflexivity); simpl; try done;
    rewrite ?Esd; try done; apply I.
Qed.

Lemma listen_inv shutdown i m s' m' outs :
  im_inv (StListen shutdown) m -> step_enabled (StListen shutdown) i m ->
  st_listen shutdown i m = (s', m', outs) -> im_inv s' m'.
Proof.
  intros I. unfold step_enabled, st_listen.
  destruct (listen_prepare shutdown i m) as [m1|] eqn:Epre.
  2: { intros _ [= <- <- <-]. apply (im_inv_same _ _ _ _ I); [done|]. unfold listen_prepare, accepting in Epre.
       intros Hsd. rewrite Hsd, andb_false_r in Epre. done. }
  assert (Hv : view m1 = view m).
  { unfold listen_prepare in Epre. destruct (accepting shutdown m && negb _); [done|].
    destruct (accepting shutdown m && _); injection Epre as <-; [apply view_health | done]. }
  assert (I1 : im_inv (StListen shutdown) m1) by (by apply (im_inv_same _ _ _ _ I)).
  clear I Epre Hv. intros Hen. unfold on_wake.
  assert (Hquiet : forall b, accepting shutdown m1 && b = true -> im_shutting_down m1 = false).
  { intros b. unfold accepting. by destruct shutdown, (im_shutting_down m1). }
  destruct (ii_wake i) as [[st|]|[st|]|[st|]| |c| | | |]; simpl in *;
    try (intros [= <- <- <-]; apply (im_inv_same _ _ _ _ I1); [done|]; try done;
         intros Hsd; by rewrite (Hquiet _ Hen) in Hsd).
  destruct (im_directory_wake_probe m1); [|by intros [= <- <- <-]; apply (im_inv_same _ _ _ _ I1)].
  destruct (im_probe_in_flight m1) eqn:Epf.
  { intros [= <- <- <-]. apply (im_inv_same _ _ _ _ I1); [by rewrite view_health | done]. }
  destruct (spawn_directory_probe _) as [m2 o] eqn:E. intros [= <- <- <-].
  apply (im_inv_same _ _ _ _ I1); [by rewrite (view_probe _ _ _ E) | done].
Qed.

Lemma directory_probed_inv p ps b bs i m s' m' :
  im_inv (StHandleIpcCommand (IcDirectoryProbe p ps b bs)) m ->
  directory_probed p ps b bs i m = (s', m') -> im_inv s' m'.
Proof.
  intros I. unfold directory_probed. simpl. destruct (im_shutting_down m) eqn:Esd.
  { intros [= <- <-]. by apply (im_inv_same _ _ _ _ I). }
  destruct (probe_lost _ ps p) as [pl pids], (probe_lost _ bs b) as [bl bids].
  set (m1 := set_listeners _ _ _).
  assert (I1 : forall s, im_inv s m1).
  { intros s. eapply im_inv_view; [reflexivity| |simpl; congruence|apply I].
    simpl. intros [Hp _]%andb_true_iff. by rewrite (v_one_directory _ _ I Hp). }
  assert (Hsd1 : im_shutting_down m1 = false) by done.
  assert (Hgoal : forall s m2, view m2 = view m1 -> im_inv s m2).
  { intros s m2 Hv. apply (im_inv_same s s m1 m2 (I1 s) Hv). by rewrite Hsd1. }
  destruct (has_unknown_peers _ m1); [intros [= <- <-]; apply Hgoal, view_health|].
  destruct (pl || bl); [intros [= <- <-]; by apply Hgoal|].
  set (m2 := if ps then _ else _). assert (Hv2 : view m2 = view m1) by (unfold m2; destruct ps, p; done).
  destruct (_ && N.leb _ _); [intros [= <- <-]; by apply Hgoal|].
  destruct (has_unknown_peers _ m2); intros [= <- <-]; apply Hgoal; by rewrite view_health.
Qed.

Lemma handle_command_inv c i m s' m' outs :
  im_inv (StHandleIpcCommand c) m -> handle_ipc_command c i m = (s', m', outs) -> im_inv s' m'.
Proof.
  intros I. assert (Hquiet : im_shutting_down m = true -> im_primary_listener m = false /\
    im_backup_listener m = false /\ im_peer_listener m = false /\ opens_sockets s' = opens_sockets s').
  { intros Hsd. by destruct (v_quiet _ _ I Hsd) as (? & ? & ? & _). }
  destruct c as [id c|ids|id tx c|id|p ps b bs]; simpl.
  - intros [= <- <- <-]. eapply im_inv_view; [apply view_peer_closed|apply I|exact Hquiet|].
    eapply sublist_NoDup; [apply I|]. apply fmap_sublist, retain_sublist.
  - intros [= <- <- <-]. by apply (im_inv_same _ _ _ _ I).
  - destruct (session_ready id tx c m) as [m1 o] eqn:E. intros [= <- <- <-].
    destruct (view_session_ready _ _ _ _ _ _ (v_sessions _ _ I) E) as (l & Hnd & Hv).
    eapply im_inv_view; [exact Hv|apply I|exact Hquiet|done].
  - intros [= <- <- <-]. apply (im_inv_same _ _ _ _ I); [apply view_handshake_failed | done].
  - destruct (directory_probed p ps b bs i m) as [s1 m1] eqn:E. intros [= <- <- <-].
    by eapply directory_probed_inv.
Qed.

(** Every enabled step returns and keeps the invariant. *)
Lemma im_next_ok s i m :
  im_inv s m -> step_enabled s i m ->
  exists s' m' outs, im_next s i m = Returns (s', m', outs) /\
    forall s1, s' = Some s1 -> im_inv s1 m'.
Proof.
  intros I Hen.
  assert (Hsame : forall s1 m1, view m1 = view m -> opens_sockets s1 = false -> im_inv s1 m1).
  { intros s1 m1 Hv Ho. by apply (im_inv_same s s1 m m1 I Hv). }
  assert (Hopen : opens_sockets s = true -> forall s1 m1, view m1 = view m -> im_inv s1 m1).
  { intros Ho s1 m1 Hv. apply (im_inv_same s s1 m m1 I Hv). intros Hsd.
    destruct (v_quiet _ _ I Hsd) as (_ & _ & _ & Hf). congruence. }
  destruct s as [|query| | | |ids fd|stream| |shutdown| | | |c]; cbn [im_next].
  - do 3 eexists. split; [done|]. intros s1 [= <-]. by apply Hopen.
  - unfold st_start_peer_listener. destruct (im_peer_listener m);
      [|destruct (ii_bind i _)]; do 3 eexists; (split; [done|]); intros s1 [= <-]; try (by apply Hopen).
    eapply im_inv_view; [reflexivity|apply I| |apply I]. intros Hsd.
    destruct (v_quiet _ _ I Hsd) as (_ & _ & _ & Hf). done.
  - do 3 eexists. split; [done|]. intros s1 [= <-]. by apply Hopen.
  - destruct (st_bind_primary i m) as [[s' m'] outs] eqn:E. do 3 eexists. split; [done|].
    intros s1 [= <-]. by eapply bind_primary_inv.
  - destruct (st_bind_backup i m) as [s' m'] eqn:E. do 3 eexists. split; [done|].
    intros s1 [= <-]. by eapply bind_backup_inv.
  - unfold st_dial_peers. destruct (im_shutting_down m); [do 3 eexists; split; [done|]; intros s1 [= <-]; by apply Hsame|].
    pose proof (view_dial i (retain (to_dial fd m) ids) (m, [])) as Hv.
    destruct (foldl _ _ _) as [m' outs]. do 3 eexists. split; [done|]. intros s1 [= <-].
    apply Hsame; [by rewrite view_health; exact Hv | done].
  - unfold st_serve_directory. destruct (ii_serve_ok i); do 3 eexists; (split; [done|]); intros s1 [= <-]; by apply Hsame.
  - unfold st_reconcile. destruct (im_shutting_down m) eqn:Esd; simpl; [do 3 eexists; split; [done|]; intros s1 [= <-]; by apply Hsame|].
    rewrite rank_spec. destruct (length _) as [|[|k]].
    + destruct (im_primary_listener m); do 3 eexists; (split; [done|]); intros s1 [= <-]; [|by apply Hsame].
      apply (hold_primary_inv i m Esd), I.
    + do 3 eexists. split; [done|]. intros s1 [= <-]. by apply Hsame.
    + do 3 eexists. split; [done|]. intros s1 [= <-]. eapply im_inv_view; [reflexivity|done| |apply I].
      simpl. congruence.
  - destruct (st_listen shutdown i m) as [[s' m'] outs] eqn:E. do 3 eexists. split; [done|].
    intros s1 [= <-]. by eapply listen_inv.
  - do 3 eexists. split; [done|]. intros s1 [= <-]. eapply im_inv_view; [reflexivity|done|done|apply I].
  - destruct (st_shutdown m) as [m' outs] eqn:E. by do 3 eexists.
  - do 3 eexists. split; [done|]. intros s1 [= <-]. by apply Hsame.
  - destruct (handle_ipc_command c i m) as [[s' m'] outs] eqn:E. do 3 eexists. split; [done|].
    intros s1 [= <-]. by eapply handle_command_inv.
Qed.

Lemma im_reachable_inv our s m : im_reachable our (Some s) m -> im_inv s m.
Proof.
  remember (Some s) as o eqn:Ho. intros Hr. revert s Ho. induction Hr as [|s i m s' m' outs _ IH Hen Hn]; intros s1 Ho.
  - injection Ho as <-. by split; [done|done|apply NoDup_nil].
  - destruct (im_next_ok s i m (IH _ eq_refl) Hen) as (s2 & m2 & o2 & Hn2 & Hinv).
    rewrite Hn in Hn2. injection Hn2 as <- <- <-. by apply Hinv.
Qed.

(** * Theorems *)

(** C25: the IPC manager never panics, and at any time it holds at most one of the two directory
    sockets and at most one session per node. *)
Theorem ipc_manager_safe our s m i :
  im_reachable our (Some s) m -> step_enabled s i m ->
  (exists c, im_next s i m = Returns c) /\
  (im_primary_listener m = true -> im_backup_listener m = false) /\ NoDup (map ss_id (im_peers m)).
Proof.
  intros Hr Hen. pose proof (im_reachable_inv _ _ _ Hr) as I. split; [|split; apply I].
  destruct (im_next_ok s i m I Hen) as (s' & m' & outs & -> & _). by eexists.
Qed.

(** Outputs that open a connection, serve the directory or probe it. *)
Definition reaches_out (o : ImOut) : bool :=
  match o with OutIpcControl _ _ => false | _ => true end.

Definition quiet_outs (outs : list ImOut) : Prop := Forall (fun o => reaches_out o = false) outs.

Lemma quiet_nil : quiet_outs [].
Proof. constructor. Qed.
#[local] Hint Resolve quiet_nil : core.

Lemma view_shutting_down m m' : view m' = view m -> im_shutting_down m' = im_shutting_down m.
Proof. by intros [=]. Qed.

Lemma quiet_controls (f : Session -> ImOut) l : (forall s, reaches_out (f s) = false) -> quiet_outs (map f l).
Proof. intros Hf. apply Forall_map, Forall_true, Hf. Qed.

Lemma quiet_probe m m' outs :
  im_shutting_down m = true -> spawn_directory_probe m = (m', outs) -> m' = m /\ outs = [].
Proof. intros Hsd. unfold spawn_directory_probe. rewrite Hsd, orb_true_r. by intros [= <- <-]. Qed.

Lemma quiet_listen shutdown i m s' m' outs :
  im_shutting_down m = true -> step_enabled (StListen shutdown) i m ->
  st_listen shutdown i m = (s', m', outs) -> im_shutting_down m' = true /\ quiet_outs outs.
Proof.
  intros Hsd. unfold step_enabled, st_listen.
  assert (Hacc : accepting shutdown m = false) by (unfold accepting; rewrite Hsd; apply andb_false_r).
  assert (listen_prepare shutdown i m = Some m) as -> by (unfold listen_prepare; by rewrite Hacc).
  unfold on_wake. destruct (ii_wake i) as [[st|]|[st|]|[st|]| |c| | | |]; simpl; rewrite ?Hacc; try done;
    try (intros _ [= <- <- <-]; split; [done|]; first [by constructor | by apply quiet_controls]).
  intros _. assert (Hsd1 : im_shutting_down (set_wake None false m) = true) by done. revert Hsd1.
  generalize (set_wake None false m) as m1. intros m1 Hsd1.
  destruct (im_directory_wake_probe m); [|by intros [= <- <- <-]].
  destruct (im_probe_in_flight m); [intros [= <- <- <-]; split; [|done]|].
  - by rewrite (view_shutting_down _ _ (view_health _ _)).
  - destruct (spawn_directory_probe m1) as [m2 o] eqn:E. apply (quiet_probe _ _ _ Hsd1) in E as [-> ->].
    by intros [= <- <- <-].
Qed.

Lemma quiet_command c i m s' m' outs :
  im_shutting_down m = true -> handle_ipc_command c i m = (s', m', outs) ->
  im_shutting_down m' = true /\ quiet_outs outs.
Proof.
  intros Hsd. destruct c as [id c|ids|id tx c|id|p ps b bs]; simpl.
  - intros [= <- <- <-]. unfold peer_closed. by destruct (existsb _ _).
  - by intros [= <- <- <-].
  - unfold session_ready. destruct (replace_session _ _) as [[]|]; intros [= <- <- <-]; (split; [done|]); by repeat constructor.
  - intros [= <- <- <-]. by rewrite (view_shutting_down _ _ (view_handshake_failed _ _ _)).
  - unfold directory_probed. simpl. rewrite Hsd. by intros [= <- <- <-].
Qed.

Lemma quiet_step s i m s' m' outs :
  im_shutting_down m = true -> opens_sockets s = false -> step_enabled s i m ->
  im_next s i m = Returns (s', m', outs) -> im_shutting_down m' = true /\ quiet_outs outs.
Proof.
  intros Hsd Ho Hen. destruct s as [|query| | | |ids fd|stream| |shutdown| | | |c]; try done; cbn [im_next].
  - unfold st_bind_primary. rewrite Hsd. by intros [= <- <- <-].
  - unfold st_bind_backup. rewrite Hsd. by intros [= <- <- <-].
  - unfold st_dial_peers. rewrite Hsd. by intros [= <- <- <-].
  - unfold st_reconcile. rewrite Hsd. by intros [= <- <- <-].
  - destruct (st_listen shutdown i m) as [[s1 m1] o] eqn:E. intros [= <- <- <-]. by eapply quiet_listen.
  - by intros [= <- <- <-].
  - intros [= <- <- <-]. split; [done|]. by apply quiet_controls.
  - by intros [= <- <- <-].
  - destruct (handle_ipc_command c i m) as [[s1 m1] o] eqn:E. intros [= <- <- <-]. by eapply quiet_command.
Qed.

(** C26: once the node has announced its shutdown, the manager stays quiet for good: it holds no
    socket, and each further step keeps it shutting down and neither dials, nor accepts, nor
    serves or probes a directory. *)
Theorem shutdown_stays_quiet our s m i s' m' outs :
  im_reachable our (Some s) m -> step_enabled s i m -> im_shutting_down m = true ->
  im_next s i m = Returns (s', m', outs) ->
  im_primary_listener m = false /\ im_backup_listener m = false /\ im_peer_listener m = false /\
  im_shutting_down m' = true /\ quiet_outs outs.
Proof.
  intros Hr Hen Hsd Hn. destruct (v_quiet _ _ (im_reachable_inv _ _ _ Hr) Hsd) as (? & ? & ? & Ho).
  split_and!; [done..| |]; by eapply quiet_step.
Qed.

(** Older nodes among the same nodes have smaller ranks. *)
Lemma older_counts a b l l' :
  l ≡ₚ l' -> a ∈ l' -> node_lt a b = true ->
  length (retain (fun u => node_lt u a) l) < length (retain (fun u => node_lt u b) l').
Proof.
  intros -> Hin Hlt%node_lt_spec. set (lb := retain (fun u => node_lt u b) l').
  assert (retain (fun u => node_lt u a) l' = retain (fun u => node_lt u a) lb) as ->.
  { unfold lb. clear Hin lb. induction l' as [|x l' IH]; [done|]. rewrite !retain_cons.
    destruct (node_lt x a) eqn:Ea; destruct (node_lt x b) eqn:Eb; rewrite ?retain_cons, ?Ea, <- ?IH; [done| |done|done].
    apply node_lt_spec in Ea. apply not_true_iff_false in Eb. destruct Eb. apply node_lt_spec. lia. }
  apply retain_length_lt. exists a. split; [by apply elem_of_retain; rewrite node_lt_spec|].
  apply not_true_iff_false. rewrite node_lt_spec. lia.
Qed.

Lemma our_in_directory m : im_our_nodeid m ∈ directory_peer_list m.
Proof. apply elem_of_app. right. by apply list_elem_of_singleton. Qed.

(** Nodes that know the same nodes agree on who holds the directories: their ranks differ
    and the rank of a node is zero exactly when no node it knows is older. A node that
    reconciles goes for the primary directory when its rank is zero, for the backup when it is
    one, giving up the primary, and gives up both when it is larger. *)
Theorem ranks_elect_holders m1 m2 :
  directory_peer_list m1 ≡ₚ directory_peer_list m2 -> im_our_nodeid m1 <> im_our_nodeid m2 ->
  rank m1 <> rank m2 /\
  (rank m1 = Some 0 <-> forall id, id ∈ directory_peer_list m1 -> node_lt id (im_our_nodeid m1) = false) /\
  forall i, im_shutting_down m1 = false -> exists s m outs,
    st_reconcile i m1 = Returns (s, m, outs) /\
    (s = StBindPrimary <-> rank m1 = Some 0 /\ im_primary_listener m1 = false) /\
    (s = StBindBackup <-> rank m1 = Some 1) /\
    (s = StListen false -> im_backup_listener m = false /\ (im_primary_listener m = true <-> rank m1 = Some 0)) /\
    (s = StBindBackup -> forall i', im_primary_listener (st_bind_backup i' m).2 = false).
Proof.
  intros Hp Hne. rewrite !rank_spec. split_and!.
  - intros [= He]. pose proof (our_in_directory m1). pose proof (our_in_directory m2).
    assert (Hu : node_uuid (im_our_nodeid m1) <> node_uuid (im_our_nodeid m2)).
    { intros Hu. apply Hne. destruct (im_our_nodeid m1), (im_our_nodeid m2). simpl in Hu. by subst. }
    destruct (N.lt_gt_cases (node_uuid (im_our_nodeid m1)) (node_uuid (im_our_nodeid m2))) as [[Hlt|Hlt] _]; [done|..];
      apply node_lt_spec in Hlt.
    + pose proof (older_counts _ _ _ _ Hp ltac:(by rewrite <- Hp) Hlt). lia.
    + pose proof (older_counts _ _ _ _ (symmetry Hp) ltac:(by rewrite Hp) Hlt). lia.
  - split.
    + intros [= H0%length_zero_iff_nil] id Hin. apply not_true_iff_false. intros Hlt.
      assert (id ∈ @nil NodeId) as []%elem_of_nil. rewrite <- H0. by apply elem_of_retain.
    + intros Hall. do 2 f_equal. apply length_zero_iff_nil, elem_of_nil_inv. intros x [Hx Hin]%elem_of_retain.
      by rewrite (Hall x Hin) in Hx.
  - intros i Hsd. unfold st_reconcile. rewrite Hsd, rank_spec. destruct (length _) as [|[|k]].
    + destruct (im_primary_listener m1) eqn:E; do 3 eexists; (split; [done|]); [|naive_solver].
      pose proof (view_health (ii_now i) (set_misses 0 (drop_backup m1))) as [= Hv Hb _ _ _].
      split_and!; [naive_solver..| |naive_solver]. intros _. rewrite Hv, Hb. simpl. by rewrite E.
    + do 3 eexists. split; [done|]. split_and!; [naive_solver..|]. intros _ i'.
      unfold st_bind_backup. rewrite Hsd. simpl. destruct (im_backup_listener m1), (ii_bind i' (overwrites (im_backup_bind_in_use m1))); simpl;
        unfold schedule_directory_health; simpl; rewrite ?Hsd; unfold schedule_directory_wake; simpl;
        by repeat case_match.
    + do 3 eexists. split; [done|]. split_and!; naive_solver.
Qed.

(** While it waits, a manager that is not shutting down accepts peers and always has a timer
    running, due at most a health interval from now when none was set. *)
Lemma waits_with_a_timer i m m' :
  listen_prepare false i m = Some m' -> im_shutting_down m = false ->
  im_peer_listener m' = true /\
  exists t, im_directory_wake_at m' = Some t /\
    (im_directory_wake_at m = None -> t = (ii_now i + directory_health_interval)%N).
Proof.
  unfold listen_prepare, accepting, schedule_directory_health, schedule_directory_wake. intros Hp Hsd.
  rewrite Hsd in Hp. simpl in Hp. destruct (im_peer_listener m) eqn:El; [|done]. simpl in Hp.
  destruct (im_directory_wake_at m) as [t|] eqn:Ew; injection Hp as <-; (split; [done|]).
  - exists t. by rewrite Ew.
  - by eexists.
Qed.

(** Scheduling never postpones: the timer is due at the earlier of what was set and what is
    asked for, and a probe that was due then is not forgotten. *)
Lemma scheduling_keeps_the_earlier now delay probe m :
  let m' := schedule_directory_wake now delay probe m in
  im_directory_wake_at m' =
    Some (match im_directory_wake_at m with Some t => N.min t (now + delay) | None => (now + delay)%N end) /\
  (im_directory_wake_at m' = im_directory_wake_at m -> im_directory_wake_probe m = true ->
   im_directory_wake_probe m' = true).
Proof.
  unfold schedule_directory_wake. destruct (im_directory_wake_at m) as [t|] eqn:Ew; cbv zeta; [|done].
  destruct (N.leb_spec t (now + delay)) as [Hle|Hgt]; simpl.
  - split; [f_equal; tlia|]. intros _ ->. done.
  - split; [f_equal; tlia|]. intros [= Heq]. tlia.
Qed.

(** What a node serves is what another reads: querying the directory of a manager yields its
    own identifier and exactly the nodes it knows, so that whoever asks learns to dial all of them. *)
Lemma directory_roundtrip m rest :
  exists v, query_directory (Some (serve_messages m ++ rest)) = Some v /\
    dv_owner v = im_our_nodeid m /\ dv_peers v = directory_peer_list m /\
    forall id, id ∈ dial_ids v <-> id = im_our_nodeid m \/ exists s, s ∈ im_peers m /\ ss_id s = id.
Proof.
  eexists. split; [reflexivity|]. split_and!; [done..|]. intros id. rewrite elem_of_dial_ids. simpl.
  unfold directory_peer_list. rewrite elem_of_app, list_elem_of_singleton, list_elem_of_fmap. naive_solver.
Qed.
(** * Sessions *)

Lemma replace_session_spec new l tx l' :
  NoDup (map ss_id l) -> replace_session new l = Some (tx, l') ->
  (exists old, old ∈ l /\ ss_id old = ss_id new /\ ss_control old = tx) /\
  forall s, s ∈ l' <-> s = new \/ s ∈ l /\ ss_id s <> ss_id new.
Proof.
  revert l'. induction l as [|x l IH]; intros l'; simpl; [done|]. intros [Hx Hnd]%NoDup_cons.
  destruct (is_session (ss_id new) x) eqn:E.
  - apply bool_decide_eq_true in E. intros [= <- <-]. split; [exists x; set_solver|]. intros s.
    assert (forall y, y ∈ l -> ss_id y <> ss_id new).
    { intros y Hy He. apply Hx. rewrite E, <- He. by apply list_elem_of_fmap_2. }
    rewrite !elem_of_cons. naive_solver.
  - apply bool_decide_eq_false in E. destruct (replace_session new l) as [[old r]|]; [|done].
    intros [= -> <-]. destruct (IH r Hnd eq_refl) as [(o & ? & ? & ?) Hr]. split; [exists o; set_solver|].
    intros s. rewrite !elem_of_cons, Hr. naive_solver.
Qed.

Lemma is_connection_spec id c s : is_connection id c s = true <-> ss_id s = id /\ ss_connection_id s = c.
Proof. unfold is_connection. by rewrite andb_true_iff, bool_decide_eq_true, N.eqb_eq. Qed.

(** Members of the list once a session is announced. *)
Lemma session_ready_sessions id tx c m m' outs :
  NoDup (map ss_id (im_peers m)) -> session_ready id tx c m = (m', outs) ->
  (forall s, s ∈ im_peers m' <-> s = mkSession id tx c \/ s ∈ im_peers m /\ ss_id s <> id) /\
  im_pending m' = im_pending m ∖ {[ id ]} /\ im_our_nodeid m' = im_our_nodeid m.
Proof.
  intros Hnd. unfold session_ready. destruct (replace_session _ _) as [[old l]|] eqn:E; intros [= <- <-].
  - split; [|done]. apply (replace_session_spec (mkSession id tx c) _ _ _ Hnd E).
  - split; [|done]. apply replace_session_None in E. simpl in *. intros s.
    rewrite elem_of_app, list_elem_of_singleton.
    assert (s ∈ im_peers m -> ss_id s <> id) by (intros Hs <-; by apply E, list_elem_of_fmap_2). tauto.
Qed.

(** C27: a node has one session, the latest: announcing a session replaces the one its node had,
    tells only the old one to shut down and the new one that it is accepted; the end of the old
    connection, reported later, changes nothing, while the end of the new one removes the session
    alone and lets the node be dialled again. *)
Theorem latest_session_wins our st m id tx c m' outs :
  im_reachable our (Some st) m -> session_ready id tx c m = (m', outs) ->
  (forall s, s ∈ im_peers m' <-> s = mkSession id tx c \/ s ∈ im_peers m /\ ss_id s <> id) /\
  (forall o k, OutIpcControl o k ∈ outs <->
     o = tx /\ k = IcAccepted \/
     k = IcShutdown /\ exists s, s ∈ im_peers m /\ ss_id s = id /\ ss_control s = o) /\
  (forall c', c' <> c -> peer_closed id c' m' = m') /\
  (forall s, s ∈ im_peers (peer_closed id c m') <-> s ∈ im_peers m /\ ss_id s <> id) /\
  (id <> im_our_nodeid m -> is_unknown (peer_closed id c m') id = true).
Proof.
  intros Hr Hs. pose proof (v_sessions _ _ (im_reachable_inv _ _ _ Hr)) as Hnd.
  destruct (session_ready_sessions _ _ _ _ _ _ Hnd Hs) as (Hin & Hpend & Hour).
  assert (Hclosed : forall s, s ∈ retain (fun s => negb (is_connection id c s)) (im_peers m') <->
    s ∈ im_peers m /\ ss_id s <> id).
  { intros s. rewrite elem_of_retain, negb_true_iff, <- not_true_iff_false, is_connection_spec, Hin.
    destruct s. simpl. naive_solver. }
  assert (Hnone : existsb (is_session id) (retain (fun s => negb (is_connection id c s)) (im_peers m')) = false).
  { apply not_true_iff_false. intros (s & Hs' & He%bool_decide_eq_true)%existsb_elem. by apply Hclosed in Hs' as [_ ?]. }
  split_and!; [done| | | |].
  - intros o k. revert Hs. unfold session_ready. destruct (replace_session _ _) as [[old l]|] eqn:E; intros [= <- <-].
    + apply replace_session_spec in E as [(x & Hx & Hxi & <-) _]; [|done]. rewrite !elem_of_cons, elem_of_nil.
      assert (forall y, y ∈ im_peers m -> ss_id y = id -> y = x).
      { intros y Hy Hyi. apply (NoDup_map_eq ss_id _ _ _ Hnd); simpl in *; congruence. }
      naive_solver.
    + apply replace_session_None in E. rewrite list_elem_of_singleton.
      split; [naive_solver|]. intros [[-> ->]|(-> & s & Hs' & He & _)]; [done|].
      destruct E. simpl. rewrite <- He. by apply list_elem_of_fmap_2.
  - intros c' Hc'. unfold peer_closed. rewrite retain_all.
    + rewrite (proj2 (existsb_elem _ _)); [by destruct m'|]. exists (mkSession id tx c).
      split; [by apply Hin; left|]. by apply bool_decide_eq_true.
    + intros s Hs'. apply negb_true_iff, not_true_iff_false. rewrite is_connection_spec.
      apply Hin in Hs' as [->|[_ ?]]; simpl; naive_solver.
  - intros s. unfold peer_closed. simpl. rewrite Hnone. simpl. apply Hclosed.
  - intros Hne. unfold is_unknown, peer_closed. simpl. rewrite Hnone. simpl. rewrite Hnone, Hour.
    rewrite !bool_decide_eq_false_2; [done|set_solver|done].
Qed.

(** An aborted handshake leaves its session behind: when the acceptance does not come in time
    the task tells the manager that the handshake failed, never that the session closed; a manager
    that had taken the session in keeps it, and so never dials that node again. *)
Theorem aborted_session_stays i j im s id our st m :
  pi_send_ok i = true -> pi_command_ok i = true -> pi_hello i = Some (ImHello id) -> pi_control i = None ->
  (ip_expected s = None \/ ip_expected s = Some id) -> im_reachable our (Some st) m ->
  let '(st1, s1, acts1) := step_hello i s in
  let '(_, acts2) := step_abort j s1 in
  st1 = PsAbortHandshake /\
  commands (acts1 ++ acts2) =
    [IcSessionReady id (ip_control_tx s) (pi_connection_id i); IcHandshakeFailed (ip_expected s)] /\
  let m2 := handshake_failed (ip_expected s) im (session_ready id (ip_control_tx s) (pi_connection_id i) m).1 in
  mkSession id (ip_control_tx s) (pi_connection_id i) ∈ im_peers m2 /\
  forall from_directory, to_dial from_directory m2 id = false.
Proof.
  intros Hso Hco Hh Hc Hex Hr. unfold step_hello. rewrite Hso, Hco, Hh, Hc. simpl.
  assert (match ip_expected s with Some expected => negb (bool_decide (expected = id)) | None => false end = false) as ->.
  { destruct Hex as [-> | ->]; [done|]. by rewrite bool_decide_eq_true_2. }
  unfold step_abort, unregister_peer. simpl. split; [done|]. split; [done|].
  destruct (session_ready id (ip_control_tx s) (pi_connection_id i) m) as [m1 o] eqn:E.
  destruct (session_ready_sessions _ _ _ _ _ _ (v_sessions _ _ (im_reachable_inv _ _ _ Hr)) E) as (Hin & _).
  assert (Hk : forall e, im_peers (handshake_failed e im m1) = im_peers m1).
  { intros e. unfold handshake_failed, schedule_directory_wake. by destruct e; simpl; repeat case_match. }
  simpl. assert (Hel : mkSession id (ip_control_tx s) (pi_connection_id i) ∈ im_peers m1) by (by apply Hin; left).
  rewrite Hk. split; [done|]. intros fd. unfold to_dial, is_unknown. rewrite Hk.
  rewrite (proj2 (existsb_elem _ _)); [by rewrite andb_false_r|]. eexists. split; [exact Hel|].
  by apply bool_decide_eq_true.
Qed.

(** * Takeover *)

(** A probe that finds no directory, received by a node that holds none. *)
Definition missed (i : ImInput) (m : IpcManager) : ImState * IpcManager :=
  directory_probed None false None false i m.

Lemma misses_health now m : im_primary_misses (schedule_directory_health now m) = im_primary_misses m.
Proof. unfold schedule_directory_health, schedule_directory_wake. by repeat case_match. Qed.

Lemma missed_spec i m :
  im_shutting_down m = false ->
  let n := N.min (im_primary_misses m + 1) 255 in
  im_primary_misses (missed i m).2 = n /\ im_shutting_down (missed i m).2 = false /\
  (missed i m).1 = if N.leb primary_takeover_misses n then StBindPrimary else StListen false.
Proof.
  intros Hsd. unfold missed, directory_probed. simpl. rewrite Hsd. simpl.
  unfold u8_succ, u8_saturating_add, u8_max. destruct (N.leb _ _); [done|]. cbn [fst snd existsb].
  rewrite misses_health, (view_shutting_down _ _ (view_health _ _)). simpl. by rewrite Hsd.
Qed.

(** A backup takes over after exactly three misses: however long the probes go on failing,
    each one is counted (up to the width of the counter), and the node tries to bind the primary
    directory at the third miss in a row and at every later one, never before. *)
Theorem takeover_after_three_misses (inputs : nat -> ImInput) m k :
  im_shutting_down m = false -> im_primary_misses m = 0%N ->
  let m' := foldl (fun m n => (missed (inputs n) m).2) m (seq 0 k) in
  im_primary_misses m' = N.min (N.of_nat k) 255 /\
  (missed (inputs k) m').1 = if Nat.leb 2 k then StBindPrimary else StListen false.
Proof.
  intros Hsd H0. cbv zeta.
  assert (H : im_primary_misses (foldl (fun m n => (missed (inputs n) m).2) m (seq 0 k)) = N.min (N.of_nat k) 255 /\
    im_shutting_down (foldl (fun m n => (missed (inputs n) m).2) m (seq 0 k)) = false).
  { induction k as [|k IH]; [done|]. rewrite seq_S, foldl_app. simpl. destruct IH as [IHn IHs].
    destruct (missed_spec (inputs k) _ IHs) as (Hn & Hs & _). rewrite Hn, Hs, IHn. split; [lia|done]. }
  destruct H as [Hn Hs]. split; [done|]. destruct (missed_spec (inputs k) _ Hs) as (_ & _ & ->).
  rewrite Hn. unfold primary_takeover_misses. destruct (N.leb_spec 3 (N.min (N.min (N.of_nat k) 255 + 1) 255)), (Nat.leb_spec 2 k); lia || done.
Qed.
End manager.
