(* ===== verification/WsPeer.v ===== *)
(** [src/peers/ws/ws_peer.rs]: the sans-IO state machine of a websocket connection and
    the loop that runs it. *)
From Stdlib Require Import Init.Byte.
From S2P Require Import Prelude Types Messages World Peer.

Section ws_peer.
Context `{Cd : Codec}.

(** * Data *)

(** [WsMessage] and [WsControl] of [src/peers/ws.rs]. *)
Inductive WsMessage :=
  | Hello (id : NodeId)
  | NodeMsg (m : NodeMessage)
  | CloseConnection
  | Ping (token : N)
  | Pong (token : N).

Inductive WsControl := WsShutdown | WsResume.

Inductive InMessage := InWsMessage (m : WsMessage) | InWsPeerClosed | InUnknown.

Inductive WsEvent :=
  | Control (c : WsControl)
  | FromWire (m : WsMessage)
  | FromNode (m : NodeMessage)
  | TransportDead
  | UnknownWire
  | WsTick (now : Instant).

Inductive Effect :=
  | Send (m : WsMessage)
  | CloseSocket
  | HandleNodeMessage (m : NodeMessage)
  | Unregister
  | NotifyPeerClosed.

Inductive Phase := Open | Closing | Closed.

Inductive CloseReason := ReasonLocal | ReasonRemote | ReasonTransport.

Record WsPeer := mkWsPeer {
  ws_phase : Phase;
  ws_effects : list Effect;
  ws_peer_id : NodeId;
  ws_hb : Heartbeat;
}.

Definition default_heartbeat_interval : Duration := from_secs 15.
Definition default_heartbeat_timeout : Duration := from_secs 45.

(** * The state machine *)

Definition ws_new_with_heartbeat (peer_id : NodeId) (now : Instant) (interval timeout : Duration)
    : WsPeer :=
  mkWsPeer Open [] peer_id (heartbeat_new now interval timeout).

Definition ws_new (peer_id : NodeId) (now : Instant) : WsPeer :=
  ws_new_with_heartbeat peer_id now default_heartbeat_interval default_heartbeat_timeout.

Definition is_done (s : WsPeer) : bool :=
  match ws_phase s, ws_effects s with Closed, [] => true | _, _ => false end.

Definition next_wake (s : WsPeer) : option Instant :=
  match ws_phase s with Open => Some (next_deadline (ws_hb s)) | _ => None end.

Definition set_effects (l : list Effect) (s : WsPeer) : WsPeer :=
  mkWsPeer (ws_phase s) l (ws_peer_id s) (ws_hb s).
Definition set_phase (p : Phase) (s : WsPeer) : WsPeer :=
  mkWsPeer p (ws_effects s) (ws_peer_id s) (ws_hb s).
Definition set_hb (hb : Heartbeat) (s : WsPeer) : WsPeer :=
  mkWsPeer (ws_phase s) (ws_effects s) (ws_peer_id s) hb.

Definition poll_effect (s : WsPeer) : option Effect * WsPeer :=
  match ws_effects s with
  | [] => (None, s)
  | e :: r => (Some e, set_effects r s)
  end.

Definition effects_flushed (s : WsPeer) : WsPeer :=
  match ws_phase s, ws_effects s with Closing, [] => set_phase Closed s | _, _ => s end.

Definition emit (e : Effect) (s : WsPeer) : WsPeer := set_effects (ws_effects s ++ [e]) s.

Definition close (reason : CloseReason) (s : WsPeer) : WsPeer :=
  match ws_phase s with
  | Open =>
      let s :=
        match reason with
        | ReasonLocal => emit CloseSocket (emit (Send CloseConnection) s)
        | ReasonRemote => emit NotifyPeerClosed (emit CloseSocket s)
        | ReasonTransport => emit NotifyPeerClosed s
        end in
      set_phase Closing (emit Unregister s)
  | Closing | Closed => s
  end.

(** [now] is what [Instant::now()] reads in the handler. *)
Definition on_wire (now : Instant) (m : WsMessage) (s : WsPeer) : WsPeer :=
  let s := set_hb (on_rx now (ws_hb s)) s in
  match m with
  | Hello _ => close ReasonLocal s
  | CloseConnection => close ReasonRemote s
  | Ping token => emit (Send (Pong token)) s
  | Pong _ => s
  | NodeMsg node_message => emit (HandleNodeMessage node_message) s
  end.

Definition on_tick (now : Instant) (s : WsPeer) : WsPeer :=
  if timed_out (ws_hb s) now then close ReasonLocal s
  else if ping_due (ws_hb s) now then
    let '(token, hb) := take_ping_token now (ws_hb s) in
    emit (Send (Ping token)) (set_hb hb s)
  else s.

Definition step (now : Instant) (event : WsEvent) (s : WsPeer) : WsPeer :=
  match ws_phase s with
  | Closed => s
  | Closing =>
      match event with
      | TransportDead => set_phase Closed (set_effects [] s)
      | _ => s
      end
  | Open =>
      match event with
      | Control WsShutdown => close ReasonLocal s
      | Control WsResume =>
          let '(token, hb) := take_ping_token now (note_resume now (ws_hb s)) in
          emit (Send (Ping token)) (set_hb hb s)
      | FromWire m => on_wire now m s
      | TransportDead => close ReasonTransport s
      | UnknownWire => s
      | WsTick t => on_tick t s
      | FromNode node_message => emit (Send (NodeMsg node_message)) s
      end
  end.

(** What a socket yields: [tungstenite]'s messages, as far as the code tells them apart. *)
Inductive WsFrame := FrameBinary (data : list byte) | FrameClose | FrameOther.

(** [impl From<Option<Result<Message, Error>>> for InMessage] of [src/peers/ws/tg_websock.rs];
    [decode_ws] is bincode's decoder of [WsMessage]. *)
Definition in_message_of (decode_ws : list byte -> option WsMessage)
    (msg : option (WsFrame + unit)) : InMessage :=
  match msg with
  | Some (inl (FrameBinary data)) =>
      match decode_ws data with
      | Some m => InWsMessage m
      | None => InWsPeerClosed
      end
  | Some (inl FrameClose) => InWsPeerClosed
  | Some (inl FrameOther) => InUnknown
  | Some (inr _) => InWsPeerClosed
  | None => InWsPeerClosed
  end.

(** The same conversion in a browser ([src/peers/ws/websys_websock.rs]): a close frame is not
    told apart. *)
Definition wasm_in_message_of (decode_ws : list byte -> option WsMessage)
    (msg : option (WsFrame + unit)) : InMessage :=
  match msg with
  | Some (inl (FrameBinary data)) =>
      match decode_ws data with
      | Some m => InWsMessage m
      | None => InWsPeerClosed
      end
  | Some (inl _) => InUnknown
  | Some (inr _) => InWsPeerClosed
  | None => InWsPeerClosed
  end.

Definition wire_to_event (m : InMessage) : WsEvent :=
  match m with
  | InWsMessage m => FromWire m
  | InWsPeerClosed => TransportDead
  | InUnknown => UnknownWire
  end.

(** * The loop

    Applying an effect can fail where the code awaits a socket or the manager's channel.
    [oks] tells which attempts succeed, counting from the start of the connection. *)

(** Effects whose application returns [Ok] whatever happens. *)
Definition infallible (e : Effect) : bool :=
  match e with
  | CloseSocket | Unregister | HandleNodeMessage _ => true
  | Send _ | NotifyPeerClosed => false
  end.

Definition applies (oks : nat -> bool) (applied : list (Effect * bool)) (e : Effect) : bool :=
  infallible e || oks (length applied).

(** [while let Some(effect) = fsm.poll_effect()]: what was applied, what is left, and
    whether the loop was left by [break]. *)
Fixpoint drain (oks : nat -> bool) (applied : list (Effect * bool)) (effects : list Effect)
    : list (Effect * bool) * list Effect * bool :=
  match effects with
  | [] => (applied, [], false)
  | e :: r =>
      let ok := applies oks applied e in
      let applied := applied ++ [(e, ok)] in
      if ok then drain oks applied r else (applied, r, true)
  end.

Record Run := mkRun {
  run_fsm : WsPeer;
  run_applied : list (Effect * bool);
}.

(** One turn of the loop, on the event [select!] yields (not waited for when a failed
    effect left a follow-up event). *)
Definition turn (oks : nat -> bool) (now : Instant) (selected : WsEvent) (r : Run) : option Run * Run :=
  let '(applied, rest, failed) := drain oks (run_applied r) (ws_effects (run_fsm r)) in
  let fsm := set_effects rest (run_fsm r) in
  let fsm := if failed then fsm else effects_flushed fsm in
  let here := mkRun fsm applied in
  if is_done fsm then (None, here)
  else (Some (mkRun (step now (if failed then TransportDead else selected) fsm) applied), here).

(** What applying an effect does to the node, for the part that is not the socket. *)
Definition apply_effect (e : Effect) (p : Peer) : Peer * list PeerOut :=
  match e with
  | Send _ | CloseSocket | NotifyPeerClosed => (p, [])
  | Unregister => unregister p
  | HandleNodeMessage m => handle_node_message m p
  end.

Inductive run_step (oks : nat -> bool) : Run -> Run -> Prop :=
  | run_turn now selected r r' here :
      turn oks now selected r = (Some r', here) -> run_step oks r r'.

Inductive runs (oks : nat -> bool) (peer_id : NodeId) (start : Instant) : Run -> Prop :=
  | runs_start : runs oks peer_id start (mkRun (ws_new peer_id start) [])
  | runs_step r r' : runs oks peer_id start r -> run_step oks r r' -> runs oks peer_id start r'.
End ws_peer.

(** * Ending a connection *)
Section ending.
Context `{Cd : Codec}.

Definition is_unregister (e : Effect) : bool := match e with Unregister => true | _ => false end.

(** No [Unregister] among these effects. *)
Definition no_unregister (l : list Effect) : Prop := forall e, e ∈ l -> is_unregister e = false.

Lemma no_unregister_app l1 l2 : no_unregister (l1 ++ l2) <-> no_unregister l1 /\ no_unregister l2.
Proof.
  unfold no_unregister. split.
  - intros H0. split; intros e He; apply H0, elem_of_app; [by left | by right].
  - intros [H1 H2] e [He|He]%elem_of_app; auto.
Qed.

Lemma no_unregister_emit l e : no_unregister l -> is_unregister e = false -> no_unregister (l ++ [e]).
Proof.
  intros Hl He. apply no_unregister_app. split; [done|]. by intros x ->%list_elem_of_singleton.
Qed.

(** Between two turns of the loop. *)
Definition fsm_ok (s : WsPeer) : Prop :=
  match ws_phase s with
  | Open => no_unregister (ws_effects s)
  | Closing => exists pre, ws_effects s = pre ++ [Unregister] /\ no_unregister pre
  | Closed => ws_effects s = []
  end.

Definition run_ok (r : Run) : Prop := fsm_ok (run_fsm r) /\ no_unregister (run_applied r).*1.

Lemma close_ok reason s : ws_phase s = Open -> no_unregister (ws_effects s) -> fsm_ok (close reason s).
Proof.
  intros Hp Hn. unfold close. rewrite Hp. unfold fsm_ok. destruct reason; simpl;
    (eexists; split; [reflexivity|]); repeat (apply no_unregister_emit; [|done]); done.
Qed.

Lemma step_ok now ev s : ws_phase s <> Closing \/ ev = TransportDead -> fsm_ok s -> fsm_ok (step now ev s).
Proof.
  intros Hph Hok. unfold step. destruct (ws_phase s) eqn:Hp.
  - unfold fsm_ok in Hok. rewrite Hp in Hok.
    assert (Hemit : forall e hb, is_unregister e = false -> fsm_ok (emit e (set_hb hb s))).
    { intros e hb He. unfold fsm_ok, emit. simpl. rewrite Hp. by apply no_unregister_emit. }
    destruct ev as [[]|m|m| | |t].
    + by apply close_ok.
    + by apply Hemit.
    + unfold on_wire. set (s' := set_hb _ s).
      destruct m; try (by apply close_ok); try (by apply Hemit). unfold fsm_ok. simpl. by rewrite Hp.
    + unfold fsm_ok, emit. simpl. rewrite Hp. by apply no_unregister_emit.
    + by apply close_ok.
    + unfold fsm_ok. by rewrite Hp.
    + unfold on_tick. destruct (timed_out _ _); [by apply close_ok|].
      destruct (ping_due _ _); [by apply Hemit|]. unfold fsm_ok. by rewrite Hp.
  - destruct Hph as [?| ->]; [done|]. done.
  - done.
Qed.

(** Draining applies a prefix of the queue, whole when nothing failed. *)
Lemma drain_spec oks effects : forall applied,
  let '(applied', rest, failed) := drain oks applied effects in
  exists done_, effects = done_ ++ rest /\ (applied').*1 = applied.*1 ++ done_ /\
    (failed = false -> rest = [] /\ applied' = applied ++ map (fun e => (e, true)) done_) /\
    (failed = true -> exists e l, done_ = l ++ [e] /\ infallible e = false /\
       applied' = applied ++ map (fun e => (e, true)) l ++ [(e, false)]).
Proof.
  induction effects as [|e r IH]; intros applied; simpl.
  { exists []. rewrite !app_nil_r. by repeat split. }
  destruct (applies oks applied e) eqn:Ha.
  - specialize (IH (applied ++ [(e, true)])). destruct (drain oks _ r) as [[applied' rest] failed].
    destruct IH as (l & -> & Hfst & Hok & Hfail). exists (e :: l). split; [done|]. split.
    { rewrite Hfst, fmap_app, <- app_assoc. done. }
    split.
    + intros Hf. destruct (Hok Hf) as [-> ->]. split; [done|]. by rewrite <- app_assoc.
    + intros Hf. destruct (Hfail Hf) as (x & l' & -> & Hx & ->). exists x, (e :: l').
      split; [done|]. split; [done|]. by rewrite <- app_assoc.
  - exists [e]. split; [done|]. split; [by rewrite fmap_app|]. split; [done|]. intros _.
    exists e, []. split; [done|]. split; [|done]. unfold applies in Ha. by apply orb_false_iff in Ha as [? _].
Qed.

Lemma turn_ok oks now selected r r' here :
  run_ok r -> turn oks now selected r = (Some r', here) -> run_ok r'.
Proof.
  intros [Hfsm Hno]. unfold turn.
  pose proof (drain_spec oks (ws_effects (run_fsm r)) (run_applied r)) as Hd.
  destruct (drain _ _ _) as [[applied rest] failed].
  destruct Hd as (l & Hq & Hfst & Hok & Hfail).
  destruct (is_done _) eqn:Hdone; [done|]. intros [= <- <-].
  unfold run_ok. simpl. rewrite Hfst, no_unregister_app.
  unfold fsm_ok in Hfsm. destruct (ws_phase (run_fsm r)) eqn:Hp.
  - rewrite Hq in Hfsm. apply no_unregister_app in Hfsm as [Hl Hrest]. split; [|done].
    set (fsm := if failed then set_effects rest (run_fsm r) else _).
    assert (ws_phase fsm = Open /\ ws_effects fsm = rest) as [Hfp Hfe].
    { unfold fsm, effects_flushed. destruct failed; simpl; [done|]. by rewrite Hp. }
    apply step_ok; [by left; rewrite Hfp|]. unfold fsm_ok. by rewrite Hfp, Hfe.
  - destruct Hfsm as (pre & Hpre & Hnp). destruct failed.
    + destruct (Hfail eq_refl) as (e & l' & -> & He & _).
      assert (Hsplit : no_unregister (l' ++ [e])).
      { rewrite Hpre in Hq. destruct rest as [|x rest] using rev_ind.
        - rewrite app_nil_r in Hq. apply app_inj_tail in Hq as [_ <-]. done.
        - rewrite app_assoc in Hq. apply app_inj_tail in Hq as [-> _].
          by apply no_unregister_app in Hnp as [? _]. }
      split; [|done]. unfold step. simpl. rewrite Hp. done.
    + destruct (Hok eq_refl) as [-> _]. unfold effects_flushed in Hdone. simpl in Hdone.
      rewrite Hp in Hdone. done.
  - exfalso. rewrite Hfsm in Hq. symmetry in Hq. apply app_eq_nil in Hq as [-> ->].
    destruct failed; [by destruct (Hfail eq_refl) as (? & [] & ? & _)|].
    unfold is_done, effects_flushed in Hdone. simpl in Hdone. rewrite Hp in Hdone. simpl in Hdone.
    by rewrite Hp in Hdone.
Qed.

Lemma runs_ok oks peer_id start r : runs oks peer_id start r -> run_ok r.
Proof.
  induction 1 as [|r r' _ IH Hstep]; [|by destruct Hstep as [now sel r r' here Ht]; eapply turn_ok].
  split; simpl; [|by intros e ?%elem_of_nil]. by intros e ?%elem_of_nil.
Qed.

(** A step of an open connection leaves it open or starts closing it. *)
Lemma step_open now ev s : ws_phase s = Open -> ws_phase (step now ev s) <> Closed.
Proof.
  intros Hp. unfold step. rewrite Hp.
  assert (Hclose : forall reason s', ws_phase s' = Open -> ws_phase (close reason s') <> Closed).
  { intros reason s' Hs. unfold close. by rewrite Hs. }
  destruct ev as [[]|m|m| | |t]; try (by apply Hclose); try (simpl; by rewrite Hp).
  - unfold on_wire. set (s' := set_hb _ s). assert (Hs : ws_phase s' = Open) by done.
    destruct m; try (by apply Hclose); simpl; by rewrite Hp.
  - unfold on_tick. destruct (timed_out _ _); [by apply Hclose|].
    destruct (ping_due _ _); simpl; by rewrite Hp.
Qed.

(** A connection is closed between two turns only because an effect of its closing failed. *)
Lemma closed_after_failure oks now selected r r' here :
  run_ok r -> turn oks now selected r = (Some r', here) -> ws_phase (run_fsm r') = Closed ->
  ws_phase (run_fsm r) = Closing /\
  exists pre e, run_applied r' = pre ++ [(e, false)] /\ e ∈ ws_effects (run_fsm r) /\ infallible e = false.
Proof.
  intros [Hfsm _] Ht Hclosed. unfold turn in Ht.
  pose proof (drain_spec oks (ws_effects (run_fsm r)) (run_applied r)) as Hd.
  destruct (drain _ _ _) as [[applied rest] failed]. destruct Hd as (l & Hq & _ & Hok & Hfail).
  destruct (is_done _) eqn:Hdone; [done|]. injection Ht as <- <-. cbn [run_fsm run_applied] in *.
  unfold fsm_ok in Hfsm. destruct (ws_phase (run_fsm r)) eqn:Hp.
  - exfalso. revert Hclosed. apply step_open. unfold effects_flushed. destruct failed; simpl; [done|]. by rewrite Hp.
  - split; [done|]. destruct failed.
    + destruct (Hfail eq_refl) as (e & l' & -> & He & ->). exists (run_applied r ++ map (fun e => (e, true)) l'), e.
      split; [by rewrite app_assoc|]. split; [|done]. rewrite Hq. apply elem_of_app. left. apply elem_of_app. right. by left.
    + destruct (Hok eq_refl) as [-> _]. unfold is_done, effects_flushed in Hdone. simpl in Hdone. by rewrite Hp in Hdone.
  - exfalso. rewrite Hfsm in Hq. symmetry in Hq. apply app_eq_nil in Hq as [-> ->].
    destruct failed; [by destruct (Hfail eq_refl) as (? & [] & ? & _)|].
    unfold is_done, effects_flushed in Hdone. simpl in Hdone. by rewrite Hp in Hdone; simpl in Hdone; rewrite Hp in Hdone.
Qed.

Lemma runs_closed oks peer_id start r :
  runs oks peer_id start r -> ws_phase (run_fsm r) = Closed ->
  exists r0 pre e, runs oks peer_id start r0 /\ run_step oks r0 r /\ ws_phase (run_fsm r0) = Closing /\
    run_applied r = pre ++ [(e, false)] /\ e ∈ ws_effects (run_fsm r0) /\ infallible e = false.
Proof.
  intros [|r0 r' Hr0 Hstep] Hc; [done|]. inversion Hstep as [now sel x y here Ht]; subst x y.
  destruct (closed_after_failure _ _ _ _ _ _ (runs_ok _ _ _ _ Hr0) Ht Hc) as (Hp & pre & e & Ha & Hin & He).
  by exists r0, pre, e.
Qed.

(** C24: when the loop of a websocket connection ends, the connection was unregistered from the
    router exactly once, as its very last effect. The only exception: while it was closing, one of
    the effects of its closing that can fail (a message to the peer, telling the manager) did
    fail, was the last to be tried, and the connection is never unregistered. *)
Theorem ws_unregisters_once oks peer_id start r now selected here :
  runs oks peer_id start r -> turn oks now selected r = (None, here) ->
  (exists pre, (run_applied here).*1 = pre ++ [Unregister] /\ no_unregister pre) \/
  (no_unregister (run_applied here).*1 /\
   exists r0 pre e, runs oks peer_id start r0 /\ run_step oks r0 r /\ ws_phase (run_fsm r0) = Closing /\
     run_applied here = pre ++ [(e, false)] /\ e ∈ ws_effects (run_fsm r0) /\ infallible e = false).
Proof.
  intros Hr Ht. destruct (runs_ok _ _ _ _ Hr) as [Hfsm Hno]. unfold turn in Ht.
  pose proof (drain_spec oks (ws_effects (run_fsm r)) (run_applied r)) as Hd.
  destruct (drain _ _ _) as [[applied rest] failed].
  destruct Hd as (l & Hq & Hfst & Hok & Hfail).
  destruct (is_done _) eqn:Hdone; [|done]. injection Ht as <-. cbn [run_applied]. rewrite Hfst.
  unfold fsm_ok in Hfsm. destruct (ws_phase (run_fsm r)) eqn:Hp.
  - destruct failed; unfold is_done, effects_flushed in Hdone; simpl in Hdone; rewrite Hp in Hdone;
      simpl in Hdone; by rewrite ?Hp in Hdone.
  - left. destruct Hfsm as (pre & Hpre & Hnp). destruct failed.
    { unfold is_done in Hdone. simpl in Hdone. by rewrite Hp in Hdone. }
    destruct (Hok eq_refl) as [-> _]. rewrite app_nil_r in Hq. rewrite <- Hq, Hpre.
    exists ((run_applied r).*1 ++ pre). rewrite app_assoc. split; [done|]. by apply no_unregister_app.
  - right. rewrite Hfsm in Hq. symmetry in Hq. apply app_eq_nil in Hq as [-> ->]. rewrite app_nil_r. split; [done|].
    assert (Happ : applied = run_applied r).
    { destruct failed; [by destruct (Hfail eq_refl) as (? & [] & ? & _)|]. destruct (Hok eq_refl) as [_ ->].
      apply app_nil_r. }
    rewrite Happ. by apply runs_closed.
Qed.

(** What closing does, by reason. A goodbye of the peer and a dead transport both tell the
    manager, so that an outbound peer is dialled again; hanging up on our own account (a heartbeat
    timeout, an unexpected [Hello], a shutdown) does not. A goodbye is written only when we hang
    up, and the socket is not touched when it is already dead. *)
Theorem close_effects reason s :
  ws_phase s = Open ->
  ws_phase (close reason s) = Closing /\
  ws_effects (close reason s) = ws_effects s ++
    match reason with
    | ReasonLocal => [Send CloseConnection; CloseSocket; Unregister]
    | ReasonRemote => [CloseSocket; NotifyPeerClosed; Unregister]
    | ReasonTransport => [NotifyPeerClosed; Unregister]
    end.
Proof.
  intros Hp. unfold close. rewrite Hp. destruct reason; simpl; by rewrite <- !app_assoc.
Qed.

(** When the goodbye of a connection we hang up on cannot be written, the effects still queued
    are dropped, [Unregister] among them: the loop ends and the router keeps a link whose
    connection is gone. *)
Theorem failed_goodbye_leaks_link oks peer_id start applied now now' selected selected' fsm :
  runs oks peer_id start (mkRun fsm applied) -> ws_phase fsm = Open -> ws_effects fsm = [] ->
  oks (length applied) = false ->
  exists r' here, turn oks now selected (mkRun (close ReasonLocal fsm) applied) = (Some r', here) /\
    run_applied r' = applied ++ [(Send CloseConnection, false)] /\
    turn oks now' selected' r' = (None, r') /\ no_unregister (run_applied r').*1.
Proof.
  intros Hr Hp He Hok. destruct (runs_ok _ _ _ _ Hr) as [_ Hno]. simpl in Hno.
  assert (Hclose : close ReasonLocal fsm =
    mkWsPeer Closing [Send CloseConnection; CloseSocket; Unregister] (ws_peer_id fsm) (ws_hb fsm)).
  { unfold close. rewrite Hp. unfold emit, set_effects, set_phase. simpl. by rewrite He. }
  rewrite Hclose. unfold turn, applies. cbn [run_fsm run_applied ws_effects drain]. unfold applies.
  cbn [infallible]. rewrite Hok. simpl. do 2 eexists. split; [done|]. split; [done|]. simpl.
  split; [done|]. rewrite fmap_app. apply no_unregister_emit; done.
Qed.
End ending.

(** * Silence *)
Section silence.
Context `{Cd : Codec}.
Implicit Types (s : WsPeer).

(** The event loop of a connection nothing arrives on: it wakes at its deadline. *)
Definition tick_at_deadline (s : WsPeer) : WsPeer :=
  match next_wake s with Some t => step t (WsTick t) s | None => s end.

Definition pings (k : nat) : list Effect := map (fun j => Send (Ping (N.of_nat j))) (seq 1 k).

Lemma pings_S k : pings (S k) = pings k ++ [Send (Ping (N.of_nat (S k)))].
Proof. unfold pings. rewrite seq_S, map_app. done. Qed.

(** After [k] pings and no answer. *)
Definition silent_state (peer_id : NodeId) (t0 : Instant) (interval timeout : Duration) (k : nat) : WsPeer :=
  mkWsPeer Open (pings k) peer_id
    (mkHeartbeat interval timeout t0
       (match k with O => None | S _ => Some (t0 + N.of_nat k * interval)%N end)
       (match k with O => None | S _ => Some (N.of_nat k) end) (N.of_nat (S k))).

Lemma silent_poke peer_id t0 interval timeout k :
  poke_at (ws_hb (silent_state peer_id t0 interval timeout k)) = (t0 + N.of_nat (S k) * interval)%N.
Proof. unfold poke_at. destruct k; simpl ws_hb; cbn [hb_last_ping hb_last_rx hb_interval]; tlia. Qed.

(** A deadline before the silence limit sends the next ping. *)
Lemma silent_tick_ping peer_id t0 interval timeout k :
  (0 < timeout)%N -> (N.of_nat (S k) * interval < timeout)%N -> (N.of_nat (S k) < u64_mod - 1)%N ->
  tick_at_deadline (silent_state peer_id t0 interval timeout k) =
  silent_state peer_id t0 interval timeout (S k).
Proof.
  intros Ht Hlt Hw. unfold tick_at_deadline. set (s := silent_state peer_id t0 interval timeout k).
  pose proof (silent_poke peer_id t0 interval timeout k) as Hpoke. fold s in Hpoke.
  change (next_wake s) with (Some (next_deadline (ws_hb s))).
  assert (Hd : next_deadline (ws_hb s) = (t0 + N.of_nat (S k) * interval)%N).
  { unfold next_deadline. rewrite Hpoke. simpl hb_last_rx. simpl hb_timeout. tlia. }
  rewrite Hd. change (step (t0 + N.of_nat (S k) * interval)%N (WsTick (t0 + N.of_nat (S k) * interval)%N) s)
    with (on_tick (t0 + N.of_nat (S k) * interval)%N s).
  unfold on_tick.
  assert (timed_out (ws_hb s) (t0 + N.of_nat (S k) * interval)%N = false) as ->.
  { apply not_true_iff_false. rewrite timed_out_spec by done. simpl hb_last_rx. simpl hb_timeout. tlia. }
  assert (ping_due (ws_hb s) (t0 + N.of_nat (S k) * interval)%N = true) as ->.
  { unfold ping_due. rewrite Hpoke. apply N.leb_refl. }
  unfold take_ping_token, emit, set_effects, set_hb. simpl. unfold silent_state. rewrite pings_S.
  unfold u64_wrapping_add. rewrite N.mod_small by lia. do 2 f_equal. lia.
Qed.

(** A deadline at the silence limit hangs up. *)
Lemma silent_tick_close peer_id t0 interval timeout k :
  (0 < timeout)%N -> (timeout <= N.of_nat (S k) * interval)%N ->
  next_wake (silent_state peer_id t0 interval timeout k) = Some (t0 + timeout)%N /\
  tick_at_deadline (silent_state peer_id t0 interval timeout k) =
  close ReasonLocal (silent_state peer_id t0 interval timeout k).
Proof.
  intros Ht Hle. set (s := silent_state peer_id t0 interval timeout k).
  assert (Hd : next_wake s = Some (t0 + timeout)%N).
  { change (next_wake s) with (Some (next_deadline (ws_hb s))). f_equal. unfold next_deadline.
    unfold s. rewrite silent_poke. simpl hb_last_rx. simpl hb_timeout. tlia. }
  split; [done|]. unfold tick_at_deadline. rewrite Hd.
  change (step (t0 + timeout)%N (WsTick (t0 + timeout)%N) s) with (on_tick (t0 + timeout)%N s).
  unfold on_tick. assert (timed_out (ws_hb s) (t0 + timeout)%N = true) as ->; [|done].
  apply timed_out_spec; [done|]. simpl. tlia.
Qed.

Lemma silent_iter peer_id t0 interval timeout k :
  (0 < timeout)%N -> (N.of_nat k * interval < timeout)%N -> (N.of_nat k < u64_mod - 1)%N ->
  Nat.iter k tick_at_deadline (ws_new_with_heartbeat peer_id t0 interval timeout) =
  silent_state peer_id t0 interval timeout k.
Proof.
  intros Ht. induction k as [|k IH]; [done|]. intros Hlt Hw. simpl Nat.iter.
  rewrite IH; [|nia|lia]. by apply silent_tick_ping.
Qed.

(** A silent peer is pinged at every interval and hung up on exactly when the silence limit
    is reached: with an interval and a limit such that the limit falls in the interval after the
    [k]-th ping, the connection sends [k] pings numbered from one, and its next deadline is the
    limit itself, at which it says goodbye, closes the socket and unregisters. *)
Theorem silence_ends_connection peer_id t0 interval timeout k :
  (0 < timeout)%N -> (N.of_nat k * interval < timeout)%N -> (timeout <= N.of_nat (S k) * interval)%N ->
  (N.of_nat k < u64_mod - 1)%N ->
  let s := Nat.iter k tick_at_deadline (ws_new_with_heartbeat peer_id t0 interval timeout) in
  ws_phase s = Open /\ next_wake s = Some (t0 + timeout)%N /\
  ws_phase (tick_at_deadline s) = Closing /\
  ws_effects (tick_at_deadline s) = pings k ++ [Send CloseConnection; CloseSocket; Unregister].
Proof.
  intros Ht Hlt Hle Hw s. unfold s. rewrite silent_iter by done.
  destruct (silent_tick_close peer_id t0 interval timeout k Ht Hle) as [Hd Hc].
  split; [done|]. split; [done|]. rewrite Hc. split; [done|].
  unfold close. simpl. by rewrite <- !app_assoc.
Qed.

(** A connection is never given up while the peer speaks: a tick hangs up exactly when
    nothing has arrived for the whole timeout. *)
Theorem tick_closes_iff_silent now t s :
  ws_phase s = Open -> (0 < hb_timeout (ws_hb s))%N ->
  (ws_phase (step now (WsTick t) s) = Closing <->
   (hb_last_rx (ws_hb s) + hb_timeout (ws_hb s) <= t)%N) /\
  (forall m, hb_last_rx (ws_hb (on_wire now m s)) = now).
Proof.
  intros Hp Ht. split.
  - rewrite <- timed_out_spec by done. unfold step. rewrite Hp. unfold on_tick.
    destruct (timed_out (ws_hb s) t).
    + split; [done|]. intros _. unfold close. rewrite Hp. by simpl.
    + split; [|done]. destruct (ping_due _ _); simpl; by rewrite Hp.
  - intros m. unfold on_wire. destruct m; simpl; try done; unfold close; simpl; by rewrite Hp.
Qed.
End silence.
