(* ===== verification/WsManager.v ===== *)
(** [src/peers/ws/ws_manager.rs] and the data of [src/peers/ws.rs]: the task that dials
    websocket peers, keeps them dialled, and answers the requests to add and remove them. *)
From Stdlib Require Import Strings.String.
From S2P Require Import Prelude Types Messages World Peer WsPeer.

(** * Peers and their configuration *)

(** What the code uses of the [url] crate: comparison, the text of a URL, parsing (with the
    text of the error) and the scheme. *)
Class UrlLib := {
  Url : Type;
  Url_eq_dec :: EqDecision Url;
  url_to_string : Url -> string;
  url_parse : string -> string + Url;
  url_scheme : Url -> string;
}.

Section data.
Context `{UrlLib}.

(** [WsUrl] and [WebSocketPeerConfig] of [src/anybus/config.rs]. *)
Record WsUrl := mkWsUrl { ws_url : Url }.
#[export] Instance WsUrl_eq_dec : EqDecision WsUrl.
Proof. solve_decision. Defined.

Record WebSocketPeerConfig := mkPeerConfig { pc_url : WsUrl; pc_name : string }.
#[export] Instance WebSocketPeerConfig_eq_dec : EqDecision WebSocketPeerConfig.
Proof. solve_decision. Defined.

Inductive StreamDirection := Inbound | Outbound (c : WebSocketPeerConfig).

(** [PartialEq<WebSocketPeerConfig>] and [PartialEq<WsUrl>] for [StreamDirection]. *)
Definition direction_is_config (d : StreamDirection) (other : WebSocketPeerConfig) : bool :=
  match d with Inbound => false | Outbound config => bool_decide (config = other) end.
Definition direction_is_url (d : StreamDirection) (other : WsUrl) : bool :=
  match d with Inbound => false | Outbound config => bool_decide (pc_url config = other) end.

Record WsPendingPeer := mkPending {
  wp_config : WebSocketPeerConfig;
  wp_last_attempt : Instant;
  wp_backoff : Duration;
  wp_num_attempts : N;
}.

Definition pending_of_config (now : Instant) (config : WebSocketPeerConfig) : WsPendingPeer :=
  mkPending config now (from_secs 1) 0%N.

Definition when_ready (p : WsPendingPeer) : Instant := (wp_last_attempt p + wp_backoff p)%N.

(** [num_attempts] is a [u32]. *)
Definition record_attempt (now : Instant) (p : WsPendingPeer) : WsPendingPeer :=
  let num_attempts := N.modulo (wp_num_attempts p + 1)%N 4294967296%N in
  mkPending (wp_config p) now (from_secs (2 ^ N.min num_attempts 8)%N) num_attempts.

Definition ready_now (now : Instant) (p : WsPendingPeer) : WsPendingPeer :=
  mkPending (wp_config p) now 0%N 0%N.

Record WsActivePeer := mkActive {
  ap_direction : StreamDirection;
  ap_peer_id : NodeId;
  ap_ws_control : ChanId;
}.

(** A stream is known by its identity. *)
Definition StreamId := N.

Inductive WsCommand :=
  | CmdNewWsStream (stream : StreamId) (pending : option WsPendingPeer) (peer_id : NodeId)
  | CmdPeerClosed (peer_id : NodeId)
  | CmdQueueReconnect (p : WsPendingPeer).

(** [AddPeer] and [RemovePeer], with the channel to answer on. *)
Inductive WsRpcMessage :=
  | RpcAddPeer (peer_config : WebSocketPeerConfig) (respond_to : ChanId)
  | RpcRemovePeer (url : WsUrl) (respond_to : ChanId).

Inductive ManagerState :=
  | MsInit
  | MsListen
  | MsHandleCommand (c : WsCommand)
  | MsNewWsStream (stream : StreamId) (pending : option WsPendingPeer) (peer_id : NodeId)
  | MsConnectRemote (p : WsPendingPeer)
  | MsQueueReconnect (p : WsPendingPeer)
  | MsAddWsPeer (peer_config : WebSocketPeerConfig) (respond_to : ChanId)
  | MsRemoveWsPeer (url : WsUrl) (respond_to : ChanId)
  | MsError
  | MsShutdown.

(** [ws_listener]: whether listener options are still to be taken. *)
Record WebsocketManager := mkManager {
  wm_current_peers : list WsActivePeer;
  wm_node_id : NodeId;
  wm_ws_listener : bool;
  wm_pending_peers : list WsPendingPeer;
  wm_disconnected_peers : list WsPendingPeer;
  wm_connection_counter : N;
}.

Definition set_current (l : list WsActivePeer) (m : WebsocketManager) : WebsocketManager :=
  mkManager l (wm_node_id m) (wm_ws_listener m) (wm_pending_peers m) (wm_disconnected_peers m)
    (wm_connection_counter m).
Definition set_pending (l : list WsPendingPeer) (m : WebsocketManager) : WebsocketManager :=
  mkManager (wm_current_peers m) (wm_node_id m) (wm_ws_listener m) l (wm_disconnected_peers m)
    (wm_connection_counter m).
Definition set_disconnected (l : list WsPendingPeer) (m : WebsocketManager) : WebsocketManager :=
  mkManager (wm_current_peers m) (wm_node_id m) (wm_ws_listener m) (wm_pending_peers m) l
    (wm_connection_counter m).
Definition set_counter (c : N) (m : WebsocketManager) : WebsocketManager :=
  mkManager (wm_current_peers m) (wm_node_id m) (wm_ws_listener m) (wm_pending_peers m)
    (wm_disconnected_peers m) c.
Definition set_listener (b : bool) (m : WebsocketManager) : WebsocketManager :=
  mkManager (wm_current_peers m) (wm_node_id m) b (wm_pending_peers m)
    (wm_disconnected_peers m) (wm_connection_counter m).
End data.

Section manager.
Context `{Cd : Codec} `{U : UrlLib}.

(** What a state of the manager does besides updating the manager. *)
Inductive MgrOut :=
  | OutConnect (p : WsPendingPeer)                    (* [spawn(connect_to_peer)] *)
  | OutControl (peer : ChanId) (c : WsControl)
  | OutReply (respond_to : ChanId) (ok : bool)
  | OutPeer (o : PeerOut)
  | OutRunPeer (stream : StreamId) (rx_control : ChanId) (p : Peer).

(** [WebsocketManager::new]; each conversion reads the clock. *)
Definition manager_new (node_id : NodeId) (ws_listener : bool) (ws_peers : list WebSocketPeerConfig)
    (counter : N) (nows : nat -> Instant) : WebsocketManager :=
  mkManager [] node_id ws_listener (imap (fun i c => pending_of_config (nows i) c) ws_peers) [] counter.

Definition get_next_timeout (now : Instant) (m : WebsocketManager) : option Duration :=
  match wm_disconnected_peers m with
  | [] => None
  | p :: _ => Some (if N.leb (when_ready p) now then 0%N else (when_ready p - now)%N)
  end.

Definition get_next_ready_peer (now : Instant) (m : WebsocketManager)
    : option WsPendingPeer * WebsocketManager :=
  match wm_disconnected_peers m with
  | [] => (None, m)
  | first :: rest =>
      if N.leb (when_ready first) now then (Some first, set_disconnected rest m) else (None, m)
  end.

(** [nows i] is what the clock reads at the [i]-th turn of the loop. *)
Definition on_resume (nows : nat -> Instant) (m : WebsocketManager)
    : ManagerState * WebsocketManager * list MgrOut :=
  let outs := map (fun peer => OutControl (ap_ws_control peer) WsResume) (wm_current_peers m) in
  let ready := imap (fun i pending => ready_now (nows i) pending) (wm_disconnected_peers m) in
  (MsListen, set_disconnected (sort_by_key when_ready ready) m, outs).

(** [created] is whether [create_listener] succeeded. *)
Definition init (created : bool) (m : WebsocketManager) : ManagerState * WebsocketManager :=
  if wm_ws_listener m then (if created then MsListen else MsError, set_listener false m)
  else (MsListen, m).

(** What [select!] yields in [listen]. *)
Inductive MgrWakeup :=
  | WkTimeout (now : Instant)
  | WkRpc (r : WsRpcMessage)
  | WkCommand (c : WsCommand)
  | WkStatus (status : option AnyBusStatusMsg) (nows : nat -> Instant)   (* [None]: [Err(_)] *)
  | WkClosed.

Definition mgr_listen (now : Instant) (wake : MgrWakeup) (m : WebsocketManager)
    : ManagerState * WebsocketManager * list MgrOut :=
  match vec_pop (wm_pending_peers m) with
  | Some (peer, rest) => (MsConnectRemote peer, set_pending rest m, [])
  | None =>
      match get_next_ready_peer now m with
      | (Some pending, m) => (MsConnectRemote pending, m, [])
      | (None, m) =>
          match wake with
          | WkTimeout now =>
              match get_next_ready_peer now m with
              | (Some pending, m) => (MsConnectRemote pending, m, [])
              | (None, m) => (MsListen, m, [])
              end
          | WkRpc (RpcAddPeer req respond_to) => (MsAddWsPeer req respond_to, m, [])
          | WkRpc (RpcRemovePeer req respond_to) => (MsRemoveWsPeer req respond_to, m, [])
          | WkCommand cmd => (MsHandleCommand cmd, m, [])
          | WkStatus (Some ShuttingDown) _ | WkStatus None _ => (MsShutdown, m, [])
          | WkStatus (Some Resuming) nows => on_resume nows m
          | WkStatus (Some (Suspending | NetworkChanged)) _ => (MsListen, m, [])
          | WkClosed => (MsShutdown, m, [])
          end
      end
  end.

(** [binary_search_by_key(..).err().map(|pos| disconnected_peers.insert(pos, ..))]. *)
Definition schedule (p : WsPendingPeer) (m : WebsocketManager) : WebsocketManager :=
  set_disconnected (insert_if_absent when_ready p (wm_disconnected_peers m)) m.

Definition is_peer (peer_id : NodeId) (p : WsActivePeer) : bool := bool_decide (ap_peer_id p = peer_id).

Definition handle_command (now : Instant) (command : WsCommand) (m : WebsocketManager)
    : ManagerState * WebsocketManager :=
  match command with
  | CmdNewWsStream stream pending peer_id => (MsNewWsStream stream pending peer_id, m)
  | CmdPeerClosed uuid =>
      match remove_first (is_peer uuid) (wm_current_peers m) with
      | None => (MsListen, m)
      | Some (closed_peer, rest) =>
          let m := set_current rest m in
          match ap_direction closed_peer with
          | Outbound config => (MsListen, schedule (pending_of_config now config) m)
          | Inbound => (MsListen, m)
          end
      end
  | CmdQueueReconnect pending_peer => (MsQueueReconnect pending_peer, m)
  end.

(** [notify_peers], spawned by the last state. *)
Definition notify_peers (current_peers : list WsActivePeer) : list MgrOut :=
  map (fun peer => OutControl (ap_ws_control peer) WsShutdown) current_peers.

(** [peer_tx] and [tx] are the channels created for the peer and its control. *)
Definition new_ws_stream (stream : StreamId) (ws_pending_peer : option WsPendingPeer)
    (peer_id : NodeId) (peer_tx tx : ChanId) (m : WebsocketManager)
    : ManagerState * WebsocketManager * list MgrOut :=
  let '(connection_id, counter) := counter_next (wm_connection_counter m) in
  let realms := realms_of Global in
  let stream_direction :=
    match ws_pending_peer with Some p => Outbound (wp_config p) | None => Inbound end in
  let '(peer, outs) :=
    register_peer peer_id (wm_node_id m) Global connection_id 20%N realms peer_tx in
  let active := mkActive stream_direction peer_id tx in
  (MsListen, set_current (wm_current_peers m ++ [active]) (set_counter counter m),
   map OutPeer outs ++ [OutRunPeer stream tx peer]).

Definition connect_remote (p : WsPendingPeer) (m : WebsocketManager)
    : ManagerState * WebsocketManager * list MgrOut := (MsListen, m, [OutConnect p]).

Definition peer_exists (config : WebSocketPeerConfig) (m : WebsocketManager) : bool :=
  existsb (fun p => bool_decide (wp_config p = config)) (wm_pending_peers m) ||
  existsb (fun p => bool_decide (wp_config p = config)) (wm_disconnected_peers m) ||
  existsb (fun p => direction_is_config (ap_direction p) config) (wm_current_peers m).

Definition add_ws_peer (now : Instant) (req : WebSocketPeerConfig) (respond_to : ChanId)
    (m : WebsocketManager) : ManagerState * WebsocketManager * list MgrOut :=
  if peer_exists req m then (MsListen, m, [OutReply respond_to false])
  else (MsListen, set_pending (wm_pending_peers m ++ [pending_of_config now req]) m,
        [OutReply respond_to true]).

Definition len_peers (m : WebsocketManager) : nat :=
  length (wm_pending_peers m) + length (wm_disconnected_peers m) + length (wm_current_peers m).

Definition other_url (url : WsUrl) (p : WsPendingPeer) : bool :=
  negb (bool_decide (pc_url (wp_config p) = url)).

Definition remove_ws_peer (url : WsUrl) (respond_to : ChanId) (m : WebsocketManager)
    : ManagerState * WebsocketManager * list MgrOut :=
  let len_orig := len_peers m in
  let m := set_pending (retain (other_url url) (wm_pending_peers m)) m in
  let m := set_disconnected (retain (other_url url) (wm_disconnected_peers m)) m in
  let '(m, outs) :=
    match remove_first (fun p => direction_is_url (ap_direction p) url) (wm_current_peers m) with
    | Some (peer, rest) => (set_current rest m, [OutControl (ap_ws_control peer) WsShutdown])
    | None => (m, [])
    end in
  (MsListen, m, outs ++ [OutReply respond_to (Nat.ltb (len_peers m) len_orig)]).

Definition queue_reconnect (now : Instant) (p : WsPendingPeer) (m : WebsocketManager)
    : ManagerState * WebsocketManager := (MsListen, schedule (record_attempt now p) m).

(** * The tasks that dial *)

(** [handshake_peer]: [received] is what arrives within five seconds, if anything does; a
    failure to send our [Hello] is only logged. *)
Definition handshake_peer (stream : StreamId) (ws_pending_peer : option WsPendingPeer)
    (received : option InMessage) : option WsCommand :=
  match received with
  | Some (InWsMessage (Hello peer_id)) => Some (CmdNewWsStream stream ws_pending_peer peer_id)
  | _ =>
      match ws_pending_peer with
      | None => None
      | Some p => Some (CmdQueueReconnect p)
      end
  end.

(** [connect_to_peer]: [attempt] is the stream, if the connection succeeded. *)
Definition connect_to_peer (p : WsPendingPeer) (attempt : option StreamId)
    (received : option InMessage) : option WsCommand :=
  match attempt with
  | Some stream => handshake_peer stream (Some p) received
  | None => Some (CmdQueueReconnect p)
  end.

(** * The loop of [start] *)

(** What the environment supplies to a turn of the loop. *)
Record MgrInput := mkMgrInput {
  mi_now : Instant;
  mi_wake : MgrWakeup;
  mi_listener_created : bool;
  mi_counter : N;               (* the shared [ConnectionIdCounter], which other tasks advance too *)
  mi_peer_tx : ChanId;
  mi_control_tx : ChanId;
}.

Definition mgr_next (s : ManagerState) (i : MgrInput) (m : WebsocketManager)
    : option ManagerState * WebsocketManager * list MgrOut :=
  match s with
  | MsInit => let '(s, m) := init (mi_listener_created i) m in (Some s, m, [])
  | MsListen => let '(s, m, outs) := mgr_listen (mi_now i) (mi_wake i) m in (Some s, m, outs)
  | MsHandleCommand c => let '(s, m) := handle_command (mi_now i) c m in (Some s, m, [])
  | MsNewWsStream stream pending peer_id =>
      let m := set_counter (mi_counter i) m in
      let '(s, m, outs) := new_ws_stream stream pending peer_id (mi_peer_tx i) (mi_control_tx i) m in
      (Some s, m, outs)
  | MsConnectRemote p => let '(s, m, outs) := connect_remote p m in (Some s, m, outs)
  | MsQueueReconnect p => let '(s, m) := queue_reconnect (mi_now i) p m in (Some s, m, [])
  | MsError => (Some MsListen, m, [])
  | MsShutdown => (None, set_current [] m, notify_peers (wm_current_peers m))
  | MsAddWsPeer req respond_to =>
      let '(s, m, outs) := add_ws_peer (mi_now i) req respond_to m in (Some s, m, outs)
  | MsRemoveWsPeer url respond_to =>
      let '(s, m, outs) := remove_ws_peer url respond_to m in (Some s, m, outs)
  end.

(** The loop itself: one input for each turn; it ends with the task. *)
Fixpoint mgr_run (inputs : list MgrInput) (s : ManagerState) (m : WebsocketManager)
    : option ManagerState * WebsocketManager * list MgrOut :=
  match inputs with
  | [] => (Some s, m, [])
  | i :: inputs =>
      let '(s, m, outs) := mgr_next s i m in
      match s with
      | None => (None, m, outs)
      | Some s =>
          let '(s, m, outs') := mgr_run inputs s m in (s, m, outs ++ outs')
      end
  end.
End manager.
