(* ===== verification/WsManagerProofs.v ===== *)
(** What the websocket manager guarantees: the order of its retry queue, its backoff, and that
    no outbound peer is forgotten except where the code says so. *)
From Stdlib Require Import Strings.String.
From S2P Require Import Prelude Types Messages World Peer WsPeer WsManager.

(** * Backoff *)
Section backoff.
Context `{U : UrlLib}.

Lemma record_attempt_iter (nows : nat -> Instant) (p : WsPendingPeer) k :
  wp_num_attempts p = 0%N -> (N.of_nat k < 4294967296)%N ->
  let q := foldl (fun p i => record_attempt (nows i) p) p (seq 0 k) in
  wp_num_attempts q = N.of_nat k /\ wp_config q = wp_config p.
Proof.
  intros Hp. induction k as [|k IH]; intros Hk; [by simpl|].
  rewrite seq_S, foldl_app. simpl. destruct IH as [Hn Hc]; [lia|]. rewrite Hn.
  split; [|done]. rewrite N.mod_small by lia. lia.
Qed.

(** C31: after [S k] failed attempts in a row the next one is due [2^(S k)] seconds after the last
    (the first retry after two seconds), and never later than 256 seconds after it. *)
Theorem backoff_doubles (nows : nat -> Instant) now config k :
  (N.of_nat k < 4294967295)%N ->
  let failed := foldl (fun p i => record_attempt (nows i) p) (pending_of_config now config) (seq 0 (S k)) in
  when_ready failed = (nows k + from_secs (2 ^ N.min (N.of_nat (S k)) 8))%N /\
  (wp_backoff failed <= from_secs 256)%N /\ wp_config failed = config.
Proof.
  intros Hk. cbv zeta. rewrite seq_S, foldl_app. cbn [foldl Nat.add].
  destruct (record_attempt_iter nows (pending_of_config now config) k) as [Hn Hc]; [done|lia|].
  set (p := foldl _ _ _) in *.
  assert (Hq : record_attempt (nows k) p =
    mkPending config (nows k) (from_secs (2 ^ N.min (N.of_nat (S k)) 8)%N) (N.of_nat (S k))).
  { unfold record_attempt. rewrite Hn, Hc. replace (N.of_nat k + 1)%N with (N.of_nat (S k)) by lia.
    by rewrite N.mod_small by lia. }
  rewrite Hq. split_and!; [done| |done]. cbn [wp_backoff].
  assert (Hpow : (2 ^ N.min (N.of_nat (S k)) 8 <= 2 ^ 8)%N) by (apply N.pow_le_mono_r; lia).
  unfold from_secs. change (2 ^ 8)%N with 256%N in Hpow. by apply N.mul_le_mono_r.
Qed.
End backoff.

(** * The retry queue *)
Section queue.
Context `{Cd : Codec} `{U : UrlLib}.

Definition queue_ok (m : WebsocketManager) : Prop := sorted_by_key when_ready (wm_disconnected_peers m).

(** The configurations of [start]. *)
Inductive mgr_reachable (node_id : NodeId) (ws_listener : bool) (peers : list WebSocketPeerConfig)
    (counter : N) (nows : nat -> Instant) : option ManagerState -> WebsocketManager -> Prop :=
  | mgr_start : mgr_reachable node_id ws_listener peers counter nows (Some MsInit)
                  (manager_new node_id ws_listener peers counter nows)
  | mgr_step s i m s' m' outs :
      mgr_reachable node_id ws_listener peers counter nows (Some s) m ->
      mgr_next s i m = (s', m', outs) ->
      mgr_reachable node_id ws_listener peers counter nows s' m'.

Lemma ready_peer_queue now m p m' :
  queue_ok m -> get_next_ready_peer now m = (p, m') -> queue_ok m'.
Proof.
  unfold queue_ok, get_next_ready_peer. intros Hs.
  destruct (wm_disconnected_peers m) as [|q rest] eqn:E; [intros [= <- <-]; by rewrite E|].
  destruct (N.leb _ _); intros [= <- <-]; simpl; [|by rewrite E].
  by apply StronglySorted_inv in Hs as [? _].
Qed.

Lemma schedule_queue p m : queue_ok m -> queue_ok (schedule p m).
Proof. apply insert_if_absent_sorted. Qed.

Lemma listen_queue now wake m s m' outs :
  queue_ok m -> mgr_listen now wake m = (s, m', outs) -> queue_ok m'.
Proof.
  intros Hs. unfold mgr_listen. destruct (vec_pop _) as [[p rest]|]; [by intros [= <- <- <-]|].
  destruct (get_next_ready_peer now m) as [o m1] eqn:E1.
  pose proof (ready_peer_queue _ _ _ _ Hs E1) as H1. destruct o; [by intros [= <- <- <-]|].
  destruct wake as [now'|[]|cmd|[[]|] nows|]; try (by intros [= <- <- <-]).
  - destruct (get_next_ready_peer now' m1) as [o m2] eqn:E2.
    pose proof (ready_peer_queue _ _ _ _ H1 E2). destruct o; by intros [= <- <- <-].
  - unfold on_resume. intros [= <- <- <-]. apply sort_by_key_sorted.
Qed.

Lemma next_queue s i m s' m' outs : queue_ok m -> mgr_next s i m = (s', m', outs) -> queue_ok m'.
Proof.
  intros Hs. destruct s; simpl.
  - unfold init. destruct (wm_ws_listener m); by intros [= <- <- <-].
  - destruct (mgr_listen _ _ _) as [[s m1] o] eqn:E. intros [= <- <- <-]. by eapply listen_queue.
  - unfold handle_command. destruct c; try (by intros [= <- <- <-]).
    destruct (remove_first _ _) as [[p rest]|]; [|by intros [= <- <- <-]].
    destruct (ap_direction p); intros [= <- <- <-]; [done | by apply schedule_queue].
  - by intros [= <- <- <-].
  - by intros [= <- <- <-].
  - intros [= <- <- <-]. by apply schedule_queue.
  - unfold add_ws_peer. destruct (peer_exists _ _); by intros [= <- <- <-].
  - unfold remove_ws_peer. destruct (remove_first _ _) as [[p rest]|]; intros [= <- <- <-];
      eapply sorted_by_key_sublist; [apply retain_sublist | done | apply retain_sublist | done].
  - by intros [= <- <- <-].
  - by intros [= <- <- <-].
Qed.

Lemma reachable_queue n b peers c nows s m : mgr_reachable n b peers c nows s m -> queue_ok m.
Proof. induction 1; [constructor | by eapply next_queue]. Qed.

(** The manager takes disconnected peers in the order they become due: in every reachable
    configuration the peer it takes is due and none is due earlier, when it takes none no peer
    is due, and the time it then sleeps is exactly until the earliest one is. *)
Theorem ready_peer_is_earliest n b peers c nows s m now :
  mgr_reachable n b peers c nows s m ->
  let '(taken, m') := get_next_ready_peer now m in
  match taken with
  | Some p => wm_disconnected_peers m = p :: wm_disconnected_peers m' /\ (when_ready p <= now)%N /\
      forall q, q ∈ wm_disconnected_peers m -> (when_ready p <= when_ready q)%N
  | None => m' = m /\ (forall q, q ∈ wm_disconnected_peers m -> (now < when_ready q)%N) /\
      match get_next_timeout now m with
      | None => wm_disconnected_peers m = []
      | Some d => (exists q, q ∈ wm_disconnected_peers m /\ (now + d)%N = when_ready q) /\
          forall q, q ∈ wm_disconnected_peers m -> (now + d <= when_ready q)%N
      end
  end.
Proof.
  intros Hs%reachable_queue. unfold queue_ok, get_next_ready_peer, get_next_timeout in *.
  destruct (wm_disconnected_peers m) as [|p l]; [by split_and!; [|intros q ?%elem_of_nil|]|].
  apply StronglySorted_inv in Hs as [_ Hall]. rewrite Forall_forall in Hall.
  assert (Hmin : forall q, q ∈ p :: l -> (when_ready p <= when_ready q)%N)
    by (intros q [->|Hq]%elem_of_cons; [done | by apply Hall]).
  destruct (N.leb_spec (when_ready p) now) as [Hle|Hlt]; simpl; [done|].
  split_and!; [done| |exists p; split; [by left | tlia]|].
  - intros q Hq. specialize (Hmin q Hq). tlia.
  - intros q Hq. specialize (Hmin q Hq). tlia.
Qed.

(** Two turns dial the newest of the peers never dialled. *)
Lemma pending_dialled i1 i2 inputs m ps p :
  wm_pending_peers m = ps ++ [p] ->
  mgr_run (i1 :: i2 :: inputs) MsListen m =
  let '(s, m, outs) := mgr_run inputs MsListen (set_pending ps m) in (s, m, OutConnect p :: outs).
Proof.
  intros Hp. assert (Hv : vec_pop (wm_pending_peers m) = Some (p, ps))
    by (rewrite Hp; unfold vec_pop; by rewrite rev_app_distr; simpl; rewrite rev_involutive).
  cbn [mgr_run mgr_next]. unfold mgr_listen. rewrite Hv. cbn [mgr_run mgr_next connect_remote app].
  by destruct (mgr_run inputs MsListen _) as [[s' m'] outs].
Qed.

(** Two turns dial the peer that is due first. *)
Lemma first_dialled i1 i2 inputs m p rest :
  wm_pending_peers m = [] -> wm_disconnected_peers m = p :: rest -> (when_ready p <= mi_now i1)%N ->
  mgr_run (i1 :: i2 :: inputs) MsListen m =
  let '(s, m, outs) := mgr_run inputs MsListen (set_disconnected rest m) in (s, m, OutConnect p :: outs).
Proof.
  intros Hp Hd Hdue%N.leb_le. cbn [mgr_run mgr_next]. unfold mgr_listen, get_next_ready_peer.
  rewrite Hp, Hd, Hdue. cbn [vec_pop rev mgr_run mgr_next connect_remote app].
  by destruct (mgr_run inputs MsListen _) as [[s' m'] outs].
Qed.

Lemma queue_dialled k : forall inputs m p,
  queue_ok m -> wm_pending_peers m = [] -> wm_disconnected_peers m !! k = Some p ->
  length inputs = 2 * S k -> Forall (fun i => when_ready p <= mi_now i)%N inputs ->
  mgr_run inputs MsListen m =
  (Some MsListen, set_disconnected (drop (S k) (wm_disconnected_peers m)) m,
   map OutConnect (take (S k) (wm_disconnected_peers m))).
Proof.
  induction k as [|k IH]; intros inputs m p Hq Hp Hk Hlen Hdue;
    destruct (wm_disconnected_peers m) as [|q rest] eqn:Hd; try done;
    destruct inputs as [|i1 [|i2 inputs]]; try (simpl in Hlen; lia);
    apply Forall_cons in Hdue as [H1 Hdue]; apply Forall_cons in Hdue as [_ Hdue].
  - injection Hk as <-. destruct inputs; [|simpl in Hlen; lia].
    rewrite (first_dialled _ _ _ m q rest) by done. done.
  - assert (Hle : (when_ready q <= when_ready p)%N).
    { unfold queue_ok in Hq. rewrite Hd in Hq. apply StronglySorted_inv in Hq as [_ Hall].
      rewrite Forall_forall in Hall. apply Hall. by eapply list_elem_of_lookup_2. }
    rewrite (first_dialled _ _ _ m q rest) by (done || tlia).
    rewrite (IH inputs (set_disconnected rest m) p); try done.
    + unfold queue_ok in *. rewrite Hd in Hq. by apply StronglySorted_inv in Hq as [Hq _].
    + simpl in Hlen. lia.
Qed.

Lemma all_dialled ps : forall inputs m k p,
  queue_ok m -> wm_pending_peers m = ps -> wm_disconnected_peers m !! k = Some p ->
  length inputs = 2 * (length ps + S k) -> Forall (fun i => when_ready p <= mi_now i)%N inputs ->
  mgr_run inputs MsListen m =
  (Some MsListen, set_disconnected (drop (S k) (wm_disconnected_peers m)) (set_pending [] m),
   map OutConnect (rev ps ++ take (S k) (wm_disconnected_peers m))).
Proof.
  induction ps as [|q ps IH] using rev_ind; intros inputs m k p Hq Hp Hk Hlen Hdue.
  - rewrite (queue_dialled k inputs m p) by done. by destruct m; simpl in *; subst.
  - rewrite length_app in Hlen. simpl in Hlen.
    destruct inputs as [|i1 [|i2 inputs]]; try (simpl in Hlen; lia).
    apply Forall_cons in Hdue as [_ Hdue]. apply Forall_cons in Hdue as [_ Hdue].
    rewrite (pending_dialled _ _ _ m ps q Hp), (IH inputs (set_pending ps m) k p); try done.
    + by rewrite rev_app_distr.
    + simpl in Hlen. lia.
Qed.

(** C30: dialling is not starved: from every reachable configuration that waits, a disconnected
    peer that is due is dialled within two turns for every peer never dialled and for every peer
    due before it, whatever messages arrive meanwhile; those turns dial exactly these peers, the
    newest first and then in the order they became due. When there is no one to dial the manager
    sleeps exactly until the first peer is due. *)
Theorem due_peers_are_dialled n b peers c nows m :
  mgr_reachable n b peers c nows (Some MsListen) m ->
  (forall k p inputs,
     wm_disconnected_peers m !! k = Some p ->
     length inputs = 2 * (length (wm_pending_peers m) + S k) ->
     Forall (fun i => when_ready p <= mi_now i)%N inputs ->
     mgr_run inputs MsListen m =
     (Some MsListen, set_disconnected (drop (S k) (wm_disconnected_peers m)) (set_pending [] m),
      map OutConnect (rev (wm_pending_peers m) ++ take (S k) (wm_disconnected_peers m)))) /\
  (forall now, wm_pending_peers m = [] -> (forall p, p ∈ wm_disconnected_peers m -> (now < when_ready p)%N) ->
     (get_next_ready_peer now m).1 = None /\
     match get_next_timeout now m with
     | None => wm_disconnected_peers m = []
     | Some d => exists p, wm_disconnected_peers m !! 0 = Some p /\ (now + d)%N = when_ready p /\
         forall i i', mi_wake i = WkTimeout (now + d)%N -> (mi_now i < when_ready p)%N ->
           mgr_run [i; i'] MsListen m =
           (Some MsListen, set_disconnected (drop 1 (wm_disconnected_peers m)) m, [OutConnect p])
     end).
Proof.
  intros Hq%reachable_queue. split.
  - intros k p inputs Hk Hlen Hdue. by apply (all_dialled _ _ m k p).
  - intros now Hpend Hnone. unfold get_next_ready_peer, get_next_timeout.
    destruct (wm_disconnected_peers m) as [|p rest] eqn:Hd; [done|].
    assert (Hlt : (now < when_ready p)%N) by (apply Hnone; by left).
    destruct (N.leb_spec (when_ready p) now) as [Hle|_]; [tlia|]. split; [done|].
    exists p. split; [done|]. assert (Hsum : (now + (when_ready p - now))%N = when_ready p) by tlia.
    split; [done|]. rewrite Hsum. intros i i' Hw Hi. cbn [mgr_run mgr_next].
    unfold mgr_listen, get_next_ready_peer. rewrite Hpend, Hd, Hw.
    destruct (N.leb_spec (when_ready p) (mi_now i)) as [Hle|_]; [tlia|].
    cbn [vec_pop rev]. rewrite Hd, N.leb_refl. done.
Qed.
End queue.

(** * Accounting for peers *)
Section accounting.
Context `{Cd : Codec} `{U : UrlLib}.

Definition outbound_config (p : WsActivePeer) : option WebSocketPeerConfig :=
  match ap_direction p with Outbound config => Some config | Inbound => None end.

Definition manager_configs (m : WebsocketManager) : list WebSocketPeerConfig :=
  map wp_config (wm_pending_peers m) ++ map wp_config (wm_disconnected_peers m) ++
  omap outbound_config (wm_current_peers m).

Definition command_configs (c : WsCommand) : list WebSocketPeerConfig :=
  match c with
  | CmdNewWsStream _ (Some p) _ | CmdQueueReconnect p => [wp_config p]
  | CmdNewWsStream _ None _ | CmdPeerClosed _ => []
  end.

(** The peers the state itself holds. *)
Definition state_configs (s : option ManagerState) : list WebSocketPeerConfig :=
  match s with
  | Some (MsHandleCommand c) => command_configs c
  | Some (MsNewWsStream _ (Some p) _) | Some (MsConnectRemote p) | Some (MsQueueReconnect p) => [wp_config p]
  | Some (MsAddWsPeer req _) => [req]
  | _ => []
  end.

(** The peers handed to a dialling task. *)
Definition dialled (o : MgrOut) : option WebSocketPeerConfig :=
  match o with OutConnect p => Some (wp_config p) | _ => None end.

(** The turn gets as far as waiting: nothing is to be dialled right now. *)
Definition awaits (now : Instant) (m : WebsocketManager) : bool :=
  match wm_pending_peers m, wm_disconnected_peers m with
  | [], [] => true
  | [], p :: _ => N.ltb now (when_ready p)
  | _ :: _, _ => false
  end.

(** The peers that come with what the wait yields. *)
Definition arriving (wake : MgrWakeup) : list WebSocketPeerConfig :=
  match wake with
  | WkCommand c => command_configs c
  | WkRpc (RpcAddPeer req _) => [req]
  | _ => []
  end.

(** The peers a turn is given: those that come with what it takes from the mailboxes. *)
Definition taken (s : ManagerState) (i : MgrInput) (m : WebsocketManager) : list WebSocketPeerConfig :=
  match s with MsListen => if awaits (mi_now i) m then arriving (mi_wake i) else [] | _ => [] end.

Definition clashes (p : WsPendingPeer) (m : WebsocketManager) : bool :=
  existsb (fun q => N.eqb (when_ready q) (when_ready p)) (wm_disconnected_peers m).

(** The peer a turn forgets because another one is due at the same instant. *)
Definition forgotten (s : ManagerState) (now : Instant) (m : WebsocketManager)
    : list WebSocketPeerConfig :=
  match s with
  | MsQueueReconnect p => if clashes (record_attempt now p) m then [wp_config p] else []
  | MsHandleCommand (CmdPeerClosed id) =>
      match remove_first (is_peer id) (wm_current_peers m) with
      | Some (mkActive (Outbound config) _ _, _) =>
          if clashes (pending_of_config now config) m then [config] else []
      | _ => []
      end
  | _ => []
  end.

Definition is_for (url : WsUrl) (c : WebSocketPeerConfig) : bool := bool_decide (pc_url c = url).

(** The peers a turn gives up: one asked for that is known already, those of a URL to be removed
    (of the connected ones the first), the connected ones at the end. *)
Definition given_up (s : ManagerState) (m : WebsocketManager) : list WebSocketPeerConfig :=
  match s with
  | MsAddWsPeer req _ => if peer_exists req m then [req] else []
  | MsRemoveWsPeer url _ =>
      retain (is_for url) (map wp_config (wm_pending_peers m)) ++
      retain (is_for url) (map wp_config (wm_disconnected_peers m)) ++
      take 1 (retain (is_for url) (omap outbound_config (wm_current_peers m)))
  | MsShutdown => omap outbound_config (wm_current_peers m)
  | _ => []
  end.

Lemma schedule_configs p m :
  manager_configs (schedule p m) ++ (if clashes p m then [wp_config p] else []) ≡ₚ
  wp_config p :: manager_configs m.
Proof.
  unfold manager_configs, schedule, clashes. simpl.
  destruct (insert_if_absent_cases when_ready p (wm_disconnected_peers m)) as [[(q & Hq & Hk) ->]|[Hno Hp]].
  - assert (existsb (fun q => N.eqb (when_ready q) (when_ready p)) (wm_disconnected_peers m) = true) as ->.
    { apply existsb_elem. exists q. by rewrite Hk, N.eqb_refl. }
    by rewrite (Permutation_app_comm _ [_]).
  - assert (existsb (fun q => N.eqb (when_ready q) (when_ready p)) (wm_disconnected_peers m) = false) as ->.
    { apply not_true_iff_false. intros (q & Hq & Hk%N.eqb_eq)%existsb_elem. by apply (Hno q). }
    rewrite app_nil_r. rewrite (Permutation_map wp_config Hp). simpl. symmetry. apply Permutation_middle.
Qed.

Lemma ready_peer_configs now m p m' :
  get_next_ready_peer now m = (p, m') ->
  manager_configs m ≡ₚ match p with Some p => [wp_config p] | None => [] end ++ manager_configs m'.
Proof.
  unfold get_next_ready_peer, manager_configs.
  destruct (wm_disconnected_peers m) as [|q rest] eqn:E; [intros [= <- <-]; by rewrite E|].
  destruct (N.leb _ _); intros [= <- <-]; simpl; [|by rewrite E].
  symmetry. apply Permutation_middle.
Qed.

Lemma imap_ready_configs nows l :
  map wp_config (imap (fun i p => ready_now (nows i) p) l) = map wp_config l.
Proof.
  revert nows. induction l as [|p l IH]; intros nows; [done|]. rewrite imap_cons. simpl. f_equal.
  apply (IH (fun i => nows (S i))).
Qed.

Lemma resume_configs nows m s m' outs :
  on_resume nows m = (s, m', outs) ->
  manager_configs m ≡ₚ manager_configs m' /\ s = MsListen /\ omap dialled outs = [].
Proof.
  unfold on_resume. intros [= <- <- <-]. split_and!; [|done|].
  - unfold manager_configs. simpl.
    by rewrite (Permutation_map wp_config (sort_by_key_perm when_ready _)), imap_ready_configs.
  - by induction (wm_current_peers m).
Qed.

Lemma ready_awaits now m : wm_pending_peers m = [] ->
  awaits now m = match get_next_ready_peer now m with (Some _, _) => false | (None, _) => true end.
Proof.
  intros Hp. unfold awaits, get_next_ready_peer. rewrite Hp. destruct (wm_disconnected_peers m) as [|p l]; [done|].
  rewrite N.ltb_antisym. by destruct (N.leb _ _).
Qed.

Lemma listen_configs now wake m s m' outs :
  mgr_listen now wake m = (s, m', outs) ->
  manager_configs m ++ (if awaits now m then arriving wake else []) ≡ₚ
  manager_configs m' ++ state_configs (Some s) /\ omap dialled outs = [].
Proof.
  unfold mgr_listen. destruct (vec_pop _) as [[p rest]|] eqn:Ep.
  { apply vec_pop_Some in Ep. intros [= <- <- <-]. split; [|done].
    assert (awaits now m = false) as -> by (unfold awaits; rewrite Ep; by destruct rest). unfold manager_configs. simpl.
    rewrite Ep, map_app, app_nil_r. simpl. rewrite <- !app_assoc. f_equiv.
    rewrite (Permutation_app_comm [_]). by rewrite <- app_assoc. }
  rewrite (ready_awaits now m (vec_pop_None _ Ep)).
  destruct (get_next_ready_peer now m) as [o m1] eqn:E1.
  pose proof (ready_peer_configs _ _ _ _ E1) as H1. destruct o as [p|].
  { intros [= <- <- <-]. split; [|done]. simpl. rewrite app_nil_r, H1. apply Permutation_app_comm. }
  simpl in H1. destruct wake as [now'|[]|cmd|[[]|] nows|]; try (intros [= <- <- <-]; by rewrite H1).
  - destruct (get_next_ready_peer now' m1) as [o m2] eqn:E2.
    pose proof (ready_peer_configs _ _ _ _ E2) as H2. destruct o as [p|]; intros [= <- <- <-]; simpl;
      rewrite ?app_nil_r, H1, H2; (split; [|done]); simpl; [apply Permutation_cons_append | done].
  - intros (Hc & -> & Ho)%resume_configs. simpl. by rewrite !app_nil_r, H1, Hc.
Qed.

Lemma peer_closed_configs now id m s m' :
  handle_command now (CmdPeerClosed id) m = (s, m') ->
  manager_configs m ≡ₚ manager_configs m' ++ forgotten (MsHandleCommand (CmdPeerClosed id)) now m /\
  s = MsListen.
Proof.
  simpl. destruct (remove_first (is_peer id) (wm_current_peers m)) as [[[d pid tx] rest]|] eqn:Er.
  2: { intros [= <- <-]. by rewrite app_nil_r. }
  apply remove_first_Some in Er as (l1 & l2 & Hl & -> & _).
  assert (Hm : manager_configs m ≡ₚ
    (match d with Outbound c => [c] | Inbound => [] end) ++ manager_configs (set_current (l1 ++ l2) m)).
  { unfold manager_configs. simpl. rewrite Hl, !omap_app. simpl.
    unfold outbound_config at 2. destruct d as [|c]; simpl; [done|].
    rewrite !app_assoc. symmetry. rewrite app_comm_cons. apply Permutation_middle. }
  destruct d as [|c]; simpl in *; intros [= <- <-]; [by rewrite app_nil_r|].
  split; [|done]. rewrite Hm.
  symmetry. exact (schedule_configs (pending_of_config now c) (set_current (l1 ++ l2) m)).
Qed.

Lemma new_stream_configs stream pending peer_id peer_tx tx m s m' outs :
  new_ws_stream stream pending peer_id peer_tx tx m = (s, m', outs) ->
  manager_configs m ++ match pending with Some p => [wp_config p] | None => [] end ≡ₚ manager_configs m' /\
  s = MsListen /\ omap dialled outs = [].
Proof.
  unfold new_ws_stream. simpl. intros [= <- <- <-]. split_and!; [|done..].
  unfold manager_configs. simpl. rewrite omap_app, <- !app_assoc. by destruct pending.
Qed.

(** What a request to remove takes away. *)
Lemma removed_waiting url (l : list WsPendingPeer) :
  map wp_config l ≡ₚ map wp_config (retain (other_url url) l) ++ retain (is_for url) (map wp_config l).
Proof.
  induction l as [|p l IH]; [done|]. cbn [map]. rewrite !retain_cons. unfold other_url, is_for at 1.
  destruct (bool_decide _); cbn [negb map app]; rewrite IH at 1; [apply Permutation_middle | done].
Qed.

Lemma removed_connected url (l : list WsActivePeer) :
  omap outbound_config l ≡ₚ
  omap outbound_config (match remove_first (fun p => direction_is_url (ap_direction p) url) l with
    | Some (_, rest) => rest | None => l end) ++ take 1 (retain (is_for url) (omap outbound_config l)).
Proof.
  induction l as [|[d id tx] l IH]; [done|]. cbn [remove_first ap_direction]. destruct d as [|c]; cbn [direction_is_url].
  - cbn [omap list_omap outbound_config ap_direction]. rewrite IH at 1.
    destruct (remove_first _ l) as [[y r]|]; done.
  - cbn [omap list_omap outbound_config ap_direction]. rewrite retain_cons. unfold is_for at 1.
    destruct (bool_decide (pc_url c = url)).
    + cbn [take]. rewrite take_0. apply Permutation_cons_append.
    + rewrite IH at 1. destruct (remove_first _ l) as [[y r]|]; done.
Qed.

Lemma remove_configs url tx m s m' outs :
  remove_ws_peer url tx m = (s, m', outs) ->
  manager_configs m ≡ₚ manager_configs m' ++ given_up (MsRemoveWsPeer url tx) m /\ s = MsListen /\ omap dialled outs = [].
Proof.
  unfold remove_ws_peer. cbn [wm_current_peers set_disconnected set_pending]. intros Hr.
  assert (Hm : manager_configs m' =
      map wp_config (retain (other_url url) (wm_pending_peers m)) ++
      map wp_config (retain (other_url url) (wm_disconnected_peers m)) ++
      omap outbound_config (match remove_first (fun p => direction_is_url (ap_direction p) url) (wm_current_peers m) with
        | Some (_, rest) => rest | None => wm_current_peers m end) /\ s = MsListen /\ omap dialled outs = [])
    by (destruct (remove_first _ _) as [[peer rest]|]; by injection Hr as <- <- <-).
  destruct Hm as (-> & -> & ->). split; [|done]. cbn [given_up]. unfold manager_configs.
  rewrite (removed_waiting url (wm_pending_peers m)) at 1. rewrite (removed_waiting url (wm_disconnected_peers m)) at 1.
  rewrite (removed_connected url (wm_current_peers m)) at 1. solve_Permutation.
Qed.

(** C29: the manager accounts for every outbound peer, in every one of its turns: the peers it holds
    (to be dialled, waiting to be dialled again, connected, or carried by its state) together
    with those in what it takes from its mailboxes are exactly, counted with multiplicity, those
    it holds afterwards, those it hands to a dialling task, those it gives up (asked for although
    known, removed by request, connected at the end) and the at most one peer that is forgotten
    because another one is due at the very same instant. *)
Theorem peers_accounted s i m s' m' outs :
  mgr_next s i m = (s', m', outs) ->
  manager_configs m ++ state_configs (Some s) ++ taken s i m ≡ₚ
  manager_configs m' ++ state_configs s' ++ omap dialled outs ++ given_up s m ++ forgotten s (mi_now i) m /\
  length (forgotten s (mi_now i) m) <= 1.
Proof.
  intros Hn. split.
  2: { destruct s; simpl; repeat case_match; simpl; lia. }
  destruct s as [| |c|stream pending peer_id|p|p|req tx|url tx| |]; cbn [mgr_next] in Hn; try done.
  - unfold init in Hn. destruct (wm_ws_listener m); injection Hn as <- <- <-; simpl;
      [by destruct (mi_listener_created i)|done].
  - destruct (mgr_listen _ _ _) as [[s m1] o] eqn:E. injection Hn as <- <- <-.
    destruct (listen_configs _ _ _ _ _ _ E) as [Hc ->]. cbn [taken given_up forgotten]. simpl (state_configs (Some MsListen)).
    by rewrite !app_nil_r.
  - destruct c as [stream pending peer_id|id|p].
    + injection Hn as <- <- <-. simpl. by destruct pending; simpl; rewrite ?app_nil_r.
    + destruct (handle_command _ _ _) as [s m1] eqn:E. injection Hn as <- <- <-.
      destruct (peer_closed_configs _ _ _ _ _ E) as [Hc ->]. simpl state_configs. simpl taken.
      simpl given_up. by rewrite !app_nil_r, Hc.
    + injection Hn as <- <- <-. done.
  - cbv zeta in Hn. destruct (new_ws_stream _ _ _ _ _ _) as [[s m1] o] eqn:E. injection Hn as <- <- <-.
    destruct (new_stream_configs _ _ _ _ _ _ _ _ _ E) as (Hc & -> & ->). simpl.
    rewrite !app_nil_r, <- Hc. by destruct pending.
  - injection Hn as <- <- <-. done.
  - injection Hn as <- <- <-. pose proof (schedule_configs (record_attempt (mi_now i) p) m) as Hc.
    change (wp_config (record_attempt (mi_now i) p)) with (wp_config p) in Hc.
    simpl. rewrite Hc. symmetry. apply Permutation_cons_append.
  - unfold add_ws_peer in Hn. simpl. destruct (peer_exists req m); injection Hn as <- <- <-; simpl; [done|].
    unfold manager_configs. simpl. rewrite map_app, !app_nil_r. simpl. solve_Permutation.
  - destruct (remove_ws_peer _ _ _) as [[s m1] o] eqn:E. injection Hn as <- <- <-.
    destruct (remove_configs _ _ _ _ _ _ E) as (Hc & -> & ->). cbn [taken forgotten]. simpl (state_configs _). simpl.
    by rewrite !app_nil_r.
  - by injection Hn as <- <- <-.
  - assert (Ho : omap dialled (notify_peers (wm_current_peers m)) = []) by (clear; unfold notify_peers; by induction (wm_current_peers m)).
    injection Hn as <- <- <-. rewrite Ho. unfold manager_configs. simpl. by rewrite !app_nil_r, <- app_assoc.
Qed.
End accounting.

(** * Adding and removing *)
Section requests.
Context `{Cd : Codec} `{U : UrlLib}.

Definition knows_url (url : WsUrl) (m : WebsocketManager) : Prop :=
  exists c, c ∈ manager_configs m /\ pc_url c = url.

Lemma other_url_false url p : other_url url p = false <-> pc_url (wp_config p) = url.
Proof. unfold other_url. by rewrite negb_false_iff, bool_decide_eq_true. Qed.

Lemma direction_is_url_spec a url :
  direction_is_url (ap_direction a) url = true <->
  exists c, outbound_config a = Some c /\ pc_url c = url.
Proof.
  unfold direction_is_url, outbound_config. destruct (ap_direction a) as [|c]; [naive_solver|].
  rewrite bool_decide_eq_true. naive_solver.
Qed.

Lemma knows_url_spec url m :
  knows_url url m <->
  (exists p, p ∈ wm_pending_peers m /\ other_url url p = false) \/
  (exists p, p ∈ wm_disconnected_peers m /\ other_url url p = false) \/
  (exists a, a ∈ wm_current_peers m /\ direction_is_url (ap_direction a) url = true).
Proof.
  unfold knows_url, manager_configs. setoid_rewrite elem_of_app. setoid_rewrite elem_of_app.
  setoid_rewrite other_url_false. setoid_rewrite direction_is_url_spec.
  setoid_rewrite list_elem_of_fmap. setoid_rewrite list_elem_of_omap. naive_solver.
Qed.

(** What is left of the connected peers, and how many. *)
Lemma remove_current_spec url l :
  match remove_first (fun p => direction_is_url (ap_direction p) url) l with
  | Some (peer, rest) => length rest < length l /\ direction_is_url (ap_direction peer) url = true /\
      peer ∈ l /\ forall a, a ∈ l -> a = peer \/ a ∈ rest
  | None => forall a, a ∈ l -> direction_is_url (ap_direction a) url = false
  end.
Proof.
  destruct (remove_first _ l) as [[peer rest]|] eqn:E; [|by apply remove_first_None].
  apply remove_first_Some in E as (l1 & l2 & -> & -> & Hp & _). rewrite !length_app. simpl.
  split_and!; [lia|done|apply elem_of_app; right; by left|]. intros a. rewrite !elem_of_app, elem_of_cons. tauto.
Qed.

(** A request to remove a peer is granted exactly when a peer with that address is to be
    dialled, waiting, or connected; afterwards none is to be dialled or waiting, the connected one
    the request found was told to shut down, and every other peer is still there. *)
Theorem removal_answers url tx m s m' outs :
  remove_ws_peer url tx m = (s, m', outs) ->
  s = MsListen /\ (exists ok, OutReply tx ok ∈ outs /\ (ok = true <-> knows_url url m)) /\
  (forall p, p ∈ wm_pending_peers m' ++ wm_disconnected_peers m' <->
     p ∈ wm_pending_peers m ++ wm_disconnected_peers m /\ pc_url (wp_config p) <> url) /\
  (forall a, a ∈ wm_current_peers m -> a ∈ wm_current_peers m' \/
     direction_is_url (ap_direction a) url = true /\ OutControl (ap_ws_control a) WsShutdown ∈ outs).
Proof.
  unfold remove_ws_peer. intros Hr.
  pose proof (remove_current_spec url (wm_current_peers m)) as Hcur. cbn [wm_current_peers set_disconnected set_pending] in Hr.
  pose proof (retain_length_lt (other_url url) (wm_pending_peers m)) as Hp.
  pose proof (retain_length_lt (other_url url) (wm_disconnected_peers m)) as Hd.
  pose proof (retain_length_le (other_url url) (wm_pending_peers m)).
  pose proof (retain_length_le (other_url url) (wm_disconnected_peers m)).
  assert (Hkeep : forall p, p ∈ retain (other_url url) (wm_pending_peers m) ++
      retain (other_url url) (wm_disconnected_peers m) <->
      p ∈ wm_pending_peers m ++ wm_disconnected_peers m /\ pc_url (wp_config p) <> url).
  { intros p. rewrite !elem_of_app, !elem_of_retain. rewrite <- not_false_iff_true, other_url_false. tauto. }
  destruct (remove_first _ (wm_current_peers m)) as [[peer rest]|]; injection Hr as <- <- <-; unfold len_peers; simpl.
  - destruct Hcur as (Hlt & Hurl & Hin & Hrest). split_and!; [done| |exact Hkeep|].
    + eexists. split; [right; left|]. rewrite Nat.ltb_lt, knows_url_spec. split; [intros _|intros _; lia].
      right. right. by exists peer.
    + intros a Ha. destruct (Hrest a Ha) as [->|?]; [right|by left]. split; [done|by left].
  - split_and!; [done| |exact Hkeep|by left]. eexists. split; [left|].
    rewrite Nat.ltb_lt, knows_url_spec, <- Hp, <- Hd. split; [|intros [?|[?|(a & Ha & Hu)]]; [lia..|]].
    + intros Hlt. destruct (decide (length (retain (other_url url) (wm_pending_peers m)) < length (wm_pending_peers m)));
        [by left|right; left; lia].
    + by rewrite (Hcur a Ha) in Hu.
Qed.

(** A peer that is just being dialled is in none of the lists the manager compares with: a
    request to add it is granted again, and it will be dialled twice. *)
Theorem dialled_peer_added_again i m p rest now tx :
  vec_pop (wm_pending_peers m) = Some (p, rest) ->
  peer_exists (wp_config p) (set_pending rest m) = false ->
  exists m1, mgr_next MsListen i m = (Some (MsConnectRemote p), m1, []) /\
    mgr_next (MsConnectRemote p) i m1 = (Some MsListen, m1, [OutConnect p]) /\
    peer_exists (wp_config p) m = true /\
    add_ws_peer now (wp_config p) tx m1 =
      (MsListen, set_pending (rest ++ [pending_of_config now (wp_config p)]) m1, [OutReply tx true]).
Proof.
  intros Hpop Hex. exists (set_pending rest m). split_and!.
  - simpl. unfold mgr_listen. by rewrite Hpop.
  - done.
  - unfold peer_exists. apply vec_pop_Some in Hpop as ->. rewrite existsb_app. simpl.
    rewrite bool_decide_eq_true_2 by done. by rewrite orb_true_r.
  - unfold add_ws_peer. by rewrite Hex.
Qed.
End requests.
