(* ===== verification/DummyPeer.v ===== *)
(** [src/peers/dummy.rs]: a connection to a second bus of the same process over a pipe, with a
    switch that closes it, silences it or drops it. *)
From S2P Require Import Prelude Types Messages World Peer.

(** * Data *)
Section dummy.
Context `{Cd : Codec}.

Inductive DummyMessage :=
  | DmHello (id : NodeId)
  | DmNodeMsg (m : NodeMessage)
  | DmPing (token : N)
  | DmPong (token : N)
  | DmShutdown.

Inductive DummyPeerStop := StopShutdown | StopSilence | StopDrop.

Definition dummy_handshake_timeout : Duration := from_secs 2.
Definition dummy_heartbeat_interval : Duration := from_secs 10.
Definition dummy_heartbeat_timeout : Duration := from_secs 30.

Inductive DummyEvent :=
  | DeRemote (m : DummyMessage)
  | DeLocal (m : NodeMessage)
  | DeTick
  | DeClosed
  | DeStop (k : DummyPeerStop)
  | DeIgnore.

(** What the task does to its stream and to the rest of the node. A send records whether it
    succeeded. *)
Inductive DummyAct :=
  | DaSend (m : DummyMessage) (ok : bool)
  | DaCloseStream
  | DaPeer (o : PeerOut).

(** The arguments of [run]. *)
Record DummyConfig := mkDummyConfig { dc_our_id : NodeId; dc_cost : Cost; dc_realms : RealmList }.

(** The places where the task waits: for the hello, in its main loop, in the loop of [stop_link]
    for [Silence]. [kill_open] is false once the switch was used or dropped. *)
Inductive DummyState :=
  | DsHello (kill_open : bool)
  | DsConnected (peer : Peer) (hb : Heartbeat) (kill_open : bool)
  | DsSilent (peer : option Peer)
  | DsEnded.

(** What a [select!] yields: from the stream ([Some None] is a failed read, [None] its end), from
    the channel of the peer, from the timer, from the switch ([None]: it was dropped). *)
Inductive DummyWake :=
  | DwStream (m : option (option DummyMessage))
  | DwNode (m : option NodeMessage)
  | DwDeadline
  | DwKill (k : option DummyPeerStop).

(** What the environment supplies to a step. *)
Record DummyInput := mkDummyInput {
  di_now : Instant;
  di_send_ok : bool;
  di_connection_id : ConnectionId;
  di_peer_tx : ChanId;
}.

(** * The task *)

(** [run] up to its first wait. *)
Definition dummy_start (cfg : DummyConfig) (i : DummyInput) : DummyState * list DummyAct :=
  (if di_send_ok i then DsHello true else DsEnded, [DaSend (DmHello (dc_our_id cfg)) (di_send_ok i)]).

(** [peer.unregister()] *)
Definition dummy_unregister (peer : option Peer) : list DummyAct :=
  match peer with Some p => map DaPeer (unregister p).2 | None => [] end.

(** [stop_link] *)
Definition stop_link (kind : DummyPeerStop) (peer : option Peer) (i : DummyInput)
    : DummyState * list DummyAct :=
  match kind with
  | StopShutdown =>
      (DsEnded, [DaSend DmShutdown (di_send_ok i)] ++ dummy_unregister peer ++ [DaCloseStream])
  | StopSilence => (DsSilent peer, [])
  | StopDrop => (DsEnded, dummy_unregister peer)
  end.

(** A turn of the loop of [stop_link]; without a peer a failed read is no end. *)
Definition silent_turn (peer : option Peer) (wake : DummyWake) : option (DummyState * list DummyAct) :=
  let over := (DsEnded, dummy_unregister peer ++ [DaCloseStream]) in
  match wake, peer with
  | DwStream (Some (Some _)), _ => Some (DsSilent peer, [])
  | DwStream (Some None), None => Some (DsSilent None, [])
  | DwStream _, _ => Some over
  | DwNode m, Some p =>
      Some (match peer_recv m p with
            | (Some _, p) => (DsSilent (Some p), [])
            | (None, _) => over
            end)
  | _, _ => None
  end.

(** A turn of the handshake loop; [None] for a branch that is not polled. *)
Definition hello_turn (cfg : DummyConfig) (kill_open : bool) (wake : DummyWake) (i : DummyInput)
    : option (DummyState * list DummyAct) :=
  match wake with
  | DwStream (Some (Some (DmHello peer_id))) =>
      let '(peer, outs) := register_peer peer_id (dc_our_id cfg) Userspace (di_connection_id i)
        (dc_cost cfg) (dc_realms cfg) (di_peer_tx i) in
      Some (DsConnected peer (heartbeat_new (di_now i) dummy_heartbeat_interval dummy_heartbeat_timeout) kill_open,
        map DaPeer outs)
  | DwStream _ | DwDeadline => Some (DsEnded, [])
  | DwKill kind =>
      if kill_open then
        Some (match kind with Some kind => stop_link kind None i | None => (DsHello false, []) end)
      else None
  | DwNode _ => None
  end.

(** The event of the main loop, and the peer that counted it. *)
Definition event_of (peer : Peer) (kill_open : bool) (wake : DummyWake) : option (DummyEvent * Peer * bool) :=
  match wake with
  | DwStream (Some (Some message)) => Some (DeRemote message, peer, kill_open)
  | DwStream _ => Some (DeClosed, peer, kill_open)
  | DwNode received =>
      let '(m, peer) := peer_recv received peer in
      Some (match m with Some message => DeLocal message | None => DeClosed end, peer, kill_open)
  | DwDeadline => Some (DeTick, peer, kill_open)
  | DwKill kind =>
      if kill_open then Some (match kind with Some kind => DeStop kind | None => DeIgnore end, peer, false)
      else None
  end.

(** The end of [run], after [break]. *)
Definition dummy_break (peer : Peer) : DummyState * list DummyAct :=
  (DsEnded, dummy_unregister (Some peer) ++ [DaCloseStream]).

(** A send that ends the loop when it fails. *)
Definition send_or_break (m : DummyMessage) (peer : Peer) (hb : Heartbeat) (kill_open : bool) (i : DummyInput)
    : DummyState * list DummyAct :=
  if di_send_ok i then (DsConnected peer hb kill_open, [DaSend m true])
  else let '(st, acts) := dummy_break peer in (st, DaSend m false :: acts).

Definition on_event (ev : DummyEvent) (peer : Peer) (hb : Heartbeat) (kill_open : bool) (i : DummyInput)
    : DummyState * list DummyAct :=
  match ev with
  | DeRemote (DmNodeMsg message) =>
      let '(peer, outs) := handle_node_message message peer in
      (DsConnected peer (on_rx (di_now i) hb) kill_open, map DaPeer outs)
  | DeRemote (DmPing token) => send_or_break (DmPong token) peer (on_rx (di_now i) hb) kill_open i
  | DeRemote (DmPong _) => (DsConnected peer (on_rx (di_now i) hb) kill_open, [])
  | DeRemote (DmHello _) => (DsConnected peer hb kill_open, [])
  | DeRemote DmShutdown => dummy_break peer
  | DeLocal message => send_or_break (DmNodeMsg message) peer hb kill_open i
  | DeTick =>
      if timed_out hb (di_now i) then dummy_break peer
      else if ping_due hb (di_now i) then
        let '(token, hb) := take_ping_token (di_now i) hb in
        send_or_break (DmPing token) peer hb kill_open i
      else (DsConnected peer hb kill_open, [])
  | DeStop StopDrop => (DsEnded, dummy_unregister (Some peer))
  | DeStop kind => stop_link kind (Some peer) i
  | DeClosed => dummy_break peer
  | DeIgnore => (DsConnected peer hb kill_open, [])
  end.

Definition dummy_next (cfg : DummyConfig) (st : DummyState) (wake : DummyWake) (i : DummyInput)
    : option (DummyState * list DummyAct) :=
  match st with
  | DsHello kill_open => hello_turn cfg kill_open wake i
  | DsConnected peer hb kill_open =>
      (fun '(ev, peer, kill_open) => on_event ev peer hb kill_open i) <$> event_of peer kill_open wake
  | DsSilent peer => silent_turn peer wake
  | DsEnded => None
  end.

(** A run, with everything it did. *)
Inductive dummy_run (cfg : DummyConfig) : DummyState -> list DummyAct -> Prop :=
  | dummy_started i : dummy_run cfg (dummy_start cfg i).1 (dummy_start cfg i).2
  | dummy_stepped st acts wake i st' acts' :
      dummy_run cfg st acts -> dummy_next cfg st wake i = Some (st', acts') ->
      dummy_run cfg st' (acts ++ acts').

(** * What the node hears *)
Definition peer_out (a : DummyAct) : option PeerOut := match a with DaPeer o => Some o | _ => None end.
Definition peer_outs (acts : list DummyAct) : list PeerOut := omap peer_out acts.

Lemma peer_outs_app l1 l2 : peer_outs (l1 ++ l2) = peer_outs l1 ++ peer_outs l2.
Proof. apply omap_app. Qed.
Lemma peer_outs_map outs : peer_outs (map DaPeer outs) = outs.
Proof. unfold peer_outs. induction outs as [|o outs IH]; [done|]. simpl. by f_equal. Qed.

(** The router was told of the peer first, and of nothing but traffic since. *)
Definition announced (cfg : DummyConfig) (id : NodeId) (c : ConnectionId) (outs : list PeerOut) : Prop :=
  exists tx mid, outs = SendBroker (RmRegisterPeer id c tx (dc_cost cfg) (dc_realms cfg)) :: mid /\
    Forall (traffic c) mid.

Definition dummy_ok (cfg : DummyConfig) (st : DummyState) (acts : list DummyAct) : Prop :=
  match st with
  | DsHello _ | DsSilent None => peer_outs acts = []
  | DsConnected p _ _ | DsSilent (Some p) => announced cfg (pe_peer_id p) (pe_connection_id p) (peer_outs acts)
  | DsEnded => peer_outs acts = [] \/ exists id c outs, announced cfg id c outs /\
      peer_outs acts = outs ++ [SendBroker (RmUnRegisterPeer c)]
  end.

Lemma announced_more cfg id c acts acts' :
  announced cfg id c (peer_outs acts) -> Forall (traffic c) (peer_outs acts') ->
  announced cfg id c (peer_outs (acts ++ acts')).
Proof.
  intros (tx & mid & Ho & Hmid) Ht. exists tx, (mid ++ peer_outs acts').
  rewrite peer_outs_app, Ho. split; [done|]. by apply Forall_app.
Qed.

(** Ending with the peer unregistered once. *)
Lemma dummy_over cfg p acts acts' :
  announced cfg (pe_peer_id p) (pe_connection_id p) (peer_outs acts) ->
  peer_outs acts' = [SendBroker (RmUnRegisterPeer (pe_connection_id p))] -> dummy_ok cfg DsEnded (acts ++ acts').
Proof. intros Ha Ho. right. do 3 eexists. split; [exact Ha|]. by rewrite peer_outs_app, Ho. Qed.

Lemma event_of_peer peer kill_open wake ev peer' kill_open' :
  event_of peer kill_open wake = Some (ev, peer', kill_open') ->
  pe_peer_id peer' = pe_peer_id peer /\ pe_connection_id peer' = pe_connection_id peer.
Proof. destruct wake as [[[]|]|[[]|]| |[]], kill_open; simpl; by intros [= <- <- <-]. Qed.

Lemma send_or_break_ok cfg m peer hb kill_open i acts :
  announced cfg (pe_peer_id peer) (pe_connection_id peer) (peer_outs acts) ->
  let '(st, acts') := send_or_break m peer hb kill_open i in dummy_ok cfg st (acts ++ acts').
Proof.
  intros Ha. unfold send_or_break. destruct (di_send_ok i); [by apply announced_more|]. by apply (dummy_over cfg peer).
Qed.

Lemma on_event_ok cfg ev peer hb kill_open i acts :
  announced cfg (pe_peer_id peer) (pe_connection_id peer) (peer_outs acts) ->
  let '(st, acts') := on_event ev peer hb kill_open i in dummy_ok cfg st (acts ++ acts').
Proof.
  intros Ha. assert (Hstay : forall hb', dummy_ok cfg (DsConnected peer hb' kill_open) (acts ++ [])).
  { intros hb'. by apply announced_more. }
  assert (Hend : forall pre post, peer_outs pre = [] -> peer_outs post = [] ->
    dummy_ok cfg DsEnded (acts ++ (pre ++ dummy_unregister (Some peer) ++ post))).
  { intros pre post H1 H2. apply (dummy_over cfg peer); [done|]. by rewrite !peer_outs_app, H1, H2. }
  destruct ev as [[id|m|t|t|]|m| | |[]|]; cbn [on_event stop_link]; try apply Hstay; try by apply send_or_break_ok.
  - pose proof (handle_node_message_traffic m peer) as Ht. destruct (handle_node_message m peer) as [p outs].
    destruct Ht as (Hid & Hc & Ht). unfold dummy_ok. rewrite Hid, Hc. apply announced_more; [done|].
    by rewrite peer_outs_map.
  - by apply (Hend [] [DaCloseStream]).
  - destruct (timed_out hb (di_now i)); [by apply (Hend [] [DaCloseStream])|].
    destruct (ping_due hb (di_now i)); [|apply Hstay]. cbn. by apply send_or_break_ok.
  - by apply (Hend [] [DaCloseStream]).
  - by apply (Hend [_] [DaCloseStream]).
  - exact hb.
  - by apply (Hend [] []).
Qed.

Lemma silent_turn_ok cfg peer wake acts st' acts' :
  dummy_ok cfg (DsSilent peer) acts -> silent_turn peer wake = Some (st', acts') ->
  dummy_ok cfg st' (acts ++ acts').
Proof.
  intros Hok. destruct peer as [p|].
  - assert (Hend : dummy_ok cfg DsEnded (acts ++ dummy_unregister (Some p) ++ [DaCloseStream])) by by apply (dummy_over cfg p).
    assert (Hstay : forall p', pe_peer_id p' = pe_peer_id p -> pe_connection_id p' = pe_connection_id p ->
      dummy_ok cfg (DsSilent (Some p')) (acts ++ [])).
    { intros p' Hi Hc. unfold dummy_ok. rewrite Hi, Hc. by apply announced_more. }
    destruct wake as [[[]|]|[[]|]| |]; cbn [silent_turn peer_recv]; intros [= <- <-]; by try apply Hstay.
  - unfold dummy_ok in Hok. destruct wake as [[[]|]|[[]|]| |]; cbn; intros [= <- <-]; simpl;
      rewrite ?peer_outs_app, Hok; by try left.
Qed.

Lemma hello_turn_ok cfg kill_open wake i acts st' acts' :
  peer_outs acts = [] -> hello_turn cfg kill_open wake i = Some (st', acts') ->
  dummy_ok cfg st' (acts ++ acts').
Proof.
  intros Ho. assert (Hend : dummy_ok cfg DsEnded (acts ++ [])) by (left; by rewrite peer_outs_app, Ho).
  destruct wake as [[[[id|m|t|t|]|]|]|m| |k]; cbn; try done; try (intros [= <- <-]; exact Hend).
  - intros [= <- <-]. simpl. rewrite peer_outs_app, Ho. by exists (di_peer_tx i), [].
  - destruct kill_open; [|done]. destruct k as [[]|]; cbn; intros [= <- <-]; simpl;
      rewrite peer_outs_app, Ho; by try left.
Qed.

Lemma dummy_run_ok cfg st acts : dummy_run cfg st acts -> dummy_ok cfg st acts.
Proof.
  induction 1 as [i|st acts wake i st' acts' _ IH Hn]; [unfold dummy_start; simpl; destruct (di_send_ok i); by try left|].
  destruct st as [kill_open|peer hb kill_open|peer|]; cbn [dummy_next] in Hn.
  - by eapply hello_turn_ok.
  - destruct (event_of peer kill_open wake) as [[[ev peer'] ko]|] eqn:He; [|done].
    apply event_of_peer in He as [Hi Hc]. simpl in Hn. injection Hn as Hn.
    pose proof (on_event_ok cfg ev peer' hb ko i acts) as Hok. rewrite Hn, Hi, Hc in Hok. by apply Hok.
  - by eapply silent_turn_ok.
  - done.
Qed.

Definition sends (a : DummyAct) : bool := match a with DaSend _ _ => true | _ => false end.

(** C34: the books of a dummy link balance, however it ends - by the switch, by the other side, by
    silence, by a failed read or send: when its task ends, either the router heard nothing of it,
    or it heard of the peer first, of nothing but traffic under its connection in between, and of
    its end once and last. A silenced link sends nothing more, whatever arrives. *)
Theorem dummy_link_balances cfg st acts :
  dummy_run cfg st acts ->
  (st = DsEnded -> peer_outs acts = [] \/ exists id c tx mid,
     peer_outs acts = SendBroker (RmRegisterPeer id c tx (dc_cost cfg) (dc_realms cfg)) :: mid ++
       [SendBroker (RmUnRegisterPeer c)] /\ Forall (traffic c) mid) /\
  (forall peer wake i st' acts', st = DsSilent peer -> dummy_next cfg st wake i = Some (st', acts') ->
     Forall (fun a => sends a = false) acts' /\ (st' = DsEnded \/ exists peer', st' = DsSilent peer')).
Proof.
  intros Hr%dummy_run_ok. split.
  - intros ->. destruct Hr as [?|(id & c & outs & (tx & mid & -> & Hmid) & Ho)]; [by left|].
    right. by exists id, c, tx, mid.
  - intros peer wake i st' acts' ->. cbn [dummy_next].
    destruct wake as [[[]|]|[[]|]| |], peer as [p|]; cbn; intros [= <- <-]; (split; [by repeat constructor | eauto]).
Qed.
End dummy.

(** * Connecting one ([AnyBus::new_dummy_peer] in [src/anybus.rs]) *)
Definition dummy_realms (realms : list Realm) : RealmList :=
  match realms with
  | [] => realms_add (realms_add realms_default Userspace) Global
  | _ :: _ => foldl realms_add realms_default realms
  end.
Definition new_dummy_peer_with (our_id : NodeId) (cost : Cost) (realms : list Realm) : DummyConfig :=
  mkDummyConfig our_id cost (dummy_realms realms).
Definition new_dummy_peer (our_id : NodeId) : DummyConfig := new_dummy_peer_with our_id 10%N [Userspace; Global].

(** The link carries the realms given, or the two of the default, so it always carries some. *)
Lemma dummy_realms_spec realms r :
  r ∈ dummy_realms realms <-> r ∈ (match realms with [] => [Userspace; Global] | _ => realms end).
Proof.
  destruct realms as [|r0 rs]; [unfold dummy_realms, realms_add, realms_default; set_solver|].
  unfold dummy_realms. generalize (r0 :: rs) as l. intros l.
  assert (Hl : forall acc, r ∈ foldl realms_add acc l <-> (r ∈ acc) \/ (r ∈ l)).
  { induction l as [|x l IH]; intros acc; simpl; [set_solver|]. rewrite IH. unfold realms_add. set_solver. }
  rewrite Hl. unfold realms_default. set_solver.
Qed.
