(* ===== verification/Lifecycle.v ===== *)
(** [src/anybus/suspend.rs] and [src/anybus/watcher.rs]: noticing that the process was suspended,
    by a jump of the wall clock or a power event, and telling the clients, but not twice in a row
    within three seconds. *)
From S2P Require Import Prelude Types Messages.

(** * Debouncing *)
Definition debounce_time : Duration := from_secs 3.
Definition stall_tick : Duration := from_secs 1.
Definition stall_gap : Duration := from_secs 10.

(** The message last let through, and when. *)
Record LifecycleDebounce := mkDebounce { lb_last : option (AnyBusStatusMsg * Instant) }.
Definition debounce_default : LifecycleDebounce := mkDebounce None.

(** [LifecycleDebounce::allow]. *)
Definition allow (msg : AnyBusStatusMsg) (now : Instant) (d : LifecycleDebounce) : bool * LifecycleDebounce :=
  match lb_last d with
  | Some (prev, at_) =>
      if bool_decide (prev = msg) && N.ltb (saturating_duration_since now at_) debounce_time then (false, d)
      else (true, mkDebounce (Some (msg, now)))
  | None => (true, mkDebounce (Some (msg, now)))
  end.

(** [emit]: what is handed to [Handle::send], whose failure is logged. *)
Definition emit (msg : AnyBusStatusMsg) (now : Instant) (d : LifecycleDebounce)
    : option AnyBusStatusMsg * LifecycleDebounce :=
  match msg with
  | Suspending | Resuming =>
      let '(ok, d) := allow msg now d in (if ok then Some msg else None, d)
  | ShuttingDown | NetworkChanged => (None, d)
  end.

(** * The two sources *)

(** A turn of [stall_loop]: the wall clock in milliseconds is a [u128], the gap a [u64]. *)
Definition stall_turn (now : N) (last : N) : option AnyBusStatusMsg * N :=
  let gap := from_millis (N.modulo (now - last) u64_mod) in
  (if N.leb stall_gap gap then Some Resuming else None, now).

(** The events of the [powerwatch] crate. *)
Inductive PowerEvent := PowerSuspend | PowerResume | PowerShutdown | ScreenLocked | ScreenUnlocked.

Definition msg_of_power (event : PowerEvent) : option AnyBusStatusMsg :=
  match event with
  | PowerSuspend => Some Suspending
  | PowerResume => Some Resuming
  | PowerShutdown | ScreenLocked | ScreenUnlocked => None
  end.

(** What a turn of [Watcher::run] yields; [None] in [WtStatus] is a receive error. *)
Inductive WatcherWake := WtPower (event : PowerEvent) | WtStatus (status : option AnyBusStatusMsg).

(** The message to emit, and whether the watcher goes on. *)
Definition watcher_turn (wake : WatcherWake) : option AnyBusStatusMsg * bool :=
  match wake with
  | WtPower event => (msg_of_power event, true)
  | WtStatus (Some ShuttingDown) => (None, false)
  | WtStatus (Some _) => (None, true)
  | WtStatus None => (None, false)
  end.

(** [wall_now_ms]: milliseconds since the epoch, 0 when the clock is before it. *)
Definition wall_now_ms (since_epoch : option N) : N := default 0%N since_epoch.

(** [wasm_visibility]: the page of a browser is hidden or shown; nothing is watched without a window,
    a document or its listener. *)
Definition visibility_msg (hidden : bool) : AnyBusStatusMsg := if hidden then Suspending else Resuming.

Fixpoint visibility_loop (events : list (Instant * bool)) (d : LifecycleDebounce)
    : list (Instant * AnyBusStatusMsg) * LifecycleDebounce :=
  match events with
  | [] => ([], d)
  | (now, hidden) :: events =>
      let '(sent, d) := emit (visibility_msg hidden) now d in
      let '(out, d) := visibility_loop events d in
      (match sent with Some m => (now, m) :: out | None => out end, d)
  end.
Definition wasm_visibility (window document listening : bool) (events : list (Instant * bool)) (d : LifecycleDebounce)
    : list (Instant * AnyBusStatusMsg) * LifecycleDebounce :=
  if window && document && listening then visibility_loop events d else ([], d).

(** * Both together

    [suspend::start]: the stall loop, which never ends, and the watcher, which share the
    debouncer. *)
Record Lifecycle := mkLifecycle { lc_debounce : LifecycleDebounce; lc_wall : N; lc_watching : bool }.
Definition lifecycle_start (wall : N) : Lifecycle := mkLifecycle debounce_default wall true.

Inductive LcEvent := LcStall (wall : N) | LcWatch (wake : WatcherWake).

(** What an event asks to emit, and the state it leaves apart from the debouncer. *)
Definition lc_asked (ev : LcEvent) (lc : Lifecycle) : option AnyBusStatusMsg * N * bool :=
  match ev with
  | LcStall wall => let '(m, last) := stall_turn wall (lc_wall lc) in (m, last, lc_watching lc)
  | LcWatch wake =>
      if lc_watching lc then let '(m, go) := watcher_turn wake in (m, lc_wall lc, go)
      else (None, lc_wall lc, false)
  end.

Definition lc_next (now : Instant) (ev : LcEvent) (lc : Lifecycle) : option AnyBusStatusMsg * Lifecycle :=
  let '(asked, wall, watching) := lc_asked ev lc in
  match asked with
  | Some m => let '(sent, d) := emit m now (lc_debounce lc) in (sent, mkLifecycle d wall watching)
  | None => (None, mkLifecycle (lc_debounce lc) wall watching)
  end.

(** A run: what was sent, and when. *)
Fixpoint lc_run (evs : list (Instant * LcEvent)) (lc : Lifecycle) : list (Instant * AnyBusStatusMsg) * Lifecycle :=
  match evs with
  | [] => ([], lc)
  | (now, ev) :: evs =>
      let '(sent, lc) := lc_next now ev lc in
      let '(out, lc) := lc_run evs lc in
      (match sent with Some m => (now, m) :: out | None => out end, lc)
  end.

(** * Lemmas *)
Lemma lc_run_app evs evs' lc :
  lc_run (evs ++ evs') lc =
  let '(out, lc) := lc_run evs lc in let '(out', lc) := lc_run evs' lc in (out ++ out', lc).
Proof.
  revert lc. induction evs as [|[now ev] evs IH]; intros lc; simpl; [by destruct (lc_run evs' lc)|].
  destruct (lc_next now ev lc) as [sent lc1]. rewrite IH. destruct (lc_run evs lc1) as [out lc2].
  destruct (lc_run evs' lc2) as [out' lc3]. by destruct sent.
Qed.

Lemma lc_run_snoc evs now ev lc : (lc_run (evs ++ [(now, ev)]) lc).2 = (lc_next now ev (lc_run evs lc).2).2.
Proof.
  rewrite lc_run_app. destruct (lc_run evs lc) as [out lc1]. simpl. by destruct (lc_next now ev lc1).
Qed.

(** What the sources ask for is never filtered by kind. *)
Lemma lc_asked_kind ev lc m wall watching :
  lc_asked ev lc = (Some m, wall, watching) -> m = Suspending \/ m = Resuming.
Proof.
  destruct ev as [w|[[]|[[]|]]]; simpl; unfold stall_turn; repeat case_match; intros [=]; subst; eauto; congruence.
Qed.

(** One event, by what was let through last. *)
Lemma lc_next_spec now ev lc :
  let '(asked, wall, watching) := lc_asked ev lc in
  let '(sent, lc') := lc_next now ev lc in
  lc_wall lc' = wall /\ lc_watching lc' = watching /\
  match asked with
  | None => sent = None /\ lc_debounce lc' = lc_debounce lc
  | Some m =>
      (sent = None /\ lc_debounce lc' = lc_debounce lc /\
       exists t, lb_last (lc_debounce lc) = Some (m, t) /\ (now < t + debounce_time)%N) \/
      (sent = Some m /\ lb_last (lc_debounce lc') = Some (m, now) /\
       forall t, lb_last (lc_debounce lc) = Some (m, t) -> (t + debounce_time <= now)%N)
  end.
Proof.
  unfold lc_next. destruct (lc_asked ev lc) as [[[m|] wall] watching] eqn:Ha; [|done].
  apply lc_asked_kind in Ha. assert (He : emit m now (lc_debounce lc) =
    let '(ok, d) := allow m now (lc_debounce lc) in (if ok then Some m else None, d)) by by destruct Ha as [-> | ->].
  rewrite He. unfold allow, saturating_duration_since. destruct (lb_last (lc_debounce lc)) as [[prev t]|] eqn:Hl; simpl.
  - destruct (bool_decide_reflect (prev = m)) as [->|Hne]; simpl.
    + destruct (N.ltb_spec (now - t) debounce_time); simpl; (split; [done|]); (split; [done|]).
      * left. split_and!; try done. exists t. split; [done|]. unfold Duration, Instant in *. lia.
      * right. split_and!; try done. intros t' [= <-]. unfold debounce_time, from_secs in *. lia.
    + split_and!; try done. right. split_and!; try done. intros t' [= ? ?]. done.
  - split_and!; try done. by right.
Qed.

(** The debouncer remembers the last message sent. *)
Lemma lc_run_last evs wall :
  let '(out, lc) := lc_run evs (lifecycle_start wall) in
  lb_last (lc_debounce lc) = (fun '(t, m) => (m, t)) <$> last out.
Proof.
  induction evs as [|[now ev] evs IH] using rev_ind; [done|]. rewrite lc_run_app.
  destruct (lc_run evs (lifecycle_start wall)) as [out lc]. simpl. pose proof (lc_next_spec now ev lc) as Hs.
  destruct (lc_asked ev lc) as [[asked w] wt]. destruct (lc_next now ev lc) as [sent lc'].
  destruct Hs as (_ & _ & Hs). destruct asked as [m|].
  - destruct Hs as [(-> & -> & _)|(-> & -> & _)]; [by rewrite app_nil_r|]. by rewrite last_snoc.
  - destruct Hs as [-> ->]. by rewrite app_nil_r.
Qed.

(** The debouncer drops exactly the repetitions: whatever the two sources ask for and
    whenever, a message is sent unless the message sent last was the same one less than three
    seconds ago; so two equal messages sent in a row are three seconds apart. *)
Theorem debounce_is_exact evs wall now ev :
  let '(out, lc) := lc_run evs (lifecycle_start wall) in
  let '(asked, _, _) := lc_asked ev lc in
  (lc_run (evs ++ [(now, ev)]) (lifecycle_start wall)).1 = out ++
    match asked with
    | Some m => match last out with
                | Some (t, m') => if decide (m' = m /\ (now < t + debounce_time)%N) then [] else [(now, m)]
                | None => [(now, m)]
                end
    | None => []
    end.
Proof.
  pose proof (lc_run_last evs wall) as Hlast. rewrite lc_run_app.
  destruct (lc_run evs (lifecycle_start wall)) as [out lc]. simpl. pose proof (lc_next_spec now ev lc) as Hs.
  destruct (lc_asked ev lc) as [[asked w] wt]. destruct (lc_next now ev lc) as [sent lc']. simpl.
  destruct Hs as (_ & _ & Hs). f_equal. rewrite Hlast in Hs. destruct asked as [m|]; [|by destruct Hs as [-> _]].
  destruct Hs as [(-> & _ & t & Ht & Hlt)|(-> & _ & Hold)].
  - destruct (last out) as [[t' m']|]; simplify_eq/=. by rewrite decide_True.
  - destruct (last out) as [[t' m']|]; [|done]. rewrite decide_False; [done|]. intros [-> Hlt].
    specialize (Hold t' eq_refl). unfold Instant, Duration in *. lia.
Qed.

(** The stall loop asks to announce that the process resumed exactly when its wall clock
    jumped by at least ten seconds between two ticks that are meant to be one second apart; a
    clock set back is no stall, and the next tick counts from the new time. *)
Theorem stall_is_noticed evs wall before after :
  (after < u64_mod)%N ->
  let lc := (lc_run (evs ++ [(before, LcStall after)]) (lifecycle_start wall)).2 in
  forall later, (later < u64_mod)%N ->
    fst (fst (lc_asked (LcStall later) lc)) = (if decide (after + 10000 <= later)%N then Some Resuming else None).
Proof.
  intros Hafter lc later Hlater. assert (Hw : lc_wall lc = after).
  { subst lc. rewrite lc_run_snoc. set (lc0 := (lc_run evs _).2).
    pose proof (lc_next_spec before (LcStall after) lc0) as Hs. cbn [lc_asked stall_turn] in Hs.
    destruct (lc_next before (LcStall after) lc0) as [sent lc1]. exact (proj1 Hs). }
  unfold lc_asked, stall_turn. rewrite Hw. simpl.
  rewrite N.mod_small by lia. unfold stall_gap, from_millis, from_secs.
  destruct (N.leb_spec (10 * 1000000000) ((later - after) * 1000000)); case_decide; done || lia.
Qed.
