(* ===== verification/Config.v ===== *)
(** [src/anybus/config.rs], [src/anybus/builder.rs], [src/anybus.rs], [src/localrpc.rs] and
    [src/peers/ws/listener.rs]: what a bus is configured to run and what it starts, the calls to
    the websocket manager, and its listener. *)
From Stdlib Require Import Strings.String.
From stdpp Require Import pretty.
From stdpp Require Import list.
From S2P Require Import Prelude Types Messages World Peer WsPeer WsManager.
#[local] Open Scope string_scope.

(** * Configuration *)
Inductive IpAddr := IpV4 (a : N) | IpV6 (a : N).

Section config.
Context `{U : UrlLib}.

Record IpcConfig := mkIpcConfig { ipc_enabled : bool }.
Inductive PeerType := PeerWebSocket (url : WsUrl).
Record WebSocketServerConfig := mkServerConfig {
  sc_address : IpAddr;
  sc_port : N;
  sc_cert_path : option string;
  sc_key_path : option string;
  sc_enable_tls : bool;
}.
Record AnyBusConfig := mkConfig {
  cf_ipc : option IpcConfig;
  cf_peer : gmap string PeerType;
  cf_ws_server : option WebSocketServerConfig;
  cf_enable_ctrlc_shutdown : bool;
}.
Definition config_default : AnyBusConfig := mkConfig None ∅ None false.

(** The defaults of a configuration file. *)
Definition default_ipv6_any : IpAddr := IpV6 0.
Definition default_port : N := 9798%N.
Definition default_true : bool := true.

(** [TryFrom<Url> for WsUrl], which the [Deserialize] of [WsUrl] repeats. *)
Definition ws_url_of (value : Url) : string + WsUrl :=
  if bool_decide (url_scheme value = "ws") || bool_decide (url_scheme value = "wss") then inr (mkWsUrl value)
  else inl ("expected ws:// or wss://, got `" ++ url_scheme value ++ "`").

Definition parse_ws_url (s : string) : string + Url :=
  match url_parse s with
  | inl e => inl e
  | inr url => match ws_url_of url with inl e => inl e | inr _ => inr url end
  end.

(** [From<PeerMap>], [Display for WebSocketPeerConfig]. *)
Definition configs_of_peer_map (peers : list (string * PeerType)) : list WebSocketPeerConfig :=
  omap (fun '(name, peer) => match peer with PeerWebSocket url => Some (mkPeerConfig url name) end) peers.
Definition show_peer_config (c : WebSocketPeerConfig) : string :=
  "WebSocket { name: " ++ pc_name c ++ ", url: " ++ url_to_string (ws_url (pc_url c)) ++ " }".

(** [AnyBusConfig::add_ws_peer]; an invalid URL panics. *)
Definition add_ws_peer_config (name url : string) (c : AnyBusConfig) : Outcome AnyBusConfig :=
  match parse_ws_url url with
  | inl _ => Panics
  | inr url =>
      Returns (mkConfig (cf_ipc c) (<[name := PeerWebSocket (mkWsUrl url)]> (cf_peer c)) (cf_ws_server c)
                 (cf_enable_ctrlc_shutdown c))
  end.

Definition set_ws_server (address : IpAddr) (port : N) (cert key : option string) (enable_tls : bool)
    (c : AnyBusConfig) : AnyBusConfig :=
  mkConfig (cf_ipc c) (cf_peer c) (Some (mkServerConfig address port cert key enable_tls)) (cf_enable_ctrlc_shutdown c).
Definition set_ipc_enabled (enabled : bool) (c : AnyBusConfig) : AnyBusConfig :=
  mkConfig (Some (mkIpcConfig enabled)) (cf_peer c) (cf_ws_server c) (cf_enable_ctrlc_shutdown c).
Definition set_ctrlc_shutdown (enabled : bool) (c : AnyBusConfig) : AnyBusConfig :=
  mkConfig (cf_ipc c) (cf_peer c) (cf_ws_server c) enabled.

(** * The builder *)
Record WsRemoteOptions := mkRemoteOptions { ro_url : Url }.
Record WsListenerOptions := mkListenerOptions {
  lo_addr : IpAddr;
  lo_port : N;
  lo_use_tls : bool;
  lo_cert_path : option string;
  lo_key_path : option string;
}.
Definition listener_options_default : WsListenerOptions :=
  mkListenerOptions (IpV4 2130706433%N) 8888%N false None None.

Record AnyBusBuilder := mkBusBuilder {
  bb_enable_ctrlc_shutdown : bool;
  bb_enable_ipc : bool;
  bb_ws_listener_options : option WsListenerOptions;
  bb_ws_remote_options : list WsRemoteOptions;
}.
Definition builder_new : AnyBusBuilder := mkBusBuilder false false None [].
Definition enable_ctrlc_shutdown (b : bool) (o : AnyBusBuilder) : AnyBusBuilder :=
  mkBusBuilder b (bb_enable_ipc o) (bb_ws_listener_options o) (bb_ws_remote_options o).
Definition enable_ipc (b : bool) (o : AnyBusBuilder) : AnyBusBuilder :=
  mkBusBuilder (bb_enable_ctrlc_shutdown o) b (bb_ws_listener_options o) (bb_ws_remote_options o).
Definition ws_listener (l : WsListenerOptions) (o : AnyBusBuilder) : AnyBusBuilder :=
  mkBusBuilder (bb_enable_ctrlc_shutdown o) (bb_enable_ipc o) (Some l) (bb_ws_remote_options o).
Definition ws_remote (r : WsRemoteOptions) (o : AnyBusBuilder) : AnyBusBuilder :=
  mkBusBuilder (bb_enable_ctrlc_shutdown o) (bb_enable_ipc o) (bb_ws_listener_options o) (bb_ws_remote_options o ++ [r]).

(** [From<AnyBusBuilder> for AnyBusConfig]. *)
Definition remote_name (index : nat) : string := "ws_remote_" ++ pretty index.
Definition peers_of_remotes (remotes : list WsRemoteOptions) : gmap string PeerType :=
  foldl (fun peers '(index, peer) => <[remote_name index := PeerWebSocket (mkWsUrl (ro_url peer))]> peers) ∅
    (imap (fun index peer => (index, peer)) remotes).
Definition server_of_listener (options : WsListenerOptions) : WebSocketServerConfig :=
  mkServerConfig (lo_addr options) (lo_port options) (lo_cert_path options) (lo_key_path options) (lo_use_tls options).
Definition config_of_builder (b : AnyBusBuilder) : AnyBusConfig :=
  mkConfig (Some (mkIpcConfig (bb_enable_ipc b))) (peers_of_remotes (bb_ws_remote_options b))
    (server_of_listener <$> bb_ws_listener_options b) (bb_enable_ctrlc_shutdown b).
End config.

(** * Local calls ([src/localrpc.rs]) *)

(** What comes of a call: the mailbox is closed, the answer comes in time, its channel is dropped,
    or the time is up. *)
Inductive CallFate (A : Type) := FateClosed | FateReplied (a : A) | FateDropped | FateElapsed.
Arguments FateClosed {A}.
Arguments FateReplied {A} a.
Arguments FateDropped {A}.
Arguments FateElapsed {A}.

Inductive RpcError := ServerDropped | ServerClosed | RpcTimeout (limit : Duration).

Definition call_with_timeout {A} (limit : Duration) (fate : CallFate A) : RpcError + A :=
  match fate with
  | FateClosed => inl ServerClosed
  | FateReplied response => inr response
  | FateDropped => inl ServerDropped
  | FateElapsed => inl (RpcTimeout limit)
  end.
Definition call {A} (fate : CallFate A) : RpcError + A := call_with_timeout (from_millis 1000) fate.

(** * The bus ([src/anybus.rs]) *)
Section anybus.
Context `{Cd : Codec} `{E : !Env} `{U : UrlLib}.

(** [ab_router] until it is started, [ab_ws_manager] once the websocket manager was. *)
Record AnyBus := mkAnyBus {
  ab_id : NodeId;
  ab_config : AnyBusConfig;
  ab_router : bool;
  ab_ws_manager : bool;
}.

Definition init_from_config (id : NodeId) (config : AnyBusConfig) : AnyBus := mkAnyBus id config true false.
Definition anybus_init (id : NodeId) (options : AnyBusBuilder) : AnyBus := init_from_config id (config_of_builder options).

(** The tasks a bus spawns. *)
Inductive Task :=
  | WatchSignals
  | WatchCtrlC
  | RouterTask
  | WsManagerTask (server : option WebSocketServerConfig) (peers : list WebSocketPeerConfig)
  | SuspendTasks
  | IpcManagerTask.

Definition ws_peer_configs (config : AnyBusConfig) (w : World) : list WebSocketPeerConfig :=
  omap (fun '(name, PeerWebSocket url) => Some (mkPeerConfig url name)) (env_iter_map w (cf_peer config)).

Definition start_ws_manager (bus : AnyBus) (w : World) : AnyBus * list Task :=
  (mkAnyBus (ab_id bus) (ab_config bus) (ab_router bus) true,
   [WsManagerTask (cf_ws_server (ab_config bus)) (ws_peer_configs (ab_config bus) w)]).

(** [run], on Unix with every feature; [expect] panics the second time. *)
Definition anybus_run (bus : AnyBus) (w : World) : Outcome (AnyBus * list Task) :=
  let config := ab_config bus in
  let ctrlc := if cf_enable_ctrlc_shutdown config then [WatchCtrlC] else [] in
  if ab_router bus then
    let bus := mkAnyBus (ab_id bus) config false (ab_ws_manager bus) in
    let ws_enabled := negb (bool_decide (cf_peer config = ∅)) in
    let ws_enabled := bool_decide (is_Some (cf_ws_server config)) || ws_enabled in
    let '(bus, ws) := if ws_enabled then start_ws_manager bus w else (bus, []) in
    let ipc := match cf_ipc config with
               | Some ipc => if ipc_enabled ipc then [IpcManagerTask] else []
               | None => []
               end in
    Returns (bus, WatchSignals :: ctrlc ++ RouterTask :: ws ++ SuspendTasks :: ipc)
  else Panics.

(** [add_websocket_peer] and [remove_websocket_peer]; [fate] is what comes of the call. *)
Definition add_websocket_peer (url : Url) (name : string) (fate : CallFate (string + unit)) (bus : AnyBus) (w : World)
    : (string + unit) * AnyBus * list Task :=
  let '(bus, tasks) := if ab_ws_manager bus then (bus, []) else start_ws_manager bus w in
  match ws_url_of url with
  | inl e => (inl e, bus, tasks)
  | inr url =>
      let res := call fate in
      match res with
      | inl e => (inr tt, bus, tasks)
      | inr _ => (inr tt, bus, tasks)
      end
  end.

(** [rpc_error] is the text of an [RpcError]. *)
Definition remove_websocket_peer (rpc_error : RpcError -> string) (url : Url) (fate : CallFate (string + unit))
    (bus : AnyBus) : string + unit :=
  if ab_ws_manager bus then
    match ws_url_of url with
    | inl e => inl e
    | inr url =>
        match call fate with
        | inl e => inl ("Failed to send RemovePeer command to WebSocketManager: " ++ rpc_error e)
        | inr answer => answer
        end
    end
  else inl "WebSocketManager is not running".
End anybus.

(** * The websocket listener ([src/peers/ws/listener.rs]) *)
Section listener.
Context `{U : UrlLib}.

Inductive WsError := BindFailure (address : IpAddr) (port : N) | TlsError | TlsPkiError.

(** The file system and the network as they answer: whether the certificate file opens, the key
    is read, the pair is accepted, the address can be bound. *)
Record ListenerWorld := mkListenerWorld { lw_cert : bool; lw_key : bool; lw_pair : bool; lw_bind : bool }.

(** [create_listener]: the result tells whether connections use TLS. *)
Definition create_listener (options : WebSocketServerConfig) (lw : ListenerWorld) : Outcome (WsError + bool) :=
  let bind := if lw_bind lw then inr (sc_enable_tls options) else inl (BindFailure (sc_address options) (sc_port options)) in
  if negb (sc_enable_tls options) then Returns bind
  else if negb (lw_cert lw) then Panics
  else if negb (lw_key lw) then Returns (inl TlsPkiError)
  else if negb (lw_pair lw) then Returns (inl TlsError)
  else Returns bind.

(** What [accept] yields: an error, or a connection whose handshakes go as said. *)
Inductive Incoming := AcceptError | Incoming_ (peer : N) (tls_ok upgrade_ok : bool).

(** How the loop stands after the connections so far. *)
Inductive ListenerEnd := StillListening | StoppedListening | ListenerPanicked.

(** [run_ws_listener]: the connections handed to [handshake_peer]. *)
Fixpoint run_ws_listener (acceptor : bool) (incoming : list Incoming) : list N * ListenerEnd :=
  match incoming with
  | [] => ([], StillListening)
  | AcceptError :: _ => ([], StoppedListening)
  | Incoming_ peer tls_ok upgrade_ok :: rest =>
      if acceptor then
        if tls_ok && upgrade_ok then let '(l, e) := run_ws_listener acceptor rest in (peer :: l, e)
        else run_ws_listener acceptor rest
      else
        if upgrade_ok then let '(l, e) := run_ws_listener acceptor rest in (peer :: l, e)
        else ([], ListenerPanicked)
  end.
End listener.
