(* ===== verification/ConfigProofs.v ===== *)
(** What a configured bus starts, and whom its websocket listener serves: the theorems about
    [Config.v]. *)
From Stdlib Require Import Strings.String.
From stdpp Require Import pretty.
From stdpp Require Import list.
From S2P Require Import Prelude Types Messages World Peer WsPeer WsManager Config.

Section start.
Context `{Cd : Codec} `{E : !Env} `{!EnvLaws} `{U : UrlLib}.

Lemma remote_name_inj i j : remote_name i = remote_name j -> i = j.
Proof. unfold remote_name. intros Hn%(inj (String.append _)). by apply (inj pretty). Qed.

Lemma peers_of_remotes_snoc l r :
  peers_of_remotes (l ++ [r]) = <[remote_name (length l) := PeerWebSocket (mkWsUrl (ro_url r))]> (peers_of_remotes l).
Proof. unfold peers_of_remotes. rewrite imap_app, foldl_app. simpl. by rewrite Nat.add_0_r. Qed.

Lemma peers_of_remotes_names l name p :
  peers_of_remotes l !! name = Some p -> exists i, name = remote_name i /\ i < length l.
Proof.
  induction l as [|r l IH] using rev_ind; [done|]. rewrite peers_of_remotes_snoc, length_app. simpl.
  intros [[<- _]|[_ Hl]]%lookup_insert_Some; [by exists (length l); split; [|lia]|].
  destruct (IH Hl) as (i & -> & Hi). exists i. split; [done|lia].
Qed.

(** The peer the manager is given for the remote at some place of the builder. *)
Definition remote_peer (index : nat) (r : WsRemoteOptions) : WebSocketPeerConfig :=
  mkPeerConfig (mkWsUrl (ro_url r)) (remote_name index).

Lemma ws_peer_configs_all b w :
  ws_peer_configs (config_of_builder b) w ≡ₚ imap remote_peer (bb_ws_remote_options b).
Proof.
  unfold ws_peer_configs, config_of_builder. simpl.
  rewrite (omap_Permutation _ _ _ (env_iter_map_perm w (peers_of_remotes (bb_ws_remote_options b)))).
  induction (bb_ws_remote_options b) as [|r l IH] using rev_ind; [done|].
  rewrite peers_of_remotes_snoc, imap_app. rewrite map_to_list_insert.
  - simpl. rewrite IH, Nat.add_0_r. by rewrite Permutation_cons_append.
  - destruct (peers_of_remotes l !! remote_name (length l)) as [p|] eqn:Hp; [|done].
    apply peers_of_remotes_names in Hp as (i & Hi%remote_name_inj & Hlt). lia.
Qed.

Lemma no_remotes l : peers_of_remotes l = ∅ <-> l = [].
Proof.
  destruct l as [|r l _] using rev_ind; [done|]. rewrite peers_of_remotes_snoc. split; [|by destruct l].
  intros Hn. by apply insert_non_empty in Hn.
Qed.

(** C35: a bus starts what its builder asked for: the router and the suspend tasks always; the
    Ctrl-C task and the IPC manager when enabled; the websocket manager when there is a listener
    or a remote, with the listener's options and with every remote, each once and under a name of
    its own, in the order the hash map gives. It starts once: running it again panics. *)
Theorem bus_runs_what_was_built id b w :
  exists bus peers, peers ≡ₚ imap remote_peer (bb_ws_remote_options b) /\ NoDup (pc_name <$> peers) /\
    anybus_run (anybus_init id b) w = Returns (bus,
      [WatchSignals] ++ (if bb_enable_ctrlc_shutdown b then [WatchCtrlC] else []) ++ [RouterTask] ++
      (if decide (bb_ws_listener_options b = None /\ bb_ws_remote_options b = []) then []
       else [WsManagerTask (server_of_listener <$> bb_ws_listener_options b) peers]) ++
      [SuspendTasks] ++ (if bb_enable_ipc b then [IpcManagerTask] else [])) /\
    forall w', anybus_run bus w' = Panics.
Proof.
  pose proof (ws_peer_configs_all b w) as Hp. set (config := config_of_builder b) in *.
  assert (Hnd : NoDup (pc_name <$> ws_peer_configs config w)).
  { rewrite Hp, fmap_imap. apply NoDup_alt. intros i j x Hi Hj.
    rewrite list_lookup_imap in Hi, Hj. destruct (bb_ws_remote_options b !! i), (bb_ws_remote_options b !! j); simplify_eq/=.
    by apply remote_name_inj. }
  assert (Hen : bool_decide (is_Some (cf_ws_server config)) || negb (bool_decide (cf_peer config = ∅)) =
    negb (bool_decide (bb_ws_listener_options b = None /\ bb_ws_remote_options b = []))).
  { unfold config. simpl. rewrite (bool_decide_ext _ _ (no_remotes (bb_ws_remote_options b))).
    by destruct (bb_ws_listener_options b), (bb_ws_remote_options b). }
  unfold anybus_init, init_from_config, anybus_run, start_ws_manager.
  cbn [ab_config ab_router ab_ws_manager ab_id]. fold config. cbv zeta. rewrite Hen.
  case_decide as Hnone.
  - rewrite bool_decide_true by done. simpl. exists (mkAnyBus id config false false), (ws_peer_configs config w).
    split; [done|]. split; [done|]. by destruct (bb_enable_ctrlc_shutdown b), (bb_enable_ipc b).
  - rewrite bool_decide_false by done. simpl. exists (mkAnyBus id config false true), (ws_peer_configs config w).
    split; [done|]. split; [done|]. by destruct (bb_enable_ctrlc_shutdown b), (bb_enable_ipc b).
Qed.

(** A peer the manager refused, or never heard of, is added as far as the caller is told. *)
Lemma refused_peer_reported_added url name fate bus w ws_url :
  ws_url_of url = inr ws_url -> (add_websocket_peer url name fate bus w).1.1 = inr tt.
Proof.
  intros Hu. unfold add_websocket_peer. destruct (ab_ws_manager bus); simpl; rewrite Hu; by destruct (call fate).
Qed.
End start.

(** * The listener *)
Section serving.
Context `{U : UrlLib}.

Definition is_accept_error (i : Incoming) : bool := match i with AcceptError => true | _ => false end.
(** A connection whose handshakes all succeed. *)
Definition served_by (acceptor : bool) (i : Incoming) : option N :=
  match i with
  | Incoming_ peer tls_ok upgrade_ok => if (negb acceptor || tls_ok) && upgrade_ok then Some peer else None
  | AcceptError => None
  end.

(** A TLS listener hands over exactly the connections whose handshakes succeed, whatever the
    others do, as long as it can accept; a plain one is brought down by the first connection
    whose upgrade fails: it panics, and nothing that comes after is served. *)
Theorem listener_serves l acceptor :
  Forall (fun i => is_accept_error i = false) l ->
  (acceptor = true -> run_ws_listener acceptor l = (omap (served_by true) l, StillListening)) /\
  (acceptor = false ->
     (Forall (fun i => is_Some (served_by false i)) l ->
        run_ws_listener acceptor l = (omap (served_by false) l, StillListening)) /\
     forall pre peer tls_ok rest, l = pre ++ Incoming_ peer tls_ok false :: rest ->
       Forall (fun i => is_Some (served_by false i)) pre ->
       run_ws_listener acceptor l = (omap (served_by false) pre, ListenerPanicked)).
Proof.
  intros Hl. split; intros ->.
  - induction Hl as [|i l Hi _ IH]; [done|]. destruct i as [|peer tls_ok upgrade_ok]; [done|]. simpl.
    rewrite IH. by destruct tls_ok, upgrade_ok.
  - split.
    + intros Hall. clear Hl. induction Hall as [|i l Hi _ IH]; [done|].
      destruct i as [|peer tls_ok upgrade_ok]; [by destruct Hi|]. simpl. rewrite IH.
      destruct upgrade_ok; [done|]. by destruct Hi.
    + intros pre peer tls_ok rest -> Hall. clear Hl. induction Hall as [|i l Hi _ IH]; [done|].
      destruct i as [|peer' tls_ok' upgrade_ok]; [by destruct Hi|]. simpl.
      destruct upgrade_ok; [|by destruct Hi]. by rewrite IH.
Qed.
End serving.
