(* ===== verification/Macro.v ===== *)
(** The derive macros ([anybus-macro/src]): what they read of a trait, the code they write, and
    what that code does when it runs. Tokens are parsed by [syn] and [uuid], which stay
    parameters; a trait comes in as [syn] hands it over. *)
From Stdlib Require Import Strings.String Strings.Ascii.
From S2P Require Import Prelude Types Messages Handle.
Open Scope string_scope.

(** [syn::Lit], [syn::Expr], [syn::Meta]: as far as [RpcAttr::parse] tells them apart. A path that
    is one identifier is that identifier. *)
Inductive Lit := LitStr (s : string) | LitOther.
Inductive Expr := ExprLit (l : Lit) | ExprOther.
Inductive Meta := MetaNameValue (path : option string) (value : Expr) | MetaOther.

(** Types are tokens to the macro. *)
Definition Ty : Type := string.

Inductive Pat := PatIdent (ident : string) | PatOther.
Inductive FnArg := ArgReceiver | ArgTyped (pat : Pat) (ty : Ty).
Record Signature := mkSignature {
  sig_ident : string;
  sig_inputs : list FnArg;
  sig_output : option Ty;
}.
Inductive TraitItem := TraitItemFn (sig : Signature) | TraitItemOther.
Record ItemTrait := mkItemTrait { it_ident : string; it_items : list TraitItem }.

(** What the macro calls: [Uuid::parse_str] and the identifiers of [format_ident!], which panics
    on text that is no identifier. *)
Class Syn := {
  parse_str : string -> option N;
  format_ident : string -> Outcome string;
}.
Class SynLaws `{Syn} : Prop := {
  format_ident_text : forall s t, format_ident s = Returns t -> t = s;
}.

Section macros.
Context `{Sy : Syn}.

(** * The attribute ([RpcAttr]) *)
Record RpcAttr := mkRpcAttr { attr_uuid : option N }.

(** The [syn::Error]s, of the attribute and of what does not parse at all. *)
Inductive SynError :=
  | NotParsed (e : string)
  | InvalidUuid
  | ExpectedStringLiteral
  | ExpectedLiteral
  | ExpectedUuid.

(** [None] is an empty attribute, [Some (inl e)] one that is no [Meta]. *)
Definition rpc_attr_parse (input : option (string + Meta)) : SynError + RpcAttr :=
  match input with
  | None => inr (mkRpcAttr None)
  | Some (inl e) => inl (NotParsed e)
  | Some (inr (MetaNameValue (Some path) value)) =>
      if String.eqb path "uuid" then
        match value with
        | ExprLit (LitStr s) =>
            match parse_str s with
            | Some uuid => inr (mkRpcAttr (Some uuid))
            | None => inl InvalidUuid
            end
        | ExprLit LitOther => inl ExpectedStringLiteral
        | ExprOther => inl ExpectedLiteral
        end
      else inl ExpectedUuid
  | Some (inr _) => inl ExpectedUuid
  end.

(** * The methods of the trait *)
Record Method := mkMethod {
  m_name : string;
  m_receiver : bool;
  m_args : list (string * Ty);
  m_ret : Ty;
}.

Definition is_receiver (arg : FnArg) : bool := match arg with ArgReceiver => true | _ => false end.

(** An argument whose pattern is no identifier is passed over. *)
Definition named_arg (arg : FnArg) : option (string * Ty) :=
  match arg with ArgTyped (PatIdent x) ty => Some (x, ty) | _ => None end.

Definition method_of (sig : Signature) : Method :=
  mkMethod (sig_ident sig) (existsb is_receiver (sig_inputs sig)) (omap named_arg (sig_inputs sig))
    (default "()" (sig_output sig)).

Definition fn_of (item : TraitItem) : option Signature :=
  match item with TraitItemFn sig => Some sig | TraitItemOther => None end.

Definition methods_of (t : ItemTrait) : list Method := map method_of (omap fn_of (it_items t)).

(** [name_pascal], [request_variant]: the first letter in upper case; [&name[1..]] panics inside a
    character of more than one byte. *)
Definition ascii_upper (c : ascii) : ascii :=
  let n := nat_of_ascii c in
  if (97 <=? n)%nat && (n <=? 122)%nat then ascii_of_nat (n - 32) else c.

Definition name_pascal (name : string) : Outcome string :=
  match name with
  | EmptyString => Panics
  | String c rest =>
      if (nat_of_ascii c <? 128)%nat then format_ident (String (ascii_upper c) rest) else Panics
  end.

(** * The code written *)

(** A variant of the request enum; without fields it is a unit variant. *)
Record RequestVariant := mkRequestVariant { rv_name : string; rv_fields : list (string * Ty) }.
Record ResponseVariant := mkResponseVariant { pv_name : string; pv_ty : Ty }.

(** A method of the client: it builds [cm_variant { cm_fields }], sends it and takes the value of
    the response variant [cm_response]. *)
Record ClientMethod := mkClientMethod {
  cm_name : string;
  cm_params : list (string * Ty);
  cm_ret : Ty;
  cm_variant : string;
  cm_fields : list string;
  cm_response : string;
}.

(** An arm of the depot: [da_variant { da_fields } => da_response(self.inner.da_call(da_args))]. *)
Record DepotArm := mkDepotArm {
  da_variant : string;
  da_fields : list string;
  da_call : string;
  da_args : list string;
  da_response : string;
}.

Record Expanded := mkExpanded {
  ex_trait : ItemTrait;
  ex_request_ident : string;
  ex_response_ident : string;
  ex_client_ident : string;
  ex_depot_ident : string;
  ex_requests : list RequestVariant;
  ex_responses : list ResponseVariant;
  ex_uuid : option N;
  ex_client : list ClientMethod;
  ex_new : bool;
  ex_arms : list DepotArm;
}.

Fixpoint outcome_map {A B} (f : A -> Outcome B) (l : list A) : Outcome (list B) :=
  match l with
  | [] => Returns []
  | x :: l => outcome_bind (f x) (fun y => outcome_bind (outcome_map f l) (fun l => Returns (y :: l)))
  end.

Definition request_variant (m : Method) : Outcome RequestVariant :=
  outcome_bind (name_pascal (m_name m)) (fun v => Returns (mkRequestVariant v (m_args m))).
Definition response_variant (m : Method) : Outcome ResponseVariant :=
  outcome_bind (name_pascal (m_name m)) (fun v => Returns (mkResponseVariant v (m_ret m))).
Definition client_method (m : Method) : Outcome ClientMethod :=
  outcome_bind (name_pascal (m_name m)) (fun v =>
    Returns (mkClientMethod (m_name m) (m_args m) (m_ret m) v (map fst (m_args m)) v)).
Definition depot_arm (m : Method) : Outcome DepotArm :=
  outcome_bind (name_pascal (m_name m)) (fun v =>
    Returns (mkDepotArm v (map fst (m_args m)) (m_name m) (map fst (m_args m)) v)).

(** [anybus_rpc_impl] once both of its inputs are parsed. *)
Definition expand (attr : RpcAttr) (t : ItemTrait) : Outcome Expanded :=
  let methods := methods_of t in
  outcome_bind (format_ident (it_ident t ++ "Request")) (fun request_ident =>
  outcome_bind (format_ident (it_ident t ++ "Response")) (fun response_ident =>
  outcome_bind (format_ident (it_ident t ++ "Client")) (fun client_ident =>
  outcome_bind (format_ident (it_ident t ++ "Depot")) (fun depot_ident =>
  outcome_bind (outcome_map request_variant methods) (fun requests =>
  outcome_bind (outcome_map response_variant methods) (fun responses =>
  outcome_bind (outcome_map client_method methods) (fun client =>
  outcome_bind (outcome_map depot_arm methods) (fun arms =>
  Returns (mkExpanded t request_ident response_ident client_ident depot_ident requests responses
    (attr_uuid attr) client (bool_decide (is_Some (attr_uuid attr))) arms))))))))).

(** [anybus_rpc_impl]: input that does not parse becomes a [compile_error!]. *)
Definition anybus_rpc_impl (attr : option (string + Meta)) (item : string + ItemTrait)
    : Outcome (SynError + Expanded) :=
  match rpc_attr_parse attr with
  | inl e => Returns (inl e)
  | inr attr =>
      match item with
      | inl e => Returns (inl (NotParsed e))
      | inr t => outcome_bind (expand attr t) (fun x => Returns (inr x))
      end
  end.

(** [bus_uuid_impl]: the item, and an [impl] of [BusRiderWithUuid] for its type. The attribute is
    the text of its tokens, the quotes of a literal included. *)
Definition quote_char : ascii := ascii_of_nat 34.

Fixpoint trim_start (s : string) : string :=
  match s with
  | String c rest => if Ascii.eqb c quote_char then trim_start rest else s
  | EmptyString => EmptyString
  end.

Fixpoint trim_end (s : string) : string :=
  match s with
  | String c rest =>
      match trim_end rest with
      | EmptyString => if Ascii.eqb c quote_char then EmptyString else String c EmptyString
      | rest => String c rest
      end
  | EmptyString => EmptyString
  end.

Definition bus_uuid_impl {Tokens : Type} (derive_input : Tokens -> option string) (attr : string) (item : Tokens)
    : Outcome (Tokens * string * N) :=
  match parse_str (trim_end (trim_start attr)) with
  | None => Panics
  | Some uuid =>
      match derive_input item with
      | None => Panics
      | Some ident => Returns (item, ident, uuid)
      end
  end.

(** * Running the code

    A method of the client and an arm of the depot, with the values of their variables. A variable
    that is not bound would not compile: the evaluation has no result ([None]). *)
Section run.
Context `{Cd : Codec} {Val St : Type}.

Record ReqVal := mkReqVal { rq_variant : string; rq_fields : list (string * Val) }.
Record RespVal := mkRespVal { rp_variant : string; rp_value : Val }.

Fixpoint assoc (x : string) (env : list (string * Val)) : option Val :=
  match env with
  | [] => None
  | (y, v) :: env => if String.eqb x y then Some v else assoc x env
  end.

Definition lookup_all (xs : list string) (env : list (string * Val)) : option (list Val) :=
  mapM (fun x => assoc x env) xs.

(** [let request = #request_creation;] *)
Definition build_request (m : ClientMethod) (args : list Val) : option ReqVal :=
  vs ← lookup_all (cm_fields m) (zip (map fst (cm_params m)) args);
  Some (mkReqVal (cm_variant m) (zip (cm_fields m) vs)).

(** A call; [rpc] is [rpc_helper.request_to_uuid(request, self.endpoint_uuid)]. *)
Definition client_call (m : ClientMethod) (rpc : ReqVal -> St -> Outcome ((AnyBusHandleError + RespVal) * St))
    (args : list Val) (st : St) : option (Outcome ((AnyBusHandleError + Val) * St)) :=
  request ← build_request m args;
  Some (outcome_bind (rpc request st) (fun '(response, st) =>
    match response with
    | inl e => Returns (inl e, st)
    | inr response =>
        if String.eqb (rp_variant response) (cm_response m) then Returns (inr (rp_value response), st) else Panics
    end)).

(** [on_request]; [inner] runs a method of the trait object. *)
Definition depot_on_request (arms : list DepotArm) (inner : string -> list Val -> St -> Val * St)
    (request : option ReqVal) (st : St) : option (Outcome (RespVal * St)) :=
  match request with
  | None => Some Panics
  | Some request =>
      arm ← List.find (fun arm => String.eqb (da_variant arm) (rq_variant request)) arms;
      bound ← lookup_all (da_fields arm) (rq_fields request);
      args ← lookup_all (da_args arm) (zip (da_fields arm) bound);
      let '(v, st) := inner (da_call arm) args st in
      Some (Returns (mkRespVal (da_response arm) v, st))
  end.
End run.
End macros.

(** * Local calls ([define_local_rpc!] in [src/localrpc.rs])

    For every variant a struct of its fields, the type of its reply, a variant of the enum that
    carries the struct and where to reply, and the conversion of the two into it. *)
Record RpcVariant := mkRpcVariant { lv_name : string; lv_fields : list (string * Ty); lv_ret : Ty }.

Record LocalRpc := mkLocalRpc {
  lr_structs : list (string * list (string * Ty));
  lr_replies : list (string * Ty);
  lr_enum : string * list (string * (string * Ty));
  lr_froms : list ((string * Ty) * string);
}.

Definition define_local_rpc (enum_name : string) (variants : list RpcVariant) : LocalRpc :=
  mkLocalRpc
    (map (fun v => (lv_name v, lv_fields v)) variants)
    (map (fun v => (lv_name v, lv_ret v)) variants)
    (enum_name, map (fun v => (lv_name v, (lv_name v, lv_ret v))) variants)
    (map (fun v => ((lv_name v, lv_ret v), lv_name v)) variants).

(** A request converts, with a channel for its own type of reply, into a variant that carries it
    and that channel. *)
Lemma local_rpc_typed enum_name variants request reply variant :
  ((request, reply), variant) ∈ lr_froms (define_local_rpc enum_name variants) ->
  (request, reply) ∈ lr_replies (define_local_rpc enum_name variants) /\
  (variant, (request, reply)) ∈ (lr_enum (define_local_rpc enum_name variants)).2.
Proof.
  simpl. rewrite !list_elem_of_fmap. intros (v & [= -> -> ->] & Hv). split; exists v; done.
Qed.
