(* ===== verification/MacroProofs.v ===== *)
(** What [Macro.v] promises: which traits the macro handles, and that a call of the generated
    client runs the method of the trait object behind the generated depot. *)
From Stdlib Require Import Strings.String Strings.Ascii.
From S2P Require Import Prelude Types Messages Handle Macro Concrete.
Open Scope string_scope.

(** * Mapping with panics *)
Lemma outcome_map_returns {A B} (f : A -> Outcome B) l ys :
  outcome_map f l = Returns ys <-> Forall2 (fun x y => f x = Returns y) l ys.
Proof.
  revert ys. induction l as [|x l IH]; intros ys; simpl.
  - split; [intros [= <-]; constructor | by intros ->%Forall2_nil_inv_l].
  - split.
    + destruct (f x) as [y|] eqn:Hf; [|done]. simpl. destruct (outcome_map f l) as [ys'|]; [|done]. simpl.
      intros [= <-]. constructor; [done | by apply IH].
    + intros (y & ys' & Hf & Hr%IH & ->)%Forall2_cons_inv_l. by rewrite Hf, Hr.
Qed.

Section proofs.
Context `{Sy : Syn} `{Cd : Codec}.

(** The variant of a method. *)
Definition variant_of (m : Method) (v : string) : Prop := name_pascal (m_name m) = Returns v.

(** What [expand] returns, method by method. *)
Record expands (attr : RpcAttr) (t : ItemTrait) (x : Expanded) (vs : list string) : Prop := {
  xs_variants : Forall2 variant_of (methods_of t) vs;
  xs_trait : ex_trait x = t;
  xs_requests : ex_requests x = zip_with (fun m v => mkRequestVariant v (m_args m)) (methods_of t) vs;
  xs_responses : ex_responses x = zip_with (fun m v => mkResponseVariant v (m_ret m)) (methods_of t) vs;
  xs_client : ex_client x = zip_with (fun m v =>
    mkClientMethod (m_name m) (m_args m) (m_ret m) v (map fst (m_args m)) v) (methods_of t) vs;
  xs_arms : ex_arms x = zip_with (fun m v =>
    mkDepotArm v (map fst (m_args m)) (m_name m) (map fst (m_args m)) v) (methods_of t) vs;
  xs_uuid : ex_uuid x = attr_uuid attr;
  xs_new : ex_new x = bool_decide (is_Some (attr_uuid attr));
}.

Lemma mapped_by_variant {B} (f : Method -> string -> B) (g : Method -> Outcome B) ms vs ys :
  (forall m, g m = outcome_bind (name_pascal (m_name m)) (fun v => Returns (f m v))) ->
  Forall2 variant_of ms vs -> outcome_map g ms = Returns ys -> ys = zip_with f ms vs.
Proof.
  intros Hg Hvs. revert ys. induction Hvs as [|m v ms vs Hv _ IH]; intros ys; simpl; [by intros [= <-]|].
  rewrite Hg, Hv. simpl. destruct (outcome_map g ms) as [ys'|]; [|done]. simpl. intros [= <-]. by rewrite (IH ys').
Qed.

Lemma variants_exist {B} (f : Method -> string -> B) (g : Method -> Outcome B) ms ys :
  (forall m, g m = outcome_bind (name_pascal (m_name m)) (fun v => Returns (f m v))) ->
  outcome_map g ms = Returns ys -> exists vs, Forall2 variant_of ms vs.
Proof.
  intros Hg. revert ys. induction ms as [|m ms IH]; intros ys; simpl; [by exists []|].
  rewrite Hg. destruct (name_pascal (m_name m)) as [v|] eqn:Hv; [|done]. simpl.
  destruct (outcome_map g ms) as [ys'|]; [|done]. intros _. destruct (IH _ eq_refl) as [vs Hvs].
  exists (v :: vs). by constructor.
Qed.

Lemma expand_spec attr t x : expand attr t = Returns x -> exists vs, expands attr t x vs.
Proof.
  unfold expand. repeat (destruct (format_ident _) as [?|]; [|done]; cbn [outcome_bind]).
  destruct (outcome_map request_variant _) as [rs|] eqn:Hr; [|done].
  destruct (outcome_map response_variant _) as [ps|] eqn:Hp; [|done].
  destruct (outcome_map client_method _) as [cs|] eqn:Hc; [|done].
  destruct (outcome_map depot_arm _) as [ds|] eqn:Hd; [|done]. cbn [outcome_bind]. intros [= <-].
  destruct (variants_exist (fun m v => mkRequestVariant v (m_args m)) _ _ _ ltac:(done) Hr) as [vs Hvs].
  exists vs. split; cbn; try done; (eapply mapped_by_variant; [|exact Hvs|eassumption]; done).
Qed.
(** * Which traits the macro handles

    What the compiler checks of the generated code that depends on names and numbers of
    arguments: no name twice, and every call of the depot fits the method of the trait. *)
Definition trait_fns (t : ItemTrait) : list Signature := omap fn_of (it_items t).
Definition params (sig : Signature) : list FnArg := List.filter (fun a => negb (is_receiver a)) (sig_inputs sig).

Definition fits (t : ItemTrait) (arm : DepotArm) : Prop := exists sig, sig ∈ trait_fns t /\
  sig_ident sig = da_call arm /\ existsb is_receiver (sig_inputs sig) = true /\
  length (params sig) = length (da_args arm).

Definition constructors (x : Expanded) : list string :=
  "new_with_uuid" :: if ex_new x then ["new"] else [].

Record compiles (x : Expanded) : Prop := {
  co_trait : NoDup (map sig_ident (trait_fns (ex_trait x)));
  co_requests : NoDup (map rv_name (ex_requests x));
  co_responses : NoDup (map pv_name (ex_responses x));
  co_fields : Forall (fun v => NoDup (map fst (rv_fields v))) (ex_requests x);
  co_client : NoDup (map cm_name (ex_client x) ++ constructors x);
  co_arms : Forall (fits (ex_trait x)) (ex_arms x);
}.

(** Traits to use the macro on: every method has a receiver and names all of its arguments, no two
    methods differ in nothing but the case of their first letter, and none is called like a
    constructor of the client. *)
Definition plain_fn (sig : Signature) : Prop :=
  existsb is_receiver (sig_inputs sig) = true /\
  Forall (fun arg => is_Some (named_arg arg)) (params sig) /\
  NoDup (map fst (omap named_arg (sig_inputs sig))).

Record plain (attr : RpcAttr) (t : ItemTrait) : Prop := {
  pl_names : NoDup (map sig_ident (trait_fns t));
  pl_initials : NoDup (map (fun sig => name_pascal (sig_ident sig)) (trait_fns t));
  pl_new_with_uuid : "new_with_uuid" ∉ map sig_ident (trait_fns t);
  pl_new : is_Some (attr_uuid attr) -> "new" ∉ map sig_ident (trait_fns t);
  pl_fns : Forall plain_fn (trait_fns t);
}.

Lemma method_names t : map m_name (methods_of t) = map sig_ident (trait_fns t).
Proof. unfold methods_of. rewrite map_map. by apply map_ext. Qed.

Lemma named_params l :
  length (omap named_arg l) <= length (List.filter (fun a => negb (is_receiver a)) l) /\
  (length (List.filter (fun a => negb (is_receiver a)) l) = length (omap named_arg l) <->
   Forall (fun arg => is_Some (named_arg arg)) (List.filter (fun a => negb (is_receiver a)) l)).
Proof.
  induction l as [|a l [IH1 IH2]]; [by split|]. destruct a as [|[x|] ty]; csimpl; [done|..].
  - split; [lia|]. rewrite Forall_cons, <- IH2. split; [intros Hl; split; [by eexists | lia] | intros [_ ?]; lia].
  - split; [lia|]. rewrite Forall_cons. split; [lia | by intros [[? ?] _]].
Qed.

(** Over the generated lists. *)
Lemma generated_forall {B} (P : B -> Prop) (f : Method -> string -> B) ms vs (Q : Method -> Prop) :
  Forall2 variant_of ms vs -> (forall m v, m ∈ ms -> P (f m v) <-> Q m) ->
  Forall P (zip_with f ms vs) <-> Forall Q ms.
Proof.
  intros Hvs. induction Hvs as [|m v ms vs _ _ IH]; intros HPQ; simpl; [by split; constructor|].
  rewrite !Forall_cons, HPQ by by left. rewrite IH; [done|]. intros m' v' Hm. apply HPQ. by right.
Qed.

Lemma generated_map {B C} (g : B -> C) (f : Method -> string -> B) (h : Method -> C) ms vs :
  Forall2 variant_of ms vs -> (forall m v, g (f m v) = h m) -> map g (zip_with f ms vs) = map h ms.
Proof. intros Hvs Hg. induction Hvs as [|m v ms vs _ _ IH]; simpl; [done|]. by rewrite Hg, IH. Qed.

Lemma generated_variants {B} (g : B -> string) (f : Method -> string -> B) ms vs :
  Forall2 variant_of ms vs -> (forall m v, g (f m v) = v) -> map g (zip_with f ms vs) = vs.
Proof. intros Hvs Hg. induction Hvs as [|m v ms vs _ _ IH]; simpl; [done|]. by rewrite Hg, IH. Qed.

Lemma variants_distinct t vs :
  Forall2 variant_of (methods_of t) vs ->
  NoDup vs <-> NoDup (map (fun sig => name_pascal (sig_ident sig)) (trait_fns t)).
Proof.
  intros Hvs. assert (Hm : map (fun sig => name_pascal (sig_ident sig)) (trait_fns t) = map Returns vs).
  { unfold methods_of in Hvs. fold (trait_fns t) in Hvs. remember (map method_of (trait_fns t)) as ms eqn:Hms.
    revert Hms. generalize (trait_fns t). induction Hvs as [|m v ms vs Hv _ IH]; intros [|sig l] Hms; try done.
    injection Hms as -> ->. simpl. rewrite (IH l) by done. f_equal. exact Hv. }
  rewrite Hm. clear. split; [|apply NoDup_fmap_1]. intros H. induction H as [|v vs Hv _ IH]; [constructor|]. simpl.
  constructor; [|done]. intros (v' & [= ->] & Hin)%list_elem_of_fmap. done.
Qed.

(** The calls of the depot fit, and no field is named twice, exactly when the methods are plain. *)
Lemma calls_fit t vs :
  Forall2 variant_of (methods_of t) vs -> NoDup (map sig_ident (trait_fns t)) ->
  ((Forall (fits t) (zip_with (fun m v => mkDepotArm v (map fst (m_args m)) (m_name m) (map fst (m_args m)) v)
     (methods_of t) vs) /\
   Forall (fun v => NoDup (map fst (rv_fields v)))
     (zip_with (fun m v => mkRequestVariant v (m_args m)) (methods_of t) vs))) <->
  Forall plain_fn (trait_fns t).
Proof.
  intros Hvs Hnd.
  rewrite (generated_forall (fits t) _ _ _ (fun m => fits t (mkDepotArm "" [] (m_name m) (map fst (m_args m)) "")) Hvs)
    by done.
  rewrite (generated_forall (fun v => NoDup (map fst (rv_fields v))) _ _ _ (fun m => NoDup (map fst (m_args m))) Hvs)
    by done.
  unfold methods_of. fold (trait_fns t). rewrite <- Forall_and, Forall_map, !Forall_forall.
  assert (Hone : forall sig sig', sig ∈ trait_fns t -> sig' ∈ trait_fns t -> sig_ident sig = sig_ident sig' -> sig = sig').
  { clear Hvs. induction (trait_fns t) as [|s l IH]; [by intros ? ? ?%elem_of_nil|]. simpl in Hnd.
    apply NoDup_cons in Hnd as [Hs Hnd]. intros a b [-> | Ha]%elem_of_cons [-> | Hb]%elem_of_cons He; [done|..].
    - destruct Hs. rewrite He. by apply (list_elem_of_fmap_2 sig_ident).
    - destruct Hs. rewrite <- He. by apply (list_elem_of_fmap_2 sig_ident).
    - by apply IH. }
  apply forall_proper. intros sig. split; intros Hp Hin; specialize (Hp Hin).
  - destruct Hp as [(sig' & Hin' & Hid & Hrecv & Hlen) Hd]. simpl in *.
    rewrite (Hone sig' sig Hin' Hin Hid) in *. split; [done|]. split; [|done].
    apply (named_params (sig_inputs sig)). by rewrite length_map in Hlen.
  - destruct Hp as (Hrecv & Hall & Hd). split; [|done]. exists sig. split_and!; try done. simpl.
    rewrite length_map. by apply (named_params (sig_inputs sig)).
Qed.

(** C37: the macro handles exactly the plain traits: when it writes code at all, the code holds no
    name twice and its calls fit the trait if and only if the trait is plain; an argument whose
    pattern is no identifier is dropped from request and call, and two methods whose names differ
    only in the case of the first letter get the same variant. *)
Theorem macro_handles_plain_traits attr t x :
  expand attr t = Returns x -> compiles x <-> plain attr t.
Proof.
  intros (vs & [Hvs Ht Hr Hp Hc Ha Hu Hn])%expand_spec.
  assert (Hcl : map cm_name (ex_client x) = map sig_ident (trait_fns t)).
  { rewrite Hc, <- method_names. by apply generated_map. }
  assert (Hrq : map rv_name (ex_requests x) = vs) by (rewrite Hr; by apply generated_variants).
  assert (Hrs : map pv_name (ex_responses x) = vs) by (rewrite Hp; by apply generated_variants).
  assert (Hcon : NoDup (map cm_name (ex_client x) ++ constructors x) <-> (NoDup (map sig_ident (trait_fns t)) /\
    ("new_with_uuid" ∉ map sig_ident (trait_fns t)) /\
    (is_Some (attr_uuid attr) -> "new" ∉ map sig_ident (trait_fns t)))).
  { rewrite Hcl. unfold constructors. rewrite Hn, NoDup_app. case_bool_decide as Hsome; split.
    - intros (H1 & H2 & _). split_and!; [done| |intros _]; intros Hin%H2; set_solver.
    - intros (H1 & H2 & H3). split_and!; [done| |by repeat constructor; set_solver].
      intros y Hy. specialize (H3 Hsome). set_solver.
    - intros (H1 & H2 & _). split_and!; [done| |done]. intros Hin%H2; set_solver.
    - intros (H1 & H2 & _). split_and!; [done| |by repeat constructor; set_solver]. set_solver. }
  pose proof (variants_distinct _ _ Hvs) as Hdist. split.
  - intros [H1 H2 H3 H4 H5 H6]. rewrite Ht in *. apply Hcon in H5 as (_ & H5 & H5'). rewrite Hrq in H2.
    split; [done|by apply Hdist|done|done|]. rewrite Hr in H4. rewrite Ha in H6. by apply (calls_fit _ _ Hvs H1).
  - intros [H1 H2 H3 H4 H5]. apply (calls_fit _ _ Hvs H1) in H5 as [H5 H6]. apply Hdist in H2.
    split; rewrite ?Ht, ?Hrq, ?Hrs; try done; [by rewrite Hr | by apply Hcon | by rewrite Ha].
Qed.

(** * Calls *)
Section calls.
Context {Val St : Type}.
Context (inner : string -> list Val -> St -> Val * St).

Lemma assoc_app_ne x y (v : Val) env : x <> y -> assoc x ((y, v) :: env) = assoc x env.
Proof. intros Hne. simpl. destruct (String.eqb_spec x y); [congruence | done]. Qed.

Lemma lookup_all_agree env env' xs :
  (forall x, x ∈ xs -> @assoc Val x env = assoc x env') -> lookup_all xs env = lookup_all xs env'.
Proof.
  unfold lookup_all. induction xs as [|x xs IH]; intros He; [done|]. cbn [mapM]. rewrite (He x) by by left.
  destruct (assoc x env') as [v|]; [|done]. cbn [mbind option_bind]. rewrite IH; [done|].
  intros y Hy. apply He. by right.
Qed.

(** Reading distinct variables back in the order they were bound. *)
Lemma lookup_all_zip xs (vs : list Val) :
  NoDup xs -> length xs = length vs -> lookup_all xs (zip xs vs) = Some vs.
Proof.
  intros Hnd. revert vs. induction Hnd as [|x xs Hx Hnd IH]; intros [|v vs] Hlen; try done.
  injection Hlen as Hlen. unfold lookup_all. cbn [mapM zip zip_with].
  assert (Hhead : assoc x ((x, v) :: zip xs vs) = Some v) by (simpl; by rewrite String.eqb_refl).
  rewrite Hhead. cbn [mbind option_bind].
  pose proof (lookup_all_agree ((x, v) :: zip xs vs) (zip xs vs) xs) as Hrest. rewrite (IH vs Hlen) in Hrest.
  unfold lookup_all in Hrest. rewrite Hrest; [done|]. intros y Hy. apply assoc_app_ne. intros ->. done.
Qed.

(** The arm that matches is the method's own. *)
Lemma find_arm ms vs m v :
  Forall2 variant_of ms vs -> NoDup vs -> (m, v) ∈ zip ms vs ->
  List.find (fun arm => String.eqb (da_variant arm) v)
    (zip_with (fun m v => mkDepotArm v (map fst (m_args m)) (m_name m) (map fst (m_args m)) v) ms vs) =
  Some (mkDepotArm v (map fst (m_args m)) (m_name m) (map fst (m_args m)) v).
Proof.
  intros Hvs. induction Hvs as [|m' v' ms vs _ _ IH]; [by intros _ ?%elem_of_nil|].
  intros [Hv' Hnd]%NoDup_cons [[= <- <-]|Hin]%elem_of_cons; simpl; [by rewrite String.eqb_refl|].
  destruct (String.eqb_spec v' v) as [->|_]; [|by apply IH]. destruct Hv'. by apply elem_of_zip_r in Hin.
Qed.

(** C38: a call of the generated client is a call of the trait's method: the request carries the
    arguments, the depot finds the method and hands them over in order, and the client returns
    the method's result; an error of the call comes back as it is, and only an answer of another
    method makes the client panic. The parameters are the trait's whether or not the attribute
    has a uuid ([README_NEW.md] says that without one the methods take the endpoint as well). *)
Theorem generated_call_runs_method attr t x m args st :
  expand attr t = Returns x -> plain attr t -> m ∈ methods_of t -> length args = length (m_args m) ->
  exists cm request, cm ∈ ex_client x /\ cm_name cm = m_name m /\ cm_params cm = m_args m /\
    build_request cm args = Some request /\
    depot_on_request (ex_arms x) inner (Some request) st =
      Some (Returns (mkRespVal (cm_response cm) (inner (m_name m) args st).1, (inner (m_name m) args st).2)) /\
    forall rpc, client_call cm rpc args st = Some
      match rpc request st with
      | Returns (inr response, st') =>
          if String.eqb (rp_variant response) (cm_response cm) then Returns (inr (rp_value response), st') else Panics
      | Returns (inl e, st') => Returns (inl e, st')
      | Panics => Panics
      end.
Proof.
  intros (vs & [Hvs Ht Hr Hp Hc Ha Hu Hn])%expand_spec Hplain Hm Hlen.
  assert (Hnd : NoDup (map fst (m_args m))).
  { unfold methods_of in Hm. apply list_elem_of_fmap in Hm as (sig & -> & Hsig).
    pose proof (pl_fns _ _ Hplain) as Hfns. rewrite Forall_forall in Hfns. by apply (Hfns sig Hsig). }
  pose proof (pl_initials _ _ Hplain) as Hdist%(variants_distinct t vs Hvs).
  assert (exists v, (m, v) ∈ zip (methods_of t) vs) as [v Hv].
  { clear -Hm Hvs. induction Hvs as [|m' v' ms vs _ _ IH]; [by apply elem_of_nil in Hm|].
    apply elem_of_cons in Hm as [-> | Hm]; [exists v'; by left|]. destruct (IH Hm) as [v Hv]. exists v. by right. }
  set (cm := mkClientMethod (m_name m) (m_args m) (m_ret m) v (map fst (m_args m)) v).
  assert (Hbuild : build_request cm args = Some (mkReqVal v (zip (map fst (m_args m)) args))).
  { unfold build_request. simpl. by rewrite lookup_all_zip by (done || by rewrite length_map). }
  exists cm, (mkReqVal v (zip (map fst (m_args m)) args)). split_and!; try done.
  - rewrite Hc. clear -Hv Hvs. induction Hvs as [|m' v' ms vs _ _ IH]; [by apply elem_of_nil in Hv|].
    apply elem_of_cons in Hv as [[= <- <-]|Hv]; simpl; [by left|]. right. by apply IH.
  - unfold depot_on_request. rewrite Ha. simpl. rewrite (find_arm _ _ _ _ Hvs Hdist Hv). simpl.
    rewrite !lookup_all_zip by (done || by rewrite length_map). simpl.
    rewrite lookup_all_zip by (done || by rewrite length_map). simpl. by destruct (inner _ _ _).
  - intros rpc. unfold client_call. rewrite Hbuild. simpl. destruct (rpc _ _) as [[[e|resp] st']|]; done.
Qed.
End calls.

(** * Names and attributes *)

(** Two methods share a variant only when their names differ in nothing but the case of the first
    letter. *)
Lemma name_pascal_same `{!SynLaws} a b v :
  name_pascal a = Returns v -> name_pascal b = Returns v ->
  exists c c' rest, a = String c rest /\ b = String c' rest /\ ascii_upper c = ascii_upper c'.
Proof.
  destruct a as [|c rest]; [done|]. destruct b as [|c' rest']; [done|]. simpl.
  destruct (_ <? 128)%nat; [|done]. destruct (_ <? 128)%nat; [|done].
  intros Ha%format_ident_text Hb%format_ident_text. rewrite Ha in Hb. injection Hb as Hc ->. by exists c, c', rest'.
Qed.

(** The attribute is empty or gives a uuid that can be read. *)
Lemma rpc_attr_accepts input attr :
  rpc_attr_parse input = inr attr <->
  (input = None /\ attr = mkRpcAttr None) \/
  (exists s uuid, input = Some (inr (MetaNameValue (Some "uuid") (ExprLit (LitStr s)))) /\
     parse_str s = Some uuid /\ attr = mkRpcAttr (Some uuid)).
Proof.
  split.
  - destruct input as [[e|[path value|]]|]; simpl; try done; [|intros [= <-]; by left].
    destruct path as [path|]; [|done]. destruct (String.eqb_spec path "uuid") as [->|]; [|done].
    destruct value as [[s|]|]; try done. destruct (parse_str s) as [uuid|] eqn:Hs; [|done].
    intros [= <-]. right. by exists s, uuid.
  - intros [[-> ->]|(s & uuid & -> & Hs & ->)]; [done|]. simpl. by rewrite Hs.
Qed.

(** [bus_uuid] reads a literal without its quotes. *)
Lemma trim_end_quoted s : trim_end (s ++ String quote_char EmptyString) = trim_end s.
Proof. induction s as [|c s IH]; [done|]. simpl. by rewrite IH. Qed.

Lemma trim_end_plain s c : Ascii.eqb c quote_char = false -> trim_end (s ++ String c EmptyString) = s ++ String c EmptyString.
Proof.
  intros Hc. induction s as [|x s IH]; [simpl; by rewrite Hc|]. simpl. rewrite IH. by destruct s.
Qed.

Lemma bus_uuid_quoted x mid y :
  Ascii.eqb x quote_char = false -> Ascii.eqb y quote_char = false ->
  let text := String x mid ++ String y EmptyString in
  trim_end (trim_start (String quote_char (text ++ String quote_char EmptyString))) = text.
Proof.
  intros Hx Hy text. assert (Hs : forall rest, trim_start (String x rest) = String x rest) by (intros; simpl; by rewrite Hx).
  change (trim_start (String quote_char (text ++ String quote_char "")))
    with (trim_start (String x ((mid ++ String y "") ++ String quote_char ""))).
  rewrite Hs. change (String x ((mid ++ String y "") ++ String quote_char "")) with (text ++ String quote_char "").
  rewrite trim_end_quoted. by apply trim_end_plain.
Qed.
End proofs.

(** * A trait as the tests write it *)

(** [#[anybus_rpc(uuid = ..)] trait MathTrait { async fn add(&self, a: i32, b: i32) -> i32;
    async fn reset(&mut self); }] *)
Definition test_syn : Syn := {| parse_str s := if String.eqb s "" then None else Some 5%N; format_ident := Returns |}.
Definition math_trait : ItemTrait := mkItemTrait "MathTrait"
  [TraitItemFn (mkSignature "add" [ArgReceiver; ArgTyped (PatIdent "a") "i32"; ArgTyped (PatIdent "b") "i32"] (Some "i32"));
   TraitItemOther; TraitItemFn (mkSignature "reset" [ArgReceiver] None)].
Definition math_attr : RpcAttr := mkRpcAttr (Some 5%N).
Definition math_add : Method := mkMethod "add" true [("a", "i32"); ("b", "i32")] "i32".
Definition math_code : Expanded :=
  match @expand test_syn math_attr math_trait with
  | Returns x => x
  | Panics => mkExpanded math_trait "" "" "" "" [] [] None [] false []
  end.

Lemma math_expands : @expand test_syn math_attr math_trait = Returns math_code.
Proof. vm_compute. reflexivity. Qed.

Lemma math_plain : @plain test_syn math_attr math_trait.
Proof.
  split; simpl.
  - repeat constructor; set_solver.
  - repeat constructor; set_solver.
  - set_solver.
  - intros _. set_solver.
  - repeat constructor; simpl; eauto; set_solver.
Qed.

Lemma macro_handles_plain_traits_witness : compiles math_code.
Proof. apply (@macro_handles_plain_traits test_syn math_attr math_trait math_code math_expands). exact math_plain. Defined.

Definition math_inner (name : string) (args : list N) (st : N) : N * N :=
  if String.eqb name "add" then (foldr N.add 0%N args, (st + 1)%N) else (0%N, 0%N).

(** The client adds 2 and 40 through the depot; the object counts its calls. *)
Lemma generated_call_runs_method_witness :
  exists cm, cm ∈ ex_client math_code /\ cm_name cm = "add" /\
    client_call cm (fun request st =>
      match depot_on_request (ex_arms math_code) math_inner (Some request) st with
      | Some (Returns (response, st)) => Returns (inr response, st)
      | _ => Panics
      end) [2%N; 40%N] 0%N = Some (Returns (inr 42%N, 1%N)).
Proof.
  destruct (@generated_call_runs_method test_syn _ N N math_inner math_attr math_trait math_code math_add
    [2%N; 40%N] 0%N math_expands math_plain) as (cm & request & H1 & H2 & _ & _ & H3 & H4).
  - by left.
  - reflexivity.
  - exists cm. split; [exact H1|]. split; [exact H2|]. rewrite H4, H3. simpl. by rewrite String.eqb_refl.
Defined.
