(* ===== verification/Chat.v ===== *)
(** The chat example ([examples/chat_tui/main.rs], [chatview.rs]): what it does with what is typed
    and what arrives. The widgets it draws with ([ratatui]) are a parameter, as far as the
    application reads them. *)
From Stdlib Require Import Strings.String Strings.Ascii.
From S2P Require Import Prelude Types Messages World Fib Handle WsManager Config.

(** * Text: a [str] as its characters *)
Definition Text : Type := list N.
Definition lit (s : string) : Text := map N_of_ascii (list_ascii_of_string s).
Definition space : N := 32%N.
Definition slash : N := 47%N.

(** [char::is_whitespace]. *)
Definition is_whitespace (c : N) : bool :=
  ((9 <=? c) && (c <=? 13) || (c =? 32) || (c =? 133) || (c =? 160) || (c =? 5760) ||
   (8192 <=? c) && (c <=? 8202) || (c =? 8232) || (c =? 8233) || (c =? 8239) || (c =? 8287) || (c =? 12288))%N.

Fixpoint trim_left (t : Text) : Text :=
  match t with
  | c :: rest => if is_whitespace c then trim_left rest else t
  | [] => []
  end.
Definition trim_right (t : Text) : Text := reverse (trim_left (reverse t)).
(** [str::trim]. *)
Definition trim (t : Text) : Text := trim_right (trim_left t).

(** [splitn(2, ' ')]: what is before the first space, and what is after it if there is one. *)
Fixpoint splitn2 (t : Text) : Text * option Text :=
  match t with
  | [] => ([], None)
  | c :: rest =>
      if N.eqb c space then ([], Some rest)
      else let '(first, second) := splitn2 rest in (c :: first, second)
  end.

(** [lines.join("\n")]. *)
Fixpoint join_lines (lines : list Text) : Text :=
  match lines with
  | [] => []
  | [line] => line
  | line :: rest => line ++ 10%N :: join_lines rest
  end.

Definition starts_with_slash (t : Text) : bool := match t with c :: _ => N.eqb c slash | [] => false end.

(** * Events of the terminal ([crossterm], [tui::Event]) *)
Inductive KeyEventKind := Press | Repeat | Release.
Inductive KeyCode := Esc | Enter | Up | Down | Char (c : N) | OtherKey (k : N).
Record KeyEvent := mkKeyEvent { ke_code : KeyCode; ke_modifiers : N; ke_kind : KeyEventKind }.

Inductive TuiEvent :=
  | EvInit | EvQuit | EvError | EvClosed | EvTick | EvRender | EvFocusGained | EvFocusLost
  | EvPaste (s : Text) | EvKey (key : KeyEvent) | EvMouse (m : N) | EvResize (x y : N).

(** The widgets: the text area, the state of the scroll view, and the bits of
    [KeyModifiers::CONTROL]. *)
Class Widgets := {
  TextArea : Type;
  ta_default : TextArea;
  ta_lines : TextArea -> list Text;
  ta_input : KeyEvent -> TextArea -> TextArea;
  ScrollViewState : Type;
  sv_default : ScrollViewState;
  scroll_up : ScrollViewState -> ScrollViewState;
  scroll_down : ScrollViewState -> ScrollViewState;
  scroll_to_bottom : ScrollViewState -> ScrollViewState;
  control : N;
}.

(** * The application *)
Record User := mkUser { u_nickname : Text; u_id : N }.
Record DirectMessage := mkDirectMessage { dm_from : User; dm_message : Text }.
Inductive ChatMessage := Chat (user : User) (message : Text).

(** [ChatMessage::ANYBUS_UUID], from the attribute of the type. *)
Definition chat_uuid : EndpointId := mkEndpointId 0x123e4567e89b12d3a456426614174010%N.

Inductive Action :=
  | Quit
  | ProcessInput
  | ScrollUp
  | ScrollDown
  | AddMessage (s : Text)
  | ClearScreen.

Section chat.
Context `{Wi : Widgets} `{Cd : Codec} `{E : !Env}.

Record App := mkApp {
  a_should_quit : bool;
  a_input : TextArea;
  a_history : list Text;
  a_scroll : ScrollViewState;
  a_id : N;
  a_nickname : Text;
  a_chat_members : gmap Text User;
}.

(** [App::default], [App::new] but for the bus, with a fresh id. *)
Definition app_new (id : N) : App :=
  mkApp false ta_default [] sv_default id (lit "Anonymous") ∅.

Definition set_should_quit (a : App) : App :=
  mkApp true (a_input a) (a_history a) (a_scroll a) (a_id a) (a_nickname a) (a_chat_members a).
Definition set_input (i : TextArea) (a : App) : App :=
  mkApp (a_should_quit a) i (a_history a) (a_scroll a) (a_id a) (a_nickname a) (a_chat_members a).
Definition set_scroll (s : ScrollViewState) (a : App) : App :=
  mkApp (a_should_quit a) (a_input a) (a_history a) s (a_id a) (a_nickname a) (a_chat_members a).
Definition set_nickname (n : Text) (a : App) : App :=
  mkApp (a_should_quit a) (a_input a) (a_history a) (a_scroll a) (a_id a) n (a_chat_members a).
Definition push_history (s : Text) (a : App) : App :=
  mkApp (a_should_quit a) (a_input a) (a_history a ++ [s]) (a_scroll a) (a_id a) (a_nickname a) (a_chat_members a).
Definition set_members (m : gmap Text User) (a : App) : App :=
  mkApp (a_should_quit a) (a_input a) (a_history a) (a_scroll a) (a_id a) (a_nickname a) m.

(** The riders of its messages, the table in force, the endpoint and rider of
    [AnyBusStatusMsg::ShuttingDown]. *)
Context (chat_rider : ChatMessage -> Rider) (dm_rider : DirectMessage -> Rider).
Context (map : ForwardingTable) (status_id : EndpointId) (shutting_down : Rider).

Definition me (a : App) : User := mkUser (a_nickname a) (a_id a).

(** What an update returns: the next action, the application, what the router is told. *)
Definition Updated : Type := (option Action * App * list RouterMsg) * World.

Definition add (s : Text) (a : App) (w : World) : Outcome Updated := Returns ((Some (AddMessage s), a, []), w).

(** The branches of [ProcessInput] on [/nick], [/dm] and a message to everyone. *)
Definition do_nick (argument : Text) (a : App) (w : World) : Outcome Updated :=
  match argument with
  | _ :: _ =>
      let a := set_nickname argument a in
      add (lit "* You are now known as " ++ a_nickname a) a w
  | [] => add (lit "* Usage: /nick <new_nickname>") a w
  end.

Definition do_dm (argument : Text) (a : App) (w : World) : Outcome Updated :=
  let '(target_nick, rest) := splitn2 argument in
  let dm_message := default [] rest in
  match target_nick, dm_message with
  | [], _ | _, [] => add (lit "* Usage: /dm <nickname> <message>") a w
  | _, _ =>
      match a_chat_members a !! target_nick with
      | Some target_user =>
          outcome_bind (send_to_uuid map (mkEndpointId (u_id target_user))
                          (dm_rider (mkDirectMessage (me a) dm_message)) w) (fun '(res, w) =>
            match res with
            | inl _ => Returns ((Some Quit, a, []), w)
            | inr _ => add (lit "* (DM to " ++ u_nickname target_user ++ lit "): " ++ dm_message) a w
            end)
      | None => add (lit "* No such user: " ++ target_nick) a w
      end
  end.

Definition do_chat (message : Text) (a : App) (w : World) : Outcome Updated :=
  outcome_bind (send_to_uuid map chat_uuid (chat_rider (Chat (me a) message)) w) (fun '(res, w) =>
    match res with
    | inl _ => Returns ((Some Quit, a, []), w)
    | inr _ => Returns ((None, set_input ta_default a, []), w)
    end).

Definition process_input (a : App) (w : World) : Outcome Updated :=
  let message := trim (join_lines (ta_lines (a_input a))) in
  let a := set_input ta_default a in
  match message with
  | [] => Returns ((None, a, []), w)
  | _ :: _ =>
      if starts_with_slash message then
        let '(command, rest) := splitn2 message in
        let argument := default [] rest in
        if bool_decide (command = lit "/nick") then do_nick argument a w
        else if bool_decide (command = lit "/dm") then do_dm argument a w
        else add (lit "* Unknown command: " ++ command) a w
      else do_chat message a w
  end.

(** [update]; clearing the screen changes nothing the application reads. *)
Definition update (action : Action) (a : App) (w : World) : Outcome Updated :=
  match action with
  | Quit =>
      outcome_bind (handle_shutdown map status_id shutting_down w) (fun '(told, w) =>
        Returns ((None, set_should_quit a, told), w))
  | ProcessInput => process_input a w
  | ScrollUp => Returns ((None, set_scroll (scroll_up (a_scroll a)) a, []), w)
  | ScrollDown => Returns ((None, set_scroll (scroll_down (a_scroll a)) a, []), w)
  | AddMessage chat_msg =>
      let a := push_history chat_msg a in
      Returns ((None, set_scroll (scroll_to_bottom (a_scroll a)) a, []), w)
  | ClearScreen => Returns ((None, a, []), w)
  end.

(** [process_anybusmsg]. *)
Definition process_anybusmsg (msg : ChatMessage) (a : App) : option Action * App :=
  match msg with
  | Chat user message =>
      (Some (AddMessage (u_nickname user ++ lit ": " ++ message)),
       set_members (<[u_nickname user := user]> (a_chat_members a)) a)
  end.

(** [handle_event]. *)
Definition handle_event (evt : TuiEvent) (a : App) : option Action * App :=
  match evt with
  | EvKey key =>
      match ke_kind key with
      | Press =>
          match ke_code key with
          | Esc => (Some Quit, a)
          | Enter => (Some ProcessInput, a)
          | Up => (Some ScrollUp, a)
          | Down => (Some ScrollDown, a)
          | Char c =>
              if N.eqb c 108 && N.eqb (ke_modifiers key) control then (Some ClearScreen, a)
              else (None, set_input (ta_input key (a_input a)) a)
          | OtherKey _ => (None, set_input (ta_input key (a_input a)) a)
          end
      | Repeat | Release => (None, a)
      end
  | EvFocusGained => (Some ClearScreen, a)
  | _ => (None, a)
  end.

(** [while let Some(action) = maybe_action { maybe_action = self.update(action, &mut tui); }];
    [None] when the fuel runs out. *)
Fixpoint act (fuel : nat) (maybe : option Action) (a : App) (told : list RouterMsg) (w : World)
    : option (Outcome (App * list RouterMsg * World)) :=
  match maybe with
  | None => Some (Returns (a, told, w))
  | Some action =>
      match fuel with
      | O => None
      | S fuel =>
          match update action a w with
          | Panics => Some Panics
          | Returns ((maybe, a, more), w) => act fuel maybe a (told ++ more) w
          end
      end
  end.

(** What the [select!] of [run] yields; [Over] is its [else]: every stream has ended. *)
Inductive Wake := WakeChat (msg : ChatMessage) | WakeDm (msg : DirectMessage) | WakeEvent (evt : TuiEvent) | Over.

Definition first_action (wake : Wake) (a : App) : option (option Action * App) :=
  match wake with
  | WakeChat msg => Some (process_anybusmsg msg a)
  | WakeDm msg => Some (Some (AddMessage (lit "(DM) " ++ u_nickname (dm_from msg) ++ lit ": " ++ dm_message msg)), a)
  | WakeEvent evt => Some (handle_event evt a)
  | Over => None
  end.

(** How a turn of the loop ends: again, [break], or [?] on a frame that could not be drawn. *)
Inductive TurnEnd := Again | Break | DrawFailed.

Definition chat_turn (drawn : bool) (wake : Wake) (a : App) (w : World)
    : option (Outcome (TurnEnd * App * list RouterMsg * World)) :=
  if drawn then
    match first_action wake a with
    | None => Some (Returns (Break, a, [], w))
    | Some (maybe, a) =>
        match act 2 maybe a [] w with
        | None => None
        | Some Panics => Some Panics
        | Some (Returns (a, told, w)) => Some (Returns (if a_should_quit a then Break else Again, a, told, w))
        end
    end
  else Some (Returns (DrawFailed, a, [], w)).

(** The loop of [run], over what its turns meet, and what the router is told. *)
Fixpoint chat_run (turns : list (bool * Wake)) (a : App) (told : list RouterMsg) (w : World)
    : option (Outcome (TurnEnd * App * list RouterMsg * World)) :=
  match turns with
  | [] => Some (Returns (Again, a, told, w))
  | (drawn, wake) :: turns =>
      match chat_turn drawn wake a w with
      | Some (Returns (Again, a, more, w)) => chat_run turns a (told ++ more) w
      | Some (Returns (e, a, more, w)) => Some (Returns (e, a, told ++ more, w))
      | r => r
      end
  end.
End chat.

(** * The widget of the history ([ChatViewWidget::render]): the size of the view and the row of
    each line, in [u16]s *)
Definition u16 (n : N) : N := (n mod 65536)%N.
Definition u16_sub (overflow_checks : bool) (a b : N) : Outcome N :=
  if (b <=? a)%N then Returns (a - b)%N
  else if overflow_checks then Panics else Returns (u16 (a + 65536 - b)).

Definition render_history (overflow_checks : bool) (width height : N) (content : list Text)
    : Outcome (N * N * list (N * Text)) :=
  let len := N.of_nat (length content) in
  outcome_bind (u16_sub overflow_checks width (if (height <? u16 len)%N then 3 else 2)) (fun view_width =>
    Returns (view_width, u16 len, imap (fun pos line => (u16 (N.of_nat pos), line)) content)).

(** * Starting ([Cli], [Commands], [main], the registrations of [run]) *)
Section start.
Context `{U : UrlLib}.

Inductive Commands :=
  | CmdWs (url : string)
  | CmdServer (addr : IpAddr) (port : N) (cert_path key_path : string) (no_tls : bool)
  | CmdIpc.
Record Cli := mkCli { cli_enable_ipc : bool; cli_command : option Commands }.

(** The builder of the bus; a URL that does not parse ends the program. *)
Definition chat_builder (cli : Cli) : string + AnyBusBuilder :=
  match cli_command cli with
  | Some (CmdWs url) =>
      match url_parse url with
      | inl e => inl (String.append "Invalid URL: " e)
      | inr parsed_url => inr (Config.enable_ipc (cli_enable_ipc cli) (ws_remote (mkRemoteOptions parsed_url) builder_new))
      end
  | Some (CmdServer addr port cert_path key_path no_tls) =>
      let use_tls := negb no_tls in
      inr (Config.enable_ipc (cli_enable_ipc cli) (ws_listener
        (mkListenerOptions addr port use_tls (if use_tls then Some cert_path else None)
           (if use_tls then Some key_path else None)) builder_new))
  | Some CmdIpc | None => inr (Config.enable_ipc true builder_new)
  end.

(** The listener for everyone's messages and the one for direct messages. *)
Definition chat_listener_request (tx : ChanId) : Outcome RegistrationRequest :=
  register_cast_set (broadcast (with_realm Global listener)) chat_uuid tx.
Definition dm_listener_request (id : N) (uuid : EndpointId) (tx : ChanId) : RegistrationRequest :=
  register_anycast_set (anycast (with_realm Global (with_endpoint (mkEndpointId id) listener))) uuid tx.
End start.
