(* ===== verification/ChatProofs.v ===== *)
(** What the chat application promises: actions end, commands stay private, a direct message goes
    to the one who spoke, and quitting shuts the bus down once. *)
From Stdlib Require Import Strings.String Strings.Ascii.
From S2P Require Import Prelude Types Messages World Fib Handle Chat.

(** * Text *)
Lemma trim_left_shorter t : length (trim_left t) <= length t.
Proof. induction t as [|c t IH]; simpl; [done|]. destruct (is_whitespace c); simpl; lia. Qed.

Lemma trim_left_fixed c t : trim_left (c :: t) = c :: t <-> is_whitespace c = false.
Proof.
  simpl. destruct (is_whitespace c); [|done]. split; [|done]. intros Heq.
  pose proof (trim_left_shorter t) as Hlen. rewrite Heq in Hlen. simpl in Hlen. lia.
Qed.

Lemma trim_right_app p t : t <> [] -> trim_right t = t -> trim_right (p ++ t) = p ++ t.
Proof.
  intros Hne Ht. assert (Hr : trim_left (reverse t) = reverse t).
  { unfold trim_right in Ht. rewrite <- (reverse_involutive (trim_left (reverse t))). by rewrite Ht. }
  unfold trim_right. rewrite reverse_app. destruct (reverse t) as [|c r] eqn:Hrt.
  { destruct Hne. rewrite <- (reverse_involutive t), Hrt. done. }
  apply trim_left_fixed in Hr. change ((c :: r) ++ reverse p) with (c :: (r ++ reverse p)).
  rewrite (proj2 (trim_left_fixed c _) Hr). change (c :: (r ++ reverse p)) with ((c :: r) ++ reverse p).
  rewrite <- Hrt, <- reverse_app. apply reverse_involutive.
Qed.

Lemma trim_command c p t : is_whitespace c = false -> t <> [] -> trim_right t = t -> trim (c :: p ++ t) = c :: p ++ t.
Proof.
  intros Hc Hne Ht. unfold trim. rewrite (proj2 (trim_left_fixed c _) Hc).
  change (c :: p ++ t) with ((c :: p) ++ t). by apply trim_right_app.
Qed.

Lemma splitn2_spec t first : forall rest, splitn2 t = (first, rest) ->
  (space ∉ first) /\ t = first ++ match rest with Some r => space :: r | None => [] end.
Proof.
  revert first. induction t as [|c t IH]; intros first rest; simpl.
  - intros [= <- <-]. split; [apply not_elem_of_nil | done].
  - destruct (N.eqb_spec c space) as [->|Hc].
    + intros [= <- <-]. split; [apply not_elem_of_nil | done].
    + destruct (splitn2 t) as [f r]. intros [= <- <-]. destruct (IH f r eq_refl) as [Hf ->].
      split; [by apply not_elem_of_cons | done].
Qed.

Lemma splitn2_at first rest : space ∉ first -> splitn2 (first ++ space :: rest) = (first, Some rest).
Proof.
  induction first as [|c first IH]; [done|]. intros [Hc Hf]%not_elem_of_cons. simpl.
  destruct (N.eqb_spec c space) as [->|_]; [done|]. by rewrite (IH Hf).
Qed.

Section chat.
Context `{Wi : Widgets} `{Cd : Codec} `{E : !Env}.
Context (chat_rider : ChatMessage -> Rider) (dm_rider : DirectMessage -> Rider).
Context (map : ForwardingTable) (status_id : EndpointId) (shutting_down : Rider).
Abbreviation update := (update chat_rider dm_rider map status_id shutting_down).
Abbreviation process_input := (process_input chat_rider dm_rider map).
Abbreviation act := (act chat_rider dm_rider map status_id shutting_down).
Abbreviation chat_turn := (chat_turn chat_rider dm_rider map status_id shutting_down).
Abbreviation chat_run := (chat_run chat_rider dm_rider map status_id shutting_down).

(** * Actions *)

(** What a branch of [ProcessInput] may come back with. *)
Definition follow_up (a : App) (u : Updated) : Prop :=
  u.1.2 = [] /\ a_should_quit u.1.1.2 = a_should_quit a /\
  (u.1.1.1 = None \/ u.1.1.1 = Some Quit \/ exists s, u.1.1.1 = Some (AddMessage s)).

Lemma process_input_follow_up a w u : process_input a w = Returns u -> follow_up a u.
Proof.
  assert (Hadd : forall s b w u, a_should_quit b = a_should_quit a -> add s b w = Returns u -> follow_up a u).
  { intros s b w1 u1 Hb [= <-]. split; [done|]. split; [done|]. right. right. by exists s. }
  assert (Hsent : forall (r : Outcome ((AnyBusHandleError + unit) * World)) b k u,
    a_should_quit b = a_should_quit a ->
    (forall w u, k w = Returns u -> follow_up a u) ->
    outcome_bind r (fun '(res, w) => match res with inl _ => Returns ((Some Quit, b, []), w) | inr _ => k w end) =
      Returns u -> follow_up a u).
  { intros [[[e|?] w1]|] b k u1 Hb Hk; simpl; [|by apply Hk|done]. intros [= <-]. split; [done|]. split; [done|].
    right. by left. }
  unfold process_input, Chat.process_input. destruct (trim _) as [|c m]; [intros [= <-]; split; [done|]; split; [done | by left]|].
  destruct (starts_with_slash _).
  - destruct (splitn2 (c :: m)) as [command rest]. repeat case_bool_decide.
    + unfold do_nick. destruct (default [] rest); by apply Hadd.
    + unfold do_dm. destruct (splitn2 _) as [[|x nick] r]; [by apply Hadd|]. destruct (default [] r); [by apply Hadd|].
      destruct (_ !! _); [|by apply Hadd]. eapply Hsent; [done|]. intros w1 u1. by apply Hadd.
    + by apply Hadd.
  - unfold do_chat. eapply (Hsent _ _ (fun w => Returns ((None, _, []), w))); [done|]. intros w1 u1 [= <-].
    split; [done|]. split; [done | by left].
Qed.

(** Whatever is pressed or arrives, the loop that carries out actions ends after at most two of
    them: typing leads to one message for the history or to quitting, and neither leads on. *)
Lemma actions_end maybe a told w : is_Some (act 2 maybe a told w).
Proof.
  assert (Hlast : forall action fuel a told w, (action = Quit \/ exists s, action = AddMessage s) ->
    is_Some (act (S fuel) (Some action) a told w)).
  { intros action fuel b t w0 [-> | [s ->]]; simpl; [|by destruct fuel; eexists].
    unfold handle_shutdown. destruct (send_to_uuid _ _ _ _) as [[? ?]|]; [|by eexists]. by destruct fuel; eexists. }
  destruct maybe as [action|]; [|by eexists]. destruct action; try (by apply Hlast; eauto); try by eexists.
  cbn [Chat.act Chat.update]. destruct (process_input a w) as [[[[maybe b] more] w']|] eqn:Hp; [|by eexists].
  destruct (process_input_follow_up _ _ _ Hp) as (_ & _ & [H|[H|[s H]]]); simpl in H; subst maybe; [by eexists| |].
  - apply (Hlast Quit 0). by left.
  - apply (Hlast (AddMessage s) 0). eauto.
Qed.

(** * Quitting *)

(** Only [Quit] sets the flag, and it tells the router to shut down. *)
Lemma update_told action a w maybe a' more w' :
  update action a w = Returns ((maybe, a', more), w') ->
  (maybe = None /\ a_should_quit a' = true /\ more = [RmShutdown]) \/
  (a_should_quit a' = a_should_quit a /\ more = []).
Proof.
  destruct action; cbn [Chat.update].
  - unfold handle_shutdown. destruct (send_to_uuid _ _ _ _) as [[? ?]|]; simpl; [|done]. intros [= <- <- <- <-]. by left.
  - intros (Hm & Hq & _)%process_input_follow_up. by right.
  - intros [= <- <- <- <-]. by right.
  - intros [= <- <- <- <-]. by right.
  - intros [= <- <- <- <-]. by right.
  - intros [= <- <- <- <-]. by right.
Qed.

(** The flag is set when, and only when, the router was told. *)
Definition told_iff_quit (a : App) (before told : list RouterMsg) : Prop :=
  told = before ++ if a_should_quit a then [RmShutdown] else [].

Lemma act_told fuel : forall maybe a told w a' told' w',
  a_should_quit a = false -> act fuel maybe a told w = Some (Returns (a', told', w')) -> told_iff_quit a' told told'.
Proof.
  unfold told_iff_quit. induction fuel as [|fuel IH]; intros [action|] a told w a' told' w' Hq; simpl; try done.
  - intros [= <- <- <-]. by rewrite Hq, app_nil_r.
  - destruct (update action a w) as [[[[maybe b] more] w1]|] eqn:Hu; [|done].
    destruct (update_told _ _ _ _ _ _ _ Hu) as [(-> & Hb & ->)|[Hb ->]].
    + destruct fuel; simpl; intros [= <- <- <-]; by rewrite Hb.
    + rewrite app_nil_r. apply IH. congruence.
  - intros [= <- <- <-]. by rewrite Hq, app_nil_r.
Qed.

Lemma first_action_quit wake a maybe b : first_action wake a = Some (maybe, b) -> a_should_quit b = a_should_quit a.
Proof.
  destruct wake as [[user m]|dm|evt|]; simpl; try by intros [= <- <-].
  destruct evt; simpl; try by intros [= <- <-]. destruct (ke_kind key); try by intros [= <- <-].
  destruct (ke_code key); try by intros [= <- <-]. destruct (_ && _); by intros [= <- <-].
Qed.

Lemma chat_turn_told drawn wake a w e a' more w' :
  a_should_quit a = false -> chat_turn drawn wake a w = Some (Returns (e, a', more, w')) ->
  told_iff_quit a' [] more /\
  (e = Again /\ a_should_quit a' = false \/ e = Break /\ (a_should_quit a' = true \/ wake = Over) \/
   e = DrawFailed /\ drawn = false /\ a_should_quit a' = false).
Proof.
  unfold Chat.chat_turn, told_iff_quit. intros Hq. destruct drawn; [|intros [= <- <- <- <-]; rewrite Hq; auto 6].
  destruct (first_action wake a) as [[maybe b]|] eqn:Hf.
  - apply first_action_quit in Hf. destruct (act 2 maybe b [] w) as [[[[a1 told] w1]|]|] eqn:Ha; try done.
    apply act_told in Ha; [|congruence]. unfold told_iff_quit in Ha.
    destruct (a_should_quit a1) eqn:H1; intros [= <- <- <- <-]; rewrite H1; auto 6.
  - intros [= <- <- <- <-]. rewrite Hq. destruct wake; try done. auto 6.
Qed.

Lemma chat_run_ends turns : forall a told w, is_Some (chat_run turns a told w).
Proof.
  induction turns as [|[drawn wake] turns IH]; intros a told w; [by eexists|]. cbn [Chat.chat_run].
  assert (is_Some (chat_turn drawn wake a w)) as [[[[[[] a1] more] w1]|] ->].
  { unfold Chat.chat_turn. destruct drawn; [|by eexists]. destruct (first_action wake a) as [[maybe b]|]; [|by eexists].
    destruct (actions_end maybe b [] w) as [[[[a1 t1] w1]|] ->]; by eexists. }
  - apply IH.
  - by eexists.
  - by eexists.
  - by eexists.
Qed.

(** C40: quitting shuts the bus down, once: every turn ends; however a session goes, the router is told to shut down
    exactly when the application quits, no turn follows, and without that the session ends only
    when every stream has ended or a frame cannot be drawn. *)
Theorem chat_shuts_down_once turns a w e a' told w' :
  a_should_quit a = false -> is_Some (chat_run turns a [] w) /\
  (chat_run turns a [] w = Some (Returns (e, a', told, w')) ->
  told = (if a_should_quit a' then [RmShutdown] else []) /\
  match e with
  | Again => a_should_quit a' = false
  | Break => a_should_quit a' = true \/ Over ∈ turns.*2
  | DrawFailed => a_should_quit a' = false /\ false ∈ turns.*1
  end).
Proof.
  intros Hq. split; [apply chat_run_ends|]. revert a w Hq. induction turns as [|[drawn wake] turns IH]; intros a w Hq; simpl.
  - intros [= <- <- <- <-]. by rewrite Hq.
  - destruct (chat_turn drawn wake a w) as [[[[[e1 a1] more] w1]|]|] eqn:Ht; try done.
    apply (chat_turn_told _ _ _ _ _ _ _ _ Hq) in Ht as [Hm Hend]. unfold told_iff_quit in Hm.
    destruct Hend as [[-> H1]|[[-> H1]|(-> & -> & H1)]].
    + rewrite H1 in Hm. subst more. simpl. intros Hr. destruct (IH _ _ H1 Hr) as [Ht He]. split; [done|].
      destruct e; [done| |]; set_solver.
    + intros [= <- <- <- <-]. split; [done|]. destruct H1 as [? | ->]; set_solver.
    + intros [= <- <- <- <-]. split; [done|]. split; [done|set_solver].
Qed.

(** * What is sent *)

(** C39: commands stay private: what is typed with a leading slash sends nothing, except that [/dm]
    sends the text, under the sender's name, to the id of the user who last spoke under the
    name given, and a name with a space in it is never the name given. *)
Theorem commands_stay_private a w u :
  starts_with_slash (trim (join_lines (ta_lines (a_input a)))) = true -> process_input a w = Returns u ->
  u.2 = w \/
  exists nick text user res, trim (join_lines (ta_lines (a_input a))) = lit "/dm " ++ nick ++ space :: text /\
    nick <> [] /\ (space ∉ nick) /\ a_chat_members a !! nick = Some user /\
    send_to_uuid map (mkEndpointId (u_id user)) (dm_rider (mkDirectMessage (me a) text)) w = Returns (res, u.2).
Proof.
  unfold Chat.process_input. intros Hslash. destruct (trim _) as [|c m] eqn:Htrim; [done|]. rewrite Hslash.
  destruct (splitn2 (c :: m)) as [command rest] eqn:Hsplit.
  assert (Hadd : forall s b, add s b w = Returns u -> u.2 = w) by (intros s b [= <-]; done).
  repeat case_bool_decide.
  - unfold do_nick. destruct (default [] rest); intros Hu; left; by eapply Hadd.
  - unfold do_dm. destruct (splitn2 (default [] rest)) as [nick r] eqn:Hs2.
    destruct nick as [|x nick]; [intros Hu; left; by eapply Hadd|].
    destruct (default [] r) as [|y text] eqn:Hr; [intros Hu; left; by eapply Hadd|].
    cbn [a_chat_members set_input].
    destruct (_ !! _) as [user|] eqn:Hm; [|intros Hu; left; by eapply Hadd].
    destruct (send_to_uuid _ _ _ _) as [[res w1]|] eqn:Hsend; [|done]. intros Hu. right.
    exists (x :: nick), (y :: text), user, res.
    apply splitn2_spec in Hsplit as [_ Hm1]. apply splitn2_spec in Hs2 as [Hsp Hm2].
    destruct rest as [rest|]; [|done]. simpl in Hm2. destruct r as [r|]; [|done]. simpl in Hr. subst r rest command.
    split_and!; [exact Hm1|done|done|exact Hm|].
    assert (u.2 = w1) as -> by (destruct res; simpl in Hu; by injection Hu as <-). exact Hsend.
  - intros Hu. left. by eapply Hadd.
Qed.

(** A name may well have a space in it. *)
Lemma spaced_name_taken a w name :
  name <> [] -> trim_right name = name -> join_lines (ta_lines (a_input a)) = lit "/nick " ++ name ->
  exists u, process_input a w = Returns u /\ a_nickname u.1.1.2 = name /\ u.2 = w.
Proof.
  intros Hne Ht Hin. unfold Chat.process_input. rewrite Hin.
  change (lit "/nick " ++ name) with (slash :: lit "nick " ++ name). rewrite trim_command by done.
  change (slash :: lit "nick " ++ name) with (lit "/nick" ++ space :: name).
  rewrite splitn2_at by (vm_compute; set_solver). simpl. unfold do_nick.
  destruct name as [|c name]; [done|]. by eexists.
Qed.

(** A direct message reaches the one who spoke: after a message of a user came in, typing [/dm],
    their name and a text sends the text to that user's own endpoint, in the name of the one who
    types; the screen says so, and if it cannot be sent the application quits. *)
Theorem direct_message_reaches_sender a b user message text w :
  (process_anybusmsg (Chat user message) a).2 = b ->
  u_nickname user <> [] -> (space ∉ u_nickname user) -> text <> [] -> trim_right text = text ->
  forall typed, join_lines (ta_lines typed) = lit "/dm " ++ u_nickname user ++ space :: text ->
  process_input (set_input typed b) w =
  outcome_bind (send_to_uuid map (mkEndpointId (u_id user)) (dm_rider (mkDirectMessage (me a) text)) w) (fun '(res, w) =>
    Returns ((Some (match res with
                    | inl _ => Quit
                    | inr _ => AddMessage (lit "* (DM to " ++ u_nickname user ++ lit "): " ++ text)
                    end), set_input ta_default b, []), w)).
Proof.
  intros <- Hne Hsp Ht Htr typed Hin. unfold Chat.process_input. cbn [a_input set_input]. rewrite Hin.
  assert (Htrim : trim (lit "/dm " ++ u_nickname user ++ space :: text) = lit "/dm " ++ u_nickname user ++ space :: text).
  { change (trim (slash :: (lit "dm " ++ u_nickname user ++ [space] ++ text)) =
      slash :: (lit "dm " ++ u_nickname user ++ [space] ++ text)).
    rewrite !app_assoc. by apply trim_command. }
  rewrite Htrim. change (lit "/dm " ++ u_nickname user ++ space :: text)
    with (lit "/dm" ++ space :: (u_nickname user ++ space :: text)).
  rewrite splitn2_at by (vm_compute; set_solver). simpl. unfold do_dm. rewrite splitn2_at by done. simpl.
  destruct (u_nickname user) as [|x nick] eqn:Hnick; [done|]. destruct text as [|y text]; [done|].
  cbn [a_chat_members set_input set_members]. rewrite lookup_insert_eq, Hnick.
  unfold outcome_bind. by destruct (send_to_uuid _ _ _ _) as [[[e|?] w1]|].
Qed.
End chat.
