(* ===== verification/Tui.v ===== *)
(** The terminal of the chat example ([examples/chat_tui/tui.rs]): which events it passes on, how
    its task is stopped, and the modes it puts the terminal into and out of. *)
From S2P Require Import Prelude Types Chat.

(** * Events *)

(** [CrosstermEvent]. *)
Inductive CrosstermEvent :=
  | CtKey (key : KeyEvent)
  | CtMouse (m : N)
  | CtResize (x y : N)
  | CtFocusLost
  | CtFocusGained
  | CtPaste (s : Text).

(** What the [select!] of the task yields: the token, what the reader read ([Some (inl tt)] is an
    error, [None] its end), a tick, a frame. *)
Inductive TuiWake :=
  | WkCancelled
  | WkRead (maybe_event : option (unit + CrosstermEvent))
  | WkTick
  | WkRender.

(** What is sent; [None] breaks the loop. *)
Definition tui_turn (wake : TuiWake) : option (list TuiEvent) :=
  match wake with
  | WkCancelled => None
  | WkRead (Some (inr evt)) => Some
      match evt with
      | CtKey key => match ke_kind key with Press => [EvKey key] | _ => [] end
      | CtMouse mouse => [EvMouse mouse]
      | CtResize x y => [EvResize x y]
      | CtFocusLost => [EvFocusLost]
      | CtFocusGained => [EvFocusGained]
      | CtPaste s => [EvPaste s]
      end
  | WkRead (Some (inl _)) => Some [EvError]
  | WkRead None => Some []
  | WkTick => Some [EvTick]
  | WkRender => Some [EvRender]
  end.

Fixpoint tui_loop (wakes : list TuiWake) : list TuiEvent * bool :=
  match wakes with
  | [] => ([], true)
  | wake :: wakes =>
      match tui_turn wake with
      | None => ([], false)
      | Some sent => let '(more, running) := tui_loop wakes in (sent ++ more, running)
      end
  end.

(** The task: everything sent, and whether it still runs; [send] would panic only with the
    receiver gone, and the [Tui] that holds it also holds the task. *)
Definition tui_task (wakes : list TuiWake) : list TuiEvent * bool :=
  let '(sent, running) := tui_loop wakes in (EvInit :: sent, running).

(** * Stopping *)

(** [stop]: [finished] tells after how many milliseconds and how many calls of [abort] the task is
    finished; the result counts both, and says whether it gave up. *)
Record Stopped := mkStopped { st_slept : nat; st_aborts : nat; st_gave_up : bool }.

Fixpoint stop_loop (fuel : nat) (finished : nat -> nat -> bool) (counter aborts : nat) : option Stopped :=
  match fuel with
  | O => None
  | S fuel =>
      if finished counter aborts then Some (mkStopped counter aborts false)
      else
        let counter := S counter in
        let aborts := if (50 <? counter)%nat then S aborts else aborts in
        if (100 <? counter)%nat then Some (mkStopped counter aborts true)
        else stop_loop fuel finished counter aborts
  end.

Definition tui_stop (finished : nat -> nat -> bool) : option Stopped := stop_loop 102 finished 0 0.

(** * Modes *)
Inductive TermCmd :=
  | EnableRawMode | DisableRawMode
  | EnterAlternateScreen | LeaveAlternateScreen
  | CursorHide | CursorShow
  | EnableMouseCapture | DisableMouseCapture
  | EnableBracketedPaste | DisableBracketedPaste
  | Flush.

Record Term := mkTerm {
  tm_raw : bool;
  tm_alternate : bool;
  tm_hidden : bool;
  tm_mouse : bool;
  tm_paste : bool;
}.
Definition term_plain : Term := mkTerm false false false false false.

Definition term_apply (c : TermCmd) (t : Term) : Term :=
  let '(mkTerm raw alt hid mou pas) := t in
  match c with
  | EnableRawMode => mkTerm true alt hid mou pas
  | DisableRawMode => mkTerm false alt hid mou pas
  | EnterAlternateScreen => mkTerm raw true hid mou pas
  | LeaveAlternateScreen => mkTerm raw false hid mou pas
  | CursorHide => mkTerm raw alt true mou pas
  | CursorShow => mkTerm raw alt false mou pas
  | EnableMouseCapture => mkTerm raw alt hid true pas
  | DisableMouseCapture => mkTerm raw alt hid false pas
  | EnableBracketedPaste => mkTerm raw alt hid mou true
  | DisableBracketedPaste => mkTerm raw alt hid mou false
  | Flush => t
  end.

(** Commands one after the other until one fails ([?]); [ok] says which can be carried out. *)
Fixpoint term_run (ok : TermCmd -> bool) (cmds : list TermCmd) (t : Term) : bool * Term :=
  match cmds with
  | [] => (true, t)
  | c :: cmds => if ok c then term_run ok cmds (term_apply c t) else (false, t)
  end.

(** The fields of [Tui] the modes depend on, and whether its task was started. *)
Record Tui := mkTui { tu_mouse : bool; tu_paste : bool; tu_started : bool }.
Definition tui_new : Tui := mkTui false false false.

Definition tui_enter (ok : TermCmd -> bool) (u : Tui) (t : Term) : bool * Tui * Term :=
  let '(entered, t) := term_run ok
    ([EnableRawMode; EnterAlternateScreen; CursorHide] ++ (if tu_mouse u then [EnableMouseCapture] else []) ++
     (if tu_paste u then [EnableBracketedPaste] else [])) t in
  (entered, if entered then mkTui (tu_mouse u) (tu_paste u) true else u, t).

(** [exit], after [stop]; the terminal says whether it is in raw mode ([raw_known] when it can). *)
Definition tui_exit (ok : TermCmd -> bool) (raw_known : bool) (u : Tui) (t : Term) : bool * Term :=
  if raw_known then
    if tm_raw t then
      term_run ok ([Flush] ++ (if tu_paste u then [DisableBracketedPaste] else []) ++
        (if tu_mouse u then [DisableMouseCapture] else []) ++ [LeaveAlternateScreen; CursorShow; DisableRawMode]) t
    else (true, t)
  else (false, t).

(** [Drop]: [self.exit().unwrap()]. *)
Definition tui_drop (ok : TermCmd -> bool) (raw_known : bool) (u : Tui) (t : Term) : Outcome Term :=
  let '(exited, t) := tui_exit ok raw_known u t in if exited then Returns t else Panics.

(** * What it promises *)

(** Stopping takes at most 101 milliseconds and gives up only after 51 calls of [abort]; a task
    that is finished within 50 is not aborted. *)
Lemma stop_loop_ends finished fuel counter aborts :
  counter + fuel = 102 -> counter <= 101 -> aborts = counter - 50 -> (counter <= 100)%nat ->
  exists s, stop_loop fuel finished counter aborts = Some s /\ st_slept s <= 101 /\ st_aborts s = st_slept s - 50 /\
    (st_gave_up s = true -> st_slept s = 101) /\ (st_gave_up s = false -> finished (st_slept s) (st_aborts s) = true).
Proof.
  revert counter aborts. induction fuel as [|fuel IH]; intros counter aborts Hc Hle Ha Hle'; [lia|]. simpl.
  destruct (finished counter aborts) eqn:Hf.
  { eexists. split; [done|]. simpl. split_and!; [lia|done|done|done]. }
  assert (Hab : (if (50 <? S counter)%nat then S aborts else aborts) = S counter - 50).
  { destruct (Nat.ltb_spec 50 (S counter)); lia. }
  rewrite Hab. destruct (Nat.ltb_spec 100 (S counter)).
  - eexists. split; [done|]. simpl. split_and!; [lia|done|intros _; lia|done].
  - apply IH; lia.
Qed.

Lemma tui_stop_ends finished :
  exists s, tui_stop finished = Some s /\ st_slept s <= 101 /\ st_aborts s = st_slept s - 50 /\
    (st_gave_up s = true -> st_slept s = 101) /\ (st_gave_up s = false -> finished (st_slept s) (st_aborts s) = true).
Proof. unfold tui_stop. apply stop_loop_ends; lia. Qed.

(** What the application gets to see: only presses of keys, nothing after the token. *)
Lemma tui_keys wakes key : EvKey key ∈ (tui_task wakes).1 -> ke_kind key = Press.
Proof.
  unfold tui_task. destruct (tui_loop wakes) as [sent running] eqn:Hl. simpl.
  assert (Hsent : EvKey key ∈ sent -> ke_kind key = Press).
  { revert sent running Hl. induction wakes as [|wake wakes IH]; intros sent running; simpl.
    - intros [= <- <-] ?%elem_of_nil. done.
    - destruct (tui_turn wake) as [now|] eqn:Ht; [|intros [= <- <-] ?%elem_of_nil; done].
      destruct (tui_loop wakes) as [more r]. intros [= <- <-] [Hin|Hin]%elem_of_app; [|by eapply IH].
      destruct wake as [|[[|[k|?|? ?| | |?]]|]| |]; simpl in Ht; try done; injection Ht as <-;
        try destruct (ke_kind k) eqn:Hk; set_unfold in Hin; destruct Hin as [Hin|Hin] || done; try done.
      by injection Hin as ->. }
  intros [?|?]%elem_of_cons; [done|by apply Hsent].
Qed.

(** The terminal is left as it was found: from a plain terminal, when nothing fails, entering
    and leaving restores every mode, and leaving again, which dropping the [Tui] does, changes
    nothing and does not panic; when entering fails on the way, dropping the [Tui] restores the
    terminal all the same. *)
Theorem terminal_restored ok u entered u' t :
  tui_enter ok u term_plain = (entered, u', t) ->
  Forall (fun c => ok c = true)
    [DisableRawMode; LeaveAlternateScreen; CursorShow; DisableMouseCapture; DisableBracketedPaste; Flush] ->
  tui_exit ok true u' t = (true, term_plain) /\
  (forall ok' u0, tui_drop ok' true u0 term_plain = Returns term_plain) /\
  tui_drop ok true u' t = Returns term_plain.
Proof.
  intros He Hok. rewrite !Forall_cons in Hok. destruct Hok as (H1 & H2 & H3 & H4 & H5 & H6 & _).
  assert (Hexit : tui_exit ok true u' t = (true, term_plain)).
  { unfold tui_enter, term_plain in He. destruct u as [mouse paste started]. simpl in He.
    destruct (ok EnableRawMode); [|by injection He as <- <- <-]. simpl in He.
    assert (Hout : forall raw alt hid mou pas, raw = true -> (mou = true -> mouse = true) -> (pas = true -> paste = true) ->
      forall st, tui_exit ok true (mkTui mouse paste st) (mkTerm raw alt hid mou pas) = (true, term_plain)).
    { intros raw alt hid mou pas -> Hm Hp st. unfold tui_exit. simpl. rewrite H6.
      destruct paste, mouse; simpl; rewrite ?H5; simpl; rewrite ?H4; simpl; rewrite H2; simpl; rewrite H3; simpl; rewrite H1;
        simpl; destruct mou, pas; try done; naive_solver. }
    destruct (ok EnterAlternateScreen); [|injection He as <- <- <-; by apply Hout]. simpl in He.
    destruct (ok CursorHide); [|injection He as <- <- <-; by apply Hout]. simpl in He.
    destruct mouse; simpl in He; [destruct (ok EnableMouseCapture); [|injection He as <- <- <-; by apply Hout]; simpl in He|];
      (destruct paste; simpl in He; [destruct (ok EnableBracketedPaste); simpl in He|]);
      injection He as <- <- <-; by apply Hout. }
  split; [done|]. split; [done|]. unfold tui_drop. by rewrite Hexit.
Qed.
