(* ===== verification/Relay.v ===== *)
(** The relay example ([examples/relay/main.rs], [cli.rs]), a bus with nothing but connections, and
    the tasks of [src/helper.rs] that shut a bus down on a signal. *)
From S2P Require Import Prelude Types Messages World Fib Handle Receivers WsManager Config.

Section relay.
Context `{Cd : Codec} `{E : !Env}.

(** * Signals ([watch_ctrlc], [watch_signals]) *)

(** What a watcher does: the delay it shuts down with, if it does. *)
Definition watch_ctrlc (received : bool) : option Duration := if received then Some (from_secs 1) else None.

Inductive UnixSignal := SigUser1 | SigTerm.
Definition signal_turn (s : UnixSignal) : option Duration :=
  match s with SigUser1 => None | SigTerm => Some (from_millis 100) end.

(** [handle.shutdown(delay)] for every signal that asks for it. *)
Context (map : ForwardingTable) (status_id : EndpointId) (shutting_down : Rider).

Fixpoint watch_signals (signals : list UnixSignal) (w : World) : Outcome (list RouterMsg * World) :=
  match signals with
  | [] => Returns ([], w)
  | s :: signals =>
      match signal_turn s with
      | None => watch_signals signals w
      | Some _ =>
          outcome_bind (handle_shutdown map status_id shutting_down w) (fun '(told, w) =>
          outcome_bind (watch_signals signals w) (fun '(more, w) => Returns (told ++ more, w)))
      end
  end.

(** * The relay *)

(** The bus it runs: the configuration of the file given, or the default. *)
Definition relay_bus `{U : UrlLib} (id : NodeId) (config : option AnyBusConfig) (w : World) : Outcome (AnyBus * list Task) :=
  anybus_run (init_from_config id (default config_default config)) w.

Inductive RelayTurn := RelayPrinted (status : Rider) | RelayDone | RelayWaits | RelayPanics.

(** A turn of the loop over its status receiver; every error but [Shutdown] is a [todo!()]. *)
Definition relay_turn (T : RustTy) (mb : Mailbox) : RelayTurn * Mailbox :=
  let '(r, mb) := receiver_recv T mb in
  (match r with
   | Panics => RelayPanics
   | Returns Pending => RelayWaits
   | Returns (Ready (inr status)) => RelayPrinted status
   | Returns (Ready (inl ReShutdown)) => RelayDone
   | Returns (Ready (inl _)) => RelayPanics
   end, mb).

(** The loop, with what it printed; [None] when the fuel runs out. *)
Fixpoint relay_loop (fuel : nat) (T : RustTy) (mb : Mailbox) : option (list Rider * RelayTurn * Mailbox) :=
  match fuel with
  | O => None
  | S fuel =>
      match relay_turn T mb with
      | (RelayPrinted status, mb) =>
          match relay_loop fuel T mb with
          | Some (printed, e, mb) => Some (status :: printed, e, mb)
          | None => None
          end
      | (e, mb) => Some ([], e, mb)
      end
  end.

(** * Its argument ([file_exists]) *)
Inductive FileError := FileDoesNotExist | NotAFile.
Definition file_exists {Path : Type} (exists_ is_file : Path -> bool) (path : Path) : FileError + Path :=
  if negb (exists_ path) then inl FileDoesNotExist
  else if negb (is_file path) then inl NotAFile
  else inr path.

(** * What it promises *)

(** The packets before the listener is told to stop. *)
Fixpoint packets_until (q : list ClientMessage) : list Packet :=
  match q with
  | CmMessage p :: q => p :: packets_until q
  | CmShutdown :: _ | [] => []
  | (CmFailedRegistration _ _ | CmSuccessfulRegistration _) :: q => packets_until q
  end.
Definition shuts (q : list ClientMessage) : bool := existsb (fun m => match m with CmShutdown => true | _ => false end) q.
Definition told_to_stop (mb : Mailbox) : bool := shuts (mb_queue mb) || mb_closed mb.

Definition statuses (T : RustTy) (ps : list Packet) (vs : list Rider) : Prop :=
  Forall2 (fun p v => reveal T (p_payload p) = Returns (inl v)) ps vs.

Lemma relay_turn_eq T closed q :
  relay_turn T (mkMailbox q closed) =
  let '(r, q) := recv_loop closed q in
  (match r with
   | Pending => RelayWaits
   | Ready (inl ReShutdown) => RelayDone
   | Ready (inl _) => RelayPanics
   | Ready (inr p) => match reveal T (p_payload p) with
                      | Returns (inl v) => RelayPrinted v
                      | _ => RelayPanics
                      end
   end, mkMailbox q closed).
Proof.
  unfold relay_turn, receiver_recv, packet_recv. cbn [mb_closed mb_queue].
  destruct (recv_loop closed q) as [[[e|p]|] q']; simpl; [by destruct e| |done].
  unfold reveal_or_error. by destruct (reveal T (p_payload p)) as [[v|p']|].
Qed.

(** The next thing a receiver takes out. *)
Lemma recv_loop_next closed q :
  match packets_until q with
  | p :: ps => exists q', recv_loop closed q = (Ready (inr p), q') /\ packets_until q' = ps /\ shuts q' = shuts q
  | [] => exists q', recv_loop closed q = (if shuts q || closed then Ready (inl ReShutdown) else Pending, q')
  end.
Proof.
  induction q as [|m q IH]; [by exists []|]. destruct m as [p|e reason|e|]; [by exists q|exact IH|exact IH|by exists q].
Qed.

(** The relay prints and goes in peace: it always gets through its mailbox; when everything it
    was sent is a status it prints them all in order, and then it is done exactly when it was
    told to stop, or its bus is gone, and waits otherwise; only a message that is no status
    makes it panic. *)
Theorem relay_ends_when_told T q closed :
  exists printed e mb, relay_loop (S (length q)) T (mkMailbox q closed) = Some (printed, e, mb) /\
  ((exists vs, statuses T (packets_until q) vs) ->
     statuses T (packets_until q) printed /\
     e = if told_to_stop (mkMailbox q closed) then RelayDone else RelayWaits) /\
  (e = RelayPanics -> exists p, p ∈ packets_until q /\ forall v, reveal T (p_payload p) <> Returns (inl v)).
Proof.
  assert (Hlen : length (packets_until q) < S (length q)).
  { clear. induction q as [|[]]; simpl; lia. }
  revert Hlen. generalize (S (length q)) as fuel. intros fuel. revert q.
  induction fuel as [|fuel IH]; intros q Hlen; [lia|]. cbn [relay_loop]. rewrite relay_turn_eq.
  pose proof (recv_loop_next closed q) as Hnext. destruct (packets_until q) as [|p ps] eqn:Hp.
  - destruct Hnext as [q' ->]. exists []. unfold told_to_stop. cbn [mb_closed mb_queue].
    destruct (shuts q || closed); do 2 eexists; (split; [done|]); (split; [|done]); by intros _; split; [constructor|].
  - destruct Hnext as (q' & -> & Hq & Hsd).
    destruct (reveal T (p_payload p)) as [[v|v]|] eqn:Hr.
    + destruct (IH q') as (printed & e & mb & Hl & Hok & Hbad); [rewrite Hq; simpl in Hlen; lia|]. rewrite Hl.
      exists (v :: printed), e, mb. split; [done|]. rewrite Hq in Hok, Hbad. unfold told_to_stop in *.
      cbn [mb_closed mb_queue] in *. rewrite Hsd in Hok. split.
      * intros (vs & Hvs). apply Forall2_cons_inv_l in Hvs as (v' & vs' & _ & Hvs & ->).
        destruct Hok as (H1 & H2); [by exists vs'|]. split; [by constructor | done].
      * intros He. destruct (Hbad He) as (p' & Hin & ?). exists p'. split; [by right | done].
    + exists [], RelayPanics. eexists. split; [done|]. split.
      * intros (vs & Hvs). apply Forall2_cons_inv_l in Hvs as (v' & vs' & Hv & _). by rewrite Hr in Hv.
      * intros _. exists p. split; [by left|]. intros v' Hv. by rewrite Hr in Hv.
    + exists [], RelayPanics. eexists. split; [done|]. split.
      * intros (vs & Hvs). apply Forall2_cons_inv_l in Hvs as (v' & vs' & Hv & _). by rewrite Hr in Hv.
      * intros _. exists p. split; [by left|]. intros v' Hv. by rewrite Hr in Hv.
Qed.
End relay.
