(* ===== verification/Scenarios.v ===== *)
(** A run of one node on concrete messages, and the theorems of the routing core applied to
    it: the hypotheses they share are met by configurations the program reaches. *)
From Stdlib Require Import Strings.String Init.Byte.
From S2P Require Import Prelude Types Messages World RouteTable Linkstate Spf SpfProofs LsDb.
From S2P Require Import LsDbProofs LsDbTheorems Advertise Fib FibProofs Router RouterProofs Concrete.
From S2P Require Import Handle Receivers Registration AnycastReceiver.

(** * Driving the router *)

(** [wake_ok], decided. *)
Definition wake_okb (d : LsDb) (wake : Wakeup) : bool :=
  match wake with
  | WakeMsg (Some m) =>
      match m with
      | RmRegisterEndpoint rq => negb (bool_decide (ei_kind (rr_endpoint_info rq) = Multicast))
      | RmRegisterPeer _ c _ _ _ => bool_decide (d_links d !! c = None)
      | RmLsaInbound _ lsa =>
          match lsa_body lsa with
          | Messages.Router _ => true
          | Messages.Endpoint info => negb (bool_decide (ei_kind info = Multicast))
          end
      | _ => true
      end
  | _ => true
  end.

Lemma wake_okb_spec d wake : wake_okb d wake = true -> wake_ok d wake.
Proof.
  destruct wake as [[[]|]|]; simpl; try done.
  - by intros ?%negb_true_iff%bool_decide_eq_false.
  - by intros ?%bool_decide_eq_true.
  - unfold not_multicast. destruct (lsa_body lsa); [done|].
    by intros ?%negb_true_iff%bool_decide_eq_false.
Qed.

(** Steps until the messages are used up and the router waits again. *)
Fixpoint drive (fuel : nat) (wakes : list Wakeup) (c : option State * Router * World)
    : option (option State * Router * World) :=
  match fuel with
  | O => None
  | S fuel =>
      match c, wakes with
      | (Some Listen, _, _), [] => Some c
      | (Some Listen, r, w), wake :: wakes =>
          if wake_okb (r_lsdb r) wake then
            match next Listen wake r w with Returns c => drive fuel wakes c | Panics => None end
          else None
      | (Some s, r, w), _ =>
          match next s WakeTimer r w with Returns c => drive fuel wakes c | Panics => None end
      | (None, _, _), _ => Some c
      end
  end.

Lemma drive_reachable n fuel : forall wakes c c',
  reachable n c -> drive fuel wakes c = Some c' -> reachable n c'.
Proof.
  induction fuel as [|fuel IH]; intros wakes [[[s|] r] w] c' Hr; cbn [drive]; [done|done| |by intros [= <-]].
  assert (Hstep : forall wake c1 ws, wake_ok (r_lsdb r) wake -> next s wake r w = Returns c1 ->
    drive fuel ws c1 = Some c' -> reachable n c').
  { intros wake c1 ws Hw Hn Hd. eapply IH; [|exact Hd]. by econstructor. }
  destruct s; [| destruct wakes as [|wake wakes]; [by intros [= <-]|];
    destruct (wake_okb _ _) eqn:Hok; [|done]; apply wake_okb_spec in Hok | | | | |];
    lazymatch goal with |- context [next ?s ?wk r w] => destruct (next s wk r w) as [c1|] eqn:Hn end;
    try done; intros Hd; (eapply Hstep; [|exact Hn|exact Hd]); done.
Qed.

(** * The messages *)
Definition endpoint_y : EndpointId := mkEndpointId 51%N.
Definition endpoint_z : EndpointId := mkEndpointId 52%N.

Definition adj_to (c : ConnectionId) (n : NodeId) (cost : Cost) : Adjacency := mkAdjacency c n cost all_realms.
Definition router_lsa (n : NodeId) (seq : N) (dead : bool) (adjs : list Adjacency) : Lsa :=
  mkLsa (router_key n) seq dead (Messages.Router adjs).
Definition endpoint_lsa (n : NodeId) (e : EndpointId) (kind : RouteKind) (cost : Cost) : Lsa :=
  mkLsa (mkLsaKey n (endpoint_uuid e)) 0 false (Messages.Endpoint (mkEndpointInfo kind Global cost)).
Definition register (e : EndpointId) (kind : RouteKind) (cost : Cost) (sender : ChanId)
    : RegistrationRequest :=
  mkRegistrationRequest e (mkEndpointInfo kind Global cost) sender.

(** Node [a] has the neighbour [b] at cost 5; [c] is behind [b] at cost 7 and serves the
    anycast address [x]; [a] serves [x] too, at a higher cost, and listens on [z]. *)
Definition script : list Wakeup := map (fun m => WakeMsg (Some m))
  [ RmRegisterPeer node_b 1%N 11%N 5%N all_realms;
    RmLsaInbound 1%N (router_lsa node_b 3%N false [adj_to 4%N node_a 5%N; adj_to 5%N node_c 7%N]);
    RmLsaInbound 1%N (router_lsa node_c 2%N false [adj_to 4%N node_b 7%N]);
    RmLsaInbound 1%N (endpoint_lsa node_c endpoint_x Anycast 3%N);
    RmRegisterEndpoint (register endpoint_x Anycast 30%N 20%N);
    RmLsaInbound 1%N (endpoint_lsa node_c endpoint_z Broadcast 0%N);
    RmRegisterEndpoint (register endpoint_z Broadcast 0%N 21%N) ].

Definition start_config (n : NodeId) : option State * Router * World :=
  let s := router_new n world_init in (Some Start, s.1, s.2).

Definition driven : option (option State * Router * World) := drive 60 script (start_config node_a).

Definition scene : option State * Router * World := default (start_config node_a) driven.
Definition the_router : Router := scene.1.2.
Definition the_db : LsDb := r_lsdb the_router.
Definition the_world : World := scene.2.

Lemma driven_some : drive 60 script (start_config node_a) = Some (Some Listen, the_router, the_world).
Proof. vm_compute. reflexivity. Qed.

Lemma start_reachable n : reachable n (start_config n).
Proof. apply reachable_start. Qed.

Lemma scene_reachable : reachable node_a (Some Listen, the_router, the_world).
Proof. exact (drive_reachable _ _ _ _ _ (start_reachable node_a) driven_some). Qed.

Lemma scene_ok : config_ok (Some Listen, the_router, the_world).
Proof. exact (reachable_ok _ _ scene_reachable). Qed.

Lemma the_db_inv : lsdb_inv the_db.
Proof. exact (proj1 scene_ok). Qed.

Lemma the_db_self : d_self_id the_db = node_a.
Proof. vm_compute. reflexivity. Qed.

(** The result of a call that returns. *)
Definition returned {A} (m : Outcome A) (a : A) : A := match m with Returns a => a | Panics => a end.

(** * The theorems of the database on the scene *)
Definition spf_db : LsDb := returned (compute_spf (d_self_id the_db) the_db the_world) the_db.
Lemma spf_db_eq : compute_spf (d_self_id the_db) the_db the_world = Returns spf_db.
Proof. vm_compute. reflexivity. Qed.

Lemma compute_spf_shortest_witness :
  exists d', compute_spf (d_self_id the_db) the_db the_world = Returns d' /\
    forall n, (default cost_max (d_cost d' !! n) <= cost_max)%N.
Proof.
  destruct (compute_spf_shortest the_db the_world the_db_inv) as (d' & Hc & Hs).
  exists d'. split; [exact Hc|]. intros n. exact (proj1 (Hs n)).
Defined.

Lemma spf_cost_c : default cost_max (d_cost spf_db !! node_c) = 12%N.
Proof. vm_compute. reflexivity. Qed.

Lemma next_hops_start_shortest_paths_witness :
  exists link, d_next_hop spf_db !! node_c = Some link /\ l_peer_id link = node_b /\
    node_c <> d_self_id the_db.
Proof.
  destruct (d_next_hop spf_db !! node_c) as [link|] eqn:Hl; [|vm_compute in Hl; discriminate Hl].
  exists link. split; [reflexivity|]. split.
  - vm_compute in Hl. injection Hl as <-. reflexivity.
  - exact (proj1 (proj2 (next_hops_start_shortest_paths the_db the_world spf_db node_c the_db_inv spf_db_eq)
             link Hl)).
Defined.

Lemma replay_only_acked_witness :
  let lsa := router_lsa node_b 3%N false [] in
  handle_lsa lsa 1%N the_db the_world = Returns (the_db, send_ack 1%N (lsa_key lsa) 3%N the_db the_world).
Proof.
  intros lsa. apply (replay_only_acked lsa 1%N the_db the_world). right.
  destruct (d_db the_db !! router_key node_b) as [r|] eqn:Hr; [|vm_compute in Hr; discriminate Hr].
  exists r. split; [exact Hr|]. vm_compute in Hr. injection Hr as <-. vm_compute. discriminate.
Defined.

(** A newer advertisement of [b], and its obituary. *)
Definition newer : Lsa := router_lsa node_b 4%N false [adj_to 4%N node_a 5%N].
Definition obituary : Lsa := router_lsa node_b 9%N true [].
Definition after_newer : LsDb * World := returned (handle_lsa newer 1%N the_db the_world) (the_db, the_world).
Definition after_obituary : LsDb * World := returned (handle_lsa obituary 1%N the_db the_world) (the_db, the_world).

Lemma after_newer_eq : handle_lsa newer 1%N the_db the_world = Returns (after_newer.1, after_newer.2).
Proof. vm_compute. reflexivity. Qed.
Lemma after_obituary_eq :
  handle_lsa obituary 1%N the_db the_world = Returns (after_obituary.1, after_obituary.2).
Proof. vm_compute. reflexivity. Qed.

Lemma lsas_only_move_forward_witness :
  exists r, d_db after_newer.1 !! router_key node_b = Some r /\
    (d_db the_db !! router_key node_b = Some r \/ rec_lsa r = newer).
Proof.
  destruct (d_db after_newer.1 !! router_key node_b) as [r|] eqn:Hr; [|vm_compute in Hr; discriminate Hr].
  exists r. split; [reflexivity|].
  destruct (lsas_only_move_forward newer 1%N the_db the_world _ _ _ _ after_newer_eq Hr)
    as [Hold|(_ & Hnew & _)]; [left; exact Hold | right; exact Hnew].
Defined.

Lemma dead_router_withdrawn_witness : is_Some (d_rebuild_requested after_obituary.1).
Proof.
  destruct (d_db the_db !! router_key node_b) as [r|] eqn:Hr; [|vm_compute in Hr; discriminate Hr].
  refine (proj2 (proj2 (dead_router_withdrawn obituary 1%N the_db the_world after_obituary.1
    after_obituary.2 r eq_refl _ Hr _ _ after_obituary_eq))).
  - rewrite the_db_self. vm_compute. discriminate.
  - vm_compute in Hr. injection Hr as <-. reflexivity.
  - vm_compute in Hr. injection Hr as <-. vm_compute. reflexivity.
Defined.

Lemma flooding_is_exact_witness :
  exists evs, w_log (flood_all_neighbors newer None the_db the_world).2 = w_log the_world ++ evs /\
    map sent_lsa evs = map Some (omap (flood_target the_db newer None) (env_iter_map the_world (d_links the_db))).
Proof. exact (proj1 (flooding_is_exact newer None the_db the_world the_db_inv)). Defined.

(** * Two nodes with the same advertisements *)
Definition pair_db : gmap LsaKey LsaRecord :=
  {[ router_key node_a := mkLsaRecord (router_lsa node_a 1%N false [adj_to 1%N node_b 5%N]) 0%N;
     router_key node_b := mkLsaRecord (router_lsa node_b 1%N false [adj_to 1%N node_a 5%N]) 0%N ]}.
Definition pair_links (v : NodeId) : gmap ConnectionId Link :=
  {[ 1%N := mkLink 11%N (if decide (v = node_a) then node_b else node_a) 1%N all_realms 5%N false false ]}.
Definition pair_of (v : NodeId) : LsDb :=
  mkLsDb pair_db v (pair_links v) ∅ ∅ ∅ ∅ table_new None 0%N (from_secs 60) 0%N.
Definition pair_graph : gmap NodeId (list Adjacency) :=
  {[ node_a := [adj_to 1%N node_b 5%N]; node_b := [adj_to 1%N node_a 5%N] ]}.

Lemma pair_graph_eq v : router_nodes (pair_of v) world_init = pair_graph.
Proof. vm_compute. reflexivity. Qed.

Lemma pair_inv v : lsdb_inv (pair_of v).
Proof.
  split; simpl.
  - unfold pair_db. apply map_Forall_insert_2; [|apply map_Forall_singleton];
      (split; [done|]); simpl; intros <- adjs [= <-]; (split; [done|]);
      intros adj ->%list_elem_of_singleton; eexists; (split; [apply lookup_singleton_eq|]); done.
  - unfold pair_links. by apply map_Forall_singleton.
  - split; apply map_Forall_empty.
  - apply map_Forall_empty.
Qed.

Lemma pair_edge u v c : edge pair_graph u v c -> c = 5%N.
Proof.
  intros (adjs & adj & Hl & Hin & _ & <-). unfold pair_graph in Hl.
  apply lookup_insert_Some in Hl as [[_ <-]|[_ [_ <-]%lookup_singleton_Some]];
    by apply list_elem_of_singleton in Hin as ->.
Qed.

Lemma pair_shortest : shortest pair_graph node_a node_b 5%N.
Proof.
  split.
  - change 5%N with (0 + 5)%N. econstructor; [constructor|].
    exists [adj_to 1%N node_b 5%N], (adj_to 1%N node_b 5%N). repeat split. by left.
  - intros c Hp. inversion Hp as [|? x ? c0 c1 _ He]; subst.
    apply pair_edge in He as ->. lia.
Qed.

Definition pair_tables (v : NodeId) : LsDb :=
  returned (compute_spf v (pair_of v) world_init) (pair_of v).

Lemma forwarding_arrives_witness :
  exists k, reaches (fun v n => l_peer_id <$> d_next_hop (pair_tables v) !! n) node_a node_b k /\
    (N.of_nat k <= 5)%N.
Proof.
  apply (forwarding_arrives pair_of pair_tables (fun _ => world_init) pair_graph node_a node_b 5%N).
  - intros v. split; [apply pair_inv|]. split; [reflexivity | apply pair_graph_eq].
  - intros v. unfold pair_tables. destruct (compute_spf_inv (pair_of v) world_init (pair_inv v))
      as (nh & c & p & Hc & _). change (d_self_id (pair_of v)) with v in Hc. rewrite Hc. reflexivity.
  - intros v x c ->%pair_edge. reflexivity.
  - apply pair_shortest.
  - reflexivity.
Defined.

(** * The forwarding table of the scene *)
Definition built : LsDb * ForwardingTable :=
  returned (build_fib the_db the_world) (the_db, fib_new node_a).
Lemma built_eq : build_fib the_db the_world = Returns (built.1, built.2).
Proof. vm_compute. reflexivity. Qed.

Lemma anycast_goes_to_nearest_witness :
  exists fe route t, f_table built.2 !! endpoint_x = Some fe /\ r_via route = Remote node_c /\
    distance (router_nodes the_db the_world) (d_self_id the_db) route t.
Proof.
  destruct (d_routes the_db !! endpoint_x) as [en|] eqn:Hen; [|vm_compute in Hen; discriminate Hen].
  assert (Hk : re_kind en = Anycast) by (vm_compute in Hen; injection Hen as <-; reflexivity).
  pose proof (anycast_goes_to_nearest the_db the_world _ _ endpoint_x en the_db_inv built_eq Hen Hk) as Ht.
  destruct (f_table built.2 !! endpoint_x) as [fe|] eqn:Hfe; [|vm_compute in Hfe; discriminate Hfe].
  destruct Ht as (route & t & h & -> & Hin & Hf & Hd & _). exists (Single h), route, t.
  split; [reflexivity|]. split; [|exact Hd].
  vm_compute in Hen. injection Hen as <-.
  apply list_elem_of_In in Hin. destruct Hin as [<-|[<-|[]]]; [reflexivity|].
  vm_compute in Hfe, Hf. congruence.
Defined.

Lemma broadcast_reaches_each_once_witness :
  FwdLocal 21%N ∈ default [] (hops <$> f_table built.2 !! endpoint_z).
Proof.
  destruct (d_routes the_db !! endpoint_z) as [en|] eqn:Hen; [|vm_compute in Hen; discriminate Hen].
  assert (Hk : re_kind en = Broadcast) by (vm_compute in Hen; injection Hen as <-; reflexivity).
  apply (proj1 (broadcast_reaches_each_once the_db the_world _ _ endpoint_z en built_eq Hen Hk)).
  vm_compute in Hen. injection Hen as <-. eexists. split; [apply list_elem_of_In; right; left; reflexivity|]. reflexivity.
Defined.

(** A packet for an address nobody serves. *)
Definition lost_packet : Packet := mkPacket (AddrEndpoint endpoint_y) None node_a (PBusRider (0%N, 7%N)).

Lemma failed_send_returns_payload_witness :
  f_table (r_fib the_router) !! endpoint_y = None.
Proof.
  destruct (failed_send_returns_payload (r_fib the_router) lost_packet the_world
              (ErrNoRoute (Some (p_payload lost_packet))) the_world) as [Hl|[Hl|Hl]].
  - vm_compute. reflexivity.
  - exact (proj1 Hl).
  - destruct Hl as (tx & res & Hl & _). vm_compute in Hl. discriminate Hl.
  - destruct Hl as (tx & wire & res & Hl & _). vm_compute in Hl. discriminate Hl.
Defined.

(** * The router *)
Lemma router_never_panics_witness :
  exists c, next Listen (WakeMsg (Some (RmUnRegisterPeer 1%N))) the_router the_world = Returns c.
Proof.
  apply (router_never_panics node_a Listen the_router the_world (WakeMsg (Some (RmUnRegisterPeer 1%N)))
           scene_reachable I).
Defined.

Lemma router_comes_back_witness :
  exists o r' w', settle 3 Tick the_router the_world = Returns (o, r', w') /\ (o = None \/ o = Some Listen).
Proof.
  destruct (proj1 (router_comes_back node_a the_router the_world WakeTimer scene_reachable) I)
    as (o & r' & w' & Hs & _ & Ho & _).
  exists o, r', w'. split; assumption.
Defined.

Lemma published_table_live_witness :
  exists link, f_next_hop (r_fib the_router) !! node_c = Some link /\
    f_links (r_fib the_router) !! l_connection_id link = Some link.
Proof.
  destruct (published_table_live node_a the_router the_world scene_reachable) as (_ & _ & Hlive).
  destruct (f_next_hop (r_fib the_router) !! node_c) as [link|] eqn:Hl; [|vm_compute in Hl; discriminate Hl].
  exists link. split; [reflexivity|]. exact (Hlive node_c link Hl).
Defined.

Definition inbound : RouterMsg := RmLsaInbound 1%N newer.
Lemma inbound_reachable : reachable node_a (Some (HandleBrokerMsg inbound), the_router, the_world).
Proof.
  refine (reachable_step node_a Listen (WakeMsg (Some inbound)) _ _ _ scene_reachable _ eq_refl).
  exact I.
Qed.

Definition after_inbound : option State * Router * World :=
  returned (next (HandleBrokerMsg inbound) WakeTimer the_router the_world) (None, the_router, the_world).
Lemma after_inbound_eq :
  next (HandleBrokerMsg inbound) WakeTimer the_router the_world =
  Returns (after_inbound.1.1, after_inbound.1.2, after_inbound.2).
Proof. vm_compute. reflexivity. Qed.

Definition the_ack : Event := EvNode 11%N (NmLsaAck (router_key node_b) 4%N) SendOk.
Lemma the_ack_sent : drop (length (w_log the_world)) (w_log after_inbound.2) = [the_ack].
Proof. vm_compute. reflexivity. Qed.

Lemma lsas_stay_in_realms_witness :
  ev_fits (d_links (r_lsdb the_router)) the_ack \/ ev_fits (d_links (r_lsdb after_inbound.1.2)) the_ack.
Proof.
  apply (lsas_stay_in_realms node_a (HandleBrokerMsg inbound) the_router the_world WakeTimer
           after_inbound.1.1 after_inbound.1.2 after_inbound.2 the_ack inbound_reachable I after_inbound_eq).
  rewrite the_ack_sent. left.
Defined.

(** * Registration *)
Definition rq_y : RegistrationRequest := register endpoint_y Unicast 0%N 30%N.
Definition step_of (s : State) (c : Router * World) : option State * Router * World :=
  returned (next s WakeTimer c.1 c.2) (None, c.1, c.2).
Definition registered : option State * Router * World := step_of (RegisterEndpoint rq_y) (the_router, the_world).
Definition routed : option State * Router * World :=
  step_of (RouteChange (Some rq_y)) (registered.1.2, registered.2).

Lemma registered_eq : next (RegisterEndpoint rq_y) WakeTimer the_router the_world =
  Returns (Some (RouteChange (Some rq_y)), registered.1.2, registered.2).
Proof. vm_compute. reflexivity. Qed.
Lemma routed_eq : next (RouteChange (Some rq_y)) WakeTimer registered.1.2 registered.2 =
  Returns (routed.1.1, routed.1.2, routed.2).
Proof. vm_compute. reflexivity. Qed.

Lemma registration_is_published_witness :
  f_table (r_fib routed.1.2) !! endpoint_y = Some (Single (FwdLocal 30%N)).
Proof.
  destruct (registration_is_published rq_y WakeTimer WakeTimer the_router the_world registered.1.2
    registered.2 routed.1.1 routed.1.2 routed.2 (or_introl eq_refl) registered_eq routed_eq)
    as (_ & (fe & Hfe & Hu & _) & _).
  rewrite (Hu eq_refl) in Hfe. exact Hfe.
Defined.

Lemma rq_y_can_register : can_register (d_routes (r_lsdb the_router)) rq_y.
Proof. vm_compute. exact I. Qed.

Lemma registration_end_to_end_witness :
  exists r' w' answer fe,
    settle 3 (HandleBrokerMsg (RmRegisterEndpoint rq_y)) the_router the_world = Returns (Some Listen, r', w') /\
    said_since the_world w' = [(30%N, answer)] /\ f_table (r_fib r') !! endpoint_y = Some fe.
Proof.
  destruct (registration_end_to_end node_a the_router the_world rq_y (or_introl eq_refl) scene_reachable)
    as (r' & w' & answer & Hs & _ & Hsaid & Hres).
  destruct (register_with rq_y (mkMeeting true (Some answer))).1 as [err|u].
  - destruct (proj1 Hres rq_y_can_register).
  - destruct Hres as (_ & fe & Hfe & _). exists r', w', answer, fe. repeat split; assumption.
Defined.

Definition fresh : Router * World := router_new node_a world_init.
Definition first_registered : option State * Router * World := step_of (RegisterEndpoint rq_y) fresh.
Lemma first_registered_eq : next (RegisterEndpoint rq_y) WakeTimer fresh.1 fresh.2 =
  Returns (Some (RouteChange (Some rq_y)), first_registered.1.2, first_registered.2).
Proof. vm_compute. reflexivity. Qed.

Lemma listeners_stay_advertised_witness : advertised (r_lsdb first_registered.1.2).
Proof.
  apply (listeners_stay_advertised (RegisterEndpoint rq_y) WakeTimer fresh.1 fresh.2
           (RouteChange (Some rq_y)) first_registered.1.2 first_registered.2).
  - destruct (reachable_ok node_a _ (reachable_start node_a world_init)) as [Hi Hf].
    split; [exact Hi|]. split; [exact Hf | discriminate].
  - discriminate.
  - intros e k c Hl. discriminate Hl.
  - exact first_registered_eq.
Defined.

(** * The route table *)

(** A listener of [x] on a closed channel beside a route through [c]. *)
Definition worn_table : RouteTable :=
  {[ endpoint_x := mkLsRouteEntry
       [mkLsRoute (Remote node_c) 3%N Global Anycast; mkLsRoute (Local closed_chan) 30%N Global Anycast]
       Anycast ]}.

Lemma remove_endpoint_effect_iff_witness :
  let '(eff, t') := remove_endpoint worn_table endpoint_x world_init in
  follow eff (serving worn_table endpoint_x) <> serving t' endpoint_x.
Proof.
  destruct (remove_endpoint worn_table endpoint_x world_init) as [eff t'] eqn:He.
  intros Hsame. refine (proj1 (proj1 (remove_endpoint_effect_iff worn_table endpoint_x world_init eff t' He)) Hsame _).
  vm_compute in He. injection He as <- <-. split; [vm_compute; eexists; reflexivity|].
  split; [reflexivity | vm_compute; eexists; reflexivity].
Defined.

Definition small_table : RouteTable :=
  (add_endpoint table_new endpoint_x (mkEndpointInfo Anycast Global 3%N) 20%N).2.

Lemma table_always_wf_witness : table_wf small_table.
Proof. apply (table_always_wf small_table), rtc_once, step_add_endpoint. Defined.

(** A purge of the concrete database withdraws no route. *)
Lemma purge_drops_one_and_no_route_witness :
  d_routes (purge_stale_lsas the_db the_world).2.1 = d_routes the_db.
Proof.
  pose proof (purge_drops_one_and_no_route the_db the_world) as H.
  destruct (purge_stale_lsas the_db the_world) as [dirty [d' w']]. exact (proj1 H).
Defined.

(** * Shutdown *)
Lemma shutdown_tells_everyone_witness :
  exists res, EvClient 20%N CmShutdown res ∈ w_log (lsdb_shutdown the_db the_world).2.
Proof.
  destruct (shutdown_tells_everyone the_db the_world) as (_ & _ & _ & Hlocal & _).
  destruct (d_routes the_db !! endpoint_x) as [en|] eqn:Hen; [|vm_compute in Hen; discriminate Hen].
  refine (Hlocal endpoint_x en (mkLsRoute (Local 20%N) 30%N Global Anycast) 20%N Hen _ eq_refl).
  vm_compute in Hen. injection Hen as <-. apply list_elem_of_In. right. left. reflexivity.
Defined.

(** * Messages out of order

    [send_broker] spawns a task for each message, so the end of a connection can reach the router
    before its beginning: the router then keeps the link of a connection that is gone. *)
Definition overtaken : list Wakeup := map (fun m => WakeMsg (Some m))
  [ RmUnRegisterPeer 9%N; RmRegisterPeer node_b 9%N 19%N 5%N all_realms ].

Lemma overtaken_unregister_leaks_link :
  exists r w, drive 20 overtaken (start_config node_a) = Some (Some Listen, r, w) /\ is_Some (d_links (r_lsdb r) !! 9%N).
Proof. do 2 eexists. split; [vm_compute; reflexivity|]. by eexists. Qed.

(** * The cost of a listener *)
Definition x_remote : LsRoute := mkLsRoute (Remote node_c) 3%N Global Anycast.
Definition x_local : LsRoute := mkLsRoute (Local 20%N) 30%N Global Anycast.
Definition x_receiver : AnycastReceiver := anycast_receiver_new (mkMailbox [] false) endpoint_x 20%N.
Definition x_packet : Packet := mkPacket (AddrEndpoint endpoint_x) None node_a (PBusRider (0%N, 7%N)).

Lemma x_entry : d_routes (r_lsdb the_router) !! endpoint_x = Some (mkLsRouteEntry [x_remote; x_local] Anycast).
Proof. vm_compute. reflexivity. Qed.

Lemma x_goes_away : exists link, f_table (r_fib the_router) !! endpoint_x = Some (Single (FwdRemote link)).
Proof. eexists. vm_compute. reflexivity. Qed.

Lemma x_routes_dearer before route behind :
  listens (d_routes (r_lsdb the_router)) endpoint_x 20%N before route behind ->
  r_cost route <> 2%N /\ forall other, other ∈ before ++ behind -> (2 < r_cost other)%N.
Proof.
  intros [Hl _]. rewrite x_entry in Hl. injection Hl as Hl.
  assert (Hall : forall r, r ∈ before ++ route :: behind -> (2 < r_cost r)%N).
  { intros r. rewrite <- Hl. intros [->|[->|[]%elem_of_nil]%elem_of_cons]%elem_of_cons; done. }
  split.
  - intros Hr. specialize (Hall route). rewrite Hr in Hall. specialize (Hall ltac:(set_solver)). lia.
  - intros other Ho. apply Hall. set_solver.
Qed.

Lemma cost_change_end_to_end_witness :
  (exists link, f_table (r_fib the_router) !! endpoint_x = Some (Single (FwdRemote link))) /\
  exists r' w', settle 3 (listen (WakeMsg (Some (anycast_set_cost x_receiver 2%N 77%N)))) the_router the_world =
      Returns (Some Listen, r', w') /\ answers_since the_world w' = [(77%N, inr tt)] /\
    fib_send (r_fib r') x_packet the_world = Returns (inr tt, log_event (EvClient 20%N (CmMessage x_packet) SendOk) the_world).
Proof.
  split; [exact x_goes_away|].
  destruct (cost_change_end_to_end node_a the_router the_world x_receiver 2%N 77%N scene_reachable)
    as (r' & w' & [err|[]] & Hset & _ & Hans & Hres); exists r', w'.
  - exfalso. destruct err; simpl in Hres.
    + destruct Hres as [(en & Hen & Hk) _]. apply Hk. pose proof (eq_trans (eq_sym Hen) x_entry) as [= ->]. reflexivity.
    + destruct Hres as [Hno _]. destruct (Hno _ x_entry) as [_ Hno']. apply (Hno' x_local); [right; left | reflexivity].
  - split; [exact Hset|]. split; [exact Hans|]. destruct Hres as (before & route & behind & Hl & _ & Hsend).
    destruct (x_routes_dearer _ _ _ Hl) as [Hc Hleast].
    apply (Hsend Hc eq_refl Hleast); reflexivity.
Defined.
