(* ===== verification/PeerScenarios.v ===== *)
(** The theorems about connections applied to concrete ones. *)
From Stdlib Require Import Strings.Ascii Strings.String Init.Byte.
From S2P Require Import Prelude Types Messages World Peer WsPeer WsManager WsManagerProofs.
From S2P Require Import Ipc IpcPeer IpcPeerProofs IpcManager IpcManagerProofs Concrete.

(** * Websocket connections *)
Definition ws_start : WsPeer := ws_new node_b 0%N.
Definition all_ok : nat -> bool := fun _ => true.
Definition all_fail : nat -> bool := fun _ => false.

(** The peer says goodbye: the event, then the turn that applies the effects. *)
Definition ws_run0 : Run := mkRun ws_start [].
Definition ws_run1 : Run := mkRun (on_wire 0%N CloseConnection ws_start) [].
Definition ws_final : Run :=
  mkRun (set_phase Closed (set_effects [] (run_fsm ws_run1)))
    [(CloseSocket, true); (NotifyPeerClosed, true); (Unregister, true)].

Lemma ws_run1_reached : runs all_ok node_b 0%N ws_run1.
Proof.
  eapply runs_step; [apply runs_start|].
  eapply (run_turn all_ok 0%N (FromWire CloseConnection) ws_run0 ws_run1 ws_run0). reflexivity.
Qed.

Lemma ws_unregisters_once_witness :
  exists pre, (run_applied ws_final).*1 = pre ++ [Unregister] /\ no_unregister pre.
Proof.
  destruct (ws_unregisters_once all_ok node_b 0%N ws_run1 0%N UnknownWire ws_final ws_run1_reached) as
    [H|[_ (r0 & pre & e & _ & _ & _ & H & _)]]; [vm_compute; reflexivity|exact H|].
  apply (f_equal last) in H. rewrite last_snoc in H. discriminate.
Defined.

Lemma close_effects_witness :
  ws_effects (close ReasonLocal ws_start) = [Send CloseConnection; CloseSocket; Unregister].
Proof. exact (proj2 (close_effects ReasonLocal ws_start eq_refl)). Defined.

Lemma failed_goodbye_leaks_link_witness :
  exists r' here, turn all_fail 0%N UnknownWire (mkRun (close ReasonLocal ws_start) []) = (Some r', here) /\
    run_applied r' = [(Send CloseConnection, false)] /\
    turn all_fail 0%N UnknownWire r' = (None, r') /\ no_unregister (run_applied r').*1.
Proof.
  exact (failed_goodbye_leaks_link all_fail node_b 0%N [] 0%N 0%N UnknownWire UnknownWire ws_start
           (runs_start all_fail node_b 0%N) eq_refl eq_refl eq_refl).
Defined.

(** The default heartbeat: pings at 15 s and 30 s, hung up at 45 s. *)
Lemma silence_ends_connection_witness :
  next_wake (Nat.iter 2 tick_at_deadline ws_start) = Some (from_secs 45) /\
  ws_effects (tick_at_deadline (Nat.iter 2 tick_at_deadline ws_start)) =
    [Send (Ping 1%N); Send (Ping 2%N); Send CloseConnection; CloseSocket; Unregister].
Proof.
  destruct (silence_ends_connection node_b 0%N default_heartbeat_interval default_heartbeat_timeout 2)
    as (_ & Hw & _ & He); [reflexivity | reflexivity | vm_compute; discriminate | reflexivity |].
  split; [exact Hw | exact He].
Defined.

Lemma tick_closes_iff_silent_witness :
  ws_phase (step 0%N (WsTick (from_secs 45)) ws_start) = Closing.
Proof.
  apply (tick_closes_iff_silent 0%N (from_secs 45) ws_start eq_refl eq_refl).
  vm_compute. discriminate.
Defined.

(** The shared counter: the second and the fourth identifier differ, the one 65536 calls after
    the second is the second again. *)
Lemma connection_ids_distinct_witness :
  nth_connection_id counter_new 2 <> nth_connection_id counter_new 4 /\
  nth_connection_id counter_new (2 + 65536) = nth_connection_id counter_new 2.
Proof.
  destruct (connection_ids_distinct counter_new 2 4 eq_refl eq_refl) as (Hd & Hc & _).
  split; [apply Hd; reflexivity | exact Hc].
Defined.

(** * The websocket manager *)
(** URLs are strings; the scheme is what comes before the first colon. *)
Fixpoint scheme_of (s : string) : string :=
  match s with
  | EmptyString => EmptyString
  | String c s => if Ascii.eqb c ":"%char then EmptyString else String c (scheme_of s)
  end.
#[export] Instance test_urls : UrlLib :=
  {| Url := string; Url_eq_dec := string_dec; url_to_string := fun s => s; url_parse := inr;
     url_scheme := scheme_of |}.

Definition relay : WebSocketPeerConfig := mkPeerConfig (mkWsUrl "wss://relay"%string) "relay"%string.
Definition office : WebSocketPeerConfig := mkPeerConfig (mkWsUrl "wss://office"%string) "office"%string.
Definition clock0 : nat -> Instant := fun _ => 0%N.
Definition the_manager : WebsocketManager := manager_new node_a false [relay; office] 0%N clock0.
Definition quiet_input (now : Instant) : MgrInput := mkMgrInput now WkClosed true 0%N 1%N 2%N.

Lemma backoff_doubles_witness :
  when_ready (foldl (fun p i => record_attempt (clock0 i) p) (pending_of_config 0%N relay) (seq 0 3)) =
    from_secs 8.
Proof. exact (proj1 (backoff_doubles clock0 0%N relay 2 eq_refl)). Defined.

Definition unreachable_input : MgrInput :=
  mkMgrInput 0%N (WkCommand (CmdQueueReconnect (pending_of_config 0%N relay))) true 0%N 1%N 2%N.

(** A manager without peers that is told to try a peer again. *)
Definition idle : WebsocketManager := manager_new node_a false [] 0%N clock0.
Definition queued : WebsocketManager := schedule (record_attempt 0%N (pending_of_config 0%N relay)) idle.

Lemma queued_reached : mgr_reachable node_a false [] 0%N clock0 (Some MsListen) queued.
Proof.
  apply (mgr_step _ _ _ _ _ (MsQueueReconnect (pending_of_config 0%N relay)) unreachable_input idle _ _ []);
    [|reflexivity].
  apply (mgr_step _ _ _ _ _ (MsHandleCommand (CmdQueueReconnect (pending_of_config 0%N relay)))
    unreachable_input idle _ _ []); [|reflexivity].
  apply (mgr_step _ _ _ _ _ MsListen unreachable_input idle _ _ []); [|reflexivity].
  apply (mgr_step _ _ _ _ _ MsInit unreachable_input idle _ _ []); [|reflexivity]. apply mgr_start.
Qed.

Lemma ready_peer_is_earliest_witness :
  (exists q, q ∈ wm_disconnected_peers queued /\ (0 + from_secs 2)%N = when_ready q) /\
  (get_next_ready_peer (from_secs 2) queued).1 <> None.
Proof.
  pose proof (ready_peer_is_earliest _ _ _ _ _ _ _ 0%N queued_reached) as H1.
  pose proof (ready_peer_is_earliest _ _ _ _ _ _ _ (from_secs 2) queued_reached) as H2.
  split; [exact (proj1 (proj2 (proj2 H1))) | vm_compute; discriminate].
Defined.

Lemma due_peers_are_dialled_witness :
  exists p m, mgr_run [quiet_input (from_secs 2); quiet_input (from_secs 3)] MsListen queued =
    (Some MsListen, m, [OutConnect p]) /\ pc_name (wp_config p) = pc_name relay.
Proof.
  pose proof (proj1 (due_peers_are_dialled _ _ _ _ _ _ queued_reached) 0
    (record_attempt 0%N (pending_of_config 0%N relay))
    [quiet_input (from_secs 2); quiet_input (from_secs 3)] eq_refl eq_refl
    ltac:(repeat constructor; vm_compute; discriminate)) as H.
  do 2 eexists. split; [exact H | reflexivity].
Defined.

(** A peer whose dial failed comes back in a command, and is what the manager turns to next. *)
Definition failed_office : WsCommand := CmdQueueReconnect (pending_of_config 0%N office).

Lemma peers_accounted_witness :
  [office] ≡ₚ state_configs (Some (MsHandleCommand failed_office)) ++ [].
Proof.
  pose proof (proj1 (peers_accounted MsListen (mkMgrInput 0%N (WkCommand failed_office) true 0%N 0%N 0%N)
    (set_pending [] the_manager) (Some (MsHandleCommand failed_office)) (set_pending [] the_manager) [] eq_refl)) as H.
  exact H.
Defined.

Definition connected_relay : WebsocketManager :=
  mkManager [mkActive (Outbound relay) node_b 7%N] node_a false [pending_of_config 0%N office] [] 1%N.

Lemma removal_answers_witness :
  exists ok, OutReply 9%N ok ∈ [OutControl 7%N WsShutdown; OutReply 9%N true] /\
    (ok = true <-> knows_url (pc_url relay) connected_relay).
Proof.
  exact (proj1 (proj2 (removal_answers (pc_url relay) 9%N connected_relay MsListen
    (set_current [] connected_relay) [OutControl 7%N WsShutdown; OutReply 9%N true] eq_refl))).
Defined.

Lemma dialled_peer_added_again_witness :
  exists m1, mgr_next MsListen (quiet_input 0%N) the_manager =
      (Some (MsConnectRemote (pending_of_config 0%N office)), m1, []) /\
    add_ws_peer 5%N office 9%N m1 =
      (MsListen, set_pending [pending_of_config 0%N relay; pending_of_config 5%N office] m1, [OutReply 9%N true]).
Proof.
  destruct (dialled_peer_added_again (quiet_input 0%N) the_manager (pending_of_config 0%N office)
    [pending_of_config 0%N relay] 5%N 9%N eq_refl eq_refl) as (m1 & Hn & _ & _ & Ha).
  exists m1. split; [exact Hn | exact Ha].
Defined.

(** * IPC connections *)

(** A peer that says hello, is accepted, and then closes its stream. *)
Definition ipc_input : PeerInput :=
  mkPeerInput 0%N true true (Some (ImHello node_b)) (Some IcAccepted) 4%N 8%N [node_c] PwStreamEnd.

Definition ipc_start : IpcPeer := ipc_peer_new (Some node_b) node_a 6%N 0%N (from_secs 15) (from_secs 45).

(** The states of a run under one input, with the things it did. *)
Fixpoint ipc_drive (i : PeerInput) (fuel : nat) (st : option PeerState) (s : IpcPeer) (acts : list PeerAct)
    : Outcome (option PeerState * IpcPeer * list PeerAct) :=
  match fuel, st with
  | S fuel, Some st0 =>
      outcome_bind (peer_next st0 i s) (fun '(st, s, acts') => ipc_drive i fuel st s (acts ++ acts'))
  | _, _ => Returns (st, s, acts)
  end.

Lemma ipc_drive_run i s0 fuel : forall st s acts st' s' acts',
  peer_run s0 st s acts -> ipc_drive i fuel st s acts = Returns (st', s', acts') -> peer_run s0 st' s' acts'.
Proof.
  induction fuel as [|fuel IH]; intros st s acts st' s' acts' Hr; simpl.
  - by intros [= <- <- <-].
  - destruct st as [st0|]; [|by intros [= <- <- <-]].
    destruct (peer_next st0 i s) as [[[st1 s1] acts1]|] eqn:E; simpl; [|done].
    apply IH. by eapply peer_run_step.
Qed.

Definition ipc_end : option PeerState * IpcPeer * list PeerAct :=
  match ipc_drive ipc_input 4 (Some PsHello) ipc_start [] with
  | Returns r => r
  | Panics => (None, ipc_start, [])
  end.

Lemma ipc_end_reached : peer_run ipc_start None ipc_end.1.2 ipc_end.2.
Proof. apply (ipc_drive_run ipc_input ipc_start 4 (Some PsHello) ipc_start []); [apply peer_run_start | reflexivity]. Qed.

Lemma ipc_session_balances_witness : ended ipc_start ipc_end.1.2 ipc_end.2.
Proof.
  exact (ipc_session_balances (Some node_b) node_a 6%N 0%N (from_secs 15) (from_secs 45) _ _ ipc_end_reached).
Defined.

Lemma ipc_peer_never_panics_witness : exists c, peer_next PsHello ipc_input ipc_start = Returns c.
Proof.
  exact (ipc_peer_never_panics (Some node_b) node_a 6%N 0%N (from_secs 15) (from_secs 45) PsHello ipc_start []
           ipc_input (peer_run_start ipc_start)).
Defined.

(** * The IPC manager *)

(** Everything can be bound, every node can be reached, no directory answers; the next wake-up
    is given. *)
Definition im_input (wake : ImWakeup) : ImInput :=
  mkImInput test_codec 0%N (fun _ => BindOk) None None (fun id => Some (node_uuid id)) true wake.

Definition wake_peers : ImInput := im_input (IwCommand (IcLearnedPeers [node_b; node_c])).

(** The states of the manager along a list of inputs. *)
Fixpoint im_drive (inputs : list ImInput) (s : ImState) (m : IpcManager) : option (ImState * IpcManager) :=
  match inputs with
  | [] => Some (s, m)
  | i :: rest =>
      let enabled :=
        match s with
        | StListen shutdown =>
            match listen_prepare shutdown i m with Some m => listen_enabled shutdown m (ii_wake i) | None => true end
        | _ => true
        end in
      if enabled then
        match im_next s i m with
        | Returns (Some s, m, _) => im_drive rest s m
        | _ => None
        end
      else None
  end.

Lemma im_drive_reached our inputs : forall s m s' m',
  im_reachable our (Some s) m -> im_drive inputs s m = Some (s', m') -> im_reachable our (Some s') m'.
Proof.
  induction inputs as [|i inputs IH]; intros s m s' m' Hr; simpl; [by intros [= <- <-]|].
  destruct (match s with StListen _ => _ | _ => true end) eqn:Een; [|done].
  destruct (im_next s i m) as [[[[s1|] m1] outs]|] eqn:E; [|done..]. apply IH.
  eapply im_step; [exact Hr| |exact E]. unfold step_enabled. by destruct s; try done; destruct (listen_prepare _ _ _).
Qed.

(** It starts, becomes the primary, and is told of two nodes. *)
Definition im_startup : list ImInput := repeat wake_peers 6.
Definition im_started : IpcManager :=
  match im_drive im_startup StCreation (ipc_manager_new node_a) with Some (_, m) => m | None => ipc_manager_new node_a end.

Lemma im_started_state : im_drive im_startup StCreation (ipc_manager_new node_a) =
  Some (StDialPeers [node_b; node_c] false, im_started).
Proof. vm_compute. reflexivity. Qed.

Lemma im_started_reached : im_reachable node_a (Some (StDialPeers [node_b; node_c] false)) im_started.
Proof. exact (im_drive_reached node_a im_startup _ _ _ _ (im_start node_a) im_started_state). Qed.

Lemma ipc_manager_safe_witness :
  (exists c, im_next (StDialPeers [node_b; node_c] false) wake_peers im_started = Returns c) /\
  im_backup_listener im_started = false.
Proof.
  destruct (ipc_manager_safe node_a _ im_started wake_peers im_started_reached I) as (Hn & Hb & _).
  split; [exact Hn | apply Hb; reflexivity].
Defined.

(** The node announces its shutdown; a connection ends while the manager winds down. *)
Definition im_winddown : list ImInput := [wake_peers; im_input IwShuttingDown; im_input IwShuttingDown].

Lemma im_quiet_state : exists m,
  im_drive im_winddown (StDialPeers [node_b; node_c] false) im_started = Some (StListen true, m) /\
  im_shutting_down m = true.
Proof. vm_compute. by eexists. Qed.

Lemma shutdown_stays_quiet_witness :
  exists m s' m' outs, im_next (StListen true) (im_input IwResuming) m = Returns (s', m', outs) /\
    im_peer_listener m = false /\ im_shutting_down m' = true /\ quiet_outs outs.
Proof.
  destruct im_quiet_state as (m & Hd & Hsd).
  pose proof (im_drive_reached node_a im_winddown _ _ _ _ im_started_reached Hd) as Hr.
  assert (He : step_enabled (StListen true) (im_input IwResuming) m) by reflexivity.
  destruct (im_next (StListen true) (im_input IwResuming) m) as [[[s' m'] outs]|] eqn:E; [|discriminate E].
  destruct (shutdown_stays_quiet node_a _ m _ s' m' outs Hr He Hsd E) as (_ & _ & Hl & Hsd' & Hq).
  exists m, s', m', outs. split; [exact E|]. split; [exact Hl|]. split; [exact Hsd' | exact Hq].
Defined.

(** Two nodes that know each other. *)
Definition im_a : IpcManager := set_peers [mkSession node_b 1%N 1%N] (ipc_manager_new node_a).
Definition im_b : IpcManager := set_peers [mkSession node_a 1%N 1%N] (ipc_manager_new node_b).

Lemma ranks_elect_holders_witness :
  rank im_b <> rank im_a /\
  exists s m outs, st_reconcile wake_peers im_b = Returns (s, m, outs) /\ (s = StBindBackup <-> rank im_b = Some 1).
Proof.
  destruct (ranks_elect_holders im_b im_a) as (Hr & _ & Hs); [apply Permutation_swap | discriminate |].
  split; [exact Hr|]. destruct (Hs wake_peers eq_refl) as (s & m & outs & Hn & _ & Hb & _).
  exists s, m, outs. split; [exact Hn | exact Hb].
Defined.

(** A second connection of the same node. *)
Definition im_ready : list ImInput :=
  [wake_peers; im_input (IwCommand (IcSessionReady node_b 7%N 1%N)); wake_peers].

Lemma im_ready_state : exists m,
  im_drive im_ready (StDialPeers [node_b; node_c] false) im_started = Some (StReconcileDirectory, m) /\
  im_peers m = [mkSession node_b 7%N 1%N].
Proof. vm_compute. by eexists. Qed.

Lemma latest_session_wins_witness :
  exists m m' outs, session_ready node_b 8%N 2%N m = (m', outs) /\ im_peers m = [mkSession node_b 7%N 1%N] /\
    OutIpcControl 7%N IcShutdown ∈ outs /\ peer_closed node_b 1%N m' = m'.
Proof.
  destruct im_ready_state as (m & Hd & Hp).
  pose proof (im_drive_reached node_a im_ready _ _ _ _ im_started_reached Hd) as Hr.
  destruct (session_ready node_b 8%N 2%N m) as [m' outs] eqn:E.
  destruct (latest_session_wins node_a _ m node_b 8%N 2%N m' outs Hr E) as (_ & Ho & Hc & _).
  exists m, m', outs. split; [exact E|]. split; [exact Hp|]. split; [|apply Hc; discriminate].
  apply Ho. right. split; [reflexivity|]. exists (mkSession node_b 7%N 1%N). rewrite Hp.
  split; [by apply list_elem_of_singleton|]. split; reflexivity.
Defined.

(** The acceptance is late. *)
Definition late_input : PeerInput :=
  mkPeerInput 0%N true true (Some (ImHello node_b)) None 4%N 8%N [] PwStreamEnd.

Lemma aborted_session_stays_witness :
  to_dial true
    (handshake_failed (Some node_b) wake_peers (session_ready node_b 6%N 4%N im_started).1) node_b = false.
Proof.
  exact (proj2 (proj2 (proj2 (aborted_session_stays late_input late_input wake_peers ipc_start node_b node_a _ im_started
    eq_refl eq_refl eq_refl eq_refl (or_intror eq_refl) im_started_reached))) true).
Defined.

Lemma takeover_after_three_misses_witness :
  (missed wake_peers (foldl (fun m n => (missed wake_peers m).2) (ipc_manager_new node_a) (seq 0 2))).1 = StBindPrimary.
Proof.
  exact (proj2 (takeover_after_three_misses (fun _ => wake_peers) (ipc_manager_new node_a) 2 eq_refl eq_refl)).
Defined.
