(* ===== verification/RingScenario.v ===== *)
(** A ring of six nodes with equal costs, every node having the same advertisements: the two
    ways round tie, the two ends settle on different ones, and the reverse-path check drops
    every packet between them. The theorem of [ReversePath.v] applied to the ring, and what it
    looks like from the inside. *)
From Stdlib Require Import Init.Byte Strings.String.
From S2P Require Import Prelude Types Messages World RouteTable Linkstate LsDb Fib Handle.
From S2P Require Import Spf SpfProofs LsDbProofs LsDbTheorems Receivers Network Delivery.
From S2P Require Import Advertise FibProofs ReversePath Concrete.

(** * The ring

    The nodes in order round the ring; the ties are broken by the identifiers. *)
Definition ring_a : NodeId := mkNodeId 1%N.
Definition ring_p : NodeId := mkNodeId 3%N.
Definition ring_q : NodeId := mkNodeId 4%N.
Definition ring_b : NodeId := mkNodeId 6%N.
Definition ring_s : NodeId := mkNodeId 5%N.
Definition ring_r : NodeId := mkNodeId 2%N.
Definition ring : list NodeId := [ring_a; ring_p; ring_q; ring_b; ring_s; ring_r].

Definition after (v : NodeId) : NodeId :=
  if decide (v = ring_a) then ring_p else if decide (v = ring_p) then ring_q
  else if decide (v = ring_q) then ring_b else if decide (v = ring_b) then ring_s
  else if decide (v = ring_s) then ring_r else ring_a.
Definition before (v : NodeId) : NodeId :=
  if decide (v = ring_a) then ring_r else if decide (v = ring_p) then ring_a
  else if decide (v = ring_q) then ring_p else if decide (v = ring_b) then ring_q
  else if decide (v = ring_s) then ring_b else ring_s.

(** Connection 1 of a node leads back, connection 2 leads on; the channels tell them apart. *)
Definition ring_chan (v : NodeId) (c : ConnectionId) : ChanId := (10 * node_uuid v + c)%N.
Definition ring_links (v : NodeId) : gmap ConnectionId Link :=
  if decide (v ∈ ring) then
    {[ 1%N := mkLink (ring_chan v 1%N) (before v) 1%N all_realms 1%N false false;
       2%N := mkLink (ring_chan v 2%N) (after v) 2%N all_realms 1%N false false ]}
  else ∅.

Definition ring_dest (tx : ChanId) : option (NodeId * ConnectionId) :=
  let v := mkNodeId (tx / 10)%N in
  match (tx mod 10)%N with
  | 1%N => Some (before v, 2%N)
  | 2%N => Some (after v, 1%N)
  | _ => None
  end.

Definition ring_record (v : NodeId) : LsaKey * LsaRecord :=
  let adjs := [mkAdjacency 1%N (before v) 1%N all_realms; mkAdjacency 2%N (after v) 1%N all_realms] in
  (router_key v, mkLsaRecord (mkLsa (router_key v) 1%N false (Router adjs)) 0%N).

Definition ring_adverts : gmap LsaKey LsaRecord := list_to_map (map ring_record ring).

(** The service listens at [ring_b] on channel 99. *)
Definition ring_service : EndpointId := mkEndpointId 77%N.
Definition ring_listener : ChanId := 99%N.
Definition ring_routes (v : NodeId) : RouteTable :=
  {[ ring_service := mkLsRouteEntry
       [mkLsRoute (if decide (v = ring_b) then Local ring_listener else Remote ring_b) 0%N Global Unicast]
       Unicast ]}.

Definition ring_db (v : NodeId) : LsDb :=
  mkLsDb ring_adverts v (ring_links v) ∅ ∅ ∅ ∅ (ring_routes v) None 0%N (from_secs 60) 0%N.

Definition ring_built (v : NodeId) : LsDb * ForwardingTable :=
  match build_fib (ring_db v) world_init with Returns r => r | Panics => (ring_db v, fib_new v) end.
Definition ring_table (v : NodeId) : ForwardingTable := (ring_built v).2.

(** * The packet *)
Definition ring_rider : Rider := (0%N, 42%N).
Definition ring_packet : Packet := mkPacket (AddrEndpoint ring_service) None ring_a (PBusRider ring_rider).
Definition ring_wire : WirePacket := mkWirePacket (AddrEndpoint ring_service) None ring_a [x2a].

Definition ring_sent (v : NodeId) : World :=
  log_event (EvNode (ring_chan v 2%N) (NmWirePacket ring_wire) SendOk) world_init.

Lemma ring_send : fib_send (ring_table ring_a) ring_packet world_init = Returns (inr tt, ring_sent ring_a).
Proof. vm_compute. reflexivity. Qed.
Lemma ring_forward_p : fib_forward_packet (ring_table ring_p) ring_wire 1%N world_init = ring_sent ring_p.
Proof. vm_compute. reflexivity. Qed.
Lemma ring_forward_q : fib_forward_packet (ring_table ring_q) ring_wire 1%N world_init = ring_sent ring_q.
Proof. vm_compute. reflexivity. Qed.
Lemma ring_drop_b : fib_forward_packet (ring_table ring_b) ring_wire 1%N world_init = world_init.
Proof. vm_compute. reflexivity. Qed.
Lemma ring_costs :
  d_cost (ring_built ring_a).1 !! ring_b = Some 3%N /\ d_cost (ring_built ring_b).1 !! ring_a = Some 3%N.
Proof. vm_compute. split; reflexivity. Qed.

Definition quiet : NodeId -> World := fun _ => world_init.

(** A hop round the ring, at a node that has not seen a packet. *)
Lemma ring_hop W v w fl :
  W v = world_init -> fib_forward_packet (ring_table v) ring_wire 1%N world_init = w ->
  omap (departure ring_dest) (news world_init w) = fl ->
  net_step ring_table ring_dest (mkNet W [(v, 1%N, ring_wire)]) (mkNet (set_world v w W) fl).
Proof.
  intros HW Hf Hd. pose proof (net_forward ring_table ring_dest v 1%N ring_wire W [] []) as Hs.
  rewrite HW, Hf in Hs. simpl in Hs. by rewrite Hd in Hs.
Qed.

(** The reverse-path check loses packets when cheapest paths tie. On a ring of six nodes with
    equal costs that all hold the same advertisements, both ends agree that they are three hops
    apart, the sender is told that its packet was sent, it is forwarded twice and handed to the
    node of the listener, which drops it: no listener anywhere gets anything. *)
Theorem ring_loses_packets :
  (forall v, d_db (ring_db v) = ring_adverts) /\
  d_cost (ring_built ring_a).1 !! ring_b = Some 3%N /\ d_cost (ring_built ring_b).1 !! ring_a = Some 3%N /\
  exists net W', net_send ring_table ring_dest ring_a ring_packet (mkNet quiet []) (inr tt) net /\
    rtc (net_step ring_table ring_dest) net (mkNet W' []) /\
    EvNode (ring_chan ring_q 2%N) (NmWirePacket ring_wire) SendOk ∈ w_log (W' ring_q) /\
    ring_dest (ring_chan ring_q 2%N) = Some (ring_b, 1%N) /\
    f_table (ring_table ring_b) !! ring_service = Some (Single (FwdLocal ring_listener)) /\
    forall v tx, inbox tx (W' v) = [].
Proof.
  split; [done|]. destruct ring_costs as [-> ->]. split; [done|]. split; [done|].
  do 2 eexists. split; [|split; [|split_and!]].
  - apply net_sent, ring_send.
  - eapply rtc_l; [apply ring_hop; [reflexivity | apply ring_forward_p | reflexivity]|].
    eapply rtc_l; [apply ring_hop; [reflexivity | apply ring_forward_q | reflexivity]|].
    eapply rtc_l; [apply ring_hop; [reflexivity | apply ring_drop_b | reflexivity]|].
    apply rtc_refl.
  - rewrite set_world_ne, set_world_eq by done. by left.
  - reflexivity.
  - vm_compute. reflexivity.
  - intros v tx. unfold set_world, quiet. by repeat case_decide.
Qed.

(** * The ring as a network *)
Definition ring_graph : gmap NodeId (list Adjacency) := router_nodes (ring_db ring_a) world_init.

Lemma ring_nodes v : v ∈ ring ->
  v = ring_a \/ v = ring_p \/ v = ring_q \/ v = ring_b \/ v = ring_s \/ v = ring_r.
Proof. unfold ring. set_solver. Qed.

Lemma ring_link v c link : ring_links v !! c = Some link ->
  v ∈ ring /\
  ((c = 1%N /\ link = mkLink (ring_chan v 1%N) (before v) 1%N all_realms 1%N false false) \/
   (c = 2%N /\ link = mkLink (ring_chan v 2%N) (after v) 2%N all_realms 1%N false false)).
Proof.
  unfold ring_links. case_decide as Hv; [|by rewrite lookup_empty].
  intros [[<- <-]|[_ [<- <-]%lookup_singleton_Some]]%lookup_insert_Some; auto.
Qed.

Lemma ring_inv v : lsdb_inv (ring_db v).
Proof.
  split; simpl.
  - intros k r Hr. apply elem_of_list_to_map_2, list_elem_of_fmap in Hr as (u & [= -> ->] & Hu). split; [done|].
    intros [= <-] adjs [= <-]. split; [done|]. intros adj Hadj. unfold ring_links. rewrite decide_True by done.
    rewrite !elem_of_cons, elem_of_nil in Hadj. destruct Hadj as [->|[->|[]]]; by eexists.
  - intros c link [_ [[-> ->]|[-> ->]]]%ring_link; done.
  - unfold ring_routes. split; apply map_Forall_singleton; [|done].
    split; [repeat constructor| |simpl; lia|done]. simpl. case_decide; repeat constructor; set_solver.
  - apply map_Forall_empty.
Qed.

Lemma ring_same_view v : in_force ring_graph v (ring_db v) (ring_table v).
Proof.
  split; [apply ring_inv|]. split; [done|]. unfold ring_table, ring_built.
  destruct (build_fib_ok (ring_db v) world_init (ring_inv v)) as (d' & fib & Hb & _). rewrite Hb.
  exists world_init, d'. split; [vm_compute; reflexivity | exact Hb].
Qed.

Lemma ring_good_links : good_links ring_dest ring_db.
Proof.
  intros v c link [Hv Hl]%ring_link. apply ring_nodes in Hv.
  split; [|split].
  - intros w. destruct Hv as [->|[->|[->|[->|[->| ->]]]]], Hl as [[-> ->]|[-> ->]]; reflexivity.
  - intros c' link' [_ Hl']%ring_link.
    destruct Hl as [[-> ->]|[-> ->]], Hl' as [[-> ->]|[-> ->]]; try done;
      destruct Hv as [->|[->|[->|[->|[->| ->]]]]]; intros Hp; vm_compute in Hp; discriminate Hp.
  - destruct Hl as [[-> ->]|[-> ->]]; [exists 2%N|exists 1%N];
      destruct Hv as [->|[->|[->|[->|[->| ->]]]]]; eexists; vm_compute; done.
Qed.

(** Hops from [ring_a], the shorter way round. *)
Definition ring_hops (v : NodeId) : N :=
  if decide (v = ring_a) then 0 else if decide (v = ring_p \/ v = ring_r) then 1
  else if decide (v = ring_b) then 3 else 2.

Lemma ring_edge u v c : edge ring_graph u v c -> c = 1%N /\ (ring_hops v <= ring_hops u + 1)%N.
Proof.
  intros (adjs & adj & Hl & Hin & <- & <-).
  assert (Hl' : (u, adjs) ∈ map_to_list ring_graph) by by apply elem_of_map_to_list.
  assert (Hall : Forall (fun '(u, adjs) => Forall (fun adj => adj_cost adj = 1%N /\
    (ring_hops (adj_peer_id adj) <= ring_hops u + 1)%N) adjs) (map_to_list ring_graph)).
  { vm_compute. repeat constructor; discriminate. }
  rewrite Forall_forall in Hall. specialize (Hall _ Hl'). simpl in Hall. rewrite Forall_forall in Hall. by apply Hall.
Qed.

Lemma ring_shortest : shortest ring_graph ring_a ring_b 3%N.
Proof.
  split.
  - change 3%N with (0 + 1 + 1 + 1)%N.
    eapply path_snoc with (x := ring_q); [eapply path_snoc with (x := ring_p); [eapply path_snoc; [constructor|]|]|].
    all: eexists _, _; (split; [vm_compute; reflexivity|]); (split; [by right; left | done]).
  - assert (Hle : forall u v c, path ring_graph u v c -> (ring_hops v <= ring_hops u + c)%N).
    { induction 1 as [u|u x v c w _ IH He]; [lia|]. apply ring_edge in He as [-> ?]. lia. }
    intros c Hc. apply Hle in Hc. vm_compute (ring_hops _) in Hc. lia.
Qed.

Lemma ring_way : way ring_table ring_b ring_a [ring_p; ring_q; ring_b].
Proof. repeat (constructor; [done | vm_compute; reflexivity|]). constructor. Qed.

Lemma reverse_paths_decide_witness :
  exists net W', net_send ring_table ring_dest ring_a ring_packet (mkNet quiet []) (inr tt) net /\
    ends_in ring_dest ring_table net (mkNet W' []) /\ nothing_new quiet W'.
Proof.
  destruct (reverse_paths_decide ring_dest ring_graph ring_db ring_table)
    with (a := ring_a) (n := ring_b) (to := AddrEndpoint ring_service) (tx := ring_listener) (D := 3%N)
      (packet := ring_packet) (wire := ring_wire) (W := quiet)
    as (ways & net & W' & Hway & Hs & Hends & Hout).
  - exact ring_same_view.
  - intros u v c [-> _]%ring_edge. done.
  - exact ring_good_links.
  - split; [exact ring_shortest | done].
  - intros v d _ _. eexists (mkLsRoute _ 0%N Global Unicast), Unicast. split; [by left|]. split; [reflexivity|]. done.
  - done.
  - done.
  - done.
  - vm_compute. reflexivity.
  - exists net, W'. split; [exact Hs|]. split; [exact Hends|].
    rewrite (way_unique ring_table _ _ _ _ Hway ring_way) in Hout. exact Hout.
Defined.
