(* ===== verification/StaleScenario.v ===== *)
(** Where flooding fails, on a ring of four nodes. One link is lost: the new advertisement of the
    node at its end does not reach the node at the other end, because flooding leaves out whoever
    the last forwarding table calls the next hop towards the originator. An endpoint is given up
    and registered again: its new advertisement starts over at sequence number zero and loses to
    the obituary of the old one, which arrives a second time the other way round. *)
From Stdlib Require Import Init.Byte Strings.String.
From S2P Require Import Prelude Types Messages World RouteTable Linkstate Spf LsDb Fib.
From S2P Require Import Router Peer Handle Receivers Network Flooding Concrete.

(** * The ring

    The nodes in order: [stale_o], [stale_b], [stale_a], [stale_c]. The way from [stale_a] to
    [stale_o] over [stale_b] costs 2, over [stale_c] 6. *)
Definition stale_o : NodeId := mkNodeId 1%N.
Definition stale_b : NodeId := mkNodeId 2%N.
Definition stale_a : NodeId := mkNodeId 3%N.
Definition stale_c : NodeId := mkNodeId 4%N.

Definition stale_after (v : NodeId) : NodeId :=
  if decide (v = stale_o) then stale_b else if decide (v = stale_b) then stale_a
  else if decide (v = stale_a) then stale_c else stale_o.
Definition stale_before (v : NodeId) : NodeId :=
  if decide (v = stale_o) then stale_c else if decide (v = stale_b) then stale_o
  else if decide (v = stale_a) then stale_b else stale_a.

(** Connection 1 of a node leads back, connection 2 leads on. *)
Definition stale_chan (v : NodeId) (c : ConnectionId) : ChanId := (10 * node_uuid v + c)%N.
Definition cost_back (v : NodeId) : Cost := if decide (v = stale_b \/ v = stale_a) then 1%N else 3%N.
Definition stale_links (v : NodeId) : gmap ConnectionId Link :=
  {[ 1%N := mkLink (stale_chan v 1%N) (stale_before v) 1%N all_realms (cost_back v) false false;
     2%N := mkLink (stale_chan v 2%N) (stale_after v) 2%N all_realms (cost_back (stale_after v)) false false ]}.
Definition stale_dest (tx : ChanId) : option (NodeId * ConnectionId) :=
  let v := mkNodeId (tx / 10)%N in
  match (tx mod 10)%N with
  | 1%N => Some (stale_before v, 2%N)
  | 2%N => Some (stale_after v, 1%N)
  | _ => None
  end.

Definition stale_adjacencies (v : NodeId) : list Adjacency :=
  [mkAdjacency 1%N (stale_before v) (cost_back v) all_realms;
   mkAdjacency 2%N (stale_after v) (cost_back (stale_after v)) all_realms].
Definition stale_record (v : NodeId) : LsaKey * LsaRecord :=
  (router_key v, mkLsaRecord (mkLsa (router_key v) 1%N false (Messages.Router (stale_adjacencies v))) 0%N).
Definition stale_nodes : list NodeId := [stale_o; stale_b; stale_a; stale_c].
Definition stale_adverts : gmap LsaKey LsaRecord := list_to_map (map stale_record stale_nodes).

Definition stale_db (v : NodeId) : LsDb :=
  mkLsDb stale_adverts v (stale_links v) ∅ ∅ ∅ ∅ ∅ None 0%N (from_secs 60) 0%N.

(** The router of a node after it published its first table. *)
Definition stale_router (v : NodeId) : Router :=
  match route_change None (mkRouter v (stale_db v) (fib_new v)) world_init with
  | Returns (r, _) => r
  | Panics => mkRouter v (stale_db v) (fib_new v)
  end.
Definition stale_start : LsNet := mkLsNet stale_router (fun _ => world_init) [].

(** * Running it *)

(** A node serves a message; what it says joins the wire. *)
Definition serve (n : NodeId) (m : RouterMsg) (net : LsNet) : option LsNet :=
  match settle 3 (HandleBrokerMsg m) (ln_routers net n) (ln_worlds net n) with
  | Returns (Some Listen, r', w') =>
      Some (mkLsNet (set_router n r' (ln_routers net)) (set_world n w' (ln_worlds net))
        (ln_wire net ++ omap (signal_of stale_dest) (news (ln_worlds net n) w')))
  | _ => None
  end.

Definition stale_peer (n : NodeId) (c : ConnectionId) : Peer := mkPeer n n Global c 0%N stats_default ∅ true.

(** The message at the head of the wire arrives. *)
Definition arrive (net : LsNet) : option LsNet :=
  match ln_wire net with
  | (n, c, m) :: rest =>
      match (handle_node_message m (stale_peer n c)).2 with
      | [SendBroker rm] => serve n rm (mkLsNet (ln_routers net) (ln_worlds net) rest)
      | _ => None
      end
  | [] => Some net
  end.

Fixpoint arrive_all (fuel : nat) (net : LsNet) : option LsNet :=
  match fuel with
  | O => Some net
  | S fuel => match arrive net with Some net => arrive_all fuel net | None => None end
  end.

(** Both are steps of the network. *)
Lemma arrive_step net net' : arrive net = Some net' -> rtc (ls_step stale_dest) net net'.
Proof.
  destruct net as [R W wire]. unfold arrive. cbn [ln_wire]. destruct wire as [|[[n c] m] rest]; [by intros [= <-]|].
  destruct (handle_node_message m (stale_peer n c)).2 as [|[rm|?] [|]] eqn:Hm; try done. unfold serve.
  cbn [ln_routers ln_worlds ln_wire]. destruct (settle _ _ _ _) as [[[[[]|] r'] w']|] eqn:Hs; try done.
  intros [= <-]. apply rtc_once.
  exact (ls_deliver stale_dest n c m (stale_peer n c) rm R W [] rest r' w' eq_refl Hm Hs).
Qed.

Lemma arrive_all_run fuel : forall net net', arrive_all fuel net = Some net' -> rtc (ls_step stale_dest) net net'.
Proof.
  induction fuel as [|fuel IH]; intros net net' Hr; simpl in Hr; [by injection Hr as <-|].
  destruct (arrive net) as [net1|] eqn:Ha; [|done]. etrans; [by apply arrive_step | by apply IH].
Qed.

(** The link between [stale_o] and [stale_b] ends: one end notices and everything it says
    arrives, then the other. *)
Definition lost_at_o : option LsNet := serve stale_o (RmUnRegisterPeer 2%N) stale_start.
Definition o_heard : option LsNet := lost_at_o ≫= arrive_all 20.
Definition lost_at_b : option LsNet := o_heard ≫= serve stale_b (RmUnRegisterPeer 1%N).
Definition b_heard : option LsNet := lost_at_b ≫= arrive_all 20.

(** The sequence number of [stale_o]'s own advertisement a node holds. *)
Definition seq_held (net : LsNet) (v : NodeId) : option N := lsa_seq <$> holds net v (router_key stale_o).

Lemma stale_outcome :
  (fun net => (ln_wire net, map (seq_held net) stale_nodes)) <$> b_heard =
    Some ([], [Some 2%N; Some 1%N; Some 2%N; Some 2%N]) /\ ln_wire <$> o_heard = Some [].
Proof. split; vm_compute; reflexivity. Qed.

(** When a link breaks its ends may stay unaware of each other: in a ring of four nodes one end
    of a lost link advertises the loss, every message arrives, the other end advertises it too,
    every message arrives, and the other end still holds the first one's old advertisement,
    because the node between them left it out as its own next hop towards the first. *)
Theorem lost_link_not_heard_by_all :
  exists net0 net1 net2 net,
    serve stale_o (RmUnRegisterPeer 2%N) stale_start = Some net0 /\
    rtc (ls_step stale_dest) net0 net1 /\ ln_wire net1 = [] /\
    serve stale_b (RmUnRegisterPeer 1%N) net1 = Some net2 /\
    rtc (ls_step stale_dest) net2 net /\ ln_wire net = [] /\
    map (seq_held net) stale_nodes = [Some 2%N; Some 1%N; Some 2%N; Some 2%N].
Proof.
  destruct stale_outcome as [Hout Hq]. unfold b_heard, lost_at_b, o_heard in *.
  destruct lost_at_o as [net0|] eqn:H0; [|done]. cbn [mbind option_bind] in *.
  destruct (arrive_all 20 net0) as [net1|] eqn:H1; [|done]. cbn [mbind option_bind] in *.
  destruct (serve stale_b _ net1) as [net2|] eqn:H2; [|done]. cbn [mbind option_bind] in *.
  destruct (arrive_all 20 net2) as [net|] eqn:H3; [|done]. injection Hout as Hw Ho Hb Ha Hc. injection Hq as Hq.
  exists net0, net1, net2, net. split; [exact H0|]. split; [exact (arrive_all_run 20 _ _ H1)|].
  split; [exact Hq|]. split; [exact H2|]. split; [exact (arrive_all_run 20 _ _ H3)|]. split; [exact Hw | exact (f_equal4 (fun x y z t => [x; y; z; t]) Ho Hb Ha Hc)].
Qed.

(** * An endpoint that comes back *)
Definition again_endpoint : EndpointId := mkEndpointId 70%N.
Definition again_key : LsaKey := mkLsaKey stale_o 70%N.
Definition again_request (tx : ChanId) : RegistrationRequest :=
  mkRegistrationRequest again_endpoint (mkEndpointInfo Unicast Global 0%N) tx.

(** A listener registers at [stale_o] and everyone hears of it; it goes, another one takes its
    place, and everything that is said about it arrives in the order it was said. *)
Definition again_first : option LsNet := serve stale_o (RmRegisterEndpoint (again_request closed_chan)) stale_start.
Definition again_known : option LsNet := again_first ≫= arrive_all 30.
Definition again_gone : option LsNet := again_known ≫= serve stale_o (RmDeadLink again_endpoint).
Definition again_back : option LsNet := again_gone ≫= serve stale_o (RmRegisterEndpoint (again_request 99%N)).
Definition again_heard : option LsNet := again_back ≫= arrive_all 60.

(** What a node holds of the endpoint, and where it sends packets to it. *)
Definition again_seq (net : LsNet) (v : NodeId) : option N := lsa_seq <$> holds net v again_key.
Definition again_entry (net : LsNet) (v : NodeId) : bool :=
  bool_decide (is_Some (f_table (r_fib (ln_routers net v)) !! again_endpoint)).

Lemma again_outcome :
  (fun net => (ln_wire net, map (again_seq net) stale_nodes)) <$> again_known =
    Some ([], [Some 0%N; Some 0%N; Some 0%N; Some 0%N]) /\
  (fun net => (ln_wire net, map (again_seq net) stale_nodes, map (again_entry net) stale_nodes)) <$> again_heard =
    Some ([], [Some 0%N; Some 0%N; None; None], [true; true; false; false]).
Proof. split; vm_compute; reflexivity. Qed.

(** What [Restart.v] says of single nodes happens in a network: a listener registers, every node
    holds its advertisement, it goes and another one registers in its place; there is a run after
    which everything arrived and half of the ring has neither an advertisement of the endpoint nor
    a way to send to it, although its node has both. *)
Theorem reregistration_is_lost :
  exists net0 net1 net2 net3 net,
    serve stale_o (RmRegisterEndpoint (again_request closed_chan)) stale_start = Some net0 /\
    rtc (ls_step stale_dest) net0 net1 /\ ln_wire net1 = [] /\
    map (again_seq net1) stale_nodes = [Some 0%N; Some 0%N; Some 0%N; Some 0%N] /\
    serve stale_o (RmDeadLink again_endpoint) net1 = Some net2 /\
    serve stale_o (RmRegisterEndpoint (again_request 99%N)) net2 = Some net3 /\
    rtc (ls_step stale_dest) net3 net /\ ln_wire net = [] /\
    map (again_seq net) stale_nodes = [Some 0%N; Some 0%N; None; None] /\
    map (again_entry net) stale_nodes = [true; true; false; false].
Proof.
  destruct again_outcome as [Hknown Hout]. unfold again_heard, again_back, again_gone, again_known in *.
  destruct again_first as [net0|] eqn:H0; [|done]. cbn [mbind option_bind] in *.
  destruct (arrive_all 30 net0) as [net1|] eqn:H1; [|done]. cbn [mbind option_bind] in *.
  destruct (serve stale_o (RmDeadLink _) net1) as [net2|] eqn:H2; [|done]. cbn [mbind option_bind] in *.
  destruct (serve stale_o _ net2) as [net3|] eqn:H3; [|done]. cbn [mbind option_bind] in *.
  destruct (arrive_all 60 net3) as [net|] eqn:H4; [|done].
  apply (inj Some) in Hknown as [Hw1 Hs1]%pair_equal_spec.
  apply (inj Some) in Hout as [[Hw Hs]%pair_equal_spec He]%pair_equal_spec.
  exists net0, net1, net2, net3, net. split; [exact H0|]. split; [exact (arrive_all_run 30 _ _ H1)|].
  split; [exact Hw1|]. split; [exact Hs1|]. split; [exact H2|]. split; [exact H3|].
  split; [exact (arrive_all_run 60 _ _ H4)|]. split; [exact Hw|]. split; [exact Hs | exact He].
Qed.
