(* ===== verification/NetworkScenario.v ===== *)
(** The theorems about networks and clients applied to two nodes joined by one connection. *)
From Stdlib Require Import Init.Byte Strings.String.
From S2P Require Import Prelude Types Messages World RouteTable Linkstate Spf SpfProofs LsDb.
From S2P Require Import LsDbProofs LsDbTheorems Fib FibProofs Handle Receivers Network.
From S2P Require Import Delivery RoundTrip ClientProofs Quiescence RouteSpec Convergence Concrete.

(** * Two nodes *)
Definition duo_service : EndpointId := mkEndpointId 60%N.
Definition duo_answers : EndpointId := mkEndpointId 61%N.
Definition duo_srv : ChanId := 21%N.
Definition duo_cli : ChanId := 22%N.

Definition duo_links (v : NodeId) : gmap ConnectionId Link :=
  if decide (v = node_a) then {[ 1%N := mkLink 11%N node_b 1%N all_realms 5%N false false ]}
  else if decide (v = node_b) then {[ 1%N := mkLink 12%N node_a 1%N all_realms 5%N false false ]}
  else ∅.

Definition duo_dest (tx : ChanId) : option (NodeId * ConnectionId) :=
  match tx with 11%N => Some (node_b, 1%N) | 12%N => Some (node_a, 1%N) | _ => None end.

Definition duo_adj (n : NodeId) : Adjacency := mkAdjacency 1%N n 5%N all_realms.
Definition duo_record (v n : NodeId) : LsaRecord :=
  mkLsaRecord (mkLsa (router_key v) 1%N false (Router [duo_adj n])) 0%N.
Definition duo_adverts : gmap LsaKey LsaRecord :=
  {[ router_key node_a := duo_record node_a node_b; router_key node_b := duo_record node_b node_a ]}.

Definition duo_entry (via : LsForwardTo) (kind : RouteKind) : LsRouteEntry :=
  mkLsRouteEntry [mkLsRoute via 0%N Global kind] kind.

Definition duo_routes (v : NodeId) : RouteTable :=
  if decide (v = node_b) then
    {[ duo_service := duo_entry (Local duo_srv) Unicast;
       endpoint_of_node node_a := duo_entry (Remote node_a) Node ]}
  else
    {[ duo_service := duo_entry (Remote node_b) Unicast; duo_answers := duo_entry (Local duo_cli) Unicast ]}.

Definition duo (v : NodeId) : LsDb :=
  mkLsDb duo_adverts v (duo_links v) ∅ ∅ ∅ ∅ (duo_routes v) None 0%N (from_secs 60) 0%N.

Definition duo_built (v : NodeId) : LsDb * ForwardingTable :=
  match build_fib (duo v) world_init with Returns r => r | Panics => (duo v, fib_new v) end.
Definition duo_tables (v : NodeId) : LsDb := (duo_built v).1.
Definition duo_fib (v : NodeId) : ForwardingTable := (duo_built v).2.
Definition duo_quiet : NodeId -> World := fun _ => world_init.

Definition duo_graph : gmap NodeId (list Adjacency) :=
  {[ node_a := [duo_adj node_b]; node_b := [duo_adj node_a] ]}.

Lemma duo_graph_eq v : router_nodes (duo v) world_init = duo_graph.
Proof. vm_compute. reflexivity. Qed.

Lemma duo_entry_wf via kind : entry_wf (duo_entry via kind).
Proof.
  split; [repeat constructor| |simpl; lia|done].
  destruct via; simpl; repeat constructor; set_solver.
Qed.

Lemma duo_routes_ok v : routes_ok (duo_routes v).
Proof.
  unfold duo_routes. split; (case_decide; (apply map_Forall_insert_2; [|apply map_Forall_singleton]));
    apply duo_entry_wf || done.
Qed.

Lemma duo_inv v : lsdb_inv (duo v).
Proof.
  split; simpl.
  - unfold duo_adverts. apply map_Forall_insert_2; [|apply map_Forall_singleton]; (split; [done|]);
      simpl; intros <- adjs [= <-]; (split; [done|]); intros adj ->%list_elem_of_singleton;
      eexists; (split; [apply lookup_singleton_eq|]); done.
  - unfold duo_links. repeat case_decide; apply map_Forall_singleton || apply map_Forall_empty; done.
  - apply duo_routes_ok.
  - apply map_Forall_empty.
Qed.

Lemma duo_build v : build_fib (duo v) world_init = Returns (duo_tables v, duo_fib v).
Proof.
  unfold duo_tables, duo_fib, duo_built.
  destruct (build_fib_ok (duo v) world_init (duo_inv v)) as (d' & fib & -> & _). reflexivity.
Qed.

(** * A request and its answer *)
Definition duo_call : Rider := (0%N, 7%N).
Definition duo_result : Rider := (0%N, 9%N).
Definition duo_request : Packet := request_packet (duo_fib node_a) duo_answers duo_service duo_call.
Definition duo_reply : Packet :=
  reply_packet (duo_fib node_b) (AddrRemote duo_answers (f_our_id (duo_fib node_a))) duo_result.

Definition wire_or_empty (p : Packet) : WirePacket :=
  match wire_of_packet p with Returns wire => wire | Panics => mkWirePacket (p_to p) None (p_from p) [] end.

Definition link_ab : Link := mkLink 11%N node_b 1%N all_realms 5%N false false.
Definition link_ba : Link := mkLink 12%N node_a 1%N all_realms 5%N false false.

(** * Delivery along unique paths *)
Lemma duo_edge u v c :
  edge duo_graph u v c -> c = 5%N /\ ((u = node_a /\ v = node_b) \/ (u = node_b /\ v = node_a)).
Proof.
  intros (adjs & adj & Hl & Hin & Hv & <-). unfold duo_graph in Hl.
  apply lookup_insert_Some in Hl as [[<- <-]|[_ [<- <-]%lookup_singleton_Some]];
    apply list_elem_of_singleton in Hin as ->; simpl in Hv; subst v; eauto.
Qed.

Lemma duo_edge_sym u v c : edge duo_graph u v c -> edge duo_graph v u c.
Proof.
  intros [-> [[-> ->]|[-> ->]]]%duo_edge; eexists [_], _; (split; [reflexivity|]); (split; [by left | done]).
Qed.

Lemma duo_shortest : shortest duo_graph node_a node_b 5%N.
Proof.
  split.
  - change 5%N with (0 + 5)%N. econstructor; [constructor|].
    exists [duo_adj node_b], (duo_adj node_b). repeat split. by left.
  - intros c Hp. inversion Hp as [|? x ? c0 c1 _ He]; subst. apply duo_edge in He as [-> _]. lia.
Qed.

Lemma duo_link_one v c link :
  duo_links v !! c = Some link -> link = if decide (v = node_a) then link_ab else link_ba.
Proof. unfold duo_links. by repeat case_decide; [intros [_ <-]%lookup_singleton_Some..|]. Qed.

Lemma duo_good_links : good_links duo_dest duo.
Proof.
  intros v c link. simpl. unfold duo_links at 1. repeat case_decide; [| |by rewrite lookup_empty].
  all: intros [<- <-]%lookup_singleton_Some; split; [done|]; subst v; split.
  1, 3: intros c' link' Hl' _; apply duo_link_one in Hl'; by simpl in Hl'.
  - exists 1%N, link_ba. done.
  - exists 1%N, link_ab. done.
Qed.

Lemma duo_same_view v : in_force duo_graph v (duo v) (duo_fib v).
Proof.
  split; [apply duo_inv|]. split; [done|]. exists world_init, (duo_tables v).
  split; [apply duo_graph_eq | apply duo_build].
Qed.

Lemma duo_no_ties u n v1 c1 r1 v2 c2 r2 :
  shortest duo_graph u n (c1 + r1) -> (c1 + r1 = c2 + r2)%N ->
  edge duo_graph u v1 c1 -> shortest duo_graph v1 n r1 -> edge duo_graph u v2 c2 ->
  shortest duo_graph v2 n r2 -> v1 = v2.
Proof. by intros _ _ [_ [[-> ->]|[-> ->]]]%duo_edge _ [_ [[? ->]|[? ->]]]%duo_edge _. Qed.

Definition duo_packet : Packet := mkPacket (AddrEndpoint duo_service) None node_a (PBusRider duo_call).

Lemma unique_paths_deliver_witness :
  exists net W', net_send duo_fib duo_dest node_a duo_packet (mkNet duo_quiet []) (inr tt) net /\
    rtc (net_step duo_fib duo_dest) net (mkNet W' []).
Proof.
  destruct (unique_paths_deliver duo_dest duo_graph duo duo_fib)
    with (a := node_a) (n := node_b) (to := AddrEndpoint duo_service) (tx := duo_srv) (D := 5%N)
      (packet := duo_packet) (wire := wire_or_empty duo_packet) (W := duo_quiet)
    as (got & net & W' & Hs & Hr & _).
  - exact duo_same_view.
  - intros u v c [-> _]%duo_edge. done.
  - exact duo_edge_sym.
  - exact duo_no_ties.
  - exact duo_good_links.
  - split; [exact duo_shortest | done].
  - intros v d _ _. exists (mkLsRoute (if decide (v = node_b) then Local duo_srv else Remote node_b) 0%N Global Unicast), Unicast.
    split; [by left|]. simpl. unfold duo_routes. by case_decide.
  - done.
  - done.
  - done.
  - vm_compute. reflexivity.
  - by exists net, W'.
Defined.

(** * A remote procedure call *)
Lemma duo_path u v c : path duo_graph u v c -> v = u \/ u = node_a \/ u = node_b.
Proof.
  induction 1 as [u|u x v c w _ IH He]; [by left|].
  apply duo_edge in He as [_ [[-> ->]|[-> ->]]]; destruct IH as [<-|[->| ->]]; auto.
Qed.

Lemma rpc_round_trip_witness :
  exists net1 got' w, net_send duo_fib duo_dest node_a duo_request (mkNet duo_quiet []) (inr tt) net1 /\
    request 0%N (duo_fib node_a) duo_answers duo_service duo_call [] [CmMessage got'] world_init =
      Returns (inr duo_result, [], w).
Proof.
  destruct (rpc_round_trip duo_dest duo_graph duo duo_fib)
    with (a := node_a) (b := node_b) (D := 5%N) (service := duo_service) (srv := duo_srv)
      (response := duo_answers) (cli := duo_cli) (W := duo_quiet) (r := duo_call) (resp := duo_result)
    as (net1 & W1 & got & rq & net2 & W2 & got' & Hs & _ & _ & _ & _ & _ & _ & _ & _ & Hreq).
  - exact duo_same_view.
  - intros u v c [-> _]%duo_edge. done.
  - exact duo_edge_sym.
  - exact duo_no_ties.
  - exact duo_good_links.
  - split; [exact duo_shortest | done].
  - intros v d _ _. exists (mkLsRoute (if decide (v = node_b) then Local duo_srv else Remote node_b) 0%N Global Unicast), Unicast.
    split; [by left|]. simpl. unfold duo_routes. by case_decide.
  - done.
  - intros v d [Hp _] _. apply duo_path in Hp as [<-|[->| ->]].
    1, 2: exists (mkLsRoute (Local duo_cli) 0%N Global Unicast), Unicast; by split; [left|].
    exists (mkLsRoute (Remote node_a) 0%N Global Node), Node. by split; [right|].
  - done.
  - by eexists.
  - by eexists.
  - exists net1, got', (net_world net1 node_a). split; [exact Hs | exact (Hreq [])].
Defined.

Lemma duo_links_back : links_back duo_dest duo.
Proof.
  intros v c link m c' Hl Hd. destruct (duo_good_links v c link Hl) as (_ & _ & c1 & back & Hd1 & Hb & Hp).
  rewrite Hd in Hd1. injection Hd1 as -> ->. by exists back.
Qed.

Lemma forwarding_terminates_witness :
  Acc (fun net' net => net_step duo_fib duo_dest net net')
    (mkNet duo_quiet [(node_b, 1%N, wire_or_empty duo_packet); (node_a, 1%N, wire_or_empty duo_reply)]).
Proof.
  apply (forwarding_terminates duo_dest duo_graph duo duo_fib).
  - exact duo_same_view.
  - intros u v c [-> _]%duo_edge. done.
  - exact duo_links_back.
Defined.

(** * A service with a mailbox *)
Definition busy_mailbox : list ClientMessage :=
  [CmSuccessfulRegistration duo_service; CmMessage (packet_of_wire (wire_or_empty duo_request));
   CmMessage duo_packet; CmMessage duo_request; CmShutdown].
Definition number_type : RustTy := 0%N.
Definition answer_nine (st : nat) (r : option Rider) : Rider * nat := (duo_result, S st).
Definition served : Outcome (nat * World) :=
  serve answer_nine (duo_fib node_b) (omap (request_in number_type) busy_mailbox) 0 world_init.

Lemma service_serves_in_order_witness :
  exists k mb w, k <= 5 /\
    nsteps (depot_step number_type answer_nine (duo_fib node_b)) k (mkMailbox busy_mailbox true, 0, world_init) (mb, 2, w).
Proof.
  destruct served as [[st w]|] eqn:Hs; [|vm_compute in Hs; discriminate Hs].
  assert (Hst : st = 2) by (vm_compute in Hs; congruence). subst st.
  destruct (service_serves_in_order number_type answer_nine (duo_fib node_b) busy_mailbox true 0 world_init 2 w)
    as (k & mb & Hk & Hn & _).
  - unfold busy_mailbox. repeat constructor; vm_compute; discriminate.
  - exact Hs.
  - by exists k, mb, w.
Defined.

(** * A builder asked to stay in the process, at a cost *)
Definition private_rpc : RegistrationBuilder NoEndpointId NoCast RpcSet :=
  with_cost 7%N (with_realm Process (rpc listener)).

Lemma builder_asks_for_witness :
  built [CallCost 7%N; CallRealm Process; CallRpc] false CodeNoCast true private_rpc /\
  register_no_cast_rpc private_rpc duo_service duo_srv =
    mkRegistrationRequest duo_service (mkEndpointInfo Unicast Global 0%N) duo_srv.
Proof.
  assert (Hb : built [CallCost 7%N; CallRealm Process; CallRpc] false CodeNoCast true private_rpc).
  { apply (built_cost _ false CodeNoCast true), (built_realm _ false CodeNoCast true), (built_rpc _ false), built_listener. }
  split; [exact Hb|].
  destruct (builder_asks_for [CallCost 7%N; CallRealm Process; CallRpc] duo_service duo_srv false) as (_ & _ & _ & H).
  exact (H private_rpc Hb).
Defined.

(** * A directory with two listeners, one of which closes, and a remote one *)
Definition local_info : EndpointInfo := mkEndpointInfo Anycast Global 4%N.
Definition directory_script : list (DirOp * World) :=
  [ (OpRegister duo_service local_info duo_srv, world_init);
    (OpRegister duo_service local_info closed_chan, world_init);
    (OpLearn duo_service node_b (mkEndpointInfo Anycast Global 9%N), world_init);
    (OpSetCost duo_service duo_srv 2%N, world_init);
    (OpRegister duo_service (mkEndpointInfo Unicast Global 0%N) duo_cli, world_init);
    (OpSweep duo_service (fun tx => negb (env_is_closed world_init tx)), world_init) ].

Lemma route_table_refines_directory_witness :
  directory (table_ops directory_script table_new).2 !! duo_service =
    Some (Anycast, {[ Local duo_srv := (2%N, Global); Remote node_b := (9%N, Global) ]}) /\
  (table_ops directory_script table_new).1 =
    [Granted; Granted; Granted; Granted; Refused MismatchedRouteKind; Granted].
Proof.
  assert (Hok : ops_ok directory_script ∅).
  { simpl. split; [intros k ps Hl; vm_compute in Hl; discriminate Hl|].
    split; [intros k ps Hl; vm_compute in Hl; injection Hl as <- <-; reflexivity|].
    do 2 (split; [exact I|]). split; [intros k ps Hl; vm_compute in Hl; injection Hl as <- <-; reflexivity|].
    split; [intros tx; reflexivity | exact I]. }
  pose proof (route_table_refines_directory directory_script Hok) as Hr.
  split; [|reflexivity].
  change (directory (table_ops directory_script table_new).2)
    with (snd ((table_ops directory_script table_new).1, directory (table_ops directory_script table_new).2)).
  rewrite <- Hr. vm_compute. reflexivity.
Defined.

(** * Two new nodes that hear of a third, in different orders *)
Definition node_d : NodeId := mkNodeId 4%N.
Definition third (seq : N) (adjs : list Adjacency) : Lsa := mkLsa (router_key node_a) seq false (Router adjs).
Definition newborn (n : NodeId) : LsDb := (lsdb_new n world_init).1.
Definition born (n : NodeId) : Lsa := mkLsa (router_key n) 0 false (Router []).
Definition third_old : Lsa := third 1%N [].
Definition third_new : Lsa := third 2%N [duo_adj node_b].
Definition heard_c : list (Lsa * ConnectionId) := [(third_old, 1%N); (born node_d, 2%N); (third_new, 1%N)].
Definition heard_d : list (Lsa * ConnectionId) :=
  [(third_new, 1%N); (born node_c, 1%N); (third_old, 2%N); (third_new, 2%N)].

Lemma known_newborn l n lsa : known l (newborn n) lsa <-> lsa = born n \/ lsa ∈ l.*1.
Proof.
  unfold known, held. simpl. destruct (decide (lsa_key lsa = router_key n)) as [->|Hne].
  - rewrite lookup_singleton_eq. simpl. split; (intros [Hl|Hl]; [left | by right]); [by injection Hl | by subst].
  - rewrite lookup_singleton_ne by done. split; (intros [Hl|Hl]; [|by right]); [done|]. by subst.
Qed.

Lemma databases_converge_witness :
  exists d1' w1' d2' w2', handle_all heard_c (newborn node_c) world_init = Returns (d1', w1') /\
    handle_all heard_d (newborn node_d) world_init = Returns (d2', w2') /\
    held d1' (router_key node_a) = held d2' (router_key node_a).
Proof.
  assert (Hears : forall l n, (forall lsa, lsa ∈ l.*1 -> lsa_dead lsa = false /\ not_multicast lsa /\ key_origin (lsa_key lsa) <> n) ->
    hears l (newborn n)).
  { intros l n Hl. split.
    - apply lsdb_new_inv.
    - intros lsa Hin. destruct (Hl lsa Hin) as (? & ? & _). by split.
    - intros lsa Hin Ho. by destruct (Hl lsa Hin) as (_ & _ & []). }
  destruct (databases_converge heard_c heard_d (newborn node_c) world_init (newborn node_d) world_init)
    as (d1' & w1' & d2' & w2' & H1 & H2 & Hk & _).
  - apply Hears. intros lsa Hin. simpl in Hin. set_unfold in Hin. destruct Hin as [-> | [-> | [-> | []]]]; done.
  - apply Hears. intros lsa Hin. simpl in Hin. set_unfold in Hin. destruct Hin as [-> | [-> | [-> | [-> | []]]]]; done.
  - intros lsa. rewrite !known_newborn. simpl. set_solver.
  - intros lsa lsa'. rewrite !known_newborn. simpl. rewrite !elem_of_cons, !elem_of_nil.
    intros [-> | [-> | [-> | [-> | []]]]] [-> | [-> | [-> | [-> | []]]]]; done.
  - intros lsa adjs. rewrite known_newborn. simpl. rewrite !elem_of_cons, !elem_of_nil.
    intros [-> | [-> | [-> | [-> | []]]]]; done.
  - exists d1', w1', d2', w2'. split; [exact H1|]. split; [exact H2 | apply Hk].
Defined.
