(* ===== verification/FloodScenario.v ===== *)
(** The theorems about flooding applied to the two nodes of [NetworkScenario.v]: a listener
    registers at one, a packet from the other finds it; another listener goes. *)
From Stdlib Require Import Strings.String.
From S2P Require Import Prelude Types Messages World RouteTable Linkstate Spf SpfProofs LsDb.
From S2P Require Import LsDbProofs LsDbTheorems Convergence Fib FibProofs Router RouterProofs.
From S2P Require Import Handle Receivers Network Delivery Registration Flooding Reach Withdraw Concrete.
From S2P Require Import Restart Lifespan NetworkScenario.

(** * A registration floods *)

(** The routers of the two nodes, waiting. *)
Definition duo_router (v : NodeId) : Router :=
  match route_change None (mkRouter v (duo v) (fib_new v)) world_init with
  | Returns (r, _) => r
  | Panics => mkRouter v (duo v) (fib_new v)
  end.

Definition duo_listener : RegistrationRequest :=
  mkRegistrationRequest (mkEndpointId 62%N) (mkEndpointInfo Unicast Global 0%N) duo_srv.
Definition duo_lsa : Lsa := new_lsa node_b duo_listener.

Lemma duo_router_spec v :
  settled (duo_router v) /\ d_self_id (r_lsdb (duo_router v)) = v /\
  d_links (r_lsdb (duo_router v)) = duo_links v /\ d_db (r_lsdb (duo_router v)) = duo_adverts /\
  d_routes (r_lsdb (duo_router v)) = duo_routes v.
Proof.
  unfold duo_router.
  destruct (route_change_settles (mkRouter v (duo v) (fib_new v)) world_init (duo_inv v))
    as (r' & -> & Hset & Hs & Hl & Hdb & Hr).
  simpl in *. by split_and!.
Qed.

Lemma duo_held k : held (duo node_a) k =
  if decide (k = router_key node_a) then Some (rec_lsa (duo_record node_a node_b))
  else if decide (k = router_key node_b) then Some (rec_lsa (duo_record node_b node_a)) else None.
Proof.
  unfold held. simpl. unfold duo_adverts. repeat case_decide; subst.
  - by rewrite lookup_insert_eq.
  - by rewrite lookup_insert_ne, lookup_singleton_eq.
  - by rewrite lookup_insert_ne, lookup_singleton_ne.
Qed.

Lemma duo_router_keys k lsa adjs :
  held (duo node_a) k = Some lsa -> lsa_body lsa = Messages.Router adjs -> k = router_key (key_origin k).
Proof. rewrite duo_held. repeat case_decide; [by intros _ _; subst..|done]. Qed.

Lemma duo_view : router_view duo_graph (duo node_a).
Proof.
  split.
  - exact duo_router_keys.
  - intros n. rewrite <- (duo_graph_eq node_a). symmetry. apply router_nodes_held. exact duo_router_keys.
Qed.

Lemma duo_node_ok v : node_ok duo_links duo_graph v (duo_router v).
Proof.
  destruct (duo_router_spec v) as (Hset & Hs & Hl & Hdb & _). destruct duo_view as [Hk Hg].
  split; [done..|]. split; unfold held_adjacencies, held in *; by rewrite Hdb.
Qed.

Lemma duo_unheard v : unheard node_b duo_listener (duo_router v).
Proof.
  destruct (duo_router_spec v) as (_ & _ & _ & Hdb & Hr). split.
  - rewrite Hr. unfold duo_routes. by case_decide.
  - unfold held. by rewrite Hdb.
Qed.

Lemma duo_open v : open_links (duo_links v).
Proof. intros c link w ->%duo_link_one. by case_decide. Qed.

Lemma duo_meet v c link : duo_links v !! c = Some link -> exists c' back,
  duo_dest (l_tx link) = Some (l_peer_id link, c') /\ duo_links (l_peer_id link) !! c' = Some back /\
  l_peer_id back = v /\ duo_dest (l_tx back) = Some (v, c).
Proof.
  unfold duo_links at 1. repeat case_decide; [| |by rewrite lookup_empty].
  all: intros [<- <-]%lookup_singleton_Some; subst v; by do 2 eexists.
Qed.

Lemma duo_single v c link c' link' :
  duo_links v !! c = Some link -> duo_links v !! c' = Some link' -> l_peer_id link' = l_peer_id link -> link' = link.
Proof. by intros ->%duo_link_one ->%duo_link_one. Qed.

Lemma duo_costs u v c : edge duo_graph u v c -> (0 < c)%N.
Proof. by intros [-> _]%duo_edge. Qed.

Lemma duo_nodes v c link : duo_links v !! c = Some link -> l_peer_id link ∈ [node_a; node_b].
Proof. intros ->%duo_link_one. case_decide; set_solver. Qed.

Lemma duo_carried v c link : duo_links v !! c = Some link -> link_view link duo_lsa = Some duo_lsa.
Proof. intros ->%duo_link_one. by case_decide. Qed.

Definition duo_found : Packet := mkPacket (AddrEndpoint (mkEndpointId 62%N)) None node_a (PBusRider duo_call).

Lemma registration_reaches_everyone_witness :
  exists net, registers duo_dest node_b duo_listener duo_router duo_quiet net /\
  forall net', rtc (ls_step duo_dest) net net' -> ln_wire net' = [] ->
    exists sent W', net_send (fun v => r_fib (ln_routers net' v)) duo_dest node_a duo_found (mkNet duo_quiet []) (inr tt) sent /\
      rtc (net_step (fun v => r_fib (ln_routers net' v)) duo_dest) sent (mkNet W' []) /\
      delivered node_b duo_srv (CmMessage (packet_of_wire (wire_or_empty duo_found))) duo_quiet W'.
Proof.
  destruct (registration_reaches_everyone duo_dest duo_links duo_graph duo_open duo_meet duo_single duo_costs
    duo_edge_sym duo_no_ties [node_a; node_b] duo_nodes node_b duo_listener) with (R := duo_router) (W := duo_quiet)
    as (net & Hreg & _ & Hrun).
  - reflexivity.
  - done.
  - exact duo_carried.
  - reflexivity.
  - done.
  - exact duo_node_ok.
  - exact duo_unheard.
  - exists net. split; [exact Hreg|]. intros net' Hr Hwire. destruct (Hrun net' Hr) as [_ Hrest].
    destruct (Hrest Hwire node_a 5%N duo_found (wire_or_empty duo_found) duo_quiet) as (sent & W' & H1 & H2 & H3).
    + exact duo_shortest.
    + done.
    + done.
    + done.
    + vm_compute. reflexivity.
    + exists sent, W'. split; [exact H1|]. split; [exact H2 | exact H3].
Defined.

Lemma flooding_reaches_everyone_witness :
  exists net, registers duo_dest node_b duo_listener duo_router duo_quiet net /\
  Acc (fun net' net => ls_step duo_dest net net') net /\
  forall net', rtc (ls_step duo_dest) net net' -> ln_wire net' = [] ->
    holds net' node_b (lsa_key duo_lsa) = Some duo_lsa -> holds net' node_a (lsa_key duo_lsa) = Some duo_lsa.
Proof.
  destruct (registered_inv duo_dest duo_links duo_graph duo_open duo_meet duo_costs node_b duo_listener) with
    (R := duo_router) (W := duo_quiet) as (net & Hreg & I & _);
    [reflexivity | done | exact duo_carried | reflexivity | exact duo_node_ok | exact duo_unheard |].
  destruct (flooding_reaches_everyone duo_dest duo_links duo_graph duo_open duo_meet duo_costs
    (fun a => a = duo_lsa) (fun k => k = lsa_key duo_lsa)) with (nodes := [node_a; node_b]) (keys := [lsa_key duo_lsa])
    (net := net) as [Hacc Hrun].
  - by intros a ->.
  - intros a v c link ->. apply duo_carried.
  - by intros a b -> ->.
  - intros a ->. by left.
  - exact duo_nodes.
  - exact I.
  - exists net. split; [exact Hreg|]. split; [exact Hacc|]. intros net' Hr Hwire Hown.
    exact (proj2 (Hrun net' Hr) Hwire (lsa_key duo_lsa) duo_lsa node_a 5%N eq_refl Hown (proj1 duo_shortest)).
Defined.

(** * A listener that goes *)
Definition going_endpoint : EndpointId := mkEndpointId 62%N.
Definition going_record : LsaRecord := mkLsaRecord duo_lsa 0%N.
Definition going_adverts : gmap LsaKey LsaRecord := <[lsa_key duo_lsa := going_record]> duo_adverts.
Definition going_entry (v : NodeId) : LsRouteEntry :=
  duo_entry (if decide (v = node_b) then Local closed_chan else Remote node_b) Unicast.
Definition going_db (v : NodeId) : LsDb :=
  mkLsDb going_adverts v (duo_links v) ∅ ∅ ∅ ∅ {[ going_endpoint := going_entry v ]} None 0%N (from_secs 60) 0%N.
Definition going_router (v : NodeId) : Router :=
  match route_change None (mkRouter v (going_db v) (fib_new v)) world_init with
  | Returns (r, _) => r
  | Panics => mkRouter v (going_db v) (fib_new v)
  end.

Lemma going_inv v : lsdb_inv (going_db v).
Proof.
  pose proof (duo_inv v) as [Hdb Hl _ _]. split; simpl.
  - unfold going_adverts. apply map_Forall_insert_2; [by split|].
    intros key r Hr. destruct (Hdb key r Hr) as [H1 H2]. split; [done|]. intros Ho adjs Hb.
    by apply (H2 Ho adjs Hb).
  - exact Hl.
  - split; apply map_Forall_singleton; [apply duo_entry_wf | done].
  - apply map_Forall_empty.
Qed.

Lemma going_router_spec v :
  settled (going_router v) /\ d_self_id (r_lsdb (going_router v)) = v /\
  d_links (r_lsdb (going_router v)) = duo_links v /\ d_db (r_lsdb (going_router v)) = going_adverts /\
  d_routes (r_lsdb (going_router v)) = {[ going_endpoint := going_entry v ]}.
Proof.
  unfold going_router.
  destruct (route_change_settles (mkRouter v (going_db v) (fib_new v)) world_init (going_inv v))
    as (r' & -> & Hset & Hs & Hl & Hdb & Hr).
  simpl in *. by split_and!.
Qed.

Lemma going_held v key : held (r_lsdb (going_router v)) key =
  if decide (key = lsa_key duo_lsa) then Some duo_lsa else held (duo node_a) key.
Proof.
  destruct (going_router_spec v) as (_ & _ & _ & Hdb & _). unfold held. rewrite Hdb. unfold going_adverts.
  case_decide as Hk; [subst key; by rewrite lookup_insert_eq | by rewrite lookup_insert_ne].
Qed.

Lemma going_node_ok v : node_ok duo_links duo_graph v (going_router v).
Proof.
  destruct (going_router_spec v) as (Hset & Hs & Hl & _). destruct duo_view as [Hk Hg].
  split; [done..|]. split.
  - intros key lsa adjs. rewrite going_held. case_decide; [by intros [= <-] | apply Hk].
  - intros n. rewrite <- Hg. unfold held_adjacencies. rewrite going_held, decide_False; [done|]. intros Heq. injection Heq as -> Hu. vm_compute in Hu. discriminate.
Qed.

Lemma going_about : about_to_go duo_links duo_graph node_b going_endpoint closed_chan 0%N Global Unicast going_record
  going_router duo_quiet.
Proof.
  assert (Hheld : forall v, held (r_lsdb (going_router v)) (lsa_key duo_lsa) = Some duo_lsa).
  { intros v. rewrite going_held. by rewrite decide_True. }
  split.
  - exact going_node_ok.
  - destruct (going_router_spec node_b) as (_ & _ & _ & _ & ->). by rewrite lookup_singleton_eq.
  - done.
  - destruct (going_router_spec node_b) as (_ & _ & _ & -> & _). unfold going_adverts. apply lookup_insert_eq.
  - intros v a Ha. change (rec_lsa going_record) with duo_lsa in Ha. rewrite Hheld in Ha. by injection Ha as <-.
  - intros v c link _. change (rec_lsa going_record) with duo_lsa. rewrite Hheld. by eexists.
  - intros v _ Hv. change (rec_lsa going_record) with duo_lsa in Hv. by rewrite Hheld in Hv.
Qed.

Lemma going_carried v c link :
  duo_links v !! c = Some link -> link_view link (obituary_of going_record) = Some (obituary_of going_record).
Proof. intros ->%duo_link_one. by case_decide. Qed.

Lemma withdrawal_reaches_everyone_witness :
  holds (mkLsNet going_router duo_quiet []) node_a (lsa_key duo_lsa) = Some duo_lsa /\
  exists net, withdraws duo_dest node_b going_endpoint going_router duo_quiet net /\
  forall net', rtc (ls_step duo_dest) net net' -> ln_wire net' = [] ->
    holds net' node_a (lsa_key duo_lsa) = None /\
    no_route_to (d_routes (r_lsdb (ln_routers net' node_a))) going_endpoint node_b.
Proof.
  split; [unfold holds; simpl; rewrite going_held; reflexivity|].
  destruct (withdrawal_reaches_everyone duo_dest duo_links duo_graph duo_open duo_meet duo_costs [node_a; node_b] duo_nodes
    node_b going_endpoint closed_chan 0%N Global Unicast going_record) with (R := going_router) (W := duo_quiet)
    as (net & Hw & _ & Hrun).
  - reflexivity.
  - done.
  - reflexivity.
  - done.
  - done.
  - exact going_carried.
  - exact going_about.
  - exists net. split; [exact Hw|]. intros net' Hr Hwire.
    destruct (proj2 (Hrun net' Hr) Hwire node_a 5%N duo_shortest eq_refl) as [H1 H2]. split; [exact H1|].
    apply H2. done.
Defined.

(** * A listener that comes and goes *)
Definition fading_listener : RegistrationRequest :=
  mkRegistrationRequest (mkEndpointId 62%N) (mkEndpointInfo Unicast Global 0%N) fading_chan.
Definition much_later (_ : NodeId) : World := mkWorld [] 1000.

Lemma duo_connected v c link :
  duo_links v !! c = Some link -> exists d, shortest duo_graph v node_b d /\ (d < cost_max)%N.
Proof.
  unfold duo_links. repeat case_decide; [| |by rewrite lookup_empty]; intros _; subst v.
  - exists 5%N. split; [exact duo_shortest | done].
  - exists 0%N. split; [|done]. split; [constructor|]. intros d _. apply N.le_0_l.
Qed.

Lemma listener_comes_and_goes_witness :
  exists net, registers duo_dest node_b fading_listener duo_router duo_quiet net /\
  forall net1, rtc (ls_step duo_dest) net net1 -> ln_wire net1 = [] ->
    holds net1 node_a (lsa_key duo_lsa) = Some duo_lsa /\
    exists net2, withdraws duo_dest node_b going_endpoint (ln_routers net1) much_later net2 /\
    forall net3, rtc (ls_step duo_dest) net2 net3 -> ln_wire net3 = [] ->
      fib_send (r_fib (ln_routers net3 node_a)) duo_found world_init =
        Returns (inl (ErrNoRoute (Some (PBusRider duo_call))), world_init).
Proof.
  destruct (listener_comes_and_goes duo_dest duo_links duo_graph duo_open duo_meet duo_costs [node_a; node_b] duo_nodes
    node_b fading_listener) with (R := duo_router) (W := duo_quiet) as (net & Hreg & _ & Hrun).
  - reflexivity.
  - done.
  - exact duo_carried.
  - reflexivity.
  - exact duo_connected.
  - exact duo_node_ok.
  - exact duo_unheard.
  - exists net. split; [exact Hreg|]. intros net1 Hr Hwire. destruct (proj2 (Hrun net1 Hr) Hwire) as [Hknown Hlater].
    split; [exact (proj1 (Hknown node_a 5%N duo_shortest eq_refl))|].
    destruct (Hlater much_later eq_refl) as (net2 & Hw & _ & Hrest). exists net2. split; [exact Hw|].
    intros net3 Hr3 Hwire3. destruct (proj2 (Hrest net3 Hr3) Hwire3 node_a 5%N duo_shortest eq_refl) as (_ & _ & Hsend).
    exact (Hsend duo_found world_init eq_refl).
Defined.

(** * A listener that goes and comes back *)
Definition again_listener : RegistrationRequest :=
  mkRegistrationRequest going_endpoint (mkEndpointInfo Unicast Global 4%N) duo_srv.
Definition again_lsa : Lsa := new_lsa node_b again_listener.
Definition going_dead : Lsa := obituary_of going_record.

Lemma going_holding : holding node_b going_record again_listener node_a (Some duo_lsa) (going_router node_a).
Proof.
  destruct (going_router_spec node_a) as (Hset & Hs & Hl & _ & _). split; [done| |done| |done].
  - rewrite Hl. apply duo_open.
  - change (rec_lsa going_record) with duo_lsa. rewrite going_held. by rewrite decide_True.
Qed.

(** The obituary arrives, the new advertisement, and the obituary once more. *)
Lemma restarted_sequence_loses_witness :
  (exists r1 w1 r2 w2, settle 3 (HandleBrokerMsg (RmDeadLink going_endpoint)) (going_router node_b) world_init = Returns (Some Listen, r1, w1) /\
    settle 3 (HandleBrokerMsg (RmRegisterEndpoint again_listener)) r1 w1 = Returns (Some Listen, r2, w2) /\
    held (r_lsdb r2) (lsa_key duo_lsa) = Some again_lsa) /\
  exists r' w', hears_in_turn [(1%N, going_dead); (1%N, again_lsa); (1%N, going_dead)] (going_router node_a) world_init = Some (r', w') /\
    held (r_lsdb r') (lsa_key duo_lsa) = None.
Proof.
  destruct (restarted_sequence_loses node_b going_record again_listener) as (Hown & Hothers & _); [done..|].
  split.
  - destruct (Hown (going_router node_b) world_init closed_chan 0%N Global Unicast)
      as (r1 & w1 & r2 & w2 & gone & back & told & H1 & H2 & _ & _ & _ & H3 & _).
    + apply going_router_spec.
    + apply going_router_spec.
    + destruct (going_router_spec node_b) as (_ & _ & -> & _). apply duo_open.
    + destruct (going_router_spec node_b) as (_ & _ & _ & _ & ->). by rewrite lookup_singleton_eq.
    + done.
    + destruct (going_router_spec node_b) as (_ & _ & _ & -> & _). unfold going_adverts. apply lookup_insert_eq.
    + exists r1, w1, r2, w2. split; [exact H1|]. split; [exact H2 | exact H3].
  - destruct (Hothers node_a (going_router node_a) world_init [(1%N, going_dead); (1%N, again_lsa); (1%N, going_dead)])
      as (r' & w' & Hr & _ & Hgone & _).
    + done.
    + exact going_holding.
    + constructor; [by left|]. constructor; [by right|]. constructor; [by left|]. constructor.
    + exists r', w'. split; [exact Hr|]. exact (bl_held _ _ _ _ _ _ (Hgone eq_refl)).
Defined.
