(* ===== verification/JoinScenario.v ===== *)
(** The theorems about networks that come together applied to two routers that have just started: a
    listener registers at one, the two meet, and a packet from the other finds the listener. *)
From Stdlib Require Import Strings.String.
From S2P Require Import Prelude Types Messages World RouteTable Linkstate Spf SpfProofs LsDb.
From S2P Require Import LsDbProofs LsDbTheorems Convergence Fib FibProofs Router RouterProofs Peer.
From S2P Require Import Handle Receivers Network Delivery Registration Flooding Reach NewPeer Bridge Join Joining Networks Inside Enter Formed.
From S2P Require Import Concrete.

(** Channels that take what they are given, a clock that ticks. *)
#[local] Instance open_env : Env := {|
  env_now := fun w => from_millis (N.of_nat (w_reads w));
  env_try_send := fun _ _ => SendOk;
  env_is_closed := fun _ _ => false;
  env_iter_map := fun K V _ _ _ m => map_to_list m;
  env_iter_set := fun K _ _ _ s => elements s;
|}.

#[local] Instance open_env_laws : EnvLaws.
Proof. split; [done..|]. intros w w' _ Hr. unfold env_now, open_env, from_millis. lia. Defined.

(** * The two routers *)
Definition pair_node (s : bool) : NodeId := if s then node_a else node_b.
Definition fresh_router (v : NodeId) : Router := (router_new v world_init).1.
Definition no_links (_ : NodeId) : gmap ConnectionId Link := ∅.
Definition quiet (_ : NodeId) : World := world_init.
Definition lone_graph (v : NodeId) : gmap NodeId (list Adjacency) := {[v := []]}.
Definition lone_base (v : NodeId) : gmap LsaKey Lsa := {[router_key v := lone_lsa v]}.

Definition pair_dest (tx : ChanId) : option (NodeId * ConnectionId) :=
  match tx with 11%N => Some (node_b, 1%N) | 12%N => Some (node_a, 1%N) | _ => None end.

Definition pair_meeting : Meeting :=
  mkMeeting pair_node (fun _ => 1%N) (fun s => if s then 11%N else 12%N) (fun _ => 5%N) (fun _ => all_realms).

Definition service : RegistrationRequest :=
  mkRegistrationRequest (mkEndpointId 62%N) (mkEndpointInfo Unicast Global 0%N) 21%N.
Definition service_lsa : Lsa := new_lsa node_b service.
Definition service_key : LsaKey := lsa_key service_lsa.

Definition pair_base (s : bool) : gmap LsaKey Lsa :=
  if s then lone_base node_a else grown_base (lone_base node_b) node_b service.

Lemma fresh_formed v : formed pair_dest [v] no_links (lone_graph v) (lone_base v) fresh_router.
Proof.
  apply (formed_same _ [v] (fun _ => ∅) no_links _ _ (fun _ => (router_new v world_init).1)).
  - by intros u ->%list_elem_of_singleton.
  - apply formed_started.
Qed.

Lemma service_enters : can_enter [node_b] no_links (lone_base node_b) node_b service.
Proof.
  split; [by left|done| |done|done]. unfold lone_base. by intros k [a [<- _]%lookup_singleton_Some].
Qed.

(** The two sides, the listener being known at its node. *)
Definition sides (R : NodeId -> Router) : Prop :=
  forall s, formed pair_dest [pair_node s] no_links (lone_graph (pair_node s)) (pair_base s) R.

Lemma both_sides : exists R, sides R.
Proof.
  destruct (formed_network pair_dest _ _ _ _ _ (fresh_formed node_b)) as [N O].
  destruct (network_registers pair_dest _ _ _ _ _ quiet _ _ N O service_enters) as (net & Hreg & Hacc & Hrun).
  destruct (runs_to_rest _ (fun net => ln_wire net = []) net Hacc) as (net' & Hr & Hw); [intros y Hy; by apply (Hrun y Hy)|].
  exists (fun v => if decide (v = node_b) then ln_routers net' v else fresh_router v). intros [].
  - apply (formed_same _ _ no_links no_links _ _ fresh_router); [|apply fresh_formed].
    by intros u ->%list_elem_of_singleton.
  - apply (formed_same _ _ no_links no_links _ _ (ln_routers net')); [by intros u ->%list_elem_of_singleton|].
    by apply (formed_registered _ _ _ _ _ fresh_router quiet node_b service net net'); [apply fresh_formed|apply service_enters|..].
Qed.

(** What is advertised in the end. *)
Lemma pair_advertised k a : joined_base pair_meeting pair_base !! k = Some a ->
  a = grown_lsa (bridge pair_meeting true) (lone_lsa node_a) [] \/
  a = grown_lsa (bridge pair_meeting false) (lone_lsa node_b) [] \/ a = service_lsa.
Proof.
  intros Hk. apply elem_of_map_to_list in Hk. vm_compute in Hk.
  repeat (apply elem_of_cons in Hk as [[= _ ->]|Hk]; [vm_compute; auto|]). by apply elem_of_nil in Hk.
Qed.

Lemma service_only : only_key (joined_base pair_meeting pair_base) service_key.
Proof.
  intros k [a Ha] Hk. apply elem_of_map_to_list in Ha. vm_compute in Ha.
  repeat (apply elem_of_cons in Ha as [[= -> _]|Ha]; [first [reflexivity | by vm_compute in Hk]|]). by apply elem_of_nil in Ha.
Qed.

Lemma pair_links s : joined_links pair_meeting no_links (pair_node s) = {[1%N := bridge pair_meeting s]}.
Proof. by destruct s. Qed.

Lemma pair_joins R : sides R ->
  can_join pair_dest pair_meeting (fun s => [pair_node s]) (fun s => lone_graph (pair_node s)) pair_base no_links R.
Proof.
  intros HR. assert (Hone : forall s v c link, v ∈ [pair_node s] -> joined_links pair_meeting no_links v !! c = Some link ->
    v = pair_node s /\ c = 1%N /\ link = bridge pair_meeting s).
  { intros s v c link ->%list_elem_of_singleton. rewrite pair_links. by intros [<- <-]%lookup_singleton_Some. }
  split.
  - by intros v ->%list_elem_of_singleton ?%list_elem_of_singleton.
  - intros s. by apply (formed_network pair_dest), HR.
  - intros s. by left.
  - done.
  - done.
  - intros s a Ha. destruct s; vm_compute in Ha; injection Ha as <-; vm_compute; reflexivity.
  - done.
  - intros s v c link Hv Hl. destruct (Hone s v c link Hv Hl) as (-> & -> & ->). exists 1%N, (bridge pair_meeting (negb s)).
    by destruct s.
  - intros s v c link k a Hv Hl Ha. destruct (Hone s v c link Hv Hl) as (-> & -> & ->).
    apply pair_advertised in Ha as [->|[->| ->]]; destruct s; vm_compute; reflexivity.
Qed.

(** * The theorems, applied *)
Lemma networks_join_witness : exists R net,
  meets pair_dest pair_meeting R quiet net /\ Acc (fun net' net => ls_step pair_dest net net') net /\
  forall net', rtc (ls_step pair_dest) net net' -> ln_wire net' = [] ->
    holds net' node_a service_key = Some service_lsa /\
    exists route, d_routes (r_lsdb (ln_routers net' node_a)) !! mkEndpointId 62%N =
      Some (mkLsRouteEntry [route] Unicast) /\ r_via route = Remote node_b.
Proof.
  destruct both_sides as [R HR]. exists R.
  destruct (networks_join pair_dest pair_meeting _ _ _ _ _ quiet (pair_joins R HR)) as (net & Hmeets & Hacc & Hrun).
  exists net. split; [exact Hmeets|]. split; [exact Hacc|]. intros net' Hr Hw.
  pose proof (proj2 (Hrun net' Hr) Hw) as N. assert (Ha : node_a ∈ [node_a] ++ [node_b]) by by left.
  assert (Hb : joined_base pair_meeting pair_base !! service_key = Some service_lsa) by (vm_compute; reflexivity).
  split; [rewrite <- Hb; exact (nw_held _ _ _ _ _ N node_a service_key Ha)|].
  pose proof (rt_unicast _ _ _ (nw_routed _ _ _ _ _ N node_a Ha) service_key service_lsa _ Hb (conj eq_refl eq_refl)
    service_only) as Hu.
  eexists. split; [exact Hu | reflexivity].
Defined.

Definition greeting : Rider := (0%N, 7%N).
Definition letter : Packet := mkPacket (AddrEndpoint (mkEndpointId 62%N)) None node_a (PBusRider greeting).
Definition letter_wire : WirePacket :=
  match wire_of_packet letter with Returns w => w | Panics => mkWirePacket (AddrEndpoint (mkEndpointId 62%N)) None node_a [] end.

Lemma letter_path : shortest (joined_graph pair_meeting (fun s => lone_graph (pair_node s))) node_a node_b 5.
Proof.
  set (g := joined_graph _ _). assert (Hedge : forall u v c, edge g u v c -> c = 5%N).
  { intros u v c (adjs & a & Hn & Ha & _ & <-). apply elem_of_map_to_list in Hn. vm_compute in Hn.
    repeat (apply elem_of_cons in Hn as [[= _ ->]|Hn]; [by apply list_elem_of_singleton in Ha as ->|]). by apply elem_of_nil in Hn. }
  split.
  - apply path_edge. exists [new_adjacency (bridge pair_meeting true)], (new_adjacency (bridge pair_meeting true)).
    split; [vm_compute; reflexivity|]. split; [by left | done].
  - intros c Hp. destruct (path_first _ _ _ _ Hp) as [[? _]|(x & w & r & He & _ & ->)]; [done|]. rewrite (Hedge _ _ _ He). lia.
Qed.

Lemma formed_networks_deliver_witness : exists R,
  formed pair_dest ([node_a] ++ [node_b]) (joined_links pair_meeting no_links)
    (joined_graph pair_meeting (fun s => lone_graph (pair_node s))) (joined_base pair_meeting pair_base) R /\
  exists tx sent W', let F v := r_fib (R v) in
    net_send F pair_dest node_a letter (mkNet quiet []) (inr tt) sent /\ rtc (net_step F pair_dest) sent (mkNet W' []) /\
    delivered node_b tx (CmMessage (packet_of_wire letter_wire)) quiet W'.
Proof.
  destruct both_sides as [R HR]. pose proof (pair_joins R HR) as J.
  destruct (meeting_at_rest pair_dest pair_meeting _ _ _ _ _ quiet J) as (net & net' & Hmeets & Hrun & Hw).
  assert (Hf := formed_joined pair_dest pair_meeting _ _ _ _ _ quiet net net' HR J eq_refl Hmeets Hrun Hw).
  exists (ln_routers net'). split; [exact Hf|].
  destruct (formed_networks_deliver pair_dest _ _ _ _ _ service_key service_lsa (rr_endpoint_info service) node_a 5%N letter letter_wire quiet Hf)
    as (tx & _ & Hopen).
  - vm_compute; reflexivity.
  - split; reflexivity.
  - exact service_only.
  - by left.
  - exact letter_path.
  - done.
  - reflexivity.
  - reflexivity.
  - vm_compute; reflexivity.
  - destruct Hopen as (sent & W' & H); [done|]. exists tx, sent, W'. exact H.
Defined.
