(* ===== verification/NearScenario.v ===== *)
(** The delivery of anycast and broadcast packets applied to the two nodes of [NetworkScenario.v]:
    both listen. The anycast packet from the first goes to the second, which is cheaper by more than
    the way there; the broadcast goes to everyone. *)
From Stdlib Require Import Strings.String.
From S2P Require Import Prelude Types Messages World RouteTable Linkstate Spf SpfProofs LsDb.
From S2P Require Import LsDbProofs Fib FibProofs Network Delivery Nearest Broadcast Concrete.
From S2P Require Import NetworkScenario FloodScenario.

Definition near_endpoint : EndpointId := mkEndpointId 63%N.
Definition near_here : ChanId := 25%N.
Definition near_local (v : NodeId) : list LsRoute :=
  if decide (v = node_b) then [mkLsRoute (Local duo_srv) 3%N Global Anycast]
  else if decide (v = node_a) then [mkLsRoute (Local near_here) 30%N Global Anycast] else [].
Definition near_remote (v : NodeId) : list LsRoute :=
  (if decide (v = node_a) then [] else [mkLsRoute (Remote node_a) 30%N Global Anycast]) ++
  (if decide (v = node_b) then [] else [mkLsRoute (Remote node_b) 3%N Global Anycast]).
Definition near_entry (v : NodeId) : LsRouteEntry := mkLsRouteEntry (near_local v ++ near_remote v) Anycast.

Definition near_db (v : NodeId) : LsDb :=
  mkLsDb duo_adverts v (duo_links v) ∅ ∅ ∅ ∅ {[ near_endpoint := near_entry v ]} None 0%N (from_secs 60) 0%N.
Definition near_built (v : NodeId) : LsDb * ForwardingTable :=
  match build_fib (near_db v) world_init with Returns r => r | Panics => (near_db v, fib_new v) end.
Definition near_fib (v : NodeId) : ForwardingTable := (near_built v).2.

(** Who listens, at which cost. *)
Definition near_listener (n : NodeId) (tx : ChanId) (c : Cost) : Prop :=
  (n = node_b /\ tx = duo_srv /\ c = 3%N) \/ (n = node_a /\ tx = near_here /\ c = 30%N).

Lemma near_entry_wf v : entry_wf (near_entry v).
Proof.
  unfold near_entry, near_local, near_remote.
  split; simpl; [| |done|]; repeat case_decide; subst; simpl; repeat constructor; try done; set_solver.
Qed.

Lemma near_inv v : lsdb_inv (near_db v).
Proof.
  pose proof (duo_inv v) as [Hdb Hl _ _]. split; simpl; [exact Hdb | exact Hl | | apply map_Forall_empty].
  split; apply map_Forall_singleton; [apply near_entry_wf | done].
Qed.

Lemma near_same_view v : in_force duo_graph v (near_db v) (near_fib v).
Proof.
  split; [apply near_inv|]. split; [done|]. exists world_init, (near_built v).1. split; [exact (duo_graph_eq v)|].
  unfold near_fib, near_built. destruct (build_fib_ok (near_db v) world_init (near_inv v)) as (d' & fib & -> & _). done.
Qed.

Lemma near_truthful v route : route ∈ re_routes (near_entry v) -> truthful near_listener v route.
Proof.
  unfold near_entry, near_local, near_remote. simpl. repeat case_decide; simpl; set_unfold;
    naive_solver (unfold truthful, near_listener; simpl; eauto 10).
Qed.

Lemma near_winner v : exists route, route ∈ re_routes (near_entry v) /\ r_cost route = 3%N /\
  r_via route = if decide (v = node_b) then Local duo_srv else Remote node_b.
Proof.
  unfold near_entry, near_local, near_remote. simpl. destruct (decide (v = node_b)) as [->|Hv].
  - exists (mkLsRoute (Local duo_srv) 3%N Global Anycast). split; [by left | done].
  - exists (mkLsRoute (Remote node_b) 3%N Global Anycast). split; [|done].
    apply elem_of_app. right. apply elem_of_app. right. by left.
Qed.

Definition near_packet : Packet := mkPacket (AddrEndpoint near_endpoint) None node_a (PBusRider duo_call).

Lemma anycast_reaches_nearest_witness :
  exists net W', net_send near_fib duo_dest node_a near_packet (mkNet duo_quiet []) (inr tt) net /\
    rtc (net_step near_fib duo_dest) net (mkNet W' []) /\
    delivered node_b duo_srv (CmMessage (packet_of_wire (wire_or_empty near_packet))) duo_quiet W'.
Proof.
  destruct (anycast_reaches_nearest duo_dest duo_graph near_db near_fib)
    with (e := near_endpoint) (listener := near_listener) (a := node_a) (n := node_b) (tx := duo_srv) (c := 3%N) (D := 5%N)
      (packet := near_packet) (wire := wire_or_empty near_packet) (W := duo_quiet)
    as (got & net & W' & Hs & Hr & Hd & Hgot).
  - exact near_same_view.
  - exact duo_costs.
  - exact duo_edge_sym.
  - exact duo_no_ties.
  - exact duo_good_links.
  - split; [exact duo_shortest | done].
  - intros n' tx' c' p [(-> & -> & ->)|(-> & -> & ->)] _; [by left | right; lia].
  - intros v. exists (near_entry v). split; [apply lookup_singleton_eq|]. split; [done|].
    split; [exact (near_truthful v) | exact (near_winner v)].
  - done.
  - done.
  - done.
  - vm_compute. reflexivity.
  - exists net, W'. split; [exact Hs|]. split; [exact Hr|]. rewrite Hgot in Hd. exact Hd.
Defined.

(** * A broadcast *)
Definition crowd_here (v : NodeId) : list ChanId :=
  if decide (v = node_a) then [near_here] else if decide (v = node_b) then [duo_srv; duo_cli] else [].
Definition crowd_route (via : LsForwardTo) : LsRoute := mkLsRoute via 0%N Global Broadcast.
Definition crowd_remote (v : NodeId) : list LsRoute :=
  (if decide (v = node_a) then [] else [crowd_route (Remote node_a)]) ++
  (if decide (v = node_b) then [] else [crowd_route (Remote node_b)]).
Definition crowd_entry (v : NodeId) : LsRouteEntry :=
  mkLsRouteEntry (map (fun tx => crowd_route (Local tx)) (crowd_here v) ++ crowd_remote v) Broadcast.
Definition crowd_db (v : NodeId) : LsDb :=
  mkLsDb duo_adverts v (duo_links v) ∅ ∅ ∅ ∅ {[ near_endpoint := crowd_entry v ]} None 0%N (from_secs 60) 0%N.
Definition crowd_built (v : NodeId) : LsDb * ForwardingTable :=
  match build_fib (crowd_db v) world_init with Returns r => r | Panics => (crowd_db v, fib_new v) end.
Definition crowd_fib (v : NodeId) : ForwardingTable := (crowd_built v).2.

Lemma crowd_entry_wf v : entry_wf (crowd_entry v).
Proof.
  unfold crowd_entry, crowd_here, crowd_remote.
  split; simpl; [| |done|]; repeat case_decide; subst; simpl; repeat constructor; try done; set_solver.
Qed.

Lemma crowd_inv v : lsdb_inv (crowd_db v).
Proof.
  pose proof (duo_inv v) as [Hdb Hl _ _]. split; simpl; [exact Hdb | exact Hl | | apply map_Forall_empty].
  split; apply map_Forall_singleton; [apply crowd_entry_wf | done].
Qed.

Lemma crowd_same_view v : in_force duo_graph v (crowd_db v) (crowd_fib v).
Proof.
  split; [apply crowd_inv|]. split; [done|]. exists world_init, (crowd_built v).1. split; [exact (duo_graph_eq v)|].
  unfold crowd_fib, crowd_built. destruct (build_fib_ok (crowd_db v) world_init (crowd_inv v)) as (d' & fib & -> & _). done.
Qed.

Lemma crowd_entries v : exists en, d_routes (crowd_db v) !! near_endpoint = Some en /\ re_kind en = Broadcast /\
  local_chans (re_routes en) = crowd_here v /\
  forall n, (exists r, r ∈ re_routes en /\ r_via r = Remote n) <-> n <> v /\ crowd_here n <> [].
Proof.
  exists (crowd_entry v). split; [apply lookup_singleton_eq|]. split; [done|].
  unfold crowd_entry, crowd_here, crowd_remote, local_chans. simpl. split.
  - by repeat case_decide.
  - intros n. repeat case_decide; subst; simpl; set_unfold; naive_solver.
Qed.

Lemma crowd_distinct v : NoDup (crowd_here v).
Proof. unfold crowd_here. repeat case_decide; repeat constructor; set_solver. Qed.

Lemma crowd_open v : Forall chan_open (crowd_here v).
Proof. unfold crowd_here. repeat case_decide; repeat constructor; done. Qed.

Lemma broadcast_reaches_everyone_witness :
  exists net, net_send crowd_fib duo_dest node_a near_packet (mkNet duo_quiet []) (inr tt) net /\
  forall net', rtc (net_step crowd_fib duo_dest) net net' -> net_wire net' = [] ->
    inbox near_here (net_world net' node_a) = [CmMessage near_packet] /\
    inbox duo_cli (net_world net' node_b) = [CmMessage (packet_of_wire (wire_or_empty near_packet))] /\
    inbox full_chan (net_world net' node_b) = [].
Proof.
  assert (Hb : within duo_graph node_a node_b) by (exists 5%N; split; [exact duo_shortest | done]).
  assert (Ha : within duo_graph node_a node_a) by (exists 0%N; split; [apply shortest_self | done]).
  destruct (broadcast_reaches_everyone duo_dest duo_graph crowd_db crowd_fib)
    with (e := near_endpoint) (here := crowd_here) (a := node_a) (packet := near_packet)
      (wire := wire_or_empty near_packet) (W := duo_quiet) as (net & Hs & _ & Hrest).
  - exact crowd_same_view.
  - exact duo_costs.
  - exact duo_edge_sym.
  - exact duo_no_ties.
  - exact duo_good_links.
  - exact crowd_entries.
  - exact crowd_distinct.
  - exact crowd_open.
  - done.
  - done.
  - vm_compute. reflexivity.
  - exists node_b. split; [done | exact Hb].
  - exists net. split; [exact Hs|]. intros net' Hr Hwire. specialize (Hrest net' Hr Hwire). split_and!.
    + destruct (Hrest node_a near_here) as [H1 _]. rewrite H1; [done | by left | exact Ha].
    + destruct (Hrest node_b duo_cli) as [H1 _]. rewrite H1; [done | right; by left | exact Hb].
    + destruct (Hrest node_b full_chan) as [_ H1]. rewrite H1; [done|]. left. unfold crowd_here. simpl. set_solver.
Defined.
