(* ===== verification/HostScenario.v ===== *)
(** The theorems about configuration, the listener, suspension and dummy links on concrete inputs. *)
From Stdlib Require Import Strings.String Init.Byte.
From S2P Require Import Prelude Types Messages World Peer WsPeer WsManager DummyPeer.
From S2P Require Import Lifecycle Config ConfigProofs Concrete PeerScenarios.

(** * A bus with two remotes *)
Definition two_remotes : AnyBusBuilder :=
  ws_remote (mkRemoteOptions "wss://b"%string) (ws_remote (mkRemoteOptions "wss://a"%string) (enable_ipc true builder_new)).

Lemma bus_runs_what_was_built_witness :
  exists bus peers, anybus_run (anybus_init node_a two_remotes) world_init =
    Returns (bus, [WatchSignals; RouterTask; WsManagerTask None peers; SuspendTasks; IpcManagerTask]) /\
    peers ≡ₚ [mkPeerConfig (mkWsUrl "wss://a"%string) "ws_remote_0"%string;
              mkPeerConfig (mkWsUrl "wss://b"%string) "ws_remote_1"%string].
Proof.
  destruct (bus_runs_what_was_built node_a two_remotes world_init) as (bus & peers & Hp & _ & Hr & _).
  exists bus, peers. split; [exact Hr | exact Hp].
Defined.

(** * Three connections, the second of which is no websocket *)
Definition visitors : list Incoming := [Incoming_ 1 true true; Incoming_ 2 true false; Incoming_ 3 true true].

Lemma listener_serves_witness :
  run_ws_listener true visitors = ([1%N; 3%N], StillListening) /\
  run_ws_listener false visitors = ([1%N], ListenerPanicked).
Proof.
  assert (Hl : Forall (fun i => is_accept_error i = false) visitors) by by repeat constructor.
  split.
  - exact (proj1 (listener_serves visitors true Hl) eq_refl).
  - refine (proj2 (proj2 (listener_serves visitors false Hl) eq_refl) [Incoming_ 1 true true] 2%N true [Incoming_ 3 true true] eq_refl _).
    repeat constructor. by eexists.
Defined.

(** * A laptop asleep for a minute *)
Lemma stall_is_noticed_witness :
  (lc_asked (LcStall 61000) (lc_run [(0%N, LcStall 1000)] (lifecycle_start 0)).2).1.1 = Some Resuming.
Proof. exact (stall_is_noticed [] 0%N 0%N 1000%N eq_refl 61000%N eq_refl). Defined.

(** * A dummy link shut down by its switch *)
Definition dummy_config : DummyConfig := mkDummyConfig node_a 10%N all_realms.
Definition dummy_input : DummyInput := mkDummyInput 0%N true 5%N 30%N.

Lemma dummy_ran : exists acts, dummy_run dummy_config DsEnded acts /\
  peer_outs acts = [SendBroker (RmRegisterPeer node_b 5%N 30%N 10%N all_realms); SendBroker (RmUnRegisterPeer 5%N)].
Proof.
  pose proof (dummy_started dummy_config dummy_input) as H0.
  pose proof (dummy_stepped dummy_config _ _ (DwStream (Some (Some (DmHello node_b)))) dummy_input _ _ H0 eq_refl) as H1.
  pose proof (dummy_stepped dummy_config _ _ (DwKill (Some StopShutdown)) dummy_input _ _ H1 eq_refl) as H2.
  eexists. split; [exact H2 | reflexivity].
Qed.

Lemma dummy_link_balances_witness :
  exists acts, dummy_run dummy_config DsEnded acts /\
    peer_outs acts = [SendBroker (RmRegisterPeer node_b 5%N 30%N 10%N all_realms); SendBroker (RmUnRegisterPeer 5%N)].
Proof.
  destruct dummy_ran as (acts & Hr & Ho). exists acts. split; [exact Hr|].
  destruct (proj1 (dummy_link_balances dummy_config DsEnded _ Hr) eq_refl) as [Hnil|(id & c & tx & mid & Ho' & _)].
  - rewrite Hnil in Ho. discriminate Ho.
  - exact Ho.
Defined.
