(* ===== verification/ExampleScenario.v ===== *)
(** The theorems about the programs under [examples/] on concrete sessions. *)
From Stdlib Require Import Init.Byte Strings.String.
From S2P Require Import Prelude Types Messages World Fib Handle Receivers WsManager Config.
From S2P Require Import Chat ChatProofs Tui Relay Concrete NetworkScenario.

(** * A chat session at one of the two nodes of [NetworkScenario.v] *)

(** A text area that holds the lines typed into it. *)
#[export] Instance test_widgets : Widgets := {|
  TextArea := list Text; ta_default := [[]]; ta_lines := fun ls => ls; ta_input := fun _ ls => ls;
  ScrollViewState := N; sv_default := 0%N; scroll_up := N.pred; scroll_down := N.succ; scroll_to_bottom := fun s => s;
  control := 2%N;
|}.

Definition test_chat_rider (m : ChatMessage) : Rider := (0%N, 7%N).
Definition test_dm_rider (m : DirectMessage) : Rider := (0%N, 8%N).
Definition status_rider : Rider := (0%N, 9%N).
Definition status_endpoint : EndpointId := mkEndpointId 5%N.
(** Her endpoint is the service at [node_b]. *)
Definition bea : User := mkUser (lit "bea") 60%N.
Definition abe : App := set_nickname (lit "abe") (app_new 61%N).
Definition abe_heard : App := (process_anybusmsg (Chat bea (lit "hello")) abe).2.
Definition typed (s : string) : TextArea := [lit s].

Lemma direct_message_reaches_sender_witness :
  exists u, process_input test_chat_rider test_dm_rider (duo_fib node_a) (set_input (typed "/dm bea hi there") abe_heard)
    world_init = Returns u /\ u.1.1.1 = Some (AddMessage (lit "* (DM to bea): hi there")) /\
    w_log u.2 = [EvNode 11%N (NmWirePacket (mkWirePacket (AddrEndpoint (mkEndpointId 60%N)) None node_a [x08])) SendOk].
Proof.
  eexists. split; [|split].
  - rewrite (direct_message_reaches_sender test_chat_rider test_dm_rider (duo_fib node_a) abe abe_heard bea (lit "hello")
      (lit "hi there") world_init eq_refl).
    + vm_compute. reflexivity.
    + done.
    + vm_compute. set_solver.
    + done.
    + vm_compute. reflexivity.
    + vm_compute. reflexivity.
  - vm_compute. reflexivity.
  - vm_compute. reflexivity.
Defined.

(** An unknown command and a direct message to nobody. *)
Lemma commands_stay_private_witness :
  (process_input test_chat_rider test_dm_rider (duo_fib node_a) (set_input (typed "/dm nobody hi") abe_heard) world_init =
     Returns ((Some (AddMessage (lit "* No such user: nobody")), set_input ta_default abe_heard, []), world_init)) /\
  forall u, process_input test_chat_rider test_dm_rider (duo_fib node_a) (set_input (typed "/shout hi") abe_heard) world_init =
    Returns u -> u.2 = world_init.
Proof.
  split; [vm_compute; reflexivity|]. intros u Hu.
  destruct (commands_stay_private test_chat_rider test_dm_rider (duo_fib node_a) (set_input (typed "/shout hi") abe_heard)
    world_init u) as [H|(nick & text & user & res & Heq & _)].
  - vm_compute. reflexivity.
  - exact Hu.
  - exact H.
  - vm_compute in Heq. discriminate.
Defined.

Definition session : list (bool * Wake) :=
  [(true, WakeChat (Chat bea (lit "hello"))); (true, WakeEvent EvTick);
   (true, WakeEvent (EvKey (mkKeyEvent Esc 0%N Press))); (true, WakeEvent EvTick)].

Lemma chat_shuts_down_once_witness :
  exists e a told w, chat_run test_chat_rider test_dm_rider (duo_fib node_a) status_endpoint status_rider session abe []
    world_init = Some (Returns (e, a, told, w)) /\ e = Break /\ told = [RmShutdown].
Proof.
  destruct (chat_run test_chat_rider test_dm_rider (duo_fib node_a) status_endpoint status_rider session abe [] world_init)
    as [[[[[e a] told] w]|]|] eqn:Hr; [|vm_compute in Hr; discriminate..].
  destruct (chat_shuts_down_once test_chat_rider test_dm_rider (duo_fib node_a) status_endpoint status_rider session abe
    world_init e a told w eq_refl) as [_ H].
  destruct (H Hr) as [Ht _]. exists e, a, told, w. split; [reflexivity|].
  assert (He : e = Break /\ a_should_quit a = true) by (vm_compute in Hr; injection Hr as <- <- <- <-; done).
  destruct He as [-> Hq]. split; [reflexivity|]. by rewrite Hq in Ht.
Defined.

(** * A terminal that cannot hide its cursor *)
Definition no_hiding (c : TermCmd) : bool := match c with CursorHide => false | _ => true end.

Lemma terminal_restored_witness :
  tui_enter no_hiding tui_new term_plain = (false, tui_new, mkTerm true true false false false) /\
  tui_drop no_hiding true tui_new (mkTerm true true false false false) = Returns term_plain.
Proof.
  split; [reflexivity|].
  destruct (terminal_restored no_hiding tui_new false tui_new (mkTerm true true false false false) eq_refl) as (_ & _ & H).
  - by repeat constructor.
  - exact H.
Defined.

(** * A relay told to stop *)
Definition status_packet (n : N) : Packet := mkPacket (AddrEndpoint status_endpoint) None node_a (PBusRider (0%N, n)).
Definition status_ty : @RustTy test_codec := 0%N.
Definition relay_mail : list ClientMessage := [CmMessage (status_packet 1%N); CmMessage (status_packet 2%N); CmShutdown].

Lemma relay_ends_when_told_witness :
  exists printed mb, relay_loop 4 status_ty (mkMailbox relay_mail false) = Some (printed, RelayDone, mb) /\
    printed = [(0%N, 1%N); (0%N, 2%N)].
Proof.
  destruct (relay_ends_when_told status_ty relay_mail false) as (printed & e & mb & Hl & Hok & _).
  destruct Hok as [Hp He].
  - exists [(0%N, 1%N); (0%N, 2%N)]. repeat constructor.
  - simpl in He. subst e. exists printed, mb. split; [exact Hl|].
    inversion Hp as [|p1 v1 ps vs H1 Hp']; subst. inversion Hp' as [|p2 v2 ps2 vs2 H2 Hp'']; subst.
    inversion Hp''; subst. vm_compute in H1, H2. by simplify_eq.
Defined.
